(* ===== verification/_CoqProject ===== *)
-Q . S2P
Prelude.v
JsValue.v
Json.v
JsText.v
UriUtil.v
WellFormed.v
Buffers.v
JsDate.v
ActionsCore.v
SesAction.v
LruCache.v
SequentialExecutor.v
AwsError.v
RequestMachine.v
Http.v
RequestListeners.v
RequestFrame.v
RequestLiveness.v
RequestRetry.v
SignerV4.v
SigningKeys.v
SignedRequest.v
SignersLegacy.v
ParamValidator.v
HostPrefix.v
QuerySerializer.v
ApiShapes.v
EmailRequest.v
JmesLexer.v
JmesParser.v
JmesInterp.v
JmesFunctions.v
JmesPath.v
ResourceWaiter.v
WaiterRuns.v
Paging.v
Sax.v
SaxEvents.v
Xml2js.v
XmlParser.v
XmlBuilder.v
SaxDocument.v
XmlTree.v
XmlRoundtrip.v
QueryResponse.v
JsonProtocol.v
RestProtocol.v
RestUri.v
Crc32.v
EventStream.v
EventChunker.v
SharedIni.v
Credentials.v
CredentialChain.v
AwsConfig.v
ClientTests.v
ConcurrencyRuns.v
