(* ===== verification/Prelude.v ===== *)
(** * A verification of the JavaScript of Dolt

    The repository is the version-controlled SQL database Dolt.  Its JavaScript
    is an action that mails release reports through Amazon SES
    (src/.github/actions/ses-email-action: index.js and the bundle dist/index.js
    that runs it, with the AWS SDK and @actions/core inside) and three tests of
    the server with Node clients (src/integration-tests/mysql-client-tests/node).
    These files model that code by executable functions translated from the
    source and prove what makes it correct; line numbers without a file name
    are those of dist/index.js.

    ** How the parts interact

    The action reads its inputs and reports through @actions/core, and calls the
    SDK once.  The SDK builds a request (validation of the parameters,
    serialization by the query protocol, prefix of the host), drives it through
    a state machine whose states emit events, runs the listeners of each event
    in sequence, signs it, sends it, decides about retries, and reads the
    response, an XML document, back into data or an error.  Waiters and paging
    repeat requests, guided by jmespath expressions.  Helpers of the SDK that
    this path or the configuration uses are modelled beside it.

    ** Data

    - Prelude: exceptions ([result]), strings of UTF-16 units, digits, sorting, a
      state monad with exceptions, the tactics and the hint database [js].
    - JsValue: values ([jsval]), numbers as decimals, ordered objects.
    - Json: JSON.stringify and JSON.parse (the parser has the length of the text
      as fuel; parse_value_fuel shows that more never changes the answer).
    - JsText: UTF-8, base64, encodeURIComponent, decodeURIComponent, escape.
    - WellFormed, Buffers: text without lone surrogates; buffers and their
      decoding.

    ** Components

    - ActionsCore: command.js, core.js, file-command.js, oidc-utils.js, summary.js
      of @actions/core (4-578, 645-978), on a record of the process.
    - SesAction: the script index.js; the AWS client is the argument [send].
    - LruCache: LRUCache as a heap of linked nodes (27613-27723) and
      EndpointCache (27536-27609).
    - SequentialExecutor: registration and emission of events (21228-21442).
    - AwsError: util.error and the classification of errors.
    - RequestMachine: AcceptorStateMachine and the states of AWS.Request.
    - Http: Endpoint, HttpRequest, HttpResponse.
    - RequestListeners, RequestFrame, RequestLiveness, RequestRetry: the listeners
      of EventListeners.Core and CorePost (15264-15712) with what they leave
      alone, the end of every request and the retry decisions.  The surroundings
      (credentials, signer, network) are arguments with the laws [FairWorld].
    - UriUtil, JsDate: URI escaping, query strings, ARNs; util.date.
    - SignerV4, SigningKeys, SignedRequest: signature version 4 (25689-25905), its
      key cache (25911-26016), and their composition.  Hashes are the interface
      [Crypto].
    - SignersLegacy: the S3, V2, V3 and V3Https signers (25336-25686).
    - ParamValidator: the validation of parameters (17519-17786) against shapes.
      Shapes are rows of a table, so they may refer to each other.
    - HostPrefix: populateHostPrefix (17915-18006).
    - QuerySerializer: QueryParamSerializer (18809-18885), the wire formats of
      scalars and buildRequest of the query protocol (18099-18118).
    - ApiShapes: Api, Operation, Collection and Shape.create (16676-17300), from
      the JSON description of a service to the table of its shapes.
    - EmailRequest: the description of SendTemplatedEmail (36772) put through
      ApiShapes, ParamValidator and QuerySerializer.
    - JmesLexer, JmesParser, JmesInterp, JmesFunctions, JmesPath: jmespath
      (27727-29397), and the meaning of the paths the SDK uses.
    - ResourceWaiter, WaiterRuns: AWS.ResourceWaiter (20058-20266) as listeners on
      the request machine, and its runs.
    - Paging: paginators, page tokens and the iterations over pages and items
      (16922-16942, 19697-19793, 20391-20471).
    - Sax, SaxEvents: the strict XML parser sax (29401-30979), one function for
      each state, as a step on one character; its events.
    - Xml2js: the object xml2js builds from the events (31661-32071).
    - XmlParser, XmlBuilder: AWS.XML.Parser and AWS.XML.Builder (27138-27535).
    - SaxDocument, XmlTree, XmlRoundtrip: what sax reports, what xml2js builds and
      what the parser reads of a document the builder prints.
    - QueryResponse: extractData and extractError of the query protocol
      (18120-18193), from the bytes of a response to data or an error.
    - JsonProtocol: JsonBuilder, JsonParser and the JSON protocol (16294-16433,
      18009-18089).
    - RestProtocol, RestUri: the REST protocols (18207-18582), and how a server
      reads the URIs they make.
    - Crc32: util.crypto.crc32 (26426-26493).
    - EventStream, EventChunker: the frames of event streams with their checksums,
      headers and events, and their recovery from chunks (14515-15190).
    - SharedIni: util.ini.parse, IniLoader, getProfilesFromSharedConfig and the
      choice of the region.
    - Credentials, CredentialChain: AWS.Credentials with the refresh shared by its
      callers, the providers that read the environment, files, a process or a
      container service, their chain as a machine, the credentials a
      configuration starts with and getCredentials (9926-9977, 10400-10587,
      11256-12489, 17471-17485).
    - AwsConfig: AWS.Config (9888-9895, 9994-10125), in which the action sets its
      region.
    - ClientTests, ConcurrencyRuns: index.js, concurrency.js and knex.js of the
      client tests, and the runs of the concurrent clients; the server and the
      client libraries are interfaces (type classes), with the laws a verdict
      relies on stated apart.

    ** What the theorems show

    - Nothing a workflow command carries can break out of its line, commands and
      environment entries read back, and a token is masked before it is returned
      (C1 to C4).
    - The action sends one request with the given data or fails before any;
      the status of the step is known exactly, and a rejected request does not
      fail it (C5 to C7).  The e-mail described
      is the e-mail on the wire (C8); the answer of the service, and its errors,
      reach the caller, however their bytes arrive (C9, C10).
    - Which credentials a configuration finds, and that they stay (C11); the chain
      of providers answers its callers once, with the first credentials found,
      but for those a callback adds (C12).
    - The linked-list cache refines the list of entries by recency (C13).
    - Listeners run once, in order, until an error (C14); whatever they do,
      signing precedes sending and completion comes last (C15); every request
      completes within a bound, where what builds it fails for good or
      maxRetries is positive (C16); the deviation found when it does not (C17);
      exactly which errors are retried, told from status, code and message (C18);
      waiting ends, and succeeds only by a decision of its own run (C19).
    - The client tests accept a correct server under every interleaving (C20), an
      exit status of 0 tells which calls were made with which answers (C21), and
      the verdicts of the other two tests are exact (C22, C23).
    - A signed request verifies (C24), its canonical string determines what is
      signed (C25), the key cache is transparent (C26).
    - The validator is the typing relation [conforms]; what it accepts is
      serialized without loss, each scalar under its path with its text (C27,
      C28).  The JSON protocol reads what it writes
      (C29); the URI of a REST request carries its parameters (C30).
    - The document the XML builder prints is read as the data it was built from
      (C31); the tags sax reports nest, and it does not see how a document is cut
      (C32, C33); what the parser loses (C34).
    - A jmespath path means what it says and every expression compiles or is
      rejected (C35, C36); events arrive as they were sent and corruption on
      one side of the checksum's border is noticed (C37, C38); shared files read
      back and merge (C39); iterating over items visits them all, or stops when
      told to (C40).

    Beside these the files prove the smaller facts about the same code that they
    state as theorems: the deviations of jmespath, paging, sax and the older
    signers, the escapes of RFC 3986 and query strings, dates, host prefixes, the
    checksum, the expiry of cached endpoints, the retry decision, the one request
    too many of a waiter, the refresh of credentials for many callers, and what an
    update of the configuration changes.

    ** Bounds and fuel

    Recursions that are not structural take fuel, and the theorems state how
    much is enough: the nesting of the value for the validator and the
    serializers, the depth of the document for the XML parser, 12 * (maxRetries +
    maxRedirects) + 13 transitions for a request, the length of the text for
    JSON, decodeURIComponent and jmespath.  Running out is an
    exception of the model and is excluded where a result is claimed.  Numbers
    are exact decimals: binary rounding is not modelled.  Case mapping is that
    of ASCII.  Function identity, not closures, represents listeners.

    ** Not modelled

    Sockets, timers and streams of Node, which the models see as sequences of
    events or chunks; the credential providers that are requests to STS, Cognito or
    the metadata service; payloads of the REST protocols that are streams;
    presigned URLs and the customisations of services other than SES, which the
    action does not reach;
    the loose mode, name spaces and stream of sax, the processors of xml2js and
    its builder, which nothing of the bundle uses; properties every object
    inherits, except where the code reads them; the bundle's module loader and
    its data; Dolt's Go code, seen only as the server of the client tests. *)

From stdpp Require Import base gmap strings list sorting.
From Stdlib Require Import ZArith Lia Ascii.
From Stdlib Require Strings.String.

(** ** Result of fallible code

    A JavaScript [throw] is the [Throw] value of the result type; [E] is
    whatever the component records about the exception. *)

Inductive result (E A : Type) : Type :=
| Ok (a : A)
| Throw (e : E).
Arguments Ok {E A} a.
Arguments Throw {E A} e.

Definition rbind {E A B} (m : result E A) (k : A → result E B) : result E B :=
  match m with Ok a => k a | Throw e => Throw e end.

Definition is_ok {E A} (m : result E A) : bool :=
  match m with Ok _ => true | Throw _ => false end.

Declare Scope js_scope.
Delimit Scope js_scope with js.
Notation "'let*' x ':=' m 'in' k" := (rbind m (λ x, k))
  (at level 10, x name, m at level 100, k at level 200) : js_scope.
Open Scope js_scope.

Lemma rbind_ok {E A B} (m : result E A) (k : A → result E B) b :
  rbind m k = Ok b ↔ ∃ a, m = Ok a ∧ k a = Ok b.
Proof. destruct m; naive_solver. Qed.

Lemma rbind_assoc {E A B C} (m : result E A) (k : A → result E B) (h : B → result E C) :
  rbind (rbind m k) h = rbind m (λ a, rbind (k a) h).
Proof. by destruct m. Qed.

(** ** JavaScript strings: sequences of UTF-16 code units *)

Abbreviation jsstr := (list Z).

(** A string literal of the source. *)
Definition js (s : string) : jsstr :=
  (λ a, Z.of_N (N_of_ascii a)) <$> Stdlib.Strings.String.list_ascii_of_string s.
Arguments js : simpl never.

Definition str_eqb (s t : jsstr) : bool := bool_decide (s = t).

Lemma str_eqb_eq s t : str_eqb s t = true ↔ s = t.
Proof. apply bool_decide_eq_true. Qed.
Lemma str_eqb_neq s t : str_eqb s t = false ↔ s ≠ t.
Proof. apply bool_decide_eq_false. Qed.
Lemma str_eqb_spec s t : reflect (s = t) (str_eqb s t).
Proof. apply bool_decide_reflect. Qed.
Lemma str_eqb_refl s : str_eqb s s = true.
Proof. by apply str_eqb_eq. Qed.

(** [s.replace(/c/g, r)] for a single code unit [c]. *)
Definition replace_all (c : Z) (r s : jsstr) : jsstr :=
  flat_map (λ x, if Z.eqb x c then r else [x]) s.

(** [s.split(c)] for a single code unit [c]: always at least one piece. *)
Fixpoint split_on (c : Z) (s : jsstr) : list jsstr :=
  match s with
  | [] => [[]]
  | x :: s' =>
    if Z.eqb x c then [] :: split_on c s'
    else match split_on c s' with
         | [] => [[x]]
         | p :: ps => (x :: p) :: ps
         end
  end.

(** [l.join(sep)]. *)
Fixpoint join (sep : jsstr) (l : list jsstr) : jsstr :=
  match l with
  | [] => []
  | [s] => s
  | s :: l' => s ++ sep ++ join sep l'
  end.

(** [s.startsWith(p)], [s.indexOf(p)] and [s.includes(p)]. *)
Fixpoint starts_with (p s : jsstr) : bool :=
  match p, s with
  | [], _ => true
  | x :: p', y :: s' => Z.eqb x y && starts_with p' s'
  | _ :: _, [] => false
  end.

Fixpoint index_of_from (i : Z) (p s : jsstr) : Z :=
  if starts_with p s then i
  else match s with [] => (-1)%Z | _ :: s' => index_of_from (i + 1) p s' end.
Definition index_of (p s : jsstr) : Z := index_of_from 0 p s.

Fixpoint includes (p s : jsstr) : bool :=
  starts_with p s || match s with [] => false | _ :: s' => includes p s' end.

(** The code units [String.prototype.trim] removes: WhiteSpace and
    LineTerminator of ECMA-262. *)
Definition is_js_space (c : Z) : bool :=
  (Z.leb 9 c && Z.leb c 13) || Z.eqb c 32 || Z.eqb c 160 || Z.eqb c 5760 ||
  (Z.leb 8192 c && Z.leb c 8202) || Z.eqb c 8232 || Z.eqb c 8233 ||
  Z.eqb c 8239 || Z.eqb c 8287 || Z.eqb c 12288 || Z.eqb c 65279.

Fixpoint drop_while (P : Z → bool) (s : jsstr) : jsstr :=
  match s with
  | [] => []
  | x :: s' => if P x then drop_while P s' else s
  end.
Definition trim_start (s : jsstr) : jsstr := drop_while is_js_space s.
Definition trim_end (s : jsstr) : jsstr := reverse (drop_while is_js_space (reverse s)).
Definition trim (s : jsstr) : jsstr := trim_end (trim_start s).

(** Case mapping on the ASCII letters; the code units above 127 keep their
    value, so these agree with [toUpperCase]/[toLowerCase] on ASCII strings. *)
Definition to_upper_unit (c : Z) : Z := if Z.leb 97 c && Z.leb c 122 then c - 32 else c.
Definition to_lower_unit (c : Z) : Z := if Z.leb 65 c && Z.leb c 90 then c + 32 else c.
Definition to_upper : jsstr → jsstr := fmap to_upper_unit.
Definition to_lower : jsstr → jsstr := fmap to_lower_unit.

(** The default order of [Array.prototype.sort]: by UTF-16 code units. *)
Fixpoint str_leb (s t : jsstr) : bool :=
  match s, t with
  | [], _ => true
  | _ :: _, [] => false
  | x :: s', y :: t' => Z.ltb x y || (Z.eqb x y && str_leb s' t')
  end.
Definition str_le (s t : jsstr) : Prop := str_leb s t = true.
#[global] Instance str_le_dec : RelDecision str_le := λ s t, bool_eq_dec _ _.
Definition sort_strings : list jsstr → list jsstr := merge_sort str_le.

(** ** Decimal and hexadecimal digits *)

Definition digit_unit (d : Z) : Z := if Z.ltb d 10 then 48 + d else 87 + d.

(** [radix_digits b fuel n acc]: the digits of [n] in base [b], most
    significant first, in front of [acc]; [fuel] bounds their number. *)
Fixpoint radix_digits (b : Z) (fuel : nat) (n : Z) (acc : jsstr) : jsstr :=
  match fuel with
  | O => acc
  | S fuel' =>
    let acc' := digit_unit (n mod b) :: acc in
    if Z.ltb n b then acc' else radix_digits b fuel' (n / b) acc'
  end.

(** [n.toString(b)] for an integer [n >= 0]: base [b >= 2] needs at most
    [log2 n + 1] digits. *)
Definition radix_str (b n : Z) : jsstr := radix_digits b (S (Z.to_nat (Z.log2 n))) n [].

Definition Z_to_str (n : Z) : jsstr :=
  if Z.ltb n 0 then js "-" ++ radix_str 10 (- n) else radix_str 10 n.

Definition is_digit (c : Z) : bool := Z.leb 48 c && Z.leb c 57.

(** The value of a digit sequence in base 10. *)
Fixpoint dec_value (acc : Z) (s : jsstr) : Z :=
  match s with
  | [] => acc
  | c :: s' => dec_value (acc * 10 + (c - 48)) s'
  end.

(** ** Tactics and hints *)

Create HintDb js.

(** Decide a closed proposition by evaluation. *)
Ltac js_decide := apply (bool_decide_unpack _); vm_compute; exact I.

Ltac js_cases :=
  repeat match goal with
  | |- context [Z.eqb ?x ?y] => destruct (Z.eqb_spec x y); subst
  | H : context [Z.eqb ?x ?y] |- _ => destruct (Z.eqb_spec x y); subst
  end; simpl in *; try done.

(** Split every [match]/[if] of a hypothesis [H : _ = Ok _] and close the
    branches that throw. *)
Ltac ok_cases H :=
  repeat (first [ discriminate H
                | progress simplify_eq H
                | case_match ]);
  try done.

(** ** Lemmas on strings *)

Lemma replace_all_app c r s t :
  replace_all c r (s ++ t) = replace_all c r s ++ replace_all c r t.
Proof. apply flat_map_app. Qed.

Lemma replace_all_cons c r x s :
  replace_all c r (x :: s) = (if Z.eqb x c then r else [x]) ++ replace_all c r s.
Proof. done. Qed.

Lemma replace_all_absent c r s : c ∉ s → replace_all c r s = s.
Proof.
  induction s as [|x s IH]; [done|]. intros [? ?]%not_elem_of_cons.
  rewrite replace_all_cons. js_cases. by rewrite IH.
Qed.

(** Which units are left after a replacement. *)
Lemma elem_of_replace_all d c r s :
  d ∈ replace_all c r s → (d ∈ s ∧ d ≠ c) ∨ d ∈ r.
Proof.
  induction s as [|x s IH]; [intros H; by inversion H|].
  rewrite replace_all_cons, elem_of_app, elem_of_cons. js_cases; [tauto|].
  rewrite list_elem_of_singleton. naive_solver.
Qed.

Lemma replace_all_removes c r s : c ∉ r → c ∉ replace_all c r s.
Proof. intros Hr [[_ ?]|?]%elem_of_replace_all; done. Qed.

Lemma replace_all_keeps_absent d c r s : d ∉ s → d ∉ r → d ∉ replace_all c r s.
Proof. intros ? ? [[? _]|?]%elem_of_replace_all; done. Qed.

Lemma split_on_ne c s : split_on c s ≠ [].
Proof. destruct s as [|x s]; simpl; [done|]. repeat case_match; done. Qed.

Lemma join_cons sep s l : l ≠ [] → join sep (s :: l) = s ++ sep ++ join sep l.
Proof. by destruct l. Qed.

Lemma join_split c s : join [c] (split_on c s) = s.
Proof.
  induction s as [|x s IH]; [done|]. simpl.
  pose proof (split_on_ne c s) as Hne.
  destruct (Z.eqb_spec x c) as [->|].
  - rewrite join_cons by done. simpl. by rewrite IH.
  - destruct (split_on c s) as [|p ps]; [done|].
    destruct ps; simpl in *; by f_equal.
Qed.

Lemma split_on_absent c s : c ∉ s → split_on c s = [s].
Proof.
  induction s as [|x s IH]; [done|]. intros [? ?]%not_elem_of_cons. simpl.
  js_cases. by rewrite IH.
Qed.

Lemma split_on_app c s t :
  c ∉ s → split_on c (s ++ c :: t) = s :: split_on c t.
Proof.
  induction s as [|x s IH]; simpl; intros Hs.
  - by rewrite Z.eqb_refl.
  - apply not_elem_of_cons in Hs as [? ?]. js_cases. by rewrite IH.
Qed.

Lemma cut_inj c (a b s t : jsstr) : c ∉ a → c ∉ b → a ++ c :: s = b ++ c :: t → a = b ∧ s = t.
Proof.
  intros Ha Hb H. apply (f_equal (split_on c)) in H. rewrite !split_on_app in H by done.
  injection H as -> H. split; [done|]. by rewrite <- (join_split c s), H, join_split.
Qed.

Lemma elem_of_join (d : Z) (sep : jsstr) (l : list jsstr) : d ∈ join sep l → d ∈ sep ∨ ∃ s, s ∈ l ∧ d ∈ s.
Proof.
  induction l as [|s l IH]; [by intros ?%not_elem_of_nil|]. destruct l as [|t l].
  - intros H. right. exists s. split; [by left|done].
  - rewrite join_cons by done. rewrite !elem_of_app.
    intros [H|[H|H]]; [right; exists s; split; [by left|done]|by left|].
    destruct (IH H) as [?|(u & ? & ?)]; [by left|]. right. exists u. split; [by right|done].
Qed.

Lemma split_on_middle c s t : split_on c (s ++ c :: t) = split_on c s ++ split_on c t.
Proof.
  induction s as [|x s IH]; simpl; [by rewrite Z.eqb_refl|].
  destruct (Z.eqb_spec x c); [by rewrite IH|]. rewrite IH.
  pose proof (split_on_ne c s). by destruct (split_on c s).
Qed.

Lemma split_join c l :
  l ≠ [] → Forall (λ s, c ∉ s) l → split_on c (join [c] l) = l.
Proof.
  induction l as [|s l IH]; [done|]. intros _ [Hs Hl]%Forall_cons.
  destruct l as [|t l]; [by apply split_on_absent|].
  rewrite join_cons by done. change ([c] ++ ?x) with (c :: x).
  rewrite split_on_app by done. f_equal. by apply IH.
Qed.

Lemma split_on_pieces c s : Forall (λ p, c ∉ p) (split_on c s).
Proof.
  induction s as [|x s IH]; simpl; [by repeat constructor; set_solver|].
  destruct (Z.eqb_spec x c) as [->|].
  - constructor; [set_solver|done].
  - destruct (split_on c s) as [|p ps]; [by repeat constructor; set_solver|].
    apply Forall_cons in IH as [? ?]. constructor; [|done]. set_solver.
Qed.

Lemma starts_with_prefix p s : starts_with p s = true ↔ p `prefix_of` s.
Proof.
  revert s. induction p as [|x p IH]; intros s.
  - split; [|done]. intros _. apply prefix_nil.
  - destruct s as [|y s]; simpl.
    + split; [done|]. intros [k Hk]; done.
    + rewrite andb_true_iff, Z.eqb_eq, IH. split.
      * intros [-> ?]. by apply prefix_cons.
      * intros H. split; [by apply prefix_cons_inv_1 in H|by apply prefix_cons_inv_2 in H].
Qed.

Lemma starts_with_app p s : starts_with p (p ++ s) = true.
Proof. apply starts_with_prefix. by exists s. Qed.

Lemma includes_infix p s : includes p s = true ↔ ∃ a b, s = a ++ p ++ b.
Proof.
  induction s as [|x s IH]; cbn [includes].
  - rewrite orb_false_r, starts_with_prefix. split.
    + intros [k Hk]. by exists [], k.
    + intros (a & b & H). symmetry in H. apply app_nil in H as [_ H]. rewrite <- H. by eexists.
  - rewrite orb_true_iff, starts_with_prefix, IH. split.
    + intros [[k Hk]|(a & b & ->)]; [by exists [], k|by exists (x :: a), b].
    + intros ([|y a] & b & H); simpl in H.
      * left. by exists b.
      * right. simplify_eq. by exists a, b.
Qed.

Lemma Forall_filter_keep {A} (P Q : A → Prop) `{!∀ x, Decision (Q x)} l :
  Forall P l → Forall P (base.filter Q l).
Proof. rewrite !Forall_forall. intros HP x [? ?]%list_elem_of_filter. auto. Qed.

(** *** trim *)

Lemma drop_while_head P s x t : drop_while P s = x :: t → P x = false.
Proof.
  induction s as [|y s IH]; simpl; [done|]. destruct (P y) eqn:E; [done|].
  intros [= -> ->]. done.
Qed.

Lemma drop_while_id P s : (∀ x t, s = x :: t → P x = false) → drop_while P s = s.
Proof. destruct s as [|x s]; [done|]. intros H. simpl. by rewrite (H x s). Qed.

Lemma drop_while_all P s : Forall (λ c, P c = true) s → drop_while P s = [].
Proof. induction 1 as [|x s Hx _ IH]; simpl; [done|]. by rewrite Hx. Qed.

Lemma drop_while_suffix P s : drop_while P s `suffix_of` s.
Proof.
  induction s as [|x s IH]; simpl; [done|].
  destruct (P x); [by apply suffix_cons_r|done].
Qed.

Lemma trim_end_prefix s : trim_end s `prefix_of` s.
Proof.
  unfold trim_end. apply prefix_suffix_reverse. rewrite reverse_involutive.
  apply drop_while_suffix.
Qed.

(** A string with no space at either end: what [trim] returns. *)
Definition trimmed (s : jsstr) : Prop :=
  (∀ x t, s = x :: t → is_js_space x = false) ∧
  (∀ x t, s = t ++ [x] → is_js_space x = false).

Lemma trim_id s : trimmed s → trim s = s.
Proof.
  intros [H1 H2]. unfold trim, trim_start. rewrite drop_while_id by done.
  unfold trim_end. rewrite drop_while_id, reverse_involutive; [done|].
  intros x t Hs. apply (H2 x (reverse t)).
  by rewrite <- (reverse_involutive s), Hs, reverse_cons.
Qed.

Lemma trim_trimmed s : trimmed (trim s).
Proof.
  split.
  - intros x t Ht. unfold trim in Ht.
    destruct (trim_end_prefix (trim_start s)) as [k Hk]. rewrite Ht in Hk.
    by eapply drop_while_head.
  - intros x t Ht. unfold trim, trim_end in Ht.
    apply (f_equal reverse) in Ht.
    rewrite reverse_involutive, reverse_app in Ht. simpl in Ht.
    by eapply drop_while_head.
Qed.

Lemma trim_idempotent s : trim (trim s) = trim s.
Proof. apply trim_id, trim_trimmed. Qed.

(** [trim] removes spaces only: what is left is a middle piece of the string. *)
Lemma trim_middle s : ∃ a b,
  s = a ++ trim s ++ b ∧
  Forall (λ c, is_js_space c = true) a ∧ Forall (λ c, is_js_space c = true) b.
Proof.
  assert (Hdrop : ∀ u, ∃ a, u = a ++ drop_while is_js_space u ∧
            Forall (λ c, is_js_space c = true) a).
  { induction u as [|x u (a & Ha & Hf)]; [by exists []|]. simpl.
    destruct (is_js_space x) eqn:E; [|by exists []].
    exists (x :: a). split; [simpl; by f_equal|by constructor]. }
  destruct (Hdrop s) as (a & Ha & Hfa).
  destruct (Hdrop (reverse (trim_start s))) as (b & Hb & Hfb).
  exists a, (reverse b). split; [|split; [done|by apply Forall_reverse]].
  rewrite Ha at 1. f_equal. unfold trim, trim_end.
  rewrite <- (reverse_involutive (drop_while is_js_space s)).
  fold (trim_start s). rewrite Hb at 1. by rewrite reverse_app.
Qed.

(** *** Digits *)

Lemma digit_unit_dec d : (0 ≤ d < 10 → digit_unit d = 48 + d)%Z.
Proof. unfold digit_unit. intros. destruct (Z.ltb_spec d 10); lia. Qed.

Lemma dec_value_app acc s t : dec_value acc (s ++ t) = dec_value (dec_value acc s) t.
Proof. revert acc. induction s; simpl; auto. Qed.

Lemma radix_digits_app b fuel n acc :
  radix_digits b fuel n acc = radix_digits b fuel n [] ++ acc.
Proof.
  revert n acc. induction fuel as [|fuel IH]; intros n acc; [done|]. simpl.
  destruct (Z.ltb n b); [done|]. rewrite IH, (IH _ [_]), <- app_assoc. done.
Qed.

Lemma radix_digits_value fuel n :
  (0 ≤ n < 2 ^ Z.of_nat fuel)%Z → (0 < fuel)%nat →
  dec_value 0 (radix_digits 10 fuel n []) = n ∧
  Forall (λ c, is_digit c = true) (radix_digits 10 fuel n []).
Proof.
  revert n. induction fuel as [|fuel IH]; intros n Hn Hf; [lia|].
  assert (Hd : (0 ≤ n mod 10 < 10)%Z) by (apply Z.mod_pos_bound; lia).
  assert (Hdig : is_digit (digit_unit (n mod 10)) = true).
  { rewrite digit_unit_dec by done. unfold is_digit. lia. }
  cbn [radix_digits]. destruct (Z.ltb_spec n 10).
  - split; [|by repeat constructor]. simpl. rewrite digit_unit_dec by done.
    rewrite Z.mod_small in * by lia. lia.
  - assert (Hfuel : (0 < fuel)%nat).
    { destruct fuel; [|lia]. simpl in Hn. lia. }
    assert (Hq : (0 ≤ n / 10 < 2 ^ Z.of_nat fuel)%Z).
    { rewrite Nat2Z.inj_succ, Z.pow_succ_r in Hn by lia.
      split; [by apply Z.div_pos; lia|]. apply Z.div_lt_upper_bound; lia. }
    destruct (IH (n / 10)%Z Hq Hfuel) as [IHv IHd].
    rewrite radix_digits_app, dec_value_app, IHv. split.
    + simpl. rewrite digit_unit_dec by done. pose proof (Z.div_mod n 10). lia.
    + apply Forall_app. split; [done|by repeat constructor].
Qed.

Lemma log2_fuel n : (0 ≤ n → 0 ≤ n < 2 ^ Z.of_nat (S (Z.to_nat (Z.log2 n))))%Z.
Proof.
  intros Hn. split; [done|]. rewrite Nat2Z.inj_succ, Z2Nat.id by apply Z.log2_nonneg.
  destruct (decide (n = 0)%Z) as [->|]; [done|]. apply Z.log2_spec. lia.
Qed.

(** The decimal digits of an integer denote it. *)
Lemma radix_str_value n : (0 ≤ n)%Z → dec_value 0 (radix_str 10 n) = n.
Proof. intros Hn. apply radix_digits_value; [by apply log2_fuel|lia]. Qed.

Lemma radix_str_digits n :
  (0 ≤ n)%Z → Forall (λ c, is_digit c = true) (radix_str 10 n).
Proof. intros Hn. apply radix_digits_value; [by apply log2_fuel|lia]. Qed.

Lemma radix_str_ne b n : radix_str b n ≠ [].
Proof.
  unfold radix_str. cbn [radix_digits]. case_match; [done|].
  rewrite radix_digits_app. by destruct (radix_digits b _ _ []).
Qed.

(** *** Sorting *)

#[global] Instance str_le_total : Total str_le.
Proof.
  intros s. unfold str_le. induction s as [|x s IH]; intros [|y t]; simpl; try tauto.
  destruct (IH t), (Z.ltb_spec x y), (Z.ltb_spec y x), (Z.eqb_spec x y), (Z.eqb_spec y x);
    simpl; try tauto; try lia.
Qed.

#[global] Instance str_le_trans : Transitive str_le.
Proof.
  intros s. unfold str_le. induction s as [|x s IH]; intros [|y t] [|z u]; simpl; try done.
  rewrite !orb_true_iff, !andb_true_iff, !Z.ltb_lt, !Z.eqb_eq.
  intros [?|[-> ?]] [?|[-> ?]]; [left; lia..|]. right. split; [done|]. by eapply IH.
Qed.

#[global] Instance str_le_antisymm : AntiSymm (=) str_le.
Proof.
  intros s. unfold str_le. induction s as [|x s IH]; intros [|y t]; simpl; try done.
  rewrite !orb_true_iff, !andb_true_iff, !Z.ltb_lt, !Z.eqb_eq.
  intros [?|[-> ?]] [?|[? ?]]; try lia. f_equal. by apply IH.
Qed.

Lemma sort_strings_perm l : sort_strings l ≡ₚ l.
Proof. apply merge_sort_Permutation. Qed.

Lemma sort_strings_sorted l : StronglySorted str_le (sort_strings l).
Proof. apply (StronglySorted_merge_sort str_le). Qed.

(** Sorting forgets the order of its argument. *)
Lemma sort_strings_canonical l k : l ≡ₚ k → sort_strings l = sort_strings k.
Proof.
  intros H. apply (StronglySorted_unique str_le); auto using sort_strings_sorted.
  by rewrite !sort_strings_perm.
Qed.

(** *** Sorting by a key *)

(** [l.sort((a, b) => key(a) < key(b) ? -1 : 1)] as an insertion sort: the
    comparison never answers 0, so an element goes after those it is not
    below. *)
Section sort_by.
Context {A : Type} (key : A → jsstr).

Fixpoint insert_by (x : A) (l : list A) : list A :=
  match l with
  | [] => [x]
  | y :: l' => if negb (str_leb (key y) (key x)) then x :: l else y :: insert_by x l'
  end.
Definition sort_by (l : list A) : list A := foldl (λ acc x, insert_by x acc) [] l.

Local Abbreviation key_le := (λ a b, str_le (key a) (key b)).

Lemma insert_by_perm x l : insert_by x l ≡ₚ x :: l.
Proof.
  induction l as [|y l IH]; simpl; [done|]. destruct (negb _); [done|].
  rewrite IH. apply Permutation_swap.
Qed.

Lemma insert_by_sorted x l : StronglySorted key_le l → StronglySorted key_le (insert_by x l).
Proof.
  induction 1 as [|y l Hl IH Hy]; simpl; [by repeat constructor|].
  destruct (str_leb (key y) (key x)) eqn:Hle; simpl.
  - constructor; [done|]. rewrite insert_by_perm. by constructor.
  - assert (Hxy : str_le (key x) (key y)) by (destruct (total str_le (key x) (key y)); unfold str_le in *; congruence).
    constructor; [by constructor|]. constructor; [done|].
    eapply Forall_impl; [exact Hy|]. intros z Hz. by etrans.
Qed.

Lemma sort_by_spec l : sort_by l ≡ₚ l ∧ StronglySorted key_le (sort_by l).
Proof.
  unfold sort_by. enough (Hg : ∀ acc, StronglySorted key_le acc →
    foldl (λ acc x, insert_by x acc) acc l ≡ₚ l ++ acc ∧
    StronglySorted key_le (foldl (λ acc x, insert_by x acc) acc l)).
  { destruct (Hg []) as [Hp Hs]; [constructor|]. by rewrite (right_id_L [] (++)) in Hp. }
  induction l as [|x l IH]; intros acc Hacc; simpl; [done|].
  destruct (IH (insert_by x acc)) as [Hp Hs]; [by apply insert_by_sorted|]. split; [|done].
  rewrite Hp, insert_by_perm. by rewrite Permutation_middle.
Qed.

(** The keys come out as [sort] orders them. *)
Lemma sort_by_keys l : key <$> sort_by l = sort_strings (key <$> l).
Proof.
  destruct (sort_by_spec l) as [Hp Hs]. apply (StronglySorted_unique str_le).
  - by apply (StronglySorted_fmap key key_le).
  - apply sort_strings_sorted.
  - by rewrite sort_strings_perm, Hp.
Qed.

(** With distinct keys, sorting forgets the order of its argument. *)
Lemma sort_by_canonical l k : NoDup (key <$> l) → l ≡ₚ k → sort_by l = sort_by k.
Proof.
  intros Hnd Hp. destruct (sort_by_spec l) as [Hl Hsl], (sort_by_spec k) as [Hk Hsk].
  apply (StronglySorted_unique_strong key_le); [|done|done|by rewrite Hl, Hk].
  intros x y Hx Hy Hxy Hyx. rewrite Hl in Hx. rewrite Hk, <- Hp in Hy.
  assert (Heq : key x = key y) by (by apply (anti_symm str_le)).
  apply list_elem_of_lookup in Hx as [i Hi]. apply list_elem_of_lookup in Hy as [j Hj].
  assert (i = j) as ->; [|congruence].
  eapply (NoDup_lookup (key <$> l)); [done|by rewrite list_lookup_fmap, Hi|].
  by rewrite list_lookup_fmap, Hj, Heq.
Qed.

End sort_by.

#[export] Hint Rewrite replace_all_app dec_value_app : js.
#[export] Hint Resolve trim_trimmed split_on_pieces sort_strings_perm sort_strings_sorted : js.

(** ** State and exceptions

    Effectful code is a function from the state to the new state and either a
    value or the exception thrown; the state changes made before a [throw]
    persist, as they do in JavaScript. *)

Record jserror := mk_error { err_name : jsstr; err_message : jsstr }.
Definition js_error (msg : jsstr) : jserror := mk_error (js "Error") msg.

Definition ST (S A : Type) : Type := S → S * result jserror A.

Definition st_ret {S A} (a : A) : ST S A := λ s, (s, Ok a).
Definition st_throw {S A} (e : jserror) : ST S A := λ s, (s, Throw e).
Definition st_bind {S A B} (m : ST S A) (k : A → ST S B) : ST S B :=
  λ s, match m s with
       | (s', Ok a) => k a s'
       | (s', Throw e) => (s', Throw e)
       end.
Definition st_gets {S A} (f : S → A) : ST S A := λ s, (s, Ok (f s)).
Definition st_modify {S} (f : S → S) : ST S () := λ s, (f s, Ok tt).
(** [try { m } catch (e) { h(e) }] and [try { m } finally { f }]. *)
Definition st_catch {S A} (m : ST S A) (h : jserror → ST S A) : ST S A :=
  λ s, match m s with
       | (s', Ok a) => (s', Ok a)
       | (s', Throw e) => h e s'
       end.
Definition st_finally {S A} (m : ST S A) (f : ST S ()) : ST S A :=
  λ s, let '(s1, r) := m s in
       match f s1 with
       | (s2, Ok _) => (s2, r)
       | (s2, Throw e) => (s2, Throw e)
       end.

Notation "x <- m ;; k" := (st_bind m (λ x, k))
  (at level 100, m at next level, right associativity) : js_scope.
Notation "m ;;; k" := (st_bind m (λ _, k)) (at level 100, right associativity) : js_scope.

Lemma st_bind_ok {S A B} (m : ST S A) (k : A → ST S B) s s' b :
  st_bind m k s = (s', Ok b) ↔ ∃ s1 a, m s = (s1, Ok a) ∧ k a s1 = (s', Ok b).
Proof.
  unfold st_bind. destruct (m s) as [s1 [a|e]]; split; try naive_solver.
Qed.

Lemma st_bind_run {S A B} (m : ST S A) (k : A → ST S B) s s1 a :
  m s = (s1, Ok a) → st_bind m k s = k a s1.
Proof. unfold st_bind. by intros ->. Qed.

Lemma st_bind_throw {S A B} (m : ST S A) (k : A → ST S B) s s1 e :
  m s = (s1, Throw e) → st_bind m k s = (s1, Throw e).
Proof. unfold st_bind. by intros ->. Qed.
