(* ===== verification/JsValue.v ===== *)
(** * JavaScript values

    The values the sources pass around ([jsval]), objects as insertion-ordered
    property lists with the order [for-in] visits them, and number printing.

    Numbers are exact decimals [m * 10^e] (with NaN and the infinities): binary
    rounding is not modelled, so the definitions agree with an engine on the
    numbers of at most 15 significant digits. *)

From stdpp Require Import base gmap strings list sorting.
From Stdlib Require Import ZArith Lia.
From S2P Require Import Prelude.

Local Open Scope Z_scope.

(** ** Values *)

Inductive jsnum : Type :=
| NumNaN
| NumInf (neg : bool)
| NumDec (m e : Z).

Inductive jsval : Type :=
| JUndef
| JNull
| JBool (b : bool)
| JNum (n : jsnum)
| JStr (s : jsstr)
| JArr (l : list jsval)
| JObj (o : list (jsstr * jsval)).

Abbreviation jsobj := (list (jsstr * jsval)).

#[global] Instance jsnum_eq_dec : EqDecision jsnum.
Proof. solve_decision. Defined.

(** Induction that reaches the elements of arrays and objects. *)
Section jsval_ind.
  Context (P : jsval → Prop)
    (Hundef : P JUndef) (Hnull : P JNull) (Hbool : ∀ b, P (JBool b))
    (Hnum : ∀ n, P (JNum n)) (Hstr : ∀ s, P (JStr s))
    (Harr : ∀ l, Forall P l → P (JArr l))
    (Hobj : ∀ o, Forall (λ kv, P kv.2) o → P (JObj o)).

Fixpoint jsval_rect' (v : jsval) : P v :=
    match v with
    | JUndef => Hundef
    | JNull => Hnull
    | JBool b => Hbool b
    | JNum n => Hnum n
    | JStr s => Hstr s
    | JArr l =>
      Harr l ((fix go l : Forall P l :=
        match l with [] => Forall_nil_2 P | x :: l' => Forall_cons_2 P x l' (jsval_rect' x) (go l') end) l)
    | JObj o =>
      Hobj o ((fix go o : Forall (λ kv, P kv.2) o :=
        match o with
        | [] => Forall_nil_2 _
        | kv :: o' => Forall_cons_2 (λ kv, P kv.2) kv o' (jsval_rect' kv.2) (go o')
        end) o)
    end.
End jsval_ind.

(** Equality of values is decidable. *)
Fixpoint jsval_eqb (v w : jsval) : bool :=
  let arr_eqb := fix arr_eqb l k := match l, k with
      | [], [] => true | x :: l', y :: k' => jsval_eqb x y && arr_eqb l' k' | _, _ => false end in
  let obj_eqb := fix obj_eqb (o p : jsobj) := match o, p with
      | [], [] => true
      | kv :: o', lw :: p' => str_eqb kv.1 lw.1 && jsval_eqb kv.2 lw.2 && obj_eqb o' p'
      | _, _ => false end in
  match v, w with
  | JUndef, JUndef | JNull, JNull => true
  | JBool b, JBool c => Bool.eqb b c
  | JNum m, JNum n => bool_decide (m = n)
  | JStr s, JStr t => str_eqb s t
  | JArr l, JArr k => arr_eqb l k
  | JObj o, JObj p => obj_eqb o p
  | _, _ => false
  end.

Lemma jsval_eqb_eq v w : jsval_eqb v w = true ↔ v = w.
Proof.
  revert w. induction v as [| |b|m|s|l IH|o IH] using jsval_rect'; intros w;
    destruct w as [| |c|n|t|k|p]; simpl; try (split; done).
  - rewrite eqb_true_iff. naive_solver.
  - rewrite bool_decide_eq_true. naive_solver.
  - rewrite str_eqb_eq. naive_solver.
  - revert k. induction IH as [|x l Hx _ IHl]; intros [|y k]; try (split; done).
    rewrite andb_true_iff, Hx, IHl. split; [intros [-> [= ->]]; done|intros [= -> ->]; done].
  - revert p. induction IH as [|[a x] o Hx _ IHo]; intros [|[b y] p]; try (split; done).
    simpl in *. rewrite !andb_true_iff, str_eqb_eq, Hx, IHo.
    split; [intros [[-> ->] [= ->]]; done|intros [= -> -> ->]; done].
Qed.
#[global] Instance jsval_eq_dec : EqDecision jsval.
Proof.
  intros v w. destruct (jsval_eqb v w) eqn:E; [left; by apply jsval_eqb_eq|right].
  intros H%jsval_eqb_eq. congruence.
Defined.

(** The exact decimal [m * 10^e] in normal form: no trailing zero in [m]. *)
Fixpoint dec_norm (fuel : nat) (m e : Z) : jsnum :=
  match fuel with
  | O => NumDec m e
  | S fuel' =>
    if Z.eqb m 0 then NumDec 0 0
    else if Z.eqb (m mod 10) 0 then dec_norm fuel' (m / 10) (e + 1) else NumDec m e
  end.
Definition num_dec (m e : Z) : jsnum := dec_norm (S (Z.to_nat (Z.log2 (Z.abs m)))) m e.
Definition num_of_Z (z : Z) : jsnum := num_dec z 0.

(** [<=] and [<] on numbers: a comparison with NaN is false. *)
Definition num_leb (a b : jsnum) : bool :=
  match a, b with
  | NumNaN, _ | _, NumNaN => false
  | NumInf true, _ | _, NumInf false => true
  | NumInf false, _ | _, NumInf true => false
  | NumDec m e, NumDec m' e' =>
    let low := Z.min e e' in Z.leb (m * 10 ^ (e - low)) (m' * 10 ^ (e' - low))
  end.
Definition num_ltb (a b : jsnum) : bool :=
  num_leb a b && negb (num_leb b a).

(** [Number.prototype.toString] (radix 10), by the cases of ECMA-262's
    Number::toString on the digits [ds] of the significand and the position
    [n] of the decimal point. *)
Definition num_digits_str (ds : jsstr) (e : Z) : jsstr :=
  let k := Z.of_nat (length ds) in
  let n := k + e in
  let exp_part := js "e" ++ (if Z.ltb (n - 1) 0 then js "-" else js "+")
                    ++ radix_str 10 (Z.abs (n - 1)) in
  if Z.leb k n && Z.leb n 21 then ds ++ replicate (Z.to_nat (n - k)) 48
  else if Z.ltb 0 n && Z.leb n 21 then take (Z.to_nat n) ds ++ js "." ++ drop (Z.to_nat n) ds
  else if Z.ltb (-6) n && Z.leb n 0 then js "0." ++ replicate (Z.to_nat (- n)) 48 ++ ds
  else match ds with
       | [] => []
       | [d] => d :: exp_part
       | d :: ds' => d :: js "." ++ ds' ++ exp_part
       end.

Definition num_to_str (n : jsnum) : jsstr :=
  match n with
  | NumNaN => js "NaN"
  | NumInf neg => if neg then js "-Infinity" else js "Infinity"
  | NumDec m e =>
    if Z.eqb m 0 then js "0"
    else if Z.ltb m 0 then js "-" ++ num_digits_str (radix_str 10 (- m)) e
    else num_digits_str (radix_str 10 m) e
  end.

(** ToString, as template literals and [join] use it. *)
Fixpoint to_string (v : jsval) : jsstr :=
  match v with
  | JUndef => js "undefined"
  | JNull => js "null"
  | JBool b => if b then js "true" else js "false"
  | JNum n => num_to_str n
  | JStr s => s
  | JArr l => join (js ",") ((λ x, match x with JUndef | JNull => [] | _ => to_string x end) <$> l)
  | JObj _ => js "[object Object]"
  end.

(** ToBoolean. *)
Definition truthy (v : jsval) : bool :=
  match v with
  | JUndef | JNull => false
  | JBool b => b
  | JNum NumNaN => false
  | JNum (NumInf _) => true
  | JNum (NumDec m _) => negb (Z.eqb m 0)
  | JStr s => negb (str_eqb s [])
  | JArr _ | JObj _ => true
  end.

(** [a || b]. *)
Definition js_or (a b : jsval) : jsval := if truthy a then a else b.

(** [v === "s"]. *)
Definition is_str (s : jsstr) (v : jsval) : bool :=
  match v with JStr t => str_eqb s t | _ => false end.

(** The number a relational operator compares: only the values the sources
    compare (numbers, and properties that are absent) have one here. *)
Definition cmp_num (v : jsval) : jsnum :=
  match v with JNum n => n | JNull => NumDec 0 0 | _ => NumNaN end.

(** ** Objects *)

Fixpoint obj_get {A} (k : jsstr) (o : list (jsstr * A)) : option A :=
  match o with
  | [] => None
  | (k', v) :: o' => if str_eqb k k' then Some v else obj_get k o'
  end.

(** [o[k]]: an absent property reads as [undefined]. *)
Definition obj_prop (o : jsobj) (k : jsstr) : jsval := default JUndef (obj_get k o).

(** [o[k] = v]: an existing property keeps its place. *)
Fixpoint obj_set {A} (k : jsstr) (v : A) (o : list (jsstr * A)) : list (jsstr * A) :=
  match o with
  | [] => [(k, v)]
  | (k', v') :: o' => if str_eqb k k' then (k', v) :: o' else (k', v') :: obj_set k v o'
  end.

(** [delete o[k]]. *)
Definition obj_del {A} (k : jsstr) (o : list (jsstr * A)) : list (jsstr * A) :=
  base.filter (λ kv, kv.1 ≠ k) o.

(** A property name that is an array index: the canonical decimal form of an
    integer below 2^32 - 1. *)
Definition array_index (k : jsstr) : option Z :=
  let n := dec_value 0 k in
  if negb (str_eqb k []) && forallb is_digit k && str_eqb (radix_str 10 n) k && Z.ltb n 4294967295
  then Some n else None.

Fixpoint insert_index {A} (n : Z) (kv : jsstr * A) (l : list (Z * (jsstr * A))) :=
  match l with
  | [] => [(n, kv)]
  | (m, kv') :: l' => if Z.ltb n m then (n, kv) :: l else (m, kv') :: insert_index n kv l'
  end.

(** The own enumerable properties in the order [for-in] and [Object.keys]
    visit them: array indices in ascending order, then the other names in
    insertion order. *)
Definition own_props {A} (o : list (jsstr * A)) : list (jsstr * A) :=
  let idx := foldr (λ kv acc, match array_index kv.1 with
                              | Some n => insert_index n kv acc | None => acc end) [] o in
  (snd <$> idx) ++ base.filter (λ kv, array_index kv.1 = None) o.
Definition own_keys {A} (o : list (jsstr * A)) : list jsstr := fst <$> own_props o.

(** ** Lemmas on objects *)

Lemma obj_get_set {A} k k' (v : A) o :
  obj_get k (obj_set k' v o) = if str_eqb k k' then Some v else obj_get k o.
Proof.
  induction o as [|[k2 v2] o IH]; simpl; [done|].
  destruct (str_eqb k' k2) eqn:E; simpl.
  - apply str_eqb_eq in E as ->. by destruct (str_eqb k k2).
  - destruct (str_eqb k k2) eqn:E2; [|done].
    apply str_eqb_eq in E2 as ->. destruct (str_eqb k2 k') eqn:E3; [|done].
    apply str_eqb_eq in E3 as ->. by rewrite str_eqb_refl in E.
Qed.

Lemma obj_set_fresh {A} k (v : A) o : k ∉ o.*1 → obj_set k v o = o ++ [(k, v)].
Proof.
  induction o as [|[k2 v2] o IH]; simpl; [done|]. intros [? ?]%not_elem_of_cons.
  destruct (str_eqb k k2) eqn:E; [by apply str_eqb_eq in E|]. by rewrite IH.
Qed.

Lemma obj_set_keys {A} k (v : A) o : k ∈ o.*1 → (obj_set k v o).*1 = o.*1.
Proof.
  induction o as [|[k2 v2] o IH]; simpl; [by intros ?%elem_of_nil|].
  intros [->|?]%elem_of_cons; [by rewrite str_eqb_refl|].
  destruct (str_eqb k k2); simpl; [done|]. f_equal. by apply IH.
Qed.

Lemma obj_get_del {A} k k' (o : list (jsstr * A)) :
  obj_get k (obj_del k' o) = if str_eqb k k' then None else obj_get k o.
Proof.
  unfold obj_del. induction o as [|[k2 v2] o IH]; [by case_match|].
  destruct (decide (k2 = k')) as [->|].
  - rewrite filter_cons_False by (simpl; tauto). rewrite IH. simpl.
    by destruct (str_eqb k k').
  - rewrite filter_cons_True by done. simpl. rewrite IH.
    destruct (str_eqb k k2) eqn:E; [|done]. apply str_eqb_eq in E as ->.
    by rewrite (proj2 (str_eqb_neq k2 k')).
Qed.

Lemma obj_get_elem {A} k (o : list (jsstr * A)) : is_Some (obj_get k o) ↔ k ∈ o.*1.
Proof.
  induction o as [|[k2 v2] o IH]; simpl.
  - split; [by intros [? ?]|by intros ?%elem_of_nil].
  - rewrite elem_of_cons. destruct (str_eqb k k2) eqn:E.
    + apply str_eqb_eq in E. naive_solver.
    + apply str_eqb_neq in E. rewrite IH. naive_solver.
Qed.

Lemma obj_set_NoDup {A} k (v : A) o : NoDup o.*1 → NoDup (obj_set k v o).*1.
Proof.
  intros H. destruct (decide (k ∈ o.*1)); [by rewrite obj_set_keys|].
  rewrite obj_set_fresh, fmap_app by done. apply NoDup_app. split_and!; [done| |].
  - intros x ? ->%list_elem_of_singleton. done.
  - apply NoDup_singleton.
Qed.

Lemma own_props_names {A} (o : list (jsstr * A)) :
  Forall (λ kv, array_index kv.1 = None) o → own_props o = o.
Proof.
  intros H. unfold own_props.
  assert (foldr (λ kv acc, match array_index kv.1 with
          | Some n => insert_index n kv acc | None => acc end) [] o = []) as ->.
  { induction H as [|kv o Hk _ IH]; [done|]. simpl. by rewrite Hk. }
  simpl. induction H as [|kv o Hk _ IH]; [done|].
  rewrite filter_cons_True by done. by f_equal.
Qed.

Lemma insert_index_perm {A} n kv (l : list (Z * (jsstr * A))) :
  insert_index n kv l ≡ₚ (n, kv) :: l.
Proof.
  induction l as [|[m kv'] l IH]; [done|]. simpl. destruct (Z.ltb n m); [done|].
  rewrite IH. apply perm_swap.
Qed.

(** The enumeration order is a permutation of the own properties. *)
Lemma own_props_perm {A} (o : list (jsstr * A)) : own_props o ≡ₚ o.
Proof.
  unfold own_props. induction o as [|kv o IH]; [done|]. simpl.
  destruct (array_index kv.1) as [n|] eqn:E.
  - rewrite (filter_cons_False _ kv) by (by rewrite E).
    rewrite insert_index_perm. simpl. by rewrite IH.
  - rewrite filter_cons_True by done. rewrite <- Permutation_middle. by rewrite IH.
Qed.

Lemma obj_get_elem_of {A} k v (l : list (jsstr * A)) :
  NoDup l.*1 → obj_get k l = Some v ↔ (k, v) ∈ l.
Proof.
  intros Hnd. induction l as [|[k' v'] l IH]; simpl; [split; [done|set_solver]|].
  apply NoDup_cons in Hnd as [Hk Hnd]. simpl in Hk. specialize (IH Hnd).
  rewrite elem_of_cons. destruct (str_eqb_spec k k') as [<-|Hkk].
  - split; [intros [= ->]; by left|].
    intros [[=]|Hin]; [by subst|]. destruct Hk. by apply (list_elem_of_fmap_2' fst _ (k, v)).
  - rewrite IH. naive_solver.
Qed.

Lemma obj_get_perm {A} k (l l' : list (jsstr * A)) :
  NoDup l.*1 → l ≡ₚ l' → obj_get k l = obj_get k l'.
Proof.
  intros Hnd Hp. assert (Hnd' : NoDup l'.*1) by by rewrite <- Hp.
  apply option_eq. intros v. rewrite !obj_get_elem_of by done. by rewrite Hp.
Qed.

Lemma elem_of_obj_set {A} k (v : A) o h : h ∈ obj_set k v o → h = (k, v) ∨ h ∈ o.
Proof.
  induction o as [|[k' v'] o IH]; cbn [obj_set]; [by rewrite list_elem_of_singleton; left|].
  destruct (str_eqb_spec k k') as [<-|_]; rewrite !elem_of_cons; tauto.
Qed.

Lemma obj_set_same {A} k (v : A) o : obj_get k o = Some v → obj_set k v o = o.
Proof.
  induction o as [|[k' v'] o IH]; [done|]. cbn [obj_get obj_set].
  destruct (str_eqb_spec k k') as [<-|]; [by intros [= ->]|]. intros Hg. by rewrite IH.
Qed.

Lemma obj_prop_set k k' v o : obj_prop (obj_set k v o) k' = if str_eqb k' k then v else obj_prop o k'.
Proof. unfold obj_prop. rewrite obj_get_set. by destruct (str_eqb k' k). Qed.

Lemma obj_get_set_other {A} k k' (v : A) o : k' ≠ k → obj_get k' (obj_set k v o) = obj_get k' o.
Proof. intros Hne. rewrite obj_get_set. by rewrite (proj2 (str_eqb_neq k' k)). Qed.

Lemma obj_get_set_eq {A} k (v : A) o : obj_get k (obj_set k v o) = Some v.
Proof. by rewrite obj_get_set, str_eqb_refl. Qed.

Lemma elem_of_obj_get {A} k (v : A) o : obj_get k o = Some v → (k, v) ∈ o.
Proof.
  induction o as [|[k' v'] o IH]; [done|]. cbn [obj_get]. destruct (str_eqb_spec k k') as [<-|].
  - intros [= ->]. by left.
  - intros Hg. right. by apply IH.
Qed.

Lemma obj_set_app {A} k (v : A) l1 l2 : k ∉ l1.*1 → obj_set k v (l1 ++ l2) = l1 ++ obj_set k v l2.
Proof.
  induction l1 as [|[k' v'] l1 IH]; [done|]. intros [Hne Hk]%not_elem_of_cons. simpl in Hne.
  cbn [app obj_set]. rewrite (proj2 (str_eqb_neq k k')) by done. by rewrite IH.
Qed.

Lemma own_props_set {A} k (v : A) o :
  array_index k = None → own_props (obj_set k v o) = obj_set k v (own_props o).
Proof.
  intros Hk. unfold own_props.
  set (idx := λ o : list (jsstr * A), foldr (λ kv acc, match array_index kv.1 with
    | Some n => insert_index n kv acc | None => acc end) [] o).
  assert (Hidx : idx (obj_set k v o) = idx o).
  { induction o as [|[k' v'] o IH]; cbn [obj_set]; [simpl; by rewrite Hk|].
    destruct (str_eqb_spec k k') as [<-|]; simpl; [by rewrite Hk|]. fold (idx o) (idx (obj_set k v o)).
    by rewrite IH. }
  assert (Hf : base.filter (λ kv, array_index kv.1 = None) (obj_set k v o) =
    obj_set k v (base.filter (λ kv, array_index kv.1 = None) o)).
  { clear Hidx. induction o as [|[k' v'] o IH]; cbn [obj_set]; [by rewrite filter_cons_True|].
    destruct (str_eqb_spec k k') as [<-|Hne].
    - rewrite !filter_cons_True by done. cbn [obj_set]. by rewrite str_eqb_refl.
    - destruct (decide (array_index k' = None)).
      + rewrite !filter_cons_True by done. cbn [obj_set].
        rewrite (proj2 (str_eqb_neq k k')) by done. by rewrite IH.
      + by rewrite !filter_cons_False by done. }
  fold (idx o) (idx (obj_set k v o)). rewrite Hidx, Hf. symmetry. apply obj_set_app.
  intros (kv & Hkv & Hin)%list_elem_of_fmap. apply list_elem_of_fmap in Hin as ([n kv'] & -> & Hin). simpl in Hkv.
  clear Hf Hidx. enough (Hall : ∀ n kv, (n, kv) ∈ idx o → array_index kv.1 ≠ None) by (apply (Hall n kv'); [done|congruence]).
  clear. intros n kv. induction o as [|kv0 o IH]; simpl; [by intros ?%not_elem_of_nil|].
  destruct (array_index kv0.1) eqn:Hi; [|done]. rewrite insert_index_perm, elem_of_cons.
  intros [[= -> ->]|Hin]; [congruence|by apply IH].
Qed.

Lemma obj_del_absent {A} k (o : list (jsstr * A)) : k ∉ o.*1 → obj_del k o = o.
Proof.
  unfold obj_del. induction o as [|[k' v'] o IH]; [done|]. intros [Hne Hk]%not_elem_of_cons. simpl in Hne.
  rewrite filter_cons_True by (simpl; congruence). f_equal. by apply IH.
Qed.

Lemma obj_del_set {A} k (v : A) o : obj_del k (obj_set k v o) = obj_del k o.
Proof.
  unfold obj_del. induction o as [|[k' v'] o IH]; cbn [obj_set].
  - by rewrite filter_cons_False by (simpl; tauto).
  - destruct (str_eqb_spec k k') as [<-|Hne].
    + by rewrite !filter_cons_False by (simpl; tauto).
    + rewrite !filter_cons_True by (simpl; congruence). by rewrite IH.
Qed.

Lemma obj_del_idem {A} k (o : list (jsstr * A)) : obj_del k (obj_del k o) = obj_del k o.
Proof.
  apply obj_del_absent. intros (kv & -> & Hin)%list_elem_of_fmap.
  apply list_elem_of_filter in Hin as [Hne _]. done.
Qed.

Lemma obj_get_del_other {A} k k' (o : list (jsstr * A)) : k ≠ k' → obj_get k (obj_del k' o) = obj_get k o.
Proof. intros Hne. rewrite obj_get_del. by rewrite (proj2 (str_eqb_neq k k')). Qed.

Lemma obj_del_NoDup {A} k (o : list (jsstr * A)) : NoDup o.*1 → NoDup (obj_del k o).*1.
Proof.
  unfold obj_del. induction o as [|kv o IH]; [done|]. rewrite fmap_cons. intros [Hk Hnd]%NoDup_cons.
  destruct (decide (kv.1 ≠ k)); [|rewrite filter_cons_False by done; by apply IH].
  rewrite filter_cons_True by done. rewrite fmap_cons. constructor; [|by apply IH].
  intros (kv' & Heq & [_ Hin]%list_elem_of_filter)%list_elem_of_fmap. apply Hk. rewrite Heq.
  by apply list_elem_of_fmap_2.
Qed.

Lemma obj_del_none {A} k (o : list (jsstr * A)) : obj_get k o = None → obj_del k o = o.
Proof. intros Hn. apply obj_del_absent. rewrite <- obj_get_elem, Hn. by intros [? ?]. Qed.

(** ** Integers as numbers *)

Lemma num_of_Z_value z : ∃ m e, num_of_Z z = NumDec m e ∧ m * 10 ^ e = z ∧ 0 ≤ e.
Proof.
  assert (Hgen : ∀ fuel m e, 0 ≤ e → ∃ m' e', dec_norm fuel m e = NumDec m' e' ∧
    m' * 10 ^ e' = m * 10 ^ e ∧ 0 ≤ e').
  { induction fuel as [|fuel IH]; intros m e He; [by exists m, e|]. simpl.
    destruct (Z.eqb_spec m 0) as [->|]; [by exists 0, 0|].
    destruct (Z.eqb_spec (m mod 10) 0) as [Hm|]; [|by exists m, e].
    destruct (IH (m / 10) (e + 1)) as (m' & e' & -> & Hv & He'); [lia|].
    exists m', e'. split_and!; [done| |done]. rewrite Hv, Z.add_1_r, Z.pow_succ_r by done.
    rewrite (Z.div_mod m 10) at 2 by lia. lia. }
  destruct (Hgen (S (Z.to_nat (Z.log2 (Z.abs z)))) z 0) as (m & e & H & Hv & He); [lia|].
  exists m, e. unfold num_of_Z, num_dec. rewrite H, Hv. split_and!; [done|lia|done].
Qed.

Lemma num_of_Z_inj a b : num_of_Z a = num_of_Z b → a = b.
Proof.
  destruct (num_of_Z_value a) as (m & e & -> & <- & _), (num_of_Z_value b) as (m' & e' & -> & <- & _). congruence.
Qed.
