(* ===== verification/Json.v ===== *)
(** * The JSON global

    [JSON.stringify] and [JSON.parse] as ECMA-262 gives them, on the values of
    JsValue, and the facts the callers rely on: a text produced by
    [JSON.stringify] parses back to the value, and the fuel of the parser is
    enough for every text. *)

From stdpp Require Import base gmap strings list sorting.
From Stdlib Require Import ZArith Lia.
From S2P Require Import Prelude JsValue.

Local Open Scope Z_scope.

(** ** JSON.stringify *)

Definition hex4 (c : Z) : jsstr :=
  digit_unit (c / 4096 mod 16) :: digit_unit (c / 256 mod 16) ::
  digit_unit (c / 16 mod 16) :: [digit_unit (c mod 16)].

Definition is_high_surrogate (c : Z) : bool := Z.leb 55296 c && Z.leb c 56319.
Definition is_low_surrogate (c : Z) : bool := Z.leb 56320 c && Z.leb c 57343.

(** The escape of one code unit that is not part of a surrogate pair. *)
Definition quote_unit (c : Z) : jsstr :=
  if Z.eqb c 34 then js "\" ++ [34]
  else if Z.eqb c 92 then js "\\"
  else if Z.eqb c 8 then js "\b"
  else if Z.eqb c 12 then js "\f"
  else if Z.eqb c 10 then js "\n"
  else if Z.eqb c 13 then js "\r"
  else if Z.eqb c 9 then js "\t"
  else if Z.ltb c 32 || is_high_surrogate c || is_low_surrogate c then js "\u" ++ hex4 c
  else [c].

Fixpoint quote_body (s : jsstr) : jsstr :=
  match s with
  | [] => []
  | c :: s' =>
    if is_high_surrogate c then
      match s' with
      | d :: s'' => if is_low_surrogate d then c :: d :: quote_body s'' else quote_unit c ++ quote_body s'
      | [] => quote_unit c
      end
    else quote_unit c ++ quote_body s'
  end.
Definition quote (s : jsstr) : jsstr := [34] ++ quote_body s ++ [34].

(** A property of an object: one whose value is [undefined] is left out. *)
Definition prop_text (kv : jsstr * option jsstr) : option jsstr :=
  (λ t, quote kv.1 ++ js ":" ++ t) <$> kv.2.

(** [JSON.stringify(v)]; [None] is the result [undefined]. *)
Fixpoint JSON_stringify (v : jsval) : option jsstr :=
  match v with
  | JUndef => None
  | JNull => Some (js "null")
  | JBool b => Some (if b then js "true" else js "false")
  | JNum (NumDec m e) => Some (num_to_str (NumDec m e))
  | JNum _ => Some (js "null")
  | JStr s => Some (quote s)
  | JArr l =>
    Some (js "[" ++ join (js ",")
            ((λ x, default (js "null") (JSON_stringify x)) <$> l) ++ js "]")
  | JObj o =>
    let strs := (fix go (o : jsobj) : list (jsstr * option jsstr) :=
      match o with [] => [] | (k, x) :: o' => (k, JSON_stringify x) :: go o' end) o in
    Some (js "{" ++ join (js ",")
            (omap prop_text (own_props strs)) ++ js "}")
  end.

(** ** JSON.parse *)

Definition is_json_space (c : Z) : bool := Z.eqb c 9 || Z.eqb c 10 || Z.eqb c 13 || Z.eqb c 32.
Definition skip_ws : jsstr → jsstr := drop_while is_json_space.

Definition hex_value (c : Z) : option Z :=
  if is_digit c then Some (c - 48)
  else if Z.leb 97 c && Z.leb c 102 then Some (c - 87)
  else if Z.leb 65 c && Z.leb c 70 then Some (c - 55)
  else None.

Definition simple_escape (c : Z) : option Z :=
  if Z.eqb c 34 || Z.eqb c 92 || Z.eqb c 47 then Some c
  else if Z.eqb c 98 then Some 8
  else if Z.eqb c 102 then Some 12
  else if Z.eqb c 110 then Some 10
  else if Z.eqb c 114 then Some 13
  else if Z.eqb c 116 then Some 9
  else None.

(** The string whose opening quote was consumed: its value and the rest. *)
Fixpoint parse_string (s : jsstr) : option (jsstr * jsstr) :=
  match s with
  | [] => None
  | c :: s' =>
    if Z.eqb c 34 then Some ([], s')
    else if Z.ltb c 32 then None
    else if Z.eqb c 92 then
      match s' with
      | [] => None
      | d :: s2 =>
        if Z.eqb d 117 then
          match s2 with
          | h1 :: h2 :: h3 :: h4 :: s3 =>
            match hex_value h1, hex_value h2, hex_value h3, hex_value h4 with
            | Some a1, Some a2, Some a3, Some a4 =>
              match parse_string s3 with
              | Some (t, r) => Some ((a1 * 4096 + a2 * 256 + a3 * 16 + a4) :: t, r)
              | None => None
              end
            | _, _, _, _ => None
            end
          | _ => None
          end
        else match simple_escape d, parse_string s2 with
             | Some u, Some (t, r) => Some (u :: t, r)
             | _, _ => None
             end
      end
    else match parse_string s' with
         | Some (t, r) => Some (c :: t, r)
         | None => None
         end
  end.

Fixpoint span_digits (s : jsstr) : jsstr * jsstr :=
  match s with
  | c :: s' => if is_digit c then let '(d, r) := span_digits s' in (c :: d, r) else ([], s)
  | [] => ([], [])
  end.

Definition eat (c : Z) (s : jsstr) : option jsstr :=
  match s with x :: s' => if Z.eqb x c then Some s' else None | [] => None end.

(** The exponent part: [None] is a syntax error. *)
Definition parse_exp (s : jsstr) : option (Z * jsstr) :=
  match s with
  | c :: s' =>
    if Z.eqb c 101 || Z.eqb c 69 then
      let '(sg, s2) := match s' with
                       | d :: s2 => if Z.eqb d 45 then (-1, s2) else if Z.eqb d 43 then (1, s2) else (1, s')
                       | [] => (1, s')
                       end in
      match span_digits s2 with
      | ([], _) => None
      | (ds, r) => Some (sg * dec_value 0 ds, r)
      end
    else Some (0, s)
  | [] => Some (0, s)
  end.

(** The digits after an optional sign: integer part, fraction, exponent. *)
Definition parse_unsigned (sg : Z) (s : jsstr) : option (jsval * jsstr) :=
  match span_digits s with
  | ([], _) => None
  | (d :: ds, s2) =>
    if Z.eqb d 48 && negb (str_eqb ds []) then None
    else
      let frac := match eat 46 s2 with
                  | None => Some ([], s2)
                  | Some s3 => match span_digits s3 with ([], _) => None | (fs, r) => Some (fs, r) end
                  end in
      match frac with
      | None => None
      | Some (fs, s4) =>
        match parse_exp s4 with
        | None => None
        | Some (e, r) =>
          Some (JNum (num_dec (sg * dec_value 0 (d :: ds ++ fs)) (e - Z.of_nat (length fs))), r)
        end
      end
  end.

Definition parse_number (s : jsstr) : option (jsval * jsstr) :=
  match eat 45 s with
  | Some s1 => parse_unsigned (-1) s1
  | None => parse_unsigned 1 s
  end.

Definition parse_word (w : jsstr) (v : jsval) (s : jsstr) : option (jsval * jsstr) :=
  if starts_with w s then Some (v, drop (length w) s) else None.

(** One value, the elements of an array after [\[], and the members of an
    object after [{]: every call consumes input, so the length of the text is
    enough fuel. *)
Fixpoint parse_value (fuel : nat) (s : jsstr) : option (jsval * jsstr) :=
  match fuel with
  | O => None
  | S fuel' =>
    match skip_ws s with
    | [] => None
    | c :: s1 =>
      if Z.eqb c 34 then
        match parse_string s1 with Some (t, r) => Some (JStr t, r) | None => None end
      else if Z.eqb c 91 then
        match eat 93 (skip_ws s1) with
        | Some r => Some (JArr [], r)
        | None => parse_elements fuel' s1 []
        end
      else if Z.eqb c 123 then
        match eat 125 (skip_ws s1) with
        | Some r => Some (JObj [], r)
        | None => parse_members fuel' s1 []
        end
      else if Z.eqb c 116 then parse_word (js "true") (JBool true) (c :: s1)
      else if Z.eqb c 102 then parse_word (js "false") (JBool false) (c :: s1)
      else if Z.eqb c 110 then parse_word (js "null") JNull (c :: s1)
      else parse_number (c :: s1)
    end
  end
with parse_elements (fuel : nat) (s : jsstr) (acc : list jsval) : option (jsval * jsstr) :=
  match fuel with
  | O => None
  | S fuel' =>
    match parse_value fuel' s with
    | None => None
    | Some (v, s1) =>
      match skip_ws s1 with
      | [] => None
      | c :: s2 =>
        if Z.eqb c 44 then parse_elements fuel' s2 (acc ++ [v])
        else if Z.eqb c 93 then Some (JArr (acc ++ [v]), s2)
        else None
      end
    end
  end
with parse_members (fuel : nat) (s : jsstr) (acc : jsobj) : option (jsval * jsstr) :=
  match fuel with
  | O => None
  | S fuel' =>
    match eat 34 (skip_ws s) with
    | None => None
    | Some s1 =>
      match parse_string s1 with
      | None => None
      | Some (k, s2) =>
        match eat 58 (skip_ws s2) with
        | None => None
        | Some s3 =>
          match parse_value fuel' s3 with
          | None => None
          | Some (v, s4) =>
            match skip_ws s4 with
            | [] => None
            | c :: s5 =>
              if Z.eqb c 44 then parse_members fuel' s5 (obj_set k v acc)
              else if Z.eqb c 125 then Some (JObj (obj_set k v acc), s5)
              else None
            end
          end
        end
      end
    end
  end.

(** [JSON.parse(s)]; [None] is a thrown SyntaxError. *)
Definition JSON_parse (s : jsstr) : option jsval :=
  match parse_value (S (2 * length s)) s with
  | Some (v, r) => match skip_ws r with [] => Some v | _ :: _ => None end
  | None => None
  end.

Example json_rt_ex :
  (JSON_parse (js "[ {'a':[1,-2.50e3,true,null], 'b':'x'} ]") = None) ∧
  (JSON_parse (js "[12, -2.50e3,true,null, [ ], {}]") =
    Some (JArr [JNum (NumDec 12 0); JNum (NumDec (-25) 2); JBool true; JNull; JArr []; JObj []])).
Proof. split; vm_compute; reflexivity. Qed.

(** ** Strings: parsing undoes quoting *)

Definition unit_ok (c : Z) : Prop := 0 ≤ c < 65536.
#[global] Instance unit_ok_dec c : Decision (unit_ok c).
Proof. unfold unit_ok. apply _. Defined.

Lemma hex_value_digit d : 0 ≤ d < 16 → hex_value (digit_unit d) = Some d.
Proof.
  intros H. unfold hex_value, digit_unit, is_digit.
  repeat case_match; rewrite ?andb_true_iff, ?andb_false_iff, ?Z.ltb_lt, ?Z.ltb_ge,
    ?Z.leb_le, ?Z.leb_gt in *; try lia; f_equal; lia.
Qed.

Lemma hex4_value c : unit_ok c →
  c / 4096 mod 16 * 4096 + c / 256 mod 16 * 256 + c / 16 mod 16 * 16 + c mod 16 = c.
Proof. unfold unit_ok. intros. Z.div_mod_to_equations. lia. Qed.

Lemma parse_string_u h1 h2 h3 h4 a1 a2 a3 a4 s t r :
  hex_value h1 = Some a1 → hex_value h2 = Some a2 →
  hex_value h3 = Some a3 → hex_value h4 = Some a4 → parse_string s = Some (t, r) →
  parse_string (92 :: 117 :: h1 :: h2 :: h3 :: h4 :: s)
  = Some ((a1 * 4096 + a2 * 256 + a3 * 16 + a4) :: t, r).
Proof. intros H1 H2 H3 H4 Hs. simpl. by rewrite H1, H2, H3, H4, Hs. Qed.

Lemma parse_string_hex4 c s t r :
  unit_ok c → parse_string s = Some (t, r) →
  parse_string (js "\u" ++ hex4 c ++ s) = Some (c :: t, r).
Proof.
  intros Hc Hs. rewrite <- (hex4_value c) at 2 by done.
  apply parse_string_u; [apply hex_value_digit, Z.mod_pos_bound; lia..|done].
Qed.

Lemma parse_string_plain c s t r :
  c ≠ 34 → c ≠ 92 → 32 ≤ c → parse_string s = Some (t, r) →
  parse_string (c :: s) = Some (c :: t, r).
Proof.
  intros ??? Hs. cbn [parse_string]. rewrite Hs.
  destruct (Z.eqb_spec c 34), (Z.ltb_spec c 32), (Z.eqb_spec c 92); done || lia.
Qed.

Lemma parse_string_escape d u s t r :
  d ≠ 117 → simple_escape d = Some u → parse_string s = Some (t, r) →
  parse_string (92 :: d :: s) = Some (u :: t, r).
Proof.
  intros Hd Hu Hs. simpl. destruct (Z.eqb_spec d 117); [done|]. by rewrite Hu, Hs.
Qed.

Lemma parse_string_quote_unit c s t r :
  unit_ok c → parse_string s = Some (t, r) →
  parse_string (quote_unit c ++ s) = Some (c :: t, r).
Proof.
  intros Hc Hs. unfold quote_unit.
  destruct (Z.eqb_spec c 34) as [->|]; [by apply parse_string_escape|].
  destruct (Z.eqb_spec c 92) as [->|]; [by apply parse_string_escape|].
  destruct (Z.eqb_spec c 8) as [->|]; [by apply parse_string_escape|].
  destruct (Z.eqb_spec c 12) as [->|]; [by apply parse_string_escape|].
  destruct (Z.eqb_spec c 10) as [->|]; [by apply parse_string_escape|].
  destruct (Z.eqb_spec c 13) as [->|]; [by apply parse_string_escape|].
  destruct (Z.eqb_spec c 9) as [->|]; [by apply parse_string_escape|].
  destruct (_ || _ || _) eqn:E.
  - rewrite <- app_assoc. by apply parse_string_hex4.
  - apply orb_false_iff in E as [[E _]%orb_false_iff _]. apply Z.ltb_ge in E.
    by apply parse_string_plain.
Qed.

Lemma parse_string_quote_body s r :
  Forall unit_ok s → parse_string (quote_body s ++ 34 :: r) = Some (s, r).
Proof.
  induction s as [[|c s] IH] using (induction_ltof1 _ length); intros Hs; [done|].
  apply Forall_cons in Hs as [Hc Hs]. unfold ltof in IH. cbn [quote_body].
  assert (IHs : parse_string (quote_body s ++ 34 :: r) = Some (s, r)) by (apply IH; simpl; auto with lia).
  destruct (is_high_surrogate c) eqn:Ehi;
    [destruct s as [|d s]|]; rewrite <- ?app_assoc; [by apply parse_string_quote_unit| |by apply parse_string_quote_unit].
  destruct (is_low_surrogate d) eqn:Elo;
    [|rewrite <- ?app_assoc; by apply parse_string_quote_unit].
  unfold is_high_surrogate, is_low_surrogate in *. rewrite andb_true_iff, !Z.leb_le in *.
  apply Forall_cons in Hs as [? ?].
  simpl app. do 2 (apply parse_string_plain; [lia..|]). apply IH; simpl; auto with lia.
Qed.

(** ** Integers: parsing undoes printing *)

Lemma radix_digits_head fuel n acc :
  0 < n < 2 ^ Z.of_nat fuel →
  ∃ d ds, radix_digits 10 fuel n acc = d :: ds ∧ 48 < d ≤ 57.
Proof.
  revert n acc. induction fuel as [|fuel IH]; intros n acc Hn; [simpl in Hn; lia|].
  cbn [radix_digits]. destruct (Z.ltb_spec n 10).
  - eexists _, _. split; [done|]. rewrite Z.mod_small, digit_unit_dec; lia.
  - apply IH. rewrite Nat2Z.inj_succ, Z.pow_succ_r in Hn by lia.
    Z.div_mod_to_equations. lia.
Qed.

Lemma radix_str_head n : 0 < n → ∃ d ds, radix_str 10 n = d :: ds ∧ 48 < d ≤ 57.
Proof. intros. apply radix_digits_head. pose proof (log2_fuel n). lia. Qed.

(** The text after a number: nothing that would continue its literal. *)
Definition num_stop (r : jsstr) : Prop :=
  match r with
  | [] => True
  | c :: _ => is_digit c = false ∧ c ≠ 46 ∧ c ≠ 101 ∧ c ≠ 69
  end.

Lemma span_digits_stop ds r :
  Forall (λ c, is_digit c = true) ds → num_stop r → span_digits (ds ++ r) = (ds, r).
Proof.
  induction 1 as [|d ds Hd _ IH]; intros Hr; simpl.
  - destruct r as [|c r]; [done|]. destruct Hr as [Hc _]. simpl. by rewrite Hc.
  - rewrite Hd, IH by done. done.
Qed.

Lemma eat_stop r : num_stop r → eat 46 r = None.
Proof. destruct r as [|c r]; [done|]. intros (_ & ? & _). simpl. js_cases. Qed.

Lemma parse_exp_stop r : num_stop r → parse_exp r = Some (0, r).
Proof.
  destruct r as [|c r]; [done|]. intros (_ & _ & ? & ?). unfold parse_exp.
  js_cases.
Qed.

(** An integer of at most 21 digits in normal form: printed without exponent. *)
Definition int_ok (m e : Z) : Prop :=
  (m = 0 ∧ e = 0) ∨
  (m mod 10 ≠ 0 ∧ 0 ≤ e ∧ Z.of_nat (length (radix_str 10 (Z.abs m))) + e ≤ 21).

Lemma dec_norm_scaled k fuel m e :
  m mod 10 ≠ 0 → (k ≤ fuel)%nat →
  dec_norm (S fuel) (m * 10 ^ Z.of_nat k) e = NumDec m (e + Z.of_nat k).
Proof.
  revert fuel e. induction k as [|k IH]; intros fuel e Hm Hk.
  - change (Z.of_nat 0) with 0. rewrite Z.mul_1_r, Z.add_0_r. cbn [dec_norm].
    destruct (Z.eqb_spec m 0) as [->|]; [done|].
    destruct (Z.eqb_spec (m mod 10) 0); done.
  - destruct fuel as [|fuel]; [lia|]. cbn [dec_norm]. fold dec_norm.
    replace (m * 10 ^ Z.of_nat (S k)) with (m * 10 ^ Z.of_nat k * 10)
      by (rewrite Nat2Z.inj_succ, Z.pow_succ_r by lia; lia).
    rewrite Z.mod_mul, Z.div_mul by lia.
    assert (m ≠ 0) by (intros ->; done).
    pose proof (Z.pow_pos_nonneg 10 (Z.of_nat k)).
    destruct (Z.eqb_spec (m * 10 ^ Z.of_nat k * 10) 0); [nia|].
    change (Z.eqb 0 0) with true.
    specialize (IH fuel (e + 1) Hm ltac:(lia)). cbn [dec_norm] in IH. rewrite IH.
    f_equal. lia.
Qed.

Lemma num_dec_scaled m e : m mod 10 ≠ 0 → 0 ≤ e → num_dec (m * 10 ^ e) 0 = NumDec m e.
Proof.
  intros Hm He. rewrite <- (Z2Nat.id e) by done. unfold num_dec.
  rewrite dec_norm_scaled; [by f_equal; lia|done|].
  assert (m ≠ 0) by (intros ->; done).
  apply Nat2Z.inj_le. rewrite !Z2Nat.id by (try apply Z.log2_nonneg; lia).
  pose proof (Z.pow_le_mono_l 2 10 e ltac:(lia)).
  transitivity (Z.log2 (2 ^ e)); [rewrite Z.log2_pow2; lia|].
  apply Z.log2_le_mono. rewrite Z.abs_mul, (Z.abs_eq (10 ^ e)) by lia. nia.
Qed.

Lemma dec_value_zeros k acc : dec_value acc (replicate k 48) = acc * 10 ^ Z.of_nat k.
Proof.
  revert acc. induction k as [|k IH]; intros acc; [simpl; lia|].
  cbn [replicate dec_value]. rewrite IH, Nat2Z.inj_succ, Z.pow_succ_r by lia. lia.
Qed.

Lemma int_digits_str m e :
  int_ok m e → num_digits_str (radix_str 10 (Z.abs m)) e
  = radix_str 10 (Z.abs m) ++ replicate (Z.to_nat e) 48.
Proof.
  intros H. unfold num_digits_str. destruct (Z.leb_spec (Z.of_nat (length (radix_str 10 (Z.abs m))))
    (Z.of_nat (length (radix_str 10 (Z.abs m))) + e)).
  - destruct (Z.leb_spec (Z.of_nat (length (radix_str 10 (Z.abs m))) + e) 21); simpl.
    + do 2 f_equal. lia.
    + destruct H as [[-> ->]|]; [|lia]. vm_compute in H1. done.
  - destruct H; lia.
Qed.

Lemma parse_unsigned_digits sg d ds r :
  Forall (λ c, is_digit c = true) (d :: ds) → d ≠ 48 ∨ ds = [] → num_stop r →
  parse_unsigned sg (d :: ds ++ r) = Some (JNum (num_dec (sg * dec_value 0 (d :: ds)) 0), r).
Proof.
  intros Hds Hd Hr. unfold parse_unsigned.
  change (d :: ds ++ r) with ((d :: ds) ++ r). rewrite span_digits_stop by done.
  assert (Z.eqb d 48 && negb (str_eqb ds []) = false) as ->.
  { destruct Hd as [?| ->]; [by destruct (Z.eqb_spec d 48)|by rewrite andb_false_r]. }
  rewrite eat_stop by done. simpl. rewrite parse_exp_stop by done. simpl. by rewrite app_nil_r.
Qed.

Lemma parse_number_int m e r :
  int_ok m e → num_stop r → parse_number (num_to_str (NumDec m e) ++ r) = Some (JNum (NumDec m e), r).
Proof.
  intros Hok Hr. unfold num_to_str. destruct (Z.eqb_spec m 0) as [->|Hm0].
  { destruct Hok as [[_ ->]|[? _]]; [|done].
    change (js "0" ++ r) with (48 :: [] ++ r). unfold parse_number. simpl eat.
    rewrite parse_unsigned_digits; [done|by repeat constructor|by right|done]. }
  destruct Hok as [[? _]|(Hmod & He & Hlen)]; [done|].
  assert (Hdig : ∀ sg, 0 < Z.abs m → parse_unsigned sg (radix_str 10 (Z.abs m) ++ replicate (Z.to_nat e) 48 ++ r)
    = Some (JNum (num_dec (sg * (Z.abs m * 10 ^ e)) 0), r) ∧
    eat 45 (radix_str 10 (Z.abs m) ++ replicate (Z.to_nat e) 48 ++ r) = None).
  { intros sg Hpos. destruct (radix_str_head _ Hpos) as (d & ds & Hds & Hd).
    pose proof (radix_str_digits (Z.abs m) ltac:(lia)) as Hf.
    pose proof (radix_str_value (Z.abs m) ltac:(lia)) as Hv.
    rewrite Hds in Hf, Hv |- *. rewrite app_assoc. split; [|simpl; by destruct (Z.eqb_spec d 45); [lia|]].
    simpl app. rewrite parse_unsigned_digits; [|apply (Forall_app_2 _ (d :: ds)); [done|by apply Forall_replicate]|lia|done].
    do 4 f_equal. change (d :: ds ++ ?x) with ((d :: ds) ++ x).
    rewrite dec_value_app, Hv, dec_value_zeros, Z2Nat.id; done. }
  pose proof (int_digits_str m e ltac:(right; done)) as Hstr.
  destruct (Hdig 1 ltac:(lia)) as [Hp Hneg]. destruct (Hdig (-1) ltac:(lia)) as [Hn _].
  assert (Hnorm : num_dec (m * 10 ^ e) 0 = NumDec m e) by (by apply num_dec_scaled).
  destruct (Z.ltb_spec m 0).
  - replace (- m) with (Z.abs m) by lia. rewrite Hstr, <- !app_assoc.
    unfold parse_number. change (eat 45 (js "-" ++ ?x)) with (Some x). cbv iota beta.
    rewrite Hn. do 3 f_equal. rewrite <- Hnorm. f_equal. lia.
  - rewrite (Z.abs_eq m) in * by lia. unfold parse_number.
    rewrite Hstr, <- !app_assoc, Hneg, Hp. by rewrite Z.mul_1_l, Hnorm.
Qed.

(** ** Values: [JSON.parse] undoes [JSON.stringify] *)

(** The values whose text determines them: no [undefined], integers of at most
    21 digits, distinct property names in enumeration order. *)
Inductive json_ok : jsval → Prop :=
| json_ok_null : json_ok JNull
| json_ok_bool b : json_ok (JBool b)
| json_ok_int m e : int_ok m e → json_ok (JNum (NumDec m e))
| json_ok_str s : Forall unit_ok s → json_ok (JStr s)
| json_ok_arr l : Forall json_ok l → json_ok (JArr l)
| json_ok_obj o :
    NoDup o.*1 →
    Forall (λ kv, Forall unit_ok kv.1 ∧ array_index kv.1 = None ∧ json_ok kv.2) o →
    json_ok (JObj o).

#[global] Instance int_ok_dec m e : Decision (int_ok m e).
Proof. unfold int_ok. apply _. Defined.

(** A test for [json_ok]. *)
Fixpoint json_okb (v : jsval) : bool :=
  match v with
  | JUndef | JNum NumNaN | JNum (NumInf _) => false
  | JNull | JBool _ => true
  | JNum (NumDec m e) => bool_decide (int_ok m e)
  | JStr s => bool_decide (Forall unit_ok s)
  | JArr l => forallb json_okb l
  | JObj o =>
    bool_decide (NoDup o.*1) &&
    forallb (λ kv, bool_decide (Forall unit_ok kv.1) && bool_decide (array_index kv.1 = None)
                   && json_okb kv.2) o
  end.

Lemma json_okb_sound v : json_okb v = true → json_ok v.
Proof.
  induction v as [| |b|n|s|l IH|o IH] using jsval_rect'; cbn [json_okb]; intros H; try done.
  - constructor.
  - constructor.
  - destruct n; try done. constructor. by apply bool_decide_eq_true in H.
  - constructor. by apply bool_decide_eq_true in H.
  - constructor. rewrite Forall_forall in IH |- *. rewrite forallb_forall in H.
    intros x Hx. apply IH; [done|]. apply H. by apply list_elem_of_In.
  - apply andb_true_iff in H as [Hnd H]. apply bool_decide_eq_true in Hnd.
    constructor; [done|]. rewrite Forall_forall in IH |- *. rewrite forallb_forall in H.
    intros x Hx. specialize (H x ltac:(by apply list_elem_of_In)).
    rewrite !andb_true_iff, !bool_decide_eq_true in H. destruct H as [[? ?] ?]. eauto.
Qed.

(** The text of a value, and of the members of an object. *)
Definition text (v : jsval) : jsstr := default [] (JSON_stringify v).
Definition member_text (kv : jsstr * jsval) : jsstr := quote kv.1 ++ js ":" ++ text kv.2.

Lemma json_ok_stringify v : json_ok v → JSON_stringify v = Some (text v).
Proof. unfold text. by inversion 1. Qed.

Lemma text_arr l :
  Forall json_ok l → text (JArr l) = js "[" ++ join (js ",") (text <$> l) ++ js "]".
Proof.
  intros H. unfold text at 1. simpl. do 3 f_equal. apply list_fmap_ext. intros i x Hx.
  rewrite Forall_lookup in H. by rewrite (json_ok_stringify x) by eauto.
Qed.

Lemma text_obj o :
  Forall (λ kv, Forall unit_ok kv.1 ∧ array_index kv.1 = None ∧ json_ok kv.2) o →
  text (JObj o) = js "{" ++ join (js ",") (member_text <$> o) ++ js "}".
Proof.
  intros H. unfold text at 1. cbn [JSON_stringify default from_option]. unfold id.
  do 3 f_equal.
  set (strs := (fix go (o : jsobj) := match o with [] => [] | (k, x) :: o' => (k, JSON_stringify x) :: go o' end)).
  assert (Hs : strs o = (λ kv, (kv.1, Some (text kv.2))) <$> o).
  { induction H as [|[k x] o (_ & _ & Hx) _ IH]; [done|]. simpl. rewrite IH.
    by rewrite (json_ok_stringify x). }
  rewrite Hs, own_props_names.
  - clear H Hs. induction o as [|[k x] o IH]; [done|]. rewrite !fmap_cons.
    change (member_text (k, x) :: omap prop_text ((λ kv, (kv.1, Some (text kv.2))) <$> o)
      = member_text (k, x) :: (member_text <$> o)). f_equal. exact IH.
  - apply Forall_fmap. eapply Forall_impl; [exact H|]. by intros ? (_ & ? & _).
Qed.

(** The first unit of a text decides which branch of the parser runs. *)
Lemma text_head v : json_ok v → ∃ c t, text v = c :: t ∧
  is_json_space c = false ∧ c ≠ 93 ∧ c ≠ 125 ∧
  match v with
  | JStr _ => c = 34 | JArr _ => c = 91 | JObj _ => c = 123
  | JNum _ => c = 45 ∨ is_digit c = true
  | JBool b => c = if b then 116 else 102 | _ => c = 110
  end.
Proof.
  destruct 1 as [|b|m e Hm|s|l|o]; try (by eexists _, _; split; [reflexivity|split_and!]).
  - destruct b; by eexists _, _.
  - unfold text. cbn [JSON_stringify default].
    assert (∃ c t, num_to_str (NumDec m e) = c :: t ∧ (c = 45 ∨ is_digit c = true)) as (c & t & -> & Hc).
    { unfold num_to_str. destruct (Z.eqb_spec m 0) as [->|]; [by eexists _, _; split; [reflexivity|right]|].
      destruct (Z.ltb_spec m 0); [by eexists _, _; split; [reflexivity|left]|].
      pose proof (int_digits_str m e Hm) as Hs. rewrite (Z.abs_eq m) in Hs by lia. rewrite Hs.
      destruct (radix_str_head m ltac:(lia)) as (d & ds & -> & ?).
      eexists _, _. split; [reflexivity|]. right. unfold is_digit. lia. }
    exists c, t. unfold is_json_space, is_digit in *. split_and!; try done; try lia.
Qed.

Lemma skip_ws_nonspace c s : is_json_space c = false → skip_ws (c :: s) = c :: s.
Proof. intros H. unfold skip_ws. simpl. by rewrite H. Qed.

Definition roundtrips (v : jsval) : Prop :=
  ∀ fuel r, (2 * length (text v) ≤ fuel)%nat → num_stop r →
  parse_value fuel (text v ++ r) = Some (v, r).

Lemma text_length v : json_ok v → (1 ≤ length (text v))%nat.
Proof. intros (c & t & -> & _)%text_head. simpl. lia. Qed.

(** One step of the element and member loops on a text that parses. *)
Lemma parse_elements_step fuel v s acc c s2 :
  parse_value fuel s = Some (v, c :: s2) → is_json_space c = false →
  parse_elements (S fuel) s acc =
    if Z.eqb c 44 then parse_elements fuel s2 (acc ++ [v])
    else if Z.eqb c 93 then Some (JArr (acc ++ [v]), s2) else None.
Proof. intros Hv Hc. cbn [parse_elements]. by rewrite Hv, skip_ws_nonspace. Qed.

Lemma parse_members_step fuel k v t acc c s2 :
  Forall unit_ok k → parse_value fuel t = Some (v, c :: s2) → is_json_space c = false →
  parse_members (S fuel) (quote k ++ js ":" ++ t) acc =
    if Z.eqb c 44 then parse_members fuel s2 (obj_set k v acc)
    else if Z.eqb c 125 then Some (JObj (obj_set k v acc), s2) else None.
Proof.
  intros Hk Hv Hc. unfold quote. cbn [parse_members]. rewrite <- !app_assoc.
  change ([34] ++ ?x) with (34 :: x). rewrite skip_ws_nonspace by done. cbn [eat].
  rewrite Z.eqb_refl. change ([34] ++ js ":" ++ t) with (34 :: js ":" ++ t).
  rewrite parse_string_quote_body by done.
  change (js ":" ++ t) with (58 :: t). rewrite skip_ws_nonspace by done. cbn [eat].
  by rewrite Z.eqb_refl, Hv, skip_ws_nonspace.
Qed.

Lemma parse_elements_text l acc fuel r :
  l ≠ [] → Forall json_ok l → Forall roundtrips l →
  (2 * length (join (js ",") (text <$> l)) + 1 ≤ fuel)%nat →
  parse_elements fuel (join (js ",") (text <$> l) ++ js "]" ++ r) acc = Some (JArr (acc ++ l), r).
Proof.
  revert acc fuel. induction l as [|v l IH]; [done|]. intros acc fuel _ Hok Hrt Hf.
  apply Forall_cons in Hrt as [Hv Hrt]. apply Forall_cons in Hok as [Hvok Hok].
  destruct fuel as [|fuel]; [lia|].
  destruct l as [|w l].
  - cbn [fmap list_fmap join] in Hf |- *.
    erewrite parse_elements_step; [|by apply Hv; [lia|]|]; done.
  - rewrite fmap_cons, join_cons, !length_app in Hf by done. rewrite fmap_cons, join_cons by done.
    rewrite <- !app_assoc. change (length (js ",")) with 1%nat in Hf.
    pose proof (text_length v Hvok).
    erewrite parse_elements_step; [|by apply Hv; [lia|]|done].
    rewrite Z.eqb_refl. rewrite (IH (acc ++ [v])); [by rewrite <- app_assoc|done|done|done|lia].
Qed.

Lemma parse_members_text o acc fuel r :
  o ≠ [] → NoDup (acc ++ o).*1 →
  Forall (λ kv, Forall unit_ok kv.1 ∧ json_ok kv.2 ∧ roundtrips kv.2) o →
  (2 * length (join (js ",") (member_text <$> o)) + 1 ≤ fuel)%nat →
  parse_members fuel (join (js ",") (member_text <$> o) ++ js "}" ++ r) acc = Some (JObj (acc ++ o), r).
Proof.
  revert acc fuel. induction o as [|[k v] o IH]; [done|]. intros acc fuel _ Hnd Hrt Hf.
  apply Forall_cons in Hrt as [(Hk & Hvok & Hv) Hrt]. simpl in Hk, Hv, Hvok.
  destruct fuel as [|fuel]; [lia|].
  assert (Hfresh : obj_set k v acc = acc ++ [(k, v)]).
  { apply obj_set_fresh. rewrite fmap_app in Hnd. apply NoDup_app in Hnd as (_ & Hd & _).
    intros Hin. apply (Hd k Hin). simpl. set_solver. }
  assert (Hlen : length (member_text (k, v)) = (3 + length (quote_body k) + length (text v))%nat).
  { unfold member_text, quote. rewrite !length_app. simpl. lia. }
  destruct o as [|kv o].
  - cbn [fmap list_fmap join] in Hf |- *. unfold member_text at 1. cbn [fst snd]. rewrite <- !app_assoc.
    erewrite parse_members_step; [|done|by apply Hv; [simpl; lia|]|done].
    rewrite Hfresh. done.
  - rewrite fmap_cons, join_cons, !length_app in Hf by done. rewrite fmap_cons, join_cons by done.
    change (length (js ",")) with 1%nat in Hf.
    unfold member_text at 1. cbn [fst snd]. rewrite <- !app_assoc.
    erewrite parse_members_step; [|done|by apply Hv; [simpl; lia|]|done].
    rewrite Z.eqb_refl, Hfresh. rewrite IH; [by rewrite <- app_assoc|done| |done|lia].
    by rewrite <- app_assoc.
Qed.

Lemma parse_value_text v : json_ok v → roundtrips v.
Proof.
  induction v as [| |b|n|s|l IH|o IH] using jsval_rect'; intros Hok fuel r Hf Hr.
  all: destruct (text_head _ Hok) as (c & t & Ht & Hsp & H93 & H125 & Hc).
  all: pose proof (text_length _ Hok); destruct fuel as [|fuel]; [lia|].
  all: inversion Hok; subst.
  - done.
  - destruct b; done.
  - unfold text in *. cbn [JSON_stringify default from_option] in *. unfold id in *.
    pose proof (parse_number_int m e r ltac:(done) Hr) as Hp. rewrite Ht in Hp |- *.
    simpl app in *. cbn [parse_value]. rewrite skip_ws_nonspace by done.
    unfold is_digit in Hc.
    repeat match goal with |- context [Z.eqb c ?x] => destruct (Z.eqb_spec c x); [lia|] end. done.
  - change (text (JStr s)) with (quote s). unfold quote. rewrite <- !app_assoc. cbn [app parse_value].
    rewrite skip_ws_nonspace, Z.eqb_refl by done. by rewrite parse_string_quote_body.
  - rewrite text_arr in * by done. destruct (decide (l = [])) as [->|Hl]; [done|].
    cbn [app] in Hf. rewrite !length_app in Hf. change (length (js "[")) with 1%nat in Hf.
    change (length (js "]")) with 1%nat in Hf. rewrite <- !app_assoc.
    change (js "[" ++ ?x) with (91 :: x). cbn [parse_value]. rewrite skip_ws_nonspace by done.
    change (Z.eqb 91 34) with false. change (Z.eqb 91 91) with true. cbv iota.
    assert (eat 93 (skip_ws (join (js ",") (text <$> l) ++ js "]" ++ r)) = None) as ->.
    { destruct l as [|v l]; [done|].
      assert (Hv : json_ok v) by (by eapply Forall_cons).
      destruct (text_head v Hv) as (d & u & Hu & Hd & Hd93 & _).
      rewrite fmap_cons, Hu. destruct (text <$> l); cbn [join app];
        rewrite skip_ws_nonspace by done; simpl; by destruct (Z.eqb_spec d 93). }
    apply parse_elements_text; [done|done| |lia]. rewrite Forall_forall in *. eauto.
  - rewrite text_obj in * by done. destruct (decide (o = [])) as [->|Ho]; [done|].
    cbn [app] in Hf. rewrite !length_app in Hf. change (length (js "{")) with 1%nat in Hf.
    change (length (js "}")) with 1%nat in Hf. rewrite <- !app_assoc.
    change (js "{" ++ ?x) with (123 :: x). cbn [parse_value]. rewrite skip_ws_nonspace by done.
    change (Z.eqb 123 34) with false. change (Z.eqb 123 91) with false.
    change (Z.eqb 123 123) with true. cbv iota.
    assert (eat 125 (skip_ws (join (js ",") (member_text <$> o) ++ js "}" ++ r)) = None) as ->.
    { destruct o as [|[k v] o]; [done|]. rewrite fmap_cons. unfold member_text at 1, quote.
      by destruct (member_text <$> o). }
    apply parse_members_text; [done|done| |lia]. rewrite Forall_forall in *. naive_solver.
Qed.

(** What [JSON.stringify] prints, [JSON.parse] reads back. *)
Lemma JSON_roundtrip v :
  json_ok v → ∃ t, JSON_stringify v = Some t ∧ JSON_parse t = Some v.
Proof.
  intros Hok. exists (text v). split; [by apply json_ok_stringify|].
  pose proof (parse_value_text v Hok (S (2 * length (text v))) [] ltac:(lia) I) as Hp.
  rewrite app_nil_r in Hp. unfold JSON_parse. by rewrite Hp.
Qed.

(** ** The fuel is enough: more of it never changes a result *)

Lemma skip_ws_length s : (length (skip_ws s) ≤ length s)%nat.
Proof. apply suffix_length, drop_while_suffix. Qed.

Lemma eat_length c s r : eat c s = Some r → length s = S (length r).
Proof. destruct s as [|x s]; simpl; [done|]. case_match; naive_solver. Qed.

Lemma parse_string_length s t r : parse_string s = Some (t, r) → (length r < length s)%nat.
Proof.
  revert t. induction s as [s IH] using (induction_ltof1 _ length); intros t Hp.
  unfold ltof in IH. destruct s as [|c s]; [done|]. cbn [parse_string] in Hp.
  repeat case_match; simplify_eq/=;
    try match goal with H : parse_string _ = Some _ |- _ => apply IH in H end; simpl in *; lia.
Qed.

Lemma span_digits_length s d r : span_digits s = (d, r) → (length s = length d + length r)%nat.
Proof.
  revert d. induction s as [|c s IH]; intros d H; simpl in H; [by simplify_eq|].
  destruct (is_digit c); [|by simplify_eq]. destruct (span_digits s) as [d' r'].
  simplify_eq/=. by rewrite (IH d').
Qed.

Lemma parse_exp_length s e r : parse_exp s = Some (e, r) → (length r ≤ length s)%nat.
Proof.
  unfold parse_exp. intros H.
  repeat case_match; simplify_eq;
    repeat match goal with H : span_digits _ = _ |- _ => apply span_digits_length in H end;
    simpl in *; lia.
Qed.

Lemma parse_unsigned_length sg s v r : parse_unsigned sg s = Some (v, r) → (length r < length s)%nat.
Proof.
  unfold parse_unsigned. intros H.
  repeat case_match; simplify_eq;
    repeat match goal with
    | H : span_digits _ = _ |- _ => apply span_digits_length in H
    | H : parse_exp _ = Some _ |- _ => apply parse_exp_length in H
    | H : eat _ _ = Some _ |- _ => apply eat_length in H
    end; simpl in *; lia.
Qed.

Lemma parse_number_length s v r : parse_number s = Some (v, r) → (length r < length s)%nat.
Proof.
  unfold parse_number. destruct (eat 45 s) eqn:E; intros H%parse_unsigned_length;
    [apply eat_length in E|]; lia.
Qed.

Lemma parse_word_length w v' s v r :
  w ≠ [] → parse_word w v' s = Some (v, r) → (length r < length s)%nat.
Proof.
  unfold parse_word. intros Hw. destruct (starts_with w s) eqn:E; [|done].
  intros [= <- <-]. apply starts_with_prefix in E as [k ->].
  rewrite drop_app_length, length_app. destruct w; [done|simpl; lia].
Qed.

(** Every parse consumes input. *)
Lemma parse_length fuel :
  (∀ s v r, parse_value fuel s = Some (v, r) → (length r < length s)%nat) ∧
  (∀ s acc v r, parse_elements fuel s acc = Some (v, r) → (length r < length s)%nat) ∧
  (∀ s acc v r, parse_members fuel s acc = Some (v, r) → (length r < length s)%nat).
Proof.
  induction fuel as [|fuel (IHv & IHe & IHm)]; [done|]. split_and!.
  - intros s v r H. cbn [parse_value] in H. pose proof (skip_ws_length s).
    destruct (skip_ws s) as [|c s1] eqn:Es; [done|]. simpl in *.
    pose proof (skip_ws_length s1).
    repeat case_match; simplify_eq/=;
      repeat match goal with
      | H : eat _ _ = Some _ |- _ => apply eat_length in H
      | H : parse_string _ = Some _ |- _ => apply parse_string_length in H
      | H : parse_elements _ _ _ = Some _ |- _ => apply IHe in H
      | H : parse_members _ _ _ = Some _ |- _ => apply IHm in H
      | H : parse_word _ _ _ = Some _ |- _ => apply parse_word_length in H; [|done]
      | H : parse_number _ = Some _ |- _ => apply parse_number_length in H
      end; simpl in *; lia.
  - intros s acc v r H. cbn [parse_elements] in H.
    destruct (parse_value fuel s) as [[w s1]|] eqn:Ev; [|done]. apply IHv in Ev.
    pose proof (skip_ws_length s1). destruct (skip_ws s1) as [|c s2]; [done|]. simpl in *.
    repeat case_match; simplify_eq/=; [apply IHe in H|]; lia.
  - intros s acc v r H. cbn [parse_members] in H. pose proof (skip_ws_length s).
    destruct (eat 34 (skip_ws s)) as [s1|] eqn:E1; [|done]. apply eat_length in E1.
    destruct (parse_string s1) as [[k s2]|] eqn:E2; [|done]. apply parse_string_length in E2.
    pose proof (skip_ws_length s2). destruct (eat 58 (skip_ws s2)) as [s3|] eqn:E3; [|done].
    apply eat_length in E3. destruct (parse_value fuel s3) as [[w s4]|] eqn:E4; [|done].
    apply IHv in E4. pose proof (skip_ws_length s4). destruct (skip_ws s4) as [|c s5]; [done|].
    simpl in *. repeat case_match; simplify_eq/=; [apply IHm in H|]; lia.
Qed.

(** Fuel above twice the length of the text is as good as any other. *)
Lemma parse_fuel fuel :
  (∀ s fuel', (2 * length s < fuel)%nat → (fuel ≤ fuel')%nat →
    parse_value fuel' s = parse_value fuel s) ∧
  (∀ s acc fuel', (2 * length s + 1 < fuel)%nat → (fuel ≤ fuel')%nat →
    parse_elements fuel' s acc = parse_elements fuel s acc) ∧
  (∀ s acc fuel', (2 * length s < fuel)%nat → (fuel ≤ fuel')%nat →
    parse_members fuel' s acc = parse_members fuel s acc).
Proof.
  induction fuel as [|fuel (IHv & IHe & IHm)]; [split_and!; intros; lia|].
  split_and!; intros s; [intros [|fuel'] Hs Hf|intros acc [|fuel'] Hs Hf..]; try lia.
  - cbn [parse_value]. pose proof (skip_ws_length s).
    destruct (skip_ws s) as [|c s1]; [done|]. simpl in *.
    by rewrite IHe, IHm by lia.
  - cbn [parse_elements]. rewrite IHv by lia.
    destruct (parse_value fuel s) as [[w s1]|] eqn:Ev; [|done].
    apply (proj1 (parse_length fuel)) in Ev. pose proof (skip_ws_length s1).
    destruct (skip_ws s1) as [|c s2]; [done|]. simpl in *. by rewrite IHe by lia.
  - cbn [parse_members]. pose proof (skip_ws_length s).
    destruct (eat 34 (skip_ws s)) as [s1|] eqn:E1; [|done]. apply eat_length in E1.
    destruct (parse_string s1) as [[k s2]|] eqn:E2; [|done]. apply parse_string_length in E2.
    pose proof (skip_ws_length s2). destruct (eat 58 (skip_ws s2)) as [s3|] eqn:E3; [|done].
    apply eat_length in E3. rewrite IHv by lia.
    destruct (parse_value fuel s3) as [[w s4]|] eqn:E4; [|done].
    apply (proj1 (parse_length fuel)) in E4. pose proof (skip_ws_length s4).
    destruct (skip_ws s4) as [|c s5]; [done|]. simpl in *. by rewrite IHm by lia.
Qed.

Lemma parse_value_fuel s fuel :
  (2 * length s < fuel)%nat → parse_value fuel s = parse_value (S (2 * length s)) s.
Proof. intros. apply (proj1 (parse_fuel (S (2 * length s)))); lia. Qed.
