(* ===== verification/JsText.v ===== *)
(** * Text encodings of the JavaScript globals

    UTF-8, [encodeURIComponent] and the legacy [escape], on strings of UTF-16
    code units. *)

From stdpp Require Import base strings list.
From Stdlib Require Import ZArith Lia.
From S2P Require Import Prelude JsValue Json.

Local Open Scope Z_scope.

(** The code points of a string; a surrogate that is not part of a pair is
    [inr]. *)
Fixpoint code_points (s : jsstr) : list (Z + Z) :=
  match s with
  | [] => []
  | c :: s' =>
    if is_high_surrogate c then
      match s' with
      | d :: s'' =>
        if is_low_surrogate d
        then inl (65536 + (c - 55296) * 1024 + (d - 56320)) :: code_points s''
        else inr c :: code_points s'
      | [] => [inr c]
      end
    else if is_low_surrogate c then inr c :: code_points s'
    else inl c :: code_points s'
  end.

(** The UTF-8 bytes of a code point. *)
Definition utf8_point (p : Z) : list Z :=
  if Z.ltb p 128 then [p]
  else if Z.ltb p 2048 then [192 + p / 64; 128 + p mod 64]
  else if Z.ltb p 65536 then [224 + p / 4096; 128 + p / 64 mod 64; 128 + p mod 64]
  else [240 + p / 262144; 128 + p / 4096 mod 64; 128 + p / 64 mod 64; 128 + p mod 64].

(** [Buffer.from(s)]: a lone surrogate is replaced by U+FFFD. *)
Definition utf8 (s : jsstr) : list Z :=
  flat_map (λ p, match p with inl p => utf8_point p | inr _ => utf8_point 65533 end) (code_points s).

(** Upper-case hexadecimal digits, two per byte. *)
Definition upper_digit (d : Z) : Z := if Z.ltb d 10 then 48 + d else 55 + d.
Definition percent_byte (b : Z) : jsstr := [37; upper_digit (b / 16); upper_digit (b mod 16)].

Definition is_alnum (c : Z) : bool :=
  is_digit c || (Z.leb 65 c && Z.leb c 90) || (Z.leb 97 c && Z.leb c 122).

(** The marks [encodeURIComponent] keeps: [- _ . ! ~ * ' ( )]. *)
Definition is_uri_mark (c : Z) : bool :=
  Z.eqb c 45 || Z.eqb c 95 || Z.eqb c 46 || Z.eqb c 33 || Z.eqb c 126 ||
  Z.eqb c 42 || Z.eqb c 39 || Z.eqb c 40 || Z.eqb c 41.

Definition encode_point (p : Z + Z) : option jsstr :=
  match p with
  | inl p => Some (if is_alnum p || is_uri_mark p then [p] else flat_map percent_byte (utf8_point p))
  | inr _ => None
  end.

(** [encodeURIComponent(s)]; [None] is a thrown URIError. *)
Definition encodeURIComponent (s : jsstr) : option jsstr :=
  (λ l, concat l) <$> mapM encode_point (code_points s).

(** [escape(s)] of Annex B: keeps [@ * _ + - . /] and the alphanumerics. *)
Definition escape_unit (c : Z) : jsstr :=
  if is_alnum c || Z.eqb c 64 || Z.eqb c 42 || Z.eqb c 95 || Z.eqb c 43 ||
     Z.eqb c 45 || Z.eqb c 46 || Z.eqb c 47 then [c]
  else if Z.ltb c 256 then percent_byte c
  else js "%u" ++ [upper_digit (c / 4096); upper_digit (c / 256 mod 16);
                   upper_digit (c / 16 mod 16); upper_digit (c mod 16)].
Definition escape (s : jsstr) : jsstr := flat_map escape_unit s.

Example encode_uri_ex :
  encodeURIComponent (js "a b*c'" ++ [233; 8364; 55357; 56832]) =
    Some (js "a%20b*c'%C3%A9%E2%82%AC%F0%9F%98%80") ∧
  encodeURIComponent [55357] = None.
Proof. split; vm_compute; reflexivity. Qed.

(** ** decodeURIComponent *)

Definition hex_digit (c : Z) : option Z :=
  if is_digit c then Some (c - 48)
  else if Z.leb 65 c && Z.leb c 70 then Some (c - 55)
  else if Z.leb 97 c && Z.leb c 102 then Some (c - 87) else None.

(** An escape [%XX] at the head of the text, and what follows it. *)
Definition hex_escape (s : jsstr) : option (Z * jsstr) :=
  match s with
  | 37 :: a :: b :: s' => x ← hex_digit a; y ← hex_digit b; Some (16 * x + y, s')
  | _ => None
  end.

(** [n] continuation bytes. *)
Fixpoint continuation (n : nat) (acc : Z) (s : jsstr) : option (Z * jsstr) :=
  match n with
  | O => Some (acc, s)
  | S n =>
    '(b, s') ← hex_escape s;
    if Z.leb 128 b && Z.ltb b 192 then continuation n (64 * acc + (b - 128)) s' else None
  end.

(** The count of continuation bytes, the bits and the least code point of a
    leading byte. *)
Definition lead_byte (b : Z) : option (nat * Z * Z) :=
  if Z.leb 192 b && Z.ltb b 224 then Some (1%nat, b - 192, 128)
  else if Z.leb 224 b && Z.ltb b 240 then Some (2%nat, b - 224, 2048)
  else if Z.leb 240 b && Z.ltb b 248 then Some (3%nat, b - 240, 65536)
  else None.

Definition utf16_point (p : Z) : jsstr :=
  if Z.ltb p 65536 then [p] else [55296 + (p - 65536) / 1024; 56320 + (p - 65536) mod 1024].

(** The first character of the text, decoded, and the rest. *)
Definition decode_char (s : jsstr) : option (jsstr * jsstr) :=
  match s with
  | [] => None
  | c :: s' =>
    if Z.eqb c 37 then
      '(b, rest) ← hex_escape s;
      if Z.ltb b 128 then Some ([b], rest)
      else
        '(n, bits, least) ← lead_byte b;
        '(p, rest) ← continuation n bits rest;
        if Z.leb least p && Z.ltb p 1114112 && negb (Z.leb 55296 p && Z.ltb p 57344)
        then Some (utf16_point p, rest) else None
    else Some ([c], s')
  end.

Fixpoint decode_chars (fuel : nat) (s : jsstr) : option jsstr :=
  match fuel, s with
  | _, [] => Some []
  | O, _ => None
  | S fuel, _ => '(t, rest) ← decode_char s; u ← decode_chars fuel rest; Some (t ++ u)
  end.

(** [decodeURIComponent(s)]; [None] is a thrown URIError.  Every character takes
    at least one unit, so the length of the text is enough fuel. *)
Definition decodeURIComponent (s : jsstr) : option jsstr := decode_chars (length s) s.

Example decode_uri_ex :
  decodeURIComponent (js "a%20b*c'%c3%A9%E2%82%AC%F0%9F%98%80") =
    Some (js "a b*c'" ++ [233; 8364; 55357; 56832]) ∧
  decodeURIComponent (js "%C0%80") = None ∧ decodeURIComponent (js "%4") = None.
Proof. split_and!; vm_compute; reflexivity. Qed.
