(* ===== verification/UriUtil.v ===== *)
(** * URI escaping and query strings

    [util.uriEscape], [util.uriEscapePath] and [util.queryParamsToString] of
    the bundled SDK (dist/index.js 26111-26163), on top of the JavaScript
    globals [encodeURIComponent] and [escape] of JsText, and [util.ARN]
    (27078-27101). *)

From stdpp Require Import base strings list sorting.
From Stdlib Require Import ZArith Lia.
From S2P Require Import Prelude JsValue Json JsText.

Local Open Scope Z_scope.

(** ** uriEscape *)

(** The units the class [[^A-Za-z0-9_.~\-%]] leaves alone. *)
Definition kept_unit (c : Z) : bool :=
  is_alnum c || Z.eqb c 95 || Z.eqb c 46 || Z.eqb c 126 || Z.eqb c 45 || Z.eqb c 37.

(** [output.replace(/[^A-Za-z0-9_.~\-%]+/g, escape)]: [escape] works unit by
    unit, so replacing the runs is replacing their units. *)
Definition escape_others (s : jsstr) : jsstr :=
  flat_map (λ c, if kept_unit c then [c] else escape [c]) s.

(** [output.replace(/[*]/g, ...)]. *)
Definition escape_star (s : jsstr) : jsstr :=
  flat_map (λ c, if Z.eqb c 42 then js "%" ++ to_upper (radix_str 16 c) else [c]) s.

(** [None]: [encodeURIComponent] throws a URIError. *)
Definition uriEscape (s : jsstr) : option jsstr :=
  (λ output, escape_star (escape_others output)) <$> encodeURIComponent s.

Definition uriEscapePath (s : jsstr) : option jsstr :=
  join (js "/") <$> mapM uriEscape (split_on 47 s).

(** ** queryParamsToString *)

Definition query_item (params : jsobj) (name : jsstr) : option jsstr :=
  let value := obj_prop params name in
  ename ← uriEscape name;
  match value with
  | JArr l =>
    vals ← mapM (λ item, uriEscape (to_string item)) l;
    Some (ename ++ js "=" ++ join (js "&" ++ ename ++ js "=") (sort_strings vals))
  | JUndef | JNull => Some (ename ++ js "=")
  | _ => v ← uriEscape (to_string value); Some (ename ++ js "=" ++ v)
  end.

Definition queryParamsToString (params : jsobj) : option jsstr :=
  join (js "&") <$> mapM (query_item params) (sort_strings (own_keys params)).

(** ** ARN *)

Record arn := Arn {
  partition : option jsstr;
  arn_service : option jsstr;
  arn_region : option jsstr;
  accountId : option jsstr;
  resource : option jsstr;
}.

Definition validateARN (s : jsstr) : bool :=
  negb (str_eqb s []) && Z.eqb (index_of (js "arn:") s) 0 && Nat.leb 6 (length (split_on 58 s)).

Definition parseARN (s : jsstr) : arn :=
  let matched := split_on 58 s in
  Arn (matched !! 1%nat) (matched !! 2%nat) (matched !! 3%nat) (matched !! 4%nat)
    (Some (join (js ":") (drop 5 matched))).

(** [None]: the ARN object is invalid. *)
Definition buildARN (a : arn) : option jsstr :=
  service ← arn_service a; region ← arn_region a; account ← accountId a; res ← resource a;
  Some (js "arn:" ++ (match partition a with Some ((_ :: _) as p) => p | _ => js "aws" end) ++ js ":" ++
        service ++ js ":" ++ region ++ js ":" ++ account ++ js ":" ++ res).

(** ** The reference: RFC 3986 percent-encoding *)

(** Unreserved characters stand for themselves, every other byte of the UTF-8
    form is a percent sign and two upper-case hexadecimal digits. *)
Definition is_unreserved (b : Z) : bool :=
  is_alnum b || Z.eqb b 45 || Z.eqb b 46 || Z.eqb b 95 || Z.eqb b 126.
Definition pct_byte (b : Z) : jsstr := if is_unreserved b then [b] else percent_byte b.
Definition pct_encode (s : jsstr) : jsstr := flat_map pct_byte (utf8 s).

(** Decoding, for the round trip: [None] on a malformed escape. *)
Definition upper_hex (c : Z) : option Z :=
  if Z.leb 48 c && Z.leb c 57 then Some (c - 48)
  else if Z.leb 65 c && Z.leb c 70 then Some (c - 55) else None.
Fixpoint pct_decode (s : jsstr) : option (list Z) :=
  match s with
  | [] => Some []
  | 37 :: h :: l :: s' =>
    a ← upper_hex h; b ← upper_hex l; r ← pct_decode s'; Some (16 * a + b :: r)
  | 37 :: _ => None
  | c :: s' => r ← pct_decode s'; Some (c :: r)
  end.

(** A string without lone surrogates. *)
Definition well_formed (s : jsstr) : Prop :=
  Forall unit_ok s ∧ Forall (λ p, match p with inl _ => True | inr _ => False end) (code_points s).

#[global] Instance well_formed_dec s : Decision (well_formed s).
Proof.
  apply and_dec; apply Forall_dec; [intros c; unfold unit_ok; apply _|]. intros [?|?]; [left; exact I|right; exact (λ f, f)].
Defined.

(** ** Lemmas on percent-encoding *)

Definition byte_ok (b : Z) : Prop := 0 ≤ b < 256.

Lemma upper_digit_range d : 0 ≤ d < 16 → 48 ≤ upper_digit d ≤ 57 ∨ 65 ≤ upper_digit d ≤ 70.
Proof. unfold upper_digit. destruct (Z.ltb_spec d 10); lia. Qed.

Lemma upper_hex_digit d : 0 ≤ d < 16 → upper_hex (upper_digit d) = Some d.
Proof.
  intros Hd. unfold upper_hex, upper_digit. destruct (Z.ltb_spec d 10);
    repeat match goal with |- context [Z.leb ?a ?b] => destruct (Z.leb_spec a b); simpl end;
    first [lia | f_equal; lia].
Qed.

Lemma byte_digits b : byte_ok b → 0 ≤ b / 16 < 16 ∧ 0 ≤ b mod 16 < 16.
Proof.
  unfold byte_ok. intros Hb. split; [|apply Z.mod_pos_bound; lia].
  split; [apply Z.div_pos; lia|apply Z.div_lt_upper_bound; lia].
Qed.

(** The units of an escape survive the later replacements. *)
Lemma escape_later_percent b :
  byte_ok b → escape_star (escape_others (percent_byte b)) = percent_byte b.
Proof.
  intros Hb. destruct (byte_digits b Hb) as [Hh Hl].
  assert (Hkeep : ∀ d, 0 ≤ d < 16 → kept_unit (upper_digit d) = true ∧ upper_digit d ≠ 42).
  { intros d Hd. unfold kept_unit, is_alnum, is_digit.
    destruct (upper_digit_range d Hd); split; try lia.
    all: rewrite ?(proj2 (Z.leb_le 48 _)), ?(proj2 (Z.leb_le _ 57)), ?(proj2 (Z.leb_le 65 _)),
      ?(proj2 (Z.leb_le _ 90)) by lia; simpl; rewrite ?orb_true_r; done. }
  unfold escape_star, escape_others, percent_byte.
  destruct (Hkeep _ Hh) as [K1 N1], (Hkeep _ Hl) as [K2 N2].
  cbn [flat_map app]. replace (kept_unit 37) with true by done. rewrite K1, K2.
  cbn [flat_map app]. rewrite (proj2 (Z.eqb_neq _ _) N1), (proj2 (Z.eqb_neq _ _) N2). done.
Qed.

Lemma escape_later_percents l :
  Forall byte_ok l →
  escape_star (escape_others (flat_map percent_byte l)) = flat_map percent_byte l.
Proof.
  induction 1 as [|b l Hb _ IH]; [done|]. cbn [flat_map].
  unfold escape_star, escape_others in *. rewrite !flat_map_app. f_equal; [|done].
  by apply escape_later_percent.
Qed.

(** Code points that [encodeURIComponent] keeps. *)
Lemma escape_later_kept p :
  is_alnum p || is_uri_mark p = true →
  escape_star (escape_others [p]) = flat_map pct_byte (utf8_point p).
Proof.
  intros Hp.
  assert (Hr : 0 ≤ p < 128).
  { unfold is_alnum, is_digit, is_uri_mark in Hp. rewrite !orb_true_iff, !andb_true_iff in Hp. lia. }
  assert (Hu : utf8_point p = [p]) by (unfold utf8_point; by rewrite (proj2 (Z.ltb_lt p 128)) by lia).
  rewrite Hu. destruct (is_unreserved p) eqn:Hun.
  - cbn [flat_map app]. unfold escape_others, escape_star, pct_byte. rewrite Hun.
    assert (Hk : kept_unit p = true ∧ p ≠ 42).
    { unfold is_unreserved, kept_unit, is_alnum, is_digit in *.
      rewrite !orb_true_iff, !andb_true_iff, ?Z.leb_le, ?Z.eqb_eq in *. split; [tauto|lia]. }
    destruct Hk as [Hk Hn]. cbn [flat_map app]. rewrite Hk. cbn [flat_map app].
    by rewrite (proj2 (Z.eqb_neq _ _) Hn).
  - assert (Hs : p = 33 ∨ p = 42 ∨ p = 39 ∨ p = 40 ∨ p = 41).
    { unfold is_unreserved, is_uri_mark in *.
      rewrite !orb_false_iff, !orb_true_iff, ?Z.eqb_neq, ?Z.eqb_eq in *. intuition congruence. }
    destruct Hs as [->|[->|[->|[->| ->]]]]; vm_compute; reflexivity.
Qed.

(** The bytes of a code point in range. *)
Definition point_ok (p : Z) : Prop := 0 ≤ p < 1114112.

Lemma utf8_point_bytes p :
  point_ok p → Forall byte_ok (utf8_point p) ∧ (128 ≤ p → Forall (λ b, 128 ≤ b) (utf8_point p)).
Proof.
  unfold point_ok, byte_ok. intros Hp. unfold utf8_point.
  destruct (Z.ltb_spec p 128); [split; [repeat constructor; lia|lia]|].
  assert (Hd : ∀ k, 0 < k → 0 ≤ p / k ≤ p) by
    (intros k Hk; split; [apply Z.div_pos; lia|apply Z.div_le_upper_bound; nia]).
  assert (Hm : ∀ x, 0 ≤ x mod 64 < 64) by (intros; apply Z.mod_pos_bound; lia).
  pose proof (Hd 64). pose proof (Hd 4096). pose proof (Hd 262144).
  pose proof (Hm p). pose proof (Hm (p / 64)). pose proof (Hm (p / 4096)).
  destruct (Z.ltb_spec p 2048); [|destruct (Z.ltb_spec p 65536)].
  - assert (p / 64 < 32) by (apply Z.div_lt_upper_bound; lia). split; [|intros _]; repeat constructor; lia.
  - assert (p / 4096 < 16) by (apply Z.div_lt_upper_bound; lia). split; [|intros _]; repeat constructor; lia.
  - assert (p / 262144 < 5) by (apply Z.div_lt_upper_bound; lia). split; [|intros _]; repeat constructor; lia.
Qed.

Lemma high_not_unreserved b : 128 ≤ b → is_unreserved b = false.
Proof. intros Hb. unfold is_unreserved, is_alnum, is_digit. lia. Qed.

(** Per code point, the three replacements are the reference. *)
Lemma uriEscape_point p :
  point_ok p →
  ∃ t, encode_point (inl p) = Some t ∧ escape_star (escape_others t) = flat_map pct_byte (utf8_point p).
Proof.
  intros Hp. simpl. eexists. split; [done|].
  destruct (is_alnum p || is_uri_mark p) eqn:Hk; [by apply escape_later_kept|].
  destruct (utf8_point_bytes p Hp) as [Hb Hhigh]. rewrite escape_later_percents by done.
  assert (Hun : Forall (λ b, is_unreserved b = false) (utf8_point p)).
  { destruct (decide (128 ≤ p)) as [Hge|Hlt].
    - eapply Forall_impl; [by apply Hhigh|]. intros b. apply high_not_unreserved.
    - unfold point_ok in Hp. unfold utf8_point. rewrite (proj2 (Z.ltb_lt p 128)) by lia.
      repeat constructor. unfold is_unreserved, is_uri_mark in *.
      apply orb_false_iff in Hk as [Ha Hk]. rewrite Ha. rewrite !orb_false_iff in Hk.
      rewrite !orb_false_iff. tauto. }
  clear -Hun. induction Hun as [|b l Hb _ IH]; [done|]. cbn [flat_map].
  unfold pct_byte at 1. rewrite Hb. by f_equal.
Qed.

Lemma code_points_ok s :
  Forall unit_ok s → Forall (λ p, match p with inl p => point_ok p | inr _ => True end) (code_points s).
Proof.
  induction s as [s IH] using (induction_ltof1 _ (@length Z)). unfold ltof in IH.
  destruct s as [|c s]; [constructor|]. intros [Hc Hs]%Forall_cons.
  assert (Hrec : ∀ s', (length s' < length (c :: s))%nat → Forall unit_ok s' →
    Forall (λ p, match p with inl p => point_ok p | inr _ => True end) (code_points s')) by auto.
  cbn [code_points]. unfold unit_ok in Hc.
  destruct (is_high_surrogate c) eqn:Hh.
  - destruct s as [|d s]; [by repeat constructor|].
    destruct (is_low_surrogate d) eqn:Hl.
    + apply Forall_cons in Hs as [_ Hs]. constructor; [|apply Hrec; [simpl; lia|done]].
      unfold is_high_surrogate, is_low_surrogate, point_ok in *. lia.
    + constructor; [done|]. apply Hrec; [simpl; lia|done].
  - destruct (is_low_surrogate c); constructor; try done; try (apply Hrec; [simpl; lia|done]).
    unfold point_ok. lia.
Qed.

Lemma uriEscape_points ps :
  Forall (λ p, match p with inl p => point_ok p | inr _ => False end) ps →
  ∃ ts, mapM encode_point ps = Some ts ∧
    escape_star (escape_others (concat ts)) =
    flat_map pct_byte (flat_map (λ p, match p with inl p => utf8_point p | inr _ => utf8_point 65533 end) ps).
Proof.
  induction 1 as [|p ps Hp _ (ts & Hts & IH)]; [by exists []|].
  destruct p as [p|]; [|done]. destruct (uriEscape_point p Hp) as (t & Ht & He).
  exists (t :: ts). cbn [mapM]. rewrite Ht. cbn [mbind option_bind]. rewrite Hts. split; [done|].
  cbn [concat flat_map]. unfold escape_star, escape_others in *.
  rewrite !flat_map_app. by rewrite He, IH.
Qed.

Lemma uriEscape_encodes s : well_formed s → uriEscape s = Some (pct_encode s).
Proof.
  intros [Hu Hw]. destruct (uriEscape_points (code_points s)) as (ts & Hts & He).
  - pose proof (code_points_ok s Hu) as Hp. rewrite Forall_forall in *.
    intros p Hin. specialize (Hw p Hin). specialize (Hp p Hin). by destruct p.
  - unfold uriEscape, encodeURIComponent. rewrite Hts. simpl. f_equal. exact He.
Qed.

Lemma pct_decode_byte b s :
  byte_ok b → pct_decode (pct_byte b ++ s) = (r ← pct_decode s; Some (b :: r)).
Proof.
  intros Hb. unfold pct_byte. destruct (is_unreserved b) eqn:Hun.
  - assert (Hn : b ≠ 37).
    { unfold is_unreserved, is_alnum, is_digit in Hun. lia. }
    simpl. repeat case_match; simplify_eq; done.
  - destruct (byte_digits b Hb) as [Hh Hl]. cbn [app percent_byte pct_decode].
    rewrite !upper_hex_digit by done. cbn [mbind option_bind].
    replace (16 * (b / 16) + b mod 16) with b; [done|]. by rewrite <- Z_div_mod_eq_full.
Qed.

Lemma pct_decode_encode l : Forall byte_ok l → pct_decode (flat_map pct_byte l) = Some l.
Proof.
  induction 1 as [|b l Hb _ IH]; [done|]. cbn [flat_map].
  rewrite pct_decode_byte by done. by rewrite IH.
Qed.

Lemma utf8_bytes s : Forall unit_ok s → Forall byte_ok (utf8 s).
Proof.
  intros Hu. pose proof (code_points_ok s Hu) as Hp. unfold utf8.
  induction Hp as [|p ps Hp _ IH]; [constructor|]. cbn [flat_map]. apply Forall_app. split; [|done].
  destruct p; [by apply utf8_point_bytes|]. vm_compute. repeat constructor; done.
Qed.

(** ** decodeURIComponent inverts the escaping *)

Lemma hex_digit_upper d : 0 ≤ d < 16 → hex_digit (upper_digit d) = Some d.
Proof.
  intros Hd. unfold hex_digit, upper_digit, is_digit. destruct (Z.ltb_spec d 10).
  - replace (Z.leb 48 (48 + d) && Z.leb (48 + d) 57) with true by lia. f_equal. lia.
  - replace (Z.leb 48 (55 + d) && Z.leb (55 + d) 57) with false by lia.
    replace (Z.leb 65 (55 + d) && Z.leb (55 + d) 70) with true by lia. f_equal. lia.
Qed.

Lemma hex_escape_byte b s : byte_ok b → hex_escape (percent_byte b ++ s) = Some (b, s).
Proof.
  intros Hb. destruct (byte_digits b Hb) as [Hh Hl]. cbn [app percent_byte hex_escape].
  rewrite !hex_digit_upper by done. cbn [mbind option_bind]. by rewrite <- Z_div_mod_eq_full.
Qed.

Lemma continuation_byte n acc b s :
  128 ≤ b < 192 → continuation (S n) acc (percent_byte b ++ s) = continuation n (64 * acc + (b - 128)) s.
Proof.
  intros Hb. cbn [continuation]. rewrite hex_escape_byte by (unfold byte_ok; lia). cbn [mbind option_bind].
  by replace (Z.leb 128 b && Z.ltb b 192) with true by lia.
Qed.

Lemma decode_char_lead b s n bits least :
  128 ≤ b < 256 → lead_byte b = Some (n, bits, least) →
  decode_char (percent_byte b ++ s) =
    ('(p, rest) ← continuation n bits s;
     if Z.leb least p && Z.ltb p 1114112 && negb (Z.leb 55296 p && Z.ltb p 57344)
     then Some (utf16_point p, rest) else None).
Proof.
  intros Hb Hl. unfold decode_char. rewrite hex_escape_byte by (unfold byte_ok; lia).
  cbn [app percent_byte]. change (Z.eqb 37 37) with true. cbn [mbind option_bind].
  replace (Z.ltb b 128) with false by lia. by rewrite Hl.
Qed.

(** A code point that is not a surrogate. *)
Definition scalar_ok (p : Z) : Prop := point_ok p ∧ ¬ (55296 ≤ p < 57344).

Lemma decode_char_point p s :
  scalar_ok p → decode_char (flat_map pct_byte (utf8_point p) ++ s) = Some (utf16_point p, s).
Proof.
  unfold scalar_ok, point_ok. intros [Hp Hs]. unfold utf8_point.
  assert (Hhigh : ∀ b, 128 ≤ b → pct_byte b = percent_byte b)
    by (intros b Hb; unfold pct_byte; by rewrite high_not_unreserved).
  destruct (Z.ltb_spec p 128).
  { unfold utf16_point. replace (Z.ltb p 65536) with true by lia. cbn [flat_map]. rewrite (right_id_L [] (++)).
    unfold pct_byte. destruct (is_unreserved p) eqn:Hun.
    - assert (p ≠ 37) by (intros ->; done). cbn [app decode_char]. by rewrite (proj2 (Z.eqb_neq p 37)).
    - unfold decode_char. rewrite hex_escape_byte by (unfold byte_ok; lia). cbn [app percent_byte].
      change (Z.eqb 37 37) with true. cbn [mbind option_bind]. by replace (Z.ltb p 128) with true by lia. }
  destruct (Z.ltb_spec p 2048); [|destruct (Z.ltb_spec p 65536)]; cbn [flat_map];
    rewrite !Hhigh, ?(right_id_L [] (++)), <- ?(assoc_L (++)) by (Z.to_euclidean_division_equations; lia).
  - rewrite (decode_char_lead _ _ 1 (p / 64) 128).
    + rewrite continuation_byte by (Z.to_euclidean_division_equations; lia). cbn [continuation mbind option_bind].
      replace (64 * (p / 64) + (128 + p mod 64 - 128)) with p by (Z.to_euclidean_division_equations; lia).
      by replace (_ && _ && _) with true by lia.
    + Z.to_euclidean_division_equations; lia.
    + unfold lead_byte. replace (_ && _) with true by (Z.to_euclidean_division_equations; lia).
      repeat f_equal. lia.
  - rewrite (decode_char_lead _ _ 2 (p / 4096) 2048).
    + rewrite !continuation_byte by (Z.to_euclidean_division_equations; lia).
      cbn [continuation mbind option_bind].
      replace (64 * _ + _) with p by (Z.to_euclidean_division_equations; lia).
      by replace (_ && _ && _) with true by lia.
    + Z.to_euclidean_division_equations; lia.
    + unfold lead_byte. replace (Z.leb 192 _ && _) with false by (Z.to_euclidean_division_equations; lia).
      replace (_ && _) with true by (Z.to_euclidean_division_equations; lia). repeat f_equal. lia.
  - rewrite (decode_char_lead _ _ 3 (p / 262144) 65536).
    + rewrite !continuation_byte by (Z.to_euclidean_division_equations; lia).
      cbn [continuation mbind option_bind].
      replace (64 * _ + _) with p by (Z.to_euclidean_division_equations; lia).
      by replace (_ && _ && _) with true by lia.
    + Z.to_euclidean_division_equations; lia.
    + unfold lead_byte. replace (Z.leb 192 _ && _) with false by (Z.to_euclidean_division_equations; lia).
      replace (Z.leb 224 _ && _) with false by (Z.to_euclidean_division_equations; lia).
      replace (_ && _) with true by (Z.to_euclidean_division_equations; lia). repeat f_equal. lia.
Qed.

Lemma decode_chars_points ps fuel :
  Forall scalar_ok ps → (length (flat_map pct_byte (flat_map utf8_point ps)) ≤ fuel)%nat →
  decode_chars fuel (flat_map pct_byte (flat_map utf8_point ps)) = Some (flat_map utf16_point ps).
Proof.
  intros Hps. revert fuel. induction Hps as [|p ps Hp _ IH]; intros fuel Hf; [by destruct fuel|].
  cbn [flat_map] in Hf |- *. rewrite flat_map_app in Hf |- *. rewrite length_app in Hf.
  pose proof (decode_char_point p (flat_map pct_byte (flat_map utf8_point ps)) Hp) as Hd.
  assert (Hlen : (0 < length (flat_map pct_byte (utf8_point p)))%nat).
  { assert (Hb : ∃ b l, utf8_point p = b :: l) by (unfold utf8_point; repeat case_match; eauto).
    destruct Hb as (b & l & ->). cbn [flat_map]. rewrite length_app. unfold pct_byte.
    destruct (is_unreserved b); simpl; lia. }
  destruct fuel as [|fuel]; [lia|].
  destruct (flat_map pct_byte (utf8_point p)) as [|c l] eqn:Hc; [simpl in Hlen; lia|].
  cbn [app decode_chars] in Hd |- *. rewrite Hd. cbn [mbind option_bind]. rewrite IH by (simpl in Hf; lia). done.
Qed.

(** The code points of a well-formed string, put together again. *)
Lemma code_points_utf16 s :
  well_formed s →
  ∃ ps, code_points s = inl <$> ps ∧ Forall scalar_ok ps ∧ flat_map utf16_point ps = s.
Proof.
  induction s as [s IH] using (induction_ltof1 _ (@length Z)). unfold ltof in IH.
  destruct s as [|c s]; [by exists []|]. unfold well_formed. intros [[Hc Hu]%Forall_cons Hw].
  cbn [code_points] in Hw |- *. unfold unit_ok in Hc. destruct (is_high_surrogate c) eqn:Hh.
  - destruct s as [|d s]; [by apply Forall_cons in Hw as [[] _]|].
    destruct (is_low_surrogate d) eqn:Hl; [|by apply Forall_cons in Hw as [[] _]].
    apply Forall_cons in Hw as [_ Hw], Hu as [_ Hu].
    destruct (IH s) as (ps & Hps & Hok & Hs); [simpl; lia|done|].
    exists ((65536 + (c - 55296) * 1024 + (d - 56320)) :: ps). rewrite Hps. split; [done|].
    unfold is_high_surrogate, is_low_surrogate in *. split.
    + constructor; [|done]. unfold scalar_ok, point_ok. lia.
    + cbn [flat_map]. rewrite Hs. unfold utf16_point. destruct (Z.ltb_spec (65536 + (c - 55296) * 1024 + (d - 56320)) 65536); [lia|].
      cbn [app]. f_equal; [|f_equal]; Z.to_euclidean_division_equations; lia.
  - destruct (is_low_surrogate c) eqn:Hl; [by apply Forall_cons in Hw as [[] _]|].
    apply Forall_cons in Hw as [_ Hw]. destruct (IH s) as (ps & Hps & Hok & Hs); [simpl; lia|done|].
    exists (c :: ps). rewrite Hps. unfold is_high_surrogate, is_low_surrogate in *. split; [done|]. split.
    + constructor; [|done]. unfold scalar_ok, point_ok. lia.
    + cbn [flat_map]. rewrite Hs. unfold utf16_point. by replace (Z.ltb c 65536) with true by lia.
Qed.

Lemma decode_pct_encode s : well_formed s → decodeURIComponent (pct_encode s) = Some s.
Proof.
  intros (ps & Hps & Hok & Hs)%code_points_utf16. unfold decodeURIComponent, pct_encode.
  assert (Hu : utf8 s = flat_map utf8_point ps).
  { unfold utf8. rewrite Hps. clear. induction ps as [|p ps IH]; [done|]. exact (f_equal (app (utf8_point p)) IH). }
  by rewrite Hu, decode_chars_points, Hs.
Qed.

(** [util.uriEscape] is RFC 3986 percent-encoding.  On every string without
    lone surrogates it succeeds with the UTF-8 bytes of the string, each
    unreserved character as itself and every other byte as a percent sign and
    two upper-case hexadecimal digits, and [decodeURIComponent] gives the string
    back.  On a lone surrogate it throws, as [encodeURIComponent] does. *)
Theorem uriEscape_rfc3986 (s : jsstr) :
  Forall unit_ok s →
  (well_formed s → uriEscape s = Some (pct_encode s) ∧ pct_decode (pct_encode s) = Some (utf8 s) ∧
     decodeURIComponent (pct_encode s) = Some s) ∧
  (¬ well_formed s → uriEscape s = None).
Proof.
  intros Hu. split.
  - intros Hw. split; [by apply uriEscape_encodes|]. split; [|by apply decode_pct_encode].
    apply pct_decode_encode, utf8_bytes, Hu.
  - intros Hn. unfold uriEscape, encodeURIComponent.
    destruct (mapM encode_point (code_points s)) as [ts|] eqn:Hm; [|done]. destruct Hn.
    split; [done|]. apply mapM_Some in Hm. revert Hm. generalize (code_points s). intros ps.
    induction 1 as [|p t ps ts Hp _ IH]; constructor; [|done]. by destruct p.
Qed.

Lemma uriEscape_rfc3986_witness :
  uriEscape (js "a b*(c)'" ++ [8364]) = Some (js "a%20b%2A%28c%29%27%E2%82%AC").
Proof.
  destruct (uriEscape_rfc3986 (js "a b*(c)'" ++ [8364])) as [H _].
  - apply (bool_decide_unpack _). vm_compute. exact I.
  - destruct H as [H _]; [|rewrite H; vm_compute; reflexivity].
    split; [apply (bool_decide_unpack _); vm_compute; exact I|].
    vm_compute. repeat constructor.
Defined.

(** ** Query strings *)

(** Reading a query string back: items between ampersands, name and value
    around the first equals sign. *)
Definition parse_query_item (item : jsstr) : option (list Z * list Z) :=
  match split_on 61 item with
  | [n; v] => name ← pct_decode n; value ← pct_decode v; Some (name, value)
  | _ => None
  end.
Definition parse_query (s : jsstr) : option (list (list Z * list Z)) :=
  match s with [] => Some [] | _ => mapM parse_query_item (split_on 38 s) end.

(** The units of percent-encoded text. *)
Definition uri_unit (c : Z) : bool := is_unreserved c || Z.eqb c 37.

Lemma uri_unit_other c : uri_unit c = true → c ≠ 10 ∧ c ≠ 38 ∧ c ≠ 47 ∧ c ≠ 61.
Proof. unfold uri_unit, is_unreserved, is_alnum, is_digit. lia. Qed.

Lemma pct_byte_units b : byte_ok b → Forall (λ c, uri_unit c = true) (pct_byte b).
Proof.
  intros Hb. unfold pct_byte. destruct (is_unreserved b) eqn:Hun.
  - repeat constructor. unfold uri_unit. by rewrite Hun.
  - destruct (byte_digits b Hb) as [Hh Hl]. unfold percent_byte.
    pose proof (upper_digit_range _ Hh). pose proof (upper_digit_range _ Hl).
    unfold uri_unit, is_unreserved, is_alnum, is_digit. repeat constructor; lia.
Qed.

Lemma pct_encode_units s : Forall unit_ok s → Forall (λ c, uri_unit c = true) (pct_encode s).
Proof.
  intros Hu. unfold pct_encode. pose proof (utf8_bytes s Hu) as Hb.
  induction Hb as [|b l Hb _ IH]; cbn [flat_map]; [constructor|].
  apply Forall_app. split; [by apply pct_byte_units|done].
Qed.

Lemma pct_encode_absent s c : Forall unit_ok s → uri_unit c = false → c ∉ pct_encode s.
Proof.
  intros Hu Hc Hin. pose proof (pct_encode_units s Hu) as Hf. rewrite Forall_forall in Hf.
  specialize (Hf c Hin). congruence.
Qed.

(** Only well-formed strings are escaped. *)
Lemma uriEscape_Some s t : Forall unit_ok s → uriEscape s = Some t → well_formed s ∧ t = pct_encode s.
Proof.
  intros Hu Ht. assert (Hw : well_formed s).
  { split; [done|]. unfold uriEscape, encodeURIComponent in Ht.
    destruct (mapM encode_point (code_points s)) as [ts|] eqn:Hm; [|done].
    apply mapM_Some in Hm. clear -Hm. induction Hm as [|p t ps ts Hp _ IH]; constructor; [|done].
    by destruct p. }
  split; [done|]. rewrite uriEscape_encodes in Ht by done. congruence.
Qed.

(** The parameters whose string is checked: distinct well-formed names, with
    well-formed strings or null for values. *)
Definition string_params (params : jsobj) : Prop :=
  NoDup params.*1 ∧
  Forall (λ kv, well_formed kv.1 ∧ match kv.2 with JStr v => well_formed v | JNull => True | _ => False end) params.

Definition string_value (params : jsobj) (name : jsstr) : jsstr :=
  match obj_prop params name with JStr v => v | _ => [] end.

Lemma string_params_lookup params name :
  string_params params → name ∈ params.*1 →
  (obj_prop params name = JStr (string_value params name) ∨
   obj_prop params name = JNull ∧ string_value params name = []) ∧
  well_formed name ∧ well_formed (string_value params name).
Proof.
  intros [Hnd Hf] Hin. unfold string_value. apply obj_get_elem in Hin as [w Hw]. unfold obj_prop. rewrite Hw.
  apply obj_get_elem_of in Hw; [|done]. rewrite Forall_forall in Hf.
  destruct (Hf _ Hw) as [Hn Hv]. simpl in *. destruct w; try done; eauto.
  split; [by right|]. split; [done|]. split; constructor.
Qed.

Lemma query_item_string params name :
  string_params params → name ∈ params.*1 →
  query_item params name =
    Some (pct_encode name ++ js "=" ++ pct_encode (string_value params name)).
Proof.
  intros Hp Hin. destruct (string_params_lookup params name Hp Hin) as (Hv & Hn & Hw).
  unfold query_item. rewrite (uriEscape_encodes name) by done. cbn [mbind option_bind].
  destruct Hv as [->|[-> ->]]; [|reflexivity]. by rewrite uriEscape_encodes.
Qed.

Lemma parse_query_item_string n v :
  well_formed n → well_formed v →
  parse_query_item (pct_encode n ++ js "=" ++ pct_encode v) = Some (utf8 n, utf8 v).
Proof.
  intros [Hn _] [Hv _]. unfold parse_query_item. change (js "=" ++ ?x) with (61 :: x).
  rewrite split_on_app by (by apply pct_encode_absent).
  rewrite split_on_absent by (by apply pct_encode_absent).
  unfold pct_encode. by rewrite !pct_decode_encode by (by apply utf8_bytes).
Qed.

Lemma join_ne sep l : (∀ x, x ∈ l → x ≠ []) → l ≠ [] → join sep l ≠ [].
Proof.
  intros Hx Hl. destruct l as [|x [|y l]]; [done| |]; cbn [join].
  - apply Hx. by left.
  - destruct x; [|done]. by destruct (Hx [] (list_elem_of_here _ _)).
Qed.

(** The sorted names of the parameters. *)
Lemma sort_own_keys (params : jsobj) : sort_strings (own_keys params) = sort_strings params.*1.
Proof. apply sort_strings_canonical. unfold own_keys. by rewrite own_props_perm. Qed.

(** Pairs between ampersands read back. *)
Definition pair_text (kv : jsstr * jsstr) : jsstr := pct_encode kv.1 ++ js "=" ++ pct_encode kv.2.
Definition pair_ok (kv : jsstr * jsstr) : Prop := well_formed kv.1 ∧ well_formed kv.2.

Lemma parse_query_pairs (l : list (jsstr * jsstr)) :
  Forall pair_ok l → parse_query (join (js "&") (pair_text <$> l)) = Some (prod_map utf8 utf8 <$> l).
Proof.
  intros Hl. destruct l as [|p l]; [done|]. unfold parse_query.
  assert (Hne : join (js "&") (pair_text <$> p :: l) ≠ []).
  { apply join_ne; [|done]. intros x (k & -> & _)%list_elem_of_fmap. unfold pair_text. by destruct (pct_encode k.1). }
  destruct (join _ _) eqn:Hj; [done|]. rewrite <- Hj. clear Hj Hne. rewrite split_join; [|done|].
  - apply mapM_Some. rewrite Forall2_fmap. apply Forall_Forall2_diag. eapply Forall_impl; [exact Hl|].
    intros [k v] [Hk Hv]. by apply parse_query_item_string.
  - rewrite Forall_fmap. eapply Forall_impl; [exact Hl|]. intros [k v] [[Hk _] [Hv _]]. unfold compose, pair_text. cbn [fst snd].
    change (js "=" ++ ?x) with (61 :: x). rewrite not_elem_of_app, not_elem_of_cons.
    split_and!; [by apply pct_encode_absent|done|by apply pct_encode_absent].
Qed.

(** The string of string parameters reads back. *)
Lemma query_string_reads params :
  string_params params →
  ∃ t, queryParamsToString params = Some t ∧
    parse_query t = Some ((λ n, (utf8 n, utf8 (string_value params n))) <$> sort_strings params.*1).
Proof.
  intros Hp. unfold queryParamsToString. rewrite sort_own_keys. set (names := sort_strings params.*1).
  assert (Hin : Forall (λ n, n ∈ params.*1) names).
  { apply Forall_forall. intros n. unfold names. by rewrite sort_strings_perm. }
  clearbody names. set (pairs := (λ n, (n, string_value params n)) <$> names).
  assert (Hm : mapM (query_item params) names = Some (pair_text <$> pairs)).
  { apply mapM_Some. unfold pairs. induction Hin; constructor; [by apply query_item_string|done]. }
  rewrite Hm. eexists. split; [done|]. cbn. rewrite parse_query_pairs.
  - unfold pairs. by rewrite <- list_fmap_compose.
  - unfold pairs. rewrite Forall_fmap. eapply Forall_impl; [exact Hin|]. intros k Hk.
    by destruct (string_params_lookup params k Hp Hk) as (_ & Hn & Hw).
Qed.

(** Query strings are canonical and faithful.  [queryParamsToString] depends
    only on the set of the parameters, not on the order they were added in;
    and for parameters that are strings or null, splitting its output at the ampersands and
    equals signs and percent-decoding the pieces gives the parameters back, in
    the order of their names. *)
Theorem query_string_roundtrip (params params' : jsobj) :
  string_params params → params ≡ₚ params' →
  queryParamsToString params' = queryParamsToString params ∧
  ∃ t, queryParamsToString params = Some t ∧
    parse_query t = Some ((λ n, (utf8 n, utf8 (string_value params n))) <$> sort_strings params.*1).
Proof.
  intros Hp Hperm. split; [|by apply query_string_reads]. unfold queryParamsToString. rewrite !sort_own_keys.
  rewrite (sort_strings_canonical params'.*1 params.*1) by (by rewrite Hperm).
  destruct Hp as [Hnd _]. f_equal. apply mapM_ext. intros name. unfold query_item, obj_prop.
  by rewrite (obj_get_perm name params params').
Qed.

Lemma query_string_roundtrip_witness :
  queryParamsToString [(js "b", JStr (js "x&y")); (js "a k", JStr (js "1=2"))] =
    queryParamsToString [(js "a k", JStr (js "1=2")); (js "b", JStr (js "x&y"))] ∧
  queryParamsToString [(js "a k", JStr (js "1=2")); (js "b", JStr (js "x&y"))] =
    Some (js "a%20k=1%3D2&b=x%26y").
Proof.
  split; [|vm_compute; reflexivity].
  refine (proj1 (query_string_roundtrip [(js "a k", JStr (js "1=2")); (js "b", JStr (js "x&y"))] _ _ _)).
  - split; [apply (bool_decide_unpack _); vm_compute; exact I|].
    repeat constructor; apply (bool_decide_unpack _); vm_compute; exact I.
  - apply Permutation_swap.
Defined.

(** ** ARN round trips *)

Lemma index_of_from_range i p s : index_of_from i p s = -1 ∨ i ≤ index_of_from i p s.
Proof.
  revert i. induction s as [|x s IH]; intros i; cbn [index_of_from]; destruct (starts_with _ _); [lia..|].
  destruct (IH (i + 1)); lia.
Qed.

Lemma index_of_zero p s : index_of p s = 0 ↔ starts_with p s = true.
Proof.
  unfold index_of. destruct s as [|x s]; cbn [index_of_from]; destruct (starts_with _ _); try done.
  destruct (index_of_from_range (0 + 1) p s); split; [lia|done|lia|done].
Qed.

Lemma split_on_colon s t : 58 ∉ s → split_on 58 (s ++ js ":" ++ t) = s :: split_on 58 t.
Proof. exact (split_on_app 58 s t). Qed.

Lemma validateARN_parts s :
  validateARN s = true →
  ∃ p sv r ac res, split_on 58 s = js "arn" :: p :: sv :: r :: ac :: res ∧ res ≠ [] ∧
    s = js "arn:" ++ p ++ js ":" ++ sv ++ js ":" ++ r ++ js ":" ++ ac ++ js ":" ++ join (js ":") res.
Proof.
  unfold validateARN. rewrite !andb_true_iff, Z.eqb_eq, index_of_zero, starts_with_prefix, Nat.leb_le.
  intros [[_ [t ->]] Hlen]. change (js "arn:" ++ t) with (js "arn" ++ 58 :: t) in *.
  pose proof (join_split 58 (js "arn" ++ 58 :: t)) as Hj.
  rewrite split_on_app in * by (apply (bool_decide_unpack _); vm_compute; exact I).
  destruct (split_on 58 t) as [|p [|sv [|r [|ac [|x res]]]]]; simpl in Hlen; try lia.
  exists p, sv, r, ac, (x :: res). split_and!; [done..|]. rewrite <- Hj.
  by rewrite !join_cons by done.
Qed.

(** ARNs round trip.  Building the parse of a valid ARN with a non-empty
    partition gives the ARN back, whatever its resource part contains; and
    for parts without colons and any resource, the built ARN is valid and
    parses to the parts it was built from. *)
Theorem arn_roundtrip :
  (∀ s, validateARN s = true → partition (parseARN s) ≠ Some [] →
     buildARN (parseARN s) = Some s) ∧
  (∀ p sv r ac res, p ≠ [] → Forall (λ x, 58 ∉ x) [p; sv; r; ac] →
     ∃ s, buildARN (Arn (Some p) (Some sv) (Some r) (Some ac) (Some res)) = Some s ∧
       validateARN s = true ∧
       parseARN s = Arn (Some p) (Some sv) (Some r) (Some ac) (Some res)).
Proof.
  split.
  - intros s (p & sv & r & ac & res & Hs & Hne & Heq)%validateARN_parts.
    unfold parseARN, buildARN. rewrite Hs. cbn -[js join]. intros Hp.
    destruct p as [|c p]; [done|]. f_equal. symmetry. exact Heq.
  - intros p sv r ac res Hp Hf. decompose_Forall_hyps. destruct p as [|c p]; [done|].
    eexists. split; [unfold buildARN; cbn -[js]; reflexivity|].
    assert (Hs : split_on 58 (js "arn:" ++ (c :: p) ++ js ":" ++ sv ++ js ":" ++ r ++ js ":" ++ ac ++ js ":" ++ res)
      = js "arn" :: (c :: p) :: sv :: r :: ac :: split_on 58 res).
    { change (split_on 58 (js "arn" ++ js ":" ++ (c :: p) ++ js ":" ++ sv ++ js ":" ++ r ++ js ":" ++ ac
        ++ js ":" ++ res) = js "arn" :: (c :: p) :: sv :: r :: ac :: split_on 58 res).
      rewrite !split_on_colon; [done..|]. apply (bool_decide_unpack _). vm_compute. exact I. }
    unfold validateARN, parseARN. cbn [app] in Hs |- *. split.
    + rewrite !andb_true_iff, Z.eqb_eq, index_of_zero. split_and!; [done|apply starts_with_app|].
      rewrite Hs. pose proof (split_on_ne 58 res). by destruct (split_on 58 res).
    + rewrite Hs. cbn -[js join]. repeat f_equal. apply (join_split 58 res).
Qed.

Lemma arn_roundtrip_witness :
  buildARN (parseARN (js "arn:aws:sns:us-east-1:1234:a:b")) = Some (js "arn:aws:sns:us-east-1:1234:a:b") ∧
  ∃ s, buildARN (Arn (Some (js "aws")) (Some (js "s3")) (Some []) (Some []) (Some (js "b/k:1"))) = Some s ∧
    validateARN s = true ∧
    parseARN s = Arn (Some (js "aws")) (Some (js "s3")) (Some []) (Some []) (Some (js "b/k:1")).
Proof.
  destruct arn_roundtrip as [H1 H2]. split.
  - apply H1; vm_compute; [reflexivity|discriminate].
  - apply H2; [discriminate|]. apply (bool_decide_unpack _). vm_compute. exact I.
Defined.
