(* ===== verification/WellFormed.v ===== *)
(** * Texts without lone surrogates

    The strings [encodeURIComponent] accepts, closed under the ways the sources
    build strings; in particular everything [JSON.stringify] quotes is one of
    them. *)

From stdpp Require Import base sets strings list.
From Stdlib Require Import ZArith Lia Wf_nat.
From S2P Require Import Prelude JsValue Json JsText UriUtil.

Local Open Scope Z_scope.

Definition is_surrogate (c : Z) : bool := is_high_surrogate c || is_low_surrogate c.

Lemma well_formed_app a b : well_formed a → well_formed b → well_formed (a ++ b).
Proof.
  intros [Ha Hpa] [Hb Hpb]. split; [by apply Forall_app|]. revert Ha Hpa.
  induction a as [a IH] using (induction_ltof1 _ (@length Z)). unfold ltof in IH. intros Ha Hpa.
  destruct a as [|c a]; [done|]. apply Forall_cons in Ha as [_ Ha]. cbn [app code_points] in Hpa |- *.
  destruct (is_high_surrogate c).
  - destruct a as [|d a]; [by apply Forall_cons in Hpa as [[] _]|]. cbn [app].
    destruct (is_low_surrogate d); [|by apply Forall_cons in Hpa as [[] _]].
    apply Forall_cons in Hpa as [_ Hpa], Ha as [_ Ha]. constructor; [done|]. apply IH; [cbn; lia|done..].
  - destruct (is_low_surrogate c); [by apply Forall_cons in Hpa as [[] _]|].
    apply Forall_cons in Hpa as [_ Hpa]. constructor; [done|]. apply IH; [cbn; lia|done..].
Qed.

Lemma well_formed_units s : Forall (λ c, unit_ok c ∧ is_surrogate c = false) s → well_formed s.
Proof.
  induction 1 as [|c s [Hc Hs] _ [IHu IHp]]; [split; constructor|]. split; [by constructor|].
  apply orb_false_iff in Hs as [Hh Hl]. cbn [code_points]. rewrite Hh, Hl. by constructor.
Qed.

Lemma well_formed_join sep l : well_formed sep → Forall well_formed l → well_formed (join sep l).
Proof.
  intros Hs. induction 1 as [|x l Hx Hl IH]; [split; constructor|]. destruct l as [|y l]; [done|].
  change (join sep (x :: y :: l)) with (x ++ sep ++ join sep (y :: l)). by repeat apply well_formed_app.
Qed.

Lemma hex4_well_formed c : well_formed (hex4 c).
Proof.
  apply well_formed_units.
  assert (H : ∀ d, 0 ≤ d < 16 → unit_ok (digit_unit d) ∧ is_surrogate (digit_unit d) = false).
  { intros d Hd. unfold digit_unit, unit_ok, is_surrogate, is_high_surrogate, is_low_surrogate. destruct (Z.ltb_spec d 10); lia. }
  unfold hex4. repeat (apply Forall_cons; split); [..|constructor]; apply H, Z.mod_pos_bound; lia.
Qed.

(** [JSON.stringify] escapes the surrogates that are not part of a pair. *)
Lemma quote_unit_well_formed c : unit_ok c → well_formed (quote_unit c).
Proof.
  intros Hc. unfold quote_unit. do 7 (case_match; [js_decide|]).
  case_match; [apply well_formed_app; [js_decide|apply hex4_well_formed]|].
  apply well_formed_units, Forall_singleton. split; [done|]. unfold is_surrogate.
  repeat match goal with H : _ || _ = false |- _ => apply orb_false_iff in H as [? ?] end. by apply orb_false_iff.
Qed.

Lemma pair_well_formed c d : unit_ok c → unit_ok d → is_high_surrogate c = true → is_low_surrogate d = true → well_formed [c; d].
Proof.
  intros Hc Hd Hh Hl. split; [apply Forall_cons; split; [done|by apply Forall_singleton]|].
  cbn [code_points]. rewrite Hh, Hl. by repeat constructor.
Qed.

Lemma quote_well_formed s : Forall unit_ok s → well_formed (quote s).
Proof.
  intros Hu. unfold quote. apply well_formed_app; [js_decide|]. apply well_formed_app; [|js_decide].
  induction s as [s IH] using (induction_ltof1 _ (@length Z)). unfold ltof in IH.
  destruct s as [|c s]; [js_decide|]. apply Forall_cons in Hu as [Hc Hu]. cbn [quote_body].
  pose proof (quote_unit_well_formed c Hc) as Hq. destruct (is_high_surrogate c) eqn:Hh.
  - destruct s as [|d s]; [done|]. destruct (is_low_surrogate d) eqn:Hl.
    + apply Forall_cons in Hu as [Hd Hu]. apply (well_formed_app [c; d]); [by apply pair_well_formed|]. apply IH; [cbn; lia|done].
    + apply well_formed_app; [done|]. apply IH; [cbn; lia|done].
  - apply well_formed_app; [done|]. apply IH; [cbn; lia|done].
Qed.

Lemma index_well_formed n : well_formed (Z_to_str (Z.of_nat n + 1)).
Proof.
  apply well_formed_units. unfold Z_to_str. destruct (Z.ltb_spec (Z.of_nat n + 1) 0); [lia|].
  eapply Forall_impl; [apply radix_str_digits; lia|].
  intros c Hc. unfold is_digit, unit_ok, is_surrogate, is_high_surrogate, is_low_surrogate in *. lia.
Qed.
