(* ===== verification/Buffers.v ===== *)
(** * Buffers

    What the sources use of Node's buffers: big-endian reads and writes, slices,
    copies, and their text in hexadecimal and in UTF-8.  A buffer is the list of
    its bytes; code that changes a buffer in place returns the changed list. *)

From stdpp Require Import base strings list.
From Stdlib Require Import ZArith Lia.
From S2P Require Import Prelude JsValue Json JsText UriUtil.

Local Open Scope Z_scope.

(** ** Numbers *)

Definition be_value (l : list Z) : Z := foldl (λ a b, a * 256 + b) 0 l.

Fixpoint be_bytes (n : nat) (x : Z) : list Z :=
  match n with O => [] | S n' => be_bytes n' (x / 256) ++ [x mod 256] end.

(** An access outside the buffer throws a RangeError. *)
Definition range_error : jserror := mk_error (js "RangeError") (js "Attempt to access memory outside buffer bounds").

Definition readUIntBE (n : nat) (buf : list Z) (offset : Z) : result jserror Z :=
  if Z.ltb offset 0 || Z.ltb (Z.of_nat (length buf)) (offset + Z.of_nat n) then Throw range_error
  else Ok (be_value (take n (drop (Z.to_nat offset) buf))).

(** Two's complement of [8 * n] bits. *)
Definition to_signed (n : nat) (x : Z) : Z :=
  if Z.ltb x (2 ^ (8 * Z.of_nat n - 1)) then x else x - 2 ^ (8 * Z.of_nat n).
Definition readIntBE (n : nat) (buf : list Z) (offset : Z) : result jserror Z :=
  let* x := readUIntBE n buf offset in Ok (to_signed n x).

(** [buf.slice(start, end)]: negative positions count from the end, and
    positions outside are clamped. *)
Definition clamp (len x : Z) : Z := if Z.ltb x 0 then Z.max 0 (x + len) else Z.min x len.
Definition slice (buf : list Z) (start end_ : Z) : list Z :=
  let len := Z.of_nat (length buf) in
  let a := clamp len start in
  take (Z.to_nat (clamp len end_ - a)) (drop (Z.to_nat a) buf).

(** [source.copy(target, targetStart)]: what does not fit is dropped. *)
Definition copy_to (target source : list Z) (targetStart : nat) : list Z :=
  let source := take (length target - targetStart) source in
  take targetStart target ++ source ++ drop (targetStart + length source) target.

(** ** Text *)

Definition lower_hex (l : list Z) : jsstr := flat_map (λ b, [digit_unit (b / 16); digit_unit (b mod 16)]) l.

(** [parseInt(s, 16)] on a text of hexadecimal digits. *)
Definition hex_number (s : jsstr) : Z := foldl (λ a c, a * 16 + default 0 (hex_digit c)) 0 s.

(** The UTF-8 decoder: the continuation bytes still needed, the value so far and
    the range of the next byte. *)
Record utf8_state := U8 { u8_needed : nat; u8_value : Z; u8_low : Z; u8_high : Z }.

(** A byte at the start of a sequence; one that cannot start a sequence is
    replaced by U+FFFD. *)
Definition utf8_lead (b : Z) : jsstr * option utf8_state :=
  if Z.ltb b 128 then ([b], None)
  else if Z.leb 194 b && Z.leb b 223 then ([], Some (U8 1 (b - 192) 128 191))
  else if Z.leb 224 b && Z.leb b 239
  then ([], Some (U8 2 (b - 224) (if Z.eqb b 224 then 160 else 128) (if Z.eqb b 237 then 159 else 191)))
  else if Z.leb 240 b && Z.leb b 244
  then ([], Some (U8 3 (b - 240) (if Z.eqb b 240 then 144 else 128) (if Z.eqb b 244 then 143 else 191)))
  else ([65533], None).

(** A byte that does not continue the sequence ends it with U+FFFD and is read
    again as the start of another one. *)
Fixpoint utf8_decode_from (st : option utf8_state) (l : list Z) : jsstr :=
  match l, st with
  | [], None => []
  | [], Some _ => [65533]
  | b :: l', None => let '(out, st') := utf8_lead b in out ++ utf8_decode_from st' l'
  | b :: l', Some (U8 needed value low high) =>
    if Z.leb low b && Z.leb b high then
      let value := value * 64 + (b - 128) in
      match needed with
      | O | S O => utf16_point value ++ utf8_decode_from None l'
      | S needed' => utf8_decode_from (Some (U8 needed' value 128 191)) l'
      end
    else 65533 :: let '(out, st') := utf8_lead b in out ++ utf8_decode_from st' l'
  end.

(** [buf.toString()]. *)
Definition utf8_decode (l : list Z) : jsstr := utf8_decode_from None l.

(** ** Big-endian numbers *)

Lemma be_value_app l k : be_value (l ++ k) = be_value l * 256 ^ Z.of_nat (length k) + be_value k.
Proof.
  unfold be_value. rewrite foldl_app. generalize (foldl (λ a b, a * 256 + b) 0 l). intros a.
  revert a. induction k as [|b k IH] using rev_ind; intros a; [cbn; lia|].
  rewrite !foldl_app, length_app. cbn [foldl length]. rewrite IH, Nat2Z.inj_add, Z.pow_add_r by lia.
  change (256 ^ Z.of_nat 1) with 256. lia.
Qed.

Lemma be_value_range l : Forall byte_ok l → 0 ≤ be_value l < 256 ^ Z.of_nat (length l).
Proof.
  induction l as [|b l IH] using rev_ind; [cbn; lia|]. rewrite Forall_app, Forall_singleton. intros [Hl Hb].
  rewrite be_value_app, length_app, Nat2Z.inj_add, Z.pow_add_r by lia. specialize (IH Hl).
  unfold byte_ok in Hb. change (be_value [b]) with b. change (256 ^ Z.of_nat (length [b])) with 256. lia.
Qed.

Lemma be_bytes_length n x : length (be_bytes n x) = n.
Proof. revert x. induction n as [|n IH]; intros x; [done|]. cbn [be_bytes]. rewrite length_app, IH. cbn. lia. Qed.

Lemma be_bytes_ok n x : Forall byte_ok (be_bytes n x).
Proof.
  revert x. induction n as [|n IH]; intros x; [constructor|]. cbn [be_bytes]. apply Forall_app. split; [done|].
  apply Forall_singleton. unfold byte_ok. apply Z.mod_pos_bound. lia.
Qed.

Lemma be_value_bytes n x : 0 ≤ x < 256 ^ Z.of_nat n → be_value (be_bytes n x) = x.
Proof.
  revert x. induction n as [|n IH]; intros x Hx; [cbn in *; lia|]. cbn [be_bytes].
  rewrite Nat2Z.inj_succ, Z.pow_succ_r in Hx by lia.
  rewrite be_value_app, IH by (Z.to_euclidean_division_equations; nia).
  change (be_value [x mod 256]) with (x mod 256). change (256 ^ Z.of_nat (length [x mod 256])) with 256.
  pose proof (Z.div_mod x 256). lia.
Qed.

Lemma be_bytes_value l : Forall byte_ok l → be_bytes (length l) (be_value l) = l.
Proof.
  induction l as [|b l IH] using rev_ind; [done|]. rewrite Forall_app, Forall_singleton. intros [Hl Hb].
  rewrite length_app, be_value_app. cbn [length]. rewrite Nat.add_1_r. cbn [be_bytes].
  change (be_value [b]) with b. change (256 ^ Z.of_nat 1) with 256. unfold byte_ok in Hb.
  rewrite Z.div_add_l, (Z.div_small b), Z.add_0_r, IH by (done || lia). f_equal. f_equal.
  rewrite Z.add_comm, Z.mod_add by lia. by apply Z.mod_small.
Qed.

Lemma to_signed_bytes n x : (0 < n)%nat → - 2 ^ (8 * Z.of_nat n - 1) ≤ x < 2 ^ (8 * Z.of_nat n - 1) →
  to_signed n (be_value (be_bytes n (x mod 2 ^ (8 * Z.of_nat n)))) = x.
Proof.
  intros Hn Hx. assert (Hp : 2 ^ (8 * Z.of_nat n) = 2 * 2 ^ (8 * Z.of_nat n - 1)).
  { rewrite <- Z.pow_succ_r by lia. f_equal. lia. }
  rewrite be_value_bytes.
  2: { change 256 with (2 ^ 8). rewrite <- Z.pow_mul_r by lia. apply Z.mod_pos_bound. lia. }
  unfold to_signed. destruct (Z.leb_spec 0 x).
  - rewrite Z.mod_small by lia. destruct (Z.ltb_spec x (2 ^ (8 * Z.of_nat n - 1))); lia.
  - rewrite <- (Z.mod_add x 1), Z.mod_small by lia.
    destruct (Z.ltb_spec (x + 1 * 2 ^ (8 * Z.of_nat n)) (2 ^ (8 * Z.of_nat n - 1))); lia.
Qed.

(** A number read back from where it was written. *)
Lemma read_be n a x b :
  length x = n → readUIntBE n (a ++ x ++ b) (Z.of_nat (length a)) = Ok (be_value x).
Proof.
  intros Hn. unfold readUIntBE. rewrite !length_app.
  destruct (Z.ltb_spec (Z.of_nat (length a)) 0), (Z.ltb_spec (Z.of_nat (length a + (length x + length b))) (Z.of_nat (length a) + Z.of_nat n)); try lia.
  cbn [orb]. by rewrite Nat2Z.id, drop_app_length, <- Hn, take_app_length.
Qed.

Lemma slice_middle a x b :
  slice (a ++ x ++ b) (Z.of_nat (length a)) (Z.of_nat (length a) + Z.of_nat (length x)) = x.
Proof.
  unfold slice, clamp. rewrite !length_app.
  destruct (Z.ltb_spec (Z.of_nat (length a)) 0), (Z.ltb_spec (Z.of_nat (length a) + Z.of_nat (length x)) 0); try lia.
  rewrite !Z.min_l by lia. rewrite Nat2Z.id, drop_app_length.
  replace (Z.to_nat _) with (length x) by lia. apply take_app_length.
Qed.

(** The same, for any way to write the positions. *)
Lemma read_at n buf a x b offset :
  buf = a ++ x ++ b → length x = n → offset = Z.of_nat (length a) → readUIntBE n buf offset = Ok (be_value x).
Proof. intros -> Hn ->. by apply read_be. Qed.

Lemma slice_at buf a x b start end_ :
  buf = a ++ x ++ b → start = Z.of_nat (length a) → end_ = Z.of_nat (length a) + Z.of_nat (length x) → slice buf start end_ = x.
Proof. intros -> -> ->. apply slice_middle. Qed.

(** ** Copies and slices *)

Lemma copy_to_spec target source n :
  (n + length source ≤ length target)%nat →
  copy_to target source n = take n target ++ source ++ drop (n + length source) target.
Proof. intros H. unfold copy_to. by rewrite (take_ge source) by lia. Qed.

Lemma copy_to_length target source n : (n ≤ length target)%nat → length (copy_to target source n) = length target.
Proof. intros H. unfold copy_to. rewrite !length_app, length_take, length_drop, length_take. lia. Qed.

(** Bytes added behind those that are already there. *)
Lemma copy_to_extends target buf source :
  take (length buf) target = buf → (length buf + length source ≤ length target)%nat →
  take (length buf + length source) (copy_to target source (length buf)) = buf ++ source.
Proof.
  intros Hb Hl. rewrite copy_to_spec, Hb, (assoc_L (++)) by done.
  rewrite take_app_le by (rewrite length_app; lia). apply take_ge. rewrite length_app. lia.
Qed.

Lemma slice_rest chunk offset k :
  0 ≤ offset → 0 ≤ k → offset + k ≤ Z.of_nat (length chunk) →
  slice chunk offset (offset + k) = take (Z.to_nat k) (drop (Z.to_nat offset) chunk).
Proof.
  intros H1 H2 H3. unfold slice, clamp. destruct (Z.ltb_spec offset 0), (Z.ltb_spec (offset + k) 0); try lia.
  rewrite !Z.min_l by lia. f_equal. lia.
Qed.

(** ** Hexadecimal text *)

Lemma hex_digit_lower d : 0 ≤ d < 16 → hex_digit (digit_unit d) = Some d.
Proof.
  intros Hd. assert (H : Forall (λ d, hex_digit (digit_unit d) = Some d) (Z.of_nat <$> seq 0 16)) by js_decide.
  rewrite Forall_forall in H. apply H. apply list_elem_of_fmap. exists (Z.to_nat d). split; [lia|].
  apply elem_of_seq. lia.
Qed.

Lemma hex_number_bytes l : Forall byte_ok l → hex_number (lower_hex l) = be_value l.
Proof.
  intros Hl. enough (H : ∀ a, foldl (λ a c, a * 16 + default 0 (hex_digit c)) a (lower_hex l) = foldl (λ a b, a * 256 + b) a l) by apply H.
  induction Hl as [|b l Hb _ IH]; intros a; [done|]. cbn [lower_hex flat_map app foldl].
  unfold byte_ok in Hb. rewrite !hex_digit_lower by (Z.to_euclidean_division_equations; lia). cbn [default from_option id].
  fold (lower_hex l). rewrite <- IH. f_equal. pose proof (Z.div_mod b 16). lia.
Qed.

(** ** UTF-8 text *)

Ltac utf8_step :=
  cbn [app utf8_decode_from];
  match goal with
  | |- context [if Z.leb ?a ?x && Z.leb ?x ?b then _ else _] =>
    replace (Z.leb a x && Z.leb x b) with true by (Z.to_euclidean_division_equations; lia); cbn [app]
  end.

Lemma utf8_decode_point p l : scalar_ok p → utf8_decode (utf8_point p ++ l) = utf16_point p ++ utf8_decode l.
Proof.
  unfold scalar_ok, point_ok, utf8_decode. intros [Hp Hs]. unfold utf8_point.
  destruct (Z.ltb_spec p 128); [|destruct (Z.ltb_spec p 2048); [|destruct (Z.ltb_spec p 65536)]];
    cbn [app utf8_decode_from]; unfold utf8_lead.
  - unfold utf16_point. replace (Z.ltb p 128) with true by lia. by replace (Z.ltb p 65536) with true by lia.
  - replace (Z.ltb (192 + p / 64) 128) with false by (Z.to_euclidean_division_equations; lia).
    replace (Z.leb 194 (192 + p / 64) && Z.leb (192 + p / 64) 223) with true by (Z.to_euclidean_division_equations; lia).
    utf8_step. f_equal. f_equal. Z.to_euclidean_division_equations; lia.
  - replace (Z.ltb (224 + p / 4096) 128) with false by (Z.to_euclidean_division_equations; lia).
    replace (Z.leb 194 (224 + p / 4096) && Z.leb (224 + p / 4096) 223) with false by (Z.to_euclidean_division_equations; lia).
    replace (Z.leb 224 (224 + p / 4096) && Z.leb (224 + p / 4096) 239) with true by (Z.to_euclidean_division_equations; lia).
    destruct (Z.eqb_spec (224 + p / 4096) 224), (Z.eqb_spec (224 + p / 4096) 237); try lia;
      do 2 utf8_step; (f_equal; f_equal; Z.to_euclidean_division_equations; lia).
  - replace (Z.ltb (240 + p / 262144) 128) with false by (Z.to_euclidean_division_equations; lia).
    replace (Z.leb 194 (240 + p / 262144) && Z.leb (240 + p / 262144) 223) with false by (Z.to_euclidean_division_equations; lia).
    replace (Z.leb 224 (240 + p / 262144) && Z.leb (240 + p / 262144) 239) with false by (Z.to_euclidean_division_equations; lia).
    replace (Z.leb 240 (240 + p / 262144) && Z.leb (240 + p / 262144) 244) with true by (Z.to_euclidean_division_equations; lia).
    destruct (Z.eqb_spec (240 + p / 262144) 240), (Z.eqb_spec (240 + p / 262144) 244); try lia;
      do 3 utf8_step; (f_equal; f_equal; Z.to_euclidean_division_equations; lia).
Qed.

(** A string without lone surrogates survives its conversion to a buffer. *)
Lemma utf8_decode_utf8 s : well_formed s → utf8_decode (utf8 s) = s.
Proof.
  intros (ps & Hps & Hok & Hs)%code_points_utf16. unfold utf8. rewrite Hps, <- Hs. clear Hps Hs.
  induction Hok as [|p ps Hp _ IH]; [done|]. cbn [fmap list_fmap flat_map]. by rewrite utf8_decode_point, IH.
Qed.
