(* ===== verification/JsDate.v ===== *)
(** * Dates

    The part of JavaScript's Date that [util.date] of the bundled SDK uses
    (dist/index.js 26339-26374): time values are milliseconds since the epoch,
    split into a proleptic Gregorian date and a time of day, and printed by
    [toISOString] and [toUTCString].  The splitting is checked against the
    definition of ECMAScript (DayFromYear and the month tables). *)

From stdpp Require Import base strings list.
From Stdlib Require Import ZArith Lia.
From S2P Require Import Prelude JsValue.

Local Open Scope Z_scope.

(** ** Calendar *)

(** Days are counted from 1 March of year 0, so that the leap day ends the
    year; 719468 days later is 1 January 1970.  A cycle is 400 years. *)
Definition civil_of_day (day : Z) : Z * Z * Z :=
  let z := day + 719468 in
  let cycle := z / 146097 in
  let n := z mod 146097 in
  let century := Z.min (n / 36524) 3 in
  let n := n - 36524 * century in
  let olympiad := n / 1461 in
  let n := n - 1461 * olympiad in
  let year := Z.min (n / 365) 3 in
  let doy := n - 365 * year in
  let y := 400 * cycle + 100 * century + 4 * olympiad + year in
  let mp := (5 * doy + 2) / 153 in
  let d := doy - (153 * mp + 2) / 5 + 1 in
  if Z.ltb mp 10 then (y, mp + 3, d) else (y + 1, mp - 9, d).

Definition hour_of (t : Z) : Z := t / 3600000 mod 24.
Definition minute_of (t : Z) : Z := t / 60000 mod 60.
Definition second_of (t : Z) : Z := t / 1000 mod 60.
Definition milli_of (t : Z) : Z := t mod 1000.
Definition day_of (t : Z) : Z := t / 86400000.

(** ** Printing *)

(** The last [w] decimal digits of [n]. *)
Fixpoint pad (w : nat) (n : Z) : jsstr :=
  match w with O => [] | S w => pad w (n / 10) ++ [48 + n mod 10] end.

Definition iso_year (y : Z) : jsstr :=
  if Z.leb 0 y && Z.leb y 9999 then pad 4 y
  else (if Z.ltb y 0 then js "-" else js "+") ++ pad 6 (Z.abs y).

Definition toISOString (t : Z) : jsstr :=
  let '(y, m, d) := civil_of_day (day_of t) in
  iso_year y ++ js "-" ++ pad 2 m ++ js "-" ++ pad 2 d ++ js "T" ++
  pad 2 (hour_of t) ++ js ":" ++ pad 2 (minute_of t) ++ js ":" ++ pad 2 (second_of t) ++
  js "." ++ pad 3 (milli_of t) ++ js "Z".

Definition week_days : list jsstr :=
  [js "Sun"; js "Mon"; js "Tue"; js "Wed"; js "Thu"; js "Fri"; js "Sat"].
Definition month_names : list jsstr :=
  [js "Jan"; js "Feb"; js "Mar"; js "Apr"; js "May"; js "Jun"; js "Jul"; js "Aug"; js "Sep";
   js "Oct"; js "Nov"; js "Dec"].

Definition toUTCString (t : Z) : jsstr :=
  let '(y, m, d) := civil_of_day (day_of t) in
  default [] (week_days !! Z.to_nat ((day_of t + 4) mod 7)) ++ js ", " ++ pad 2 d ++ js " " ++
  default [] (month_names !! Z.to_nat (m - 1)) ++ js " " ++
  (if Z.ltb y 0 then js "-" ++ pad 6 (Z.abs y) else if Z.leb y 9999 then pad 4 y else Z_to_str y) ++
  js " " ++ pad 2 (hour_of t) ++ js ":" ++ pad 2 (minute_of t) ++ js ":" ++ pad 2 (second_of t) ++
  js " GMT".

(** ** util.date *)

(** [getDate()] at the time [now]. *)
Definition getDate (systemClockOffset now : Z) : Z :=
  if Z.eqb systemClockOffset 0 then now else now + systemClockOffset.

(** [s.replace(/\.\d{3}Z$/, 'Z')]. *)
Definition strip_millis (s : jsstr) : jsstr :=
  match reverse s with
  | z :: c :: b :: a :: p :: rest =>
    if Z.eqb z 90 && is_digit c && is_digit b && is_digit a && Z.eqb p 46
    then reverse rest ++ js "Z" else s
  | _ => s
  end.
Definition iso8601 (date : Z) : jsstr := strip_millis (toISOString date).
Definition rfc822 (date : Z) : jsstr := toUTCString date.
Definition unixTimestamp (date : Z) : jsnum := num_dec date (-3).

(** ** The calendar of ECMAScript *)

Definition day_from_year (y : Z) : Z :=
  365 * (y - 1970) + (y - 1969) / 4 - (y - 1901) / 100 + (y - 1601) / 400.
Definition leap_year (y : Z) : bool :=
  Z.eqb (y mod 4) 0 && (negb (Z.eqb (y mod 100) 0) || Z.eqb (y mod 400) 0).
Definition month_days (y m : Z) : Z :=
  if Z.eqb m 2 then (if leap_year y then 29 else 28)
  else if Z.eqb m 4 || Z.eqb m 6 || Z.eqb m 9 || Z.eqb m 11 then 30 else 31.
Definition days_before_month (y m : Z) : Z :=
  foldr (λ i acc, month_days y (Z.of_nat i) + acc) 0 (seq 1 (Z.to_nat (m - 1))).
Definition day_of_civil (y m d : Z) : Z := day_from_year y + days_before_month y m + d - 1.

Ltac div_lia := Z.to_euclidean_division_equations; lia.

Lemma leap_days y : leap_year y = true ↔ y mod 4 = 0 ∧ (y mod 100 ≠ 0 ∨ y mod 400 = 0).
Proof. unfold leap_year. rewrite andb_true_iff, orb_true_iff, negb_true_iff. lia. Qed.

(** The days before each month, from March to the next February. *)
Lemma days_before_month_table y m :
  1 ≤ m ≤ 12 →
  days_before_month y m =
    (if Z.leb 3 m then (153 * (m - 3) + 2) / 5 + 59 + (if leap_year y then 1 else 0) else 31 * (m - 1)).
Proof.
  intros Hm. assert (Hc : m = 1 ∨ m = 2 ∨ m = 3 ∨ m = 4 ∨ m = 5 ∨ m = 6 ∨ m = 7 ∨ m = 8 ∨ m = 9 ∨
    m = 10 ∨ m = 11 ∨ m = 12) by lia.
  unfold days_before_month, month_days.
  destruct_or! Hc; subst m; simpl; by destruct (leap_year y).
Qed.

(** Splitting the day number of a cycle: [y] years of March-based length and
    [doy] days, where the 366th day exists only before a leap year's March. *)
Lemma cycle_split n :
  0 ≤ n < 146097 →
  let century := Z.min (n / 36524) 3 in
  let r := n - 36524 * century in
  let olympiad := r / 1461 in
  let q := r - 1461 * olympiad in
  let year := Z.min (q / 365) 3 in
  let doy := q - 365 * year in
  let y := 100 * century + 4 * olympiad + year in
  0 ≤ y < 400 ∧ 0 ≤ doy ≤ 365 ∧ n = 365 * y + y / 4 - y / 100 + doy ∧
  (doy = 365 → leap_year (y + 1) = true).
Proof.
  intros Hn century r olympiad q year doy y.
  assert (Hc : 0 ≤ century ≤ 3 ∧ 0 ≤ r ≤ 36524 ∧ (century < 3 → r < 36524) ∧ n = 36524 * century + r)
    by (unfold r, century; div_lia).
  clearbody r; clearbody century.
  assert (Ho : 0 ≤ olympiad ≤ 24 ∧ 0 ≤ q ≤ 1460 ∧ r = 1461 * olympiad + q)
    by (unfold q, olympiad; div_lia).
  clearbody q; clearbody olympiad.
  assert (Hy : 0 ≤ year ≤ 3 ∧ 0 ≤ doy ≤ 365 ∧ q = 365 * year + doy ∧ (doy = 365 → year = 3))
    by (unfold doy, year; div_lia).
  clearbody doy; clearbody year. unfold y. clear y. split_and!; [lia..|div_lia|].
  intros Hdoy. apply leap_days. div_lia.
Qed.

(** Months within a March-based year. *)
Lemma month_split doy :
  0 ≤ doy ≤ 365 →
  let mp := (5 * doy + 2) / 153 in
  let d := doy - (153 * mp + 2) / 5 + 1 in
  0 ≤ mp ≤ 11 ∧ 1 ≤ d ∧ doy = (153 * mp + 2) / 5 + d - 1 ∧
  d ≤ (if Z.eqb mp 11 then 29 else if Z.eqb mp 1 || Z.eqb mp 3 || Z.eqb mp 6 || Z.eqb mp 8 then 30 else 31) ∧
  (mp = 11 → d = 29 → doy = 365).
Proof.
  intros Hd mp d. assert (Hm : 0 ≤ mp ≤ 11 ∧ 153 * mp ≤ 5 * doy + 2 < 153 * mp + 153)
    by (unfold mp; div_lia).
  clearbody mp. unfold d. clear d.
  assert (Hc : mp = 0 ∨ mp = 1 ∨ mp = 2 ∨ mp = 3 ∨ mp = 4 ∨ mp = 5 ∨ mp = 6 ∨ mp = 7 ∨ mp = 8 ∨ mp = 9 ∨
    mp = 10 ∨ mp = 11) by lia.
  destruct_or! Hc; subst mp; simpl; div_lia.
Qed.

Lemma day_from_year_march cycle y :
  0 ≤ y < 400 →
  day_from_year (400 * cycle + y + 1) - 306 + 719468 = 146097 * cycle + 365 * y + y / 4 - y / 100 ∧
  day_from_year (400 * cycle + y) + 59 + (if leap_year (400 * cycle + y) then 1 else 0) + 719468 =
    146097 * cycle + 365 * y + y / 4 - y / 100.
Proof.
  intros Hy. unfold day_from_year. split; [div_lia|].
  destruct (leap_year _) eqn:Hl; [apply leap_days in Hl; div_lia|].
  assert (¬ ((400 * cycle + y) mod 4 = 0 ∧ ((400 * cycle + y) mod 100 ≠ 0 ∨ (400 * cycle + y) mod 400 = 0)))
    by (rewrite <- leap_days, Hl; done).
  div_lia.
Qed.

(** The split of a day is the date ECMAScript defines for it. *)
Lemma civil_of_day_correct day y m d :
  civil_of_day day = (y, m, d) →
  1 ≤ m ≤ 12 ∧ 1 ≤ d ≤ month_days y m ∧ day_of_civil y m d = day.
Proof.
  unfold civil_of_day. cbv zeta.
  assert (Hn : 0 ≤ (day + 719468) mod 146097 < 146097) by div_lia.
  assert (Hz : day + 719468 = 146097 * ((day + 719468) / 146097) + (day + 719468) mod 146097) by div_lia.
  revert Hn Hz. generalize ((day + 719468) / 146097) ((day + 719468) mod 146097). intros cycle n Hn Hz.
  pose proof (cycle_split n Hn) as Hs. cbv zeta in Hs. revert Hs.
  generalize (Z.min (n / 36524) 3). intros ce. generalize ((n - 36524 * ce) / 1461). intros ol.
  generalize (Z.min ((n - 36524 * ce - 1461 * ol) / 365) 3). intros ye.
  generalize (n - 36524 * ce - 1461 * ol - 365 * ye). intros doy (Hy & Hdoy & -> & Hleap).
  pose proof (month_split doy Hdoy) as Hm. cbv zeta in Hm. revert Hm.
  generalize ((5 * doy + 2) / 153). intros mp. generalize (doy - (153 * mp + 2) / 5 + 1).
  intros d' (Hmp & Hd1 & Heq & Hd & Hlast).
  replace (400 * cycle + 100 * ce + 4 * ol + ye) with (400 * cycle + (100 * ce + 4 * ol + ye)) by lia.
  revert Hy Hleap Hz. generalize (100 * ce + 4 * ol + ye). intros yo Hy Hleap Hz.
  destruct (day_from_year_march cycle yo Hy) as [Hnext Hthis].
  unfold day_of_civil. destruct (Z.ltb_spec mp 10); intros [= <- <- <-].
  - rewrite days_before_month_table by lia. destruct (Z.leb_spec 3 (mp + 3)); [|lia].
    replace (mp + 3 - 3) with mp by lia. split; [lia|]. split; [|lia].
    unfold month_days. js_cases; lia.
  - rewrite days_before_month_table by lia. destruct (Z.leb_spec 3 (mp - 9)); [lia|].
    split; [lia|]. split; [|div_lia]. unfold month_days.
    assert (Hmp' : mp = 10 ∨ mp = 11) by lia. destruct Hmp' as [-> | ->]; simpl in *; [lia|].
    destruct (leap_year (400 * cycle + yo + 1)) eqn:Hl; [clear - Hd Hd1; lia|].
    assert (d' ≠ 29); [|lia]. intros ->.
    replace (400 * cycle + yo + 1) with (yo + 1 + 400 * cycle) in Hl by lia.
    assert (Ht : leap_year (yo + 1 + 400 * cycle) = true); [|congruence].
    specialize (Hleap (Hlast eq_refl eq_refl)). rewrite leap_days in Hleap |- *. div_lia.
Qed.

(** ** Fixed-width formats *)

(** A format is a sequence of literals and of numbers with a fixed count of
    digits. *)
Inductive piece := Lit (s : jsstr) | Num (w : nat).

Fixpoint print_pieces (ps : list piece) (vs : list Z) : jsstr :=
  match ps, vs with
  | Lit s :: ps, _ => s ++ print_pieces ps vs
  | Num w :: ps, v :: vs => pad w v ++ print_pieces ps vs
  | _, _ => []
  end.

Fixpoint read_pieces (ps : list piece) (s : jsstr) : option (list Z) :=
  match ps with
  | [] => match s with [] => Some [] | _ => None end
  | Lit l :: ps => if starts_with l s then read_pieces ps (drop (length l) s) else None
  | Num w :: ps =>
    if Nat.leb w (length s) && forallb is_digit (take w s)
    then vs ← read_pieces ps (drop w s); Some (dec_value 0 (take w s) :: vs) else None
  end.

(** The values a format takes. *)
Fixpoint pieces_fit (ps : list piece) (vs : list Z) : Prop :=
  match ps, vs with
  | [], [] => True
  | Lit _ :: ps, _ => pieces_fit ps vs
  | Num w :: ps, v :: vs => 0 ≤ v < 10 ^ Z.of_nat w ∧ pieces_fit ps vs
  | _, _ => False
  end.

Lemma pad_length w n : length (pad w n) = w.
Proof. revert n. induction w; intros n; simpl; [done|]. rewrite length_app, IHw. simpl. lia. Qed.

Lemma pad_digits w n : forallb is_digit (pad w n) = true.
Proof.
  revert n. induction w as [|w IH]; intros n; cbn [pad]; [done|]. rewrite forallb_app, IH. simpl.
  unfold is_digit. div_lia.
Qed.

Lemma pad_value w n : 0 ≤ n < 10 ^ Z.of_nat w → dec_value 0 (pad w n) = n.
Proof.
  revert n. induction w as [|w IH]; intros n Hn; cbn [pad].
  - change (10 ^ Z.of_nat 0) with 1 in Hn. simpl. lia.
  - rewrite Nat2Z.inj_succ, Z.pow_succ_r in Hn by lia.
    rewrite dec_value_app, IH by div_lia. cbn [dec_value]. div_lia.
Qed.

Lemma read_print ps vs : pieces_fit ps vs → read_pieces ps (print_pieces ps vs) = Some vs.
Proof.
  revert vs. induction ps as [|[l|w] ps IH]; intros vs; cbn [pieces_fit print_pieces read_pieces].
  - by destruct vs.
  - intros Hf. by rewrite starts_with_app, drop_app_length, IH.
  - destruct vs as [|v vs]; [done|]. intros [Hv Hf].
    rewrite (take_app_length' (pad w v)), (drop_app_length' (pad w v)) by (by rewrite pad_length).
    rewrite length_app, pad_length, pad_digits, pad_value, IH by done.
    by replace (Nat.leb w (w + _)) with true by (symmetry; apply Nat.leb_le; lia).
Qed.

(** The instant of a date and time of day, in seconds. *)
Definition seconds_of (vs : list Z) : option Z :=
  match vs with
  | [y; m; d; h; mi; s] => Some (86400 * day_of_civil y m d + 3600 * h + 60 * mi + s)
  | _ => None
  end.

Definition iso_pieces : list piece :=
  [Num 4; Lit (js "-"); Num 2; Lit (js "-"); Num 2; Lit (js "T"); Num 2; Lit (js ":"); Num 2;
   Lit (js ":"); Num 2; Lit (js "Z")].

Lemma year_length y : day_from_year (y + 1) = day_from_year y + 365 + (if leap_year y then 1 else 0).
Proof.
  unfold day_from_year. destruct (leap_year y) eqn:Hl; [apply leap_days in Hl; div_lia|].
  assert (¬ (y mod 4 = 0 ∧ (y mod 100 ≠ 0 ∨ y mod 400 = 0))) by (rewrite <- leap_days, Hl; done).
  div_lia.
Qed.

(** The fields of the years 0 to 9999. *)
Lemma date_fields t :
  -62167219200000 ≤ t < 253402300800000 →
  ∃ y m d, civil_of_day (day_of t) = (y, m, d) ∧ 0 ≤ y ≤ 9999 ∧
    pieces_fit iso_pieces [y; m; d; hour_of t; minute_of t; second_of t] ∧
    seconds_of [y; m; d; hour_of t; minute_of t; second_of t] = Some (t / 1000).
Proof.
  intros Ht. destruct (civil_of_day (day_of t)) as [[y m] d] eqn:Hc.
  destruct (civil_of_day_correct _ _ _ _ Hc) as (Hm & Hd & Hday).
  assert (Hd31 : d ≤ 31) by (unfold month_days in Hd; repeat case_match; lia).
  assert (Hy : 0 ≤ y ≤ 9999).
  { unfold day_of_civil in Hday. rewrite days_before_month_table in Hday by lia.
    assert (Hb : day_from_year y ≤ day_of t < day_from_year (y + 1)).
    { assert (Hcase : m = 1 ∨ m = 2 ∨ m = 3 ∨ m = 4 ∨ m = 5 ∨ m = 6 ∨ m = 7 ∨ m = 8 ∨ m = 9 ∨
        m = 10 ∨ m = 11 ∨ m = 12) by lia.
      rewrite year_length. unfold month_days in Hd. clear - Hd Hday Hcase.
      destruct_or! Hcase; subst m; simpl in Hd, Hday; destruct (leap_year y); div_lia. }
    unfold day_of, day_from_year in Hb. div_lia. }
  exists y, m, d. split_and!; [done|lia|lia| |].
  - cbn [pieces_fit iso_pieces]. change (10 ^ Z.of_nat 4) with 10000. change (10 ^ Z.of_nat 2) with 100.
    unfold hour_of, minute_of, second_of. split_and!; div_lia.
  - unfold seconds_of. rewrite Hday. f_equal. unfold day_of, hour_of, minute_of, second_of. div_lia.
Qed.

Lemma strip_millis_app s n : strip_millis (s ++ js "." ++ pad 3 n ++ js "Z") = s ++ js "Z".
Proof.
  unfold strip_millis. rewrite reverse_app.
  change (js "." ++ pad 3 n ++ js "Z") with
    [46; 48 + (n / 10) / 10 mod 10; 48 + n / 10 mod 10; 48 + n mod 10; 90].
  rewrite !reverse_cons, reverse_nil. cbn -[Z.div Z.modulo Z.add is_digit reverse js].
  assert (Hd : ∀ k, is_digit (48 + k mod 10) = true) by (intros k; unfold is_digit; div_lia).
  by rewrite !Hd, reverse_involutive.
Qed.

Lemma iso8601_fields t y m d :
  civil_of_day (day_of t) = (y, m, d) → 0 ≤ y ≤ 9999 →
  iso8601 t = print_pieces iso_pieces [y; m; d; hour_of t; minute_of t; second_of t].
Proof.
  intros Hc Hy. unfold iso8601, toISOString. rewrite Hc. unfold iso_year.
  replace (Z.leb 0 y && Z.leb y 9999) with true by lia.
  rewrite !(assoc_L (++)). rewrite <- (assoc_L (++) _ (pad 3 _)), <- (assoc_L (++) _ (js ".")).
  rewrite strip_millis_app. cbn [print_pieces iso_pieces]. by rewrite !(assoc_L (++)), (right_id_L [] (++)).
Qed.

(** [util.date.iso8601] prints the instant it is given: for every time of
    the years 0 to 9999, the text has the fixed-width form
    YYYY-MM-DDThh:mm:ssZ, its fields are in range, and reading the fields with
    the calendar of ECMAScript gives the time back, rounded down to the
    second. *)
Theorem iso8601_roundtrip (t : Z) :
  -62167219200000 ≤ t < 253402300800000 →
  ∃ vs, read_pieces iso_pieces (iso8601 t) = Some vs ∧ seconds_of vs = Some (t / 1000) ∧
    ∃ y m d h mi s, vs = [y; m; d; h; mi; s] ∧ 1 ≤ m ≤ 12 ∧ 1 ≤ d ≤ month_days y m ∧
      0 ≤ h < 24 ∧ 0 ≤ mi < 60 ∧ 0 ≤ s < 60.
Proof.
  intros (y & m & d & Hc & Hy & Hfit & Hs)%date_fields.
  destruct (civil_of_day_correct _ _ _ _ Hc) as (Hm & Hd & _).
  eexists. rewrite (iso8601_fields t y m d) by done. split; [by apply read_print|]. split; [done|].
  do 6 eexists. split; [done|]. unfold hour_of, minute_of, second_of. split_and!; div_lia.
Qed.

Lemma iso8601_roundtrip_witness :
  iso8601 1709209845678 = js "2024-02-29T12:30:45Z" ∧
  ∃ vs, read_pieces iso_pieces (iso8601 1709209845678) = Some vs ∧ seconds_of vs = Some 1709209845.
Proof.
  split; [vm_compute; reflexivity|].
  destruct (iso8601_roundtrip 1709209845678) as (vs & H1 & H2 & _); [lia|].
  exists vs. split; [exact H1|exact H2].
Defined.

Example rfc822_epoch : rfc822 784111777000 = js "Sun, 06 Nov 1994 08:49:37 GMT".
Proof. vm_compute. reflexivity. Qed.
