(* ===== verification/ActionsCore.v ===== *)
(** * @actions/core, as bundled in dist/index.js (lines 4 to 978)

    The workflow commands, inputs, outputs, annotations, environment files,
    path helpers, OIDC tokens and job summaries of the Actions toolkit. The
    state is the Node process: environment, standard output, exit code and the
    files it touches. [os.EOL], [path.delimiter] and [path.sep] depend on the
    platform and are parameters of the Section; file text is kept as the
    string that was written (its UTF-8 encoding is not represented). *)

From stdpp Require Import base gmap strings list.
From Stdlib Require Import ZArith Lia.
From S2P Require Import Prelude JsValue Json JsText.

Local Open Scope Z_scope.

(** ** The process *)

Record file := mk_file { file_text : jsstr; file_rw : bool }.

Record process := mk_process {
  env : gmap jsstr jsstr;
  stdout : jsstr;
  exitCode : option Z;
  files : gmap jsstr file
}.

Definition set_env (k v : jsstr) (p : process) : process :=
  mk_process (<[k := v]> (env p)) (stdout p) (exitCode p) (files p).
Definition write_stdout (s : jsstr) (p : process) : process :=
  mk_process (env p) (stdout p ++ s) (exitCode p) (files p).
Definition set_exitCode (c : Z) (p : process) : process :=
  mk_process (env p) (stdout p) (Some c) (files p).
Definition put_file (path : jsstr) (f : file) (p : process) : process :=
  mk_process (env p) (stdout p) (exitCode p) (<[path := f]> (files p)).

Definition IO := ST process.

(** [process.env\[k\] || '']. *)
Definition env_or_empty (k : jsstr) (p : process) : jsstr := default [] (env p !! k).

(** Node's [fs.appendFile]/[fs.writeFile]: a missing file is created, an
    existing one must be writable. *)
Definition fs_append (path text : jsstr) : IO () := λ p,
  match files p !! path with
  | None => (put_file path (mk_file text true) p, Ok tt)
  | Some f => if file_rw f then (put_file path (mk_file (file_text f ++ text) true) p, Ok tt)
              else (p, Throw (js_error (js "EACCES: permission denied, open '" ++ path ++ js "'")))
  end.
Definition fs_write (path text : jsstr) : IO () := λ p,
  match files p !! path with
  | None => (put_file path (mk_file text true) p, Ok tt)
  | Some f => if file_rw f then (put_file path (mk_file text true) p, Ok tt)
              else (p, Throw (js_error (js "EACCES: permission denied, open '" ++ path ++ js "'")))
  end.

(** ** utils.js *)

Definition toCommandValue (input : jsval) : jsstr :=
  match input with
  | JNull | JUndef => []
  | JStr s => s
  | v => default [] (JSON_stringify v)
  end.

Definition toCommandProperties (o : jsobj) : jsobj :=
  if (length (own_keys o) =? 0)%nat then []
  else [(js "title", obj_prop o (js "title"));
        (js "file", obj_prop o (js "file"));
        (js "line", obj_prop o (js "startLine"));
        (js "endLine", obj_prop o (js "endLine"));
        (js "col", obj_prop o (js "startColumn"));
        (js "endColumn", obj_prop o (js "endColumn"))].

(** ** command.js *)

Definition CMD_STRING : jsstr := js "::".

Definition escapeData (s : jsval) : jsstr :=
  replace_all 10 (js "%0A") (replace_all 13 (js "%0D") (replace_all 37 (js "%25") (toCommandValue s))).

Definition escapeProperty (s : jsval) : jsstr :=
  replace_all 44 (js "%2C") (replace_all 58 (js "%3A")
    (replace_all 10 (js "%0A") (replace_all 13 (js "%0D") (replace_all 37 (js "%25") (toCommandValue s))))).

Record Command := mk_Command { command : jsstr; properties : jsobj; message : jsval }.

Definition new_Command (cmd : jsstr) (props : jsobj) (msg : jsval) : Command :=
  mk_Command (if str_eqb cmd [] then js "missing.command" else cmd) props msg.

(** The loop over the properties: [first] is true until one was written. *)
Fixpoint props_str (first : bool) (props : jsobj) : jsstr :=
  match props with
  | [] => []
  | (key, val) :: rest =>
    if truthy val then
      (if first then [] else js ",") ++ key ++ js "=" ++ escapeProperty val ++ props_str false rest
    else props_str first rest
  end.

Definition Command_toString (c : Command) : jsstr :=
  CMD_STRING ++ command c ++
  (if (0 <? length (own_keys (properties c)))%nat
   then js " " ++ props_str true (own_props (properties c)) else []) ++
  CMD_STRING ++ escapeData (message c).

(** ** path-utils.js *)

Definition toPosixPath (pth : jsstr) : jsstr := replace_all 92 (js "/") pth.
Definition toWin32Path (pth : jsstr) : jsstr := replace_all 47 [92] pth.

Section platform.
  Context (EOL delimiter sep : jsstr).

Definition toPlatformPath (pth : jsstr) : jsstr :=
    flat_map (λ c, if Z.eqb c 47 || Z.eqb c 92 then sep else [c]) pth.

(** ** command.js: issuing *)

Definition issueCommand (cmd : jsstr) (props : jsobj) (msg : jsval) : IO () :=
    st_modify (write_stdout (Command_toString (new_Command cmd props msg) ++ EOL)).

Definition issue (name : jsstr) (msg : jsval) : IO () := issueCommand name [] msg.

(** ** file-command.js *)

Definition file_issueCommand (cmd : jsstr) (msg : jsval) : IO () :=
    p <- st_gets (λ p, p);;
    match env p !! (js "GITHUB_" ++ cmd) with
    | None | Some [] =>
      st_throw (js_error (js "Unable to find environment variable for file command " ++ cmd))
    | Some filePath =>
      match files p !! filePath with
      | None => st_throw (js_error (js "Missing file at path: " ++ filePath))
      | Some _ => fs_append filePath (toCommandValue msg ++ EOL)
      end
    end.

(** ** core.js *)

Definition exportVariable (uuid : jsstr) (name : jsstr) (val : jsval) : IO () :=
    let convertedVal := toCommandValue val in
    st_modify (set_env name convertedVal);;;
    filePath <- st_gets (env_or_empty (js "GITHUB_ENV"));;
    if str_eqb filePath [] then
      issueCommand (js "set-env") [(js "name", JStr name)] (JStr convertedVal)
    else
      let delim := js "ghadelimiter_" ++ uuid in
      if includes delim name then
        st_throw (js_error (js "Unexpected input: name should not contain the delimiter " ++
                            [34] ++ delim ++ [34]))
      else if includes delim convertedVal then
        st_throw (js_error (js "Unexpected input: value should not contain the delimiter " ++
                            [34] ++ delim ++ [34]))
      else file_issueCommand (js "ENV")
             (JStr (name ++ js "<<" ++ delim ++ EOL ++ convertedVal ++ EOL ++ delim)).

Definition setSecret (secret : jsval) : IO () := issueCommand (js "add-mask") [] secret.

Definition addPath (inputPath : jsstr) : IO () :=
    filePath <- st_gets (env_or_empty (js "GITHUB_PATH"));;
    (if str_eqb filePath [] then issueCommand (js "add-path") [] (JStr inputPath)
     else file_issueCommand (js "PATH") (JStr inputPath));;;
    p <- st_gets (λ p, p);;
    st_modify (set_env (js "PATH")
      (inputPath ++ delimiter ++ default (js "undefined") (env p !! js "PATH"))).

Record InputOptions := mk_options { required : bool; trimWhitespace : option bool }.

Definition input_key (name : jsstr) : jsstr :=
    js "INPUT_" ++ to_upper (replace_all 32 (js "_") name).

Definition getInput (name : jsstr) (options : option InputOptions) : IO jsstr :=
    val <- st_gets (env_or_empty (input_key name));;
    if match options with Some o => required o && str_eqb val [] | None => false end then
      st_throw (js_error (js "Input required and not supplied: " ++ name))
    else if match options with
            | Some o => bool_decide (trimWhitespace o = Some false) | None => false end then
      st_ret val
    else st_ret (trim val).

Definition getMultilineInput (name : jsstr) (options : option InputOptions) : IO (list jsstr) :=
    v <- getInput name options;;
    st_ret (base.filter (λ x, x ≠ []) (split_on 10 v)).

Definition getBooleanInput (name : jsstr) (options : option InputOptions) : IO bool :=
    val <- getInput name options;;
    if bool_decide (val ∈ [js "true"; js "True"; js "TRUE"]) then st_ret true
    else if bool_decide (val ∈ [js "false"; js "False"; js "FALSE"]) then st_ret false
    else st_throw (mk_error (js "TypeError")
      (js "Input does not meet YAML 1.2 " ++ [34] ++ js "Core Schema" ++ [34] ++
       js " specification: " ++ name ++ [10] ++
       js "Support boolean input list: `true | True | TRUE | false | False | FALSE`")).

Definition setOutput (name : jsstr) (value : jsval) : IO () :=
    st_modify (write_stdout EOL);;;
    issueCommand (js "set-output") [(js "name", JStr name)] value.

Definition setCommandEcho (enabled : bool) : IO () :=
    issue (js "echo") (JStr (if enabled then js "on" else js "off")).

(** [message instanceof Error ? message.toString() : message]. *)
Definition annotation_message (message : jserror + jsval) : jsval :=
    match message with
    | inl e => JStr (if str_eqb (err_message e) [] then err_name e
                     else if str_eqb (err_name e) [] then err_message e
                     else err_name e ++ js ": " ++ err_message e)
    | inr v => v
    end.

Definition error (message : jserror + jsval) (props : jsobj) : IO () :=
    issueCommand (js "error") (toCommandProperties props) (annotation_message message).
Definition warning (message : jserror + jsval) (props : jsobj) : IO () :=
    issueCommand (js "warning") (toCommandProperties props) (annotation_message message).
Definition notice (message : jserror + jsval) (props : jsobj) : IO () :=
    issueCommand (js "notice") (toCommandProperties props) (annotation_message message).

Definition ExitCode_Success : Z := 0.
Definition ExitCode_Failure : Z := 1.

Definition setFailed (message : jserror + jsval) : IO () :=
    st_modify (set_exitCode ExitCode_Failure);;;
    error message [].

Definition isDebug : IO bool :=
    st_gets (λ p, bool_decide (env p !! js "RUNNER_DEBUG" = Some (js "1"))).
Definition debug (message : jsval) : IO () := issueCommand (js "debug") [] message.
Definition info (message : jsval) : IO () :=
    st_modify (write_stdout (to_string message ++ EOL)).
Definition startGroup (name : jsval) : IO () := issue (js "group") name.
Definition endGroup : IO () := issue (js "endgroup") (JStr []).

(** The group is closed whether [fn] returns or throws. *)
Definition group {A} (name : jsval) (fn : IO A) : IO A :=
    startGroup name;;; st_finally fn endGroup.

Definition saveState (name : jsstr) (value : jsval) : IO () :=
    issueCommand (js "save-state") [(js "name", JStr name)] value.
Definition getState (name : jsstr) : IO jsstr := st_gets (env_or_empty (js "STATE_" ++ name)).

(** ** oidc-utils.js

    The HTTP client is the parameter [getJson]: given the bearer token, the
    retry options and the URL, it resolves with the [result] of the typed
    response or rejects with an error whose [statusCode] and [result] are given. *)

  Context (getJson : jsstr → bool * Z → jsstr → result (jsval * jsval) jsval).

Definition getRequestToken : IO jsstr :=
    token <- st_gets (env_or_empty (js "ACTIONS_ID_TOKEN_REQUEST_TOKEN"));;
    if str_eqb token [] then
      st_throw (js_error (js "Unable to get ACTIONS_ID_TOKEN_REQUEST_TOKEN env variable"))
    else st_ret token.

Definition getIDTokenUrl : IO jsstr :=
    runtimeUrl <- st_gets (env_or_empty (js "ACTIONS_ID_TOKEN_REQUEST_URL"));;
    if str_eqb runtimeUrl [] then
      st_throw (js_error (js "Unable to get ACTIONS_ID_TOKEN_REQUEST_URL env variable"))
    else st_ret runtimeUrl.

(** [res.result?.value]. *)
Definition result_value (r : jsval) : jsval :=
    match r with JObj o => obj_prop o (js "value") | _ => JUndef end.

(** [error.result.message]: the error of a failed connection has no result, and
    reading its message throws. *)
Definition result_message (r : jsval) : result jserror jsval :=
    match r with
    | JUndef => Throw (mk_error (js "TypeError") (js "Cannot read properties of undefined (reading 'message')"))
    | JNull => Throw (mk_error (js "TypeError") (js "Cannot read properties of null (reading 'message')"))
    | JObj o => Ok (obj_prop o (js "message"))
    | _ => Ok JUndef
    end.

Definition getCall (id_token_url : jsstr) : IO jsval :=
    token <- getRequestToken;;
    match getJson token (true, 10) id_token_url with
    | Throw (statusCode, res) =>
      match result_message res with
      | Ok msg =>
        st_throw (js_error (js "Failed to get ID Token. " ++ [10] ++ js " " ++ [10] ++
          js "        Error Code : " ++ to_string statusCode ++ [10] ++ js " " ++ [10] ++
          js "        Error Message: " ++ to_string msg))
      | Throw e => st_throw e
      end
    | Ok r =>
      let id_token := result_value r in
      if truthy id_token then st_ret id_token
      else st_throw (js_error (js "Response json body do not have ID Token field"))
    end.

Definition getIDToken (audience : option jsstr) : IO jsval :=
    st_catch
      (url <- getIDTokenUrl;;
       id_token_url <-
         match audience with
         | None | Some [] => st_ret url
         | Some a =>
           match encodeURIComponent a with
           | Some enc => st_ret (url ++ js "&audience=" ++ enc)
           | None => st_throw (mk_error (js "URIError") (js "URI malformed"))
           end
         end;;
       debug (JStr (js "ID token url is " ++ id_token_url));;;
       id_token <- getCall id_token_url;;
       setSecret id_token;;;
       st_ret id_token)
      (λ e, st_throw (js_error (js "Error message: " ++ err_message e))).

(** ** summary.js *)

Record Summary := mk_Summary { buffer : jsstr; filePath : option jsstr }.

Definition new_Summary : Summary := mk_Summary [] None.
Definition SUMMARY_ENV_VAR : jsstr := js "GITHUB_STEP_SUMMARY".

Definition wrap (tag : jsstr) (content : jsval) (attrs : jsobj) : jsstr :=
    let htmlAttrs := concat ((λ kv, js " " ++ kv.1 ++ js "=" ++ [34] ++ to_string kv.2 ++ [34])
                               <$> own_props attrs) in
    if truthy content
    then js "<" ++ tag ++ htmlAttrs ++ js ">" ++ to_string content ++ js "</" ++ tag ++ js ">"
    else js "<" ++ tag ++ htmlAttrs ++ js ">".

Definition addRaw (text : jsstr) (addEOL : bool) (s : Summary) : Summary :=
    mk_Summary (buffer s ++ text ++ if addEOL then EOL else []) (filePath s).
Definition addEOL (s : Summary) : Summary := addRaw EOL false s.
Definition emptyBuffer (s : Summary) : Summary := mk_Summary [] (filePath s).
Definition isEmptyBuffer (s : Summary) : bool := (length (buffer s) =? 0)%nat.
Definition stringify (s : Summary) : jsstr := buffer s.

(** [(v && { k: v })] merged into an attribute object. *)
Definition attr_if (k : jsstr) (v : jsval) : jsobj := if truthy v then [(k, v)] else [].

Definition addCodeBlock (code lang : jsval) (s : Summary) : Summary :=
    addEOL (addRaw (wrap (js "pre") (JStr (wrap (js "code") code [])) (attr_if (js "lang") lang)) false s).

Definition addList (items : list jsval) (ordered : bool) (s : Summary) : Summary :=
    let tag := if ordered then js "ol" else js "ul" in
    let listItems := concat ((λ item, wrap (js "li") item []) <$> items) in
    addEOL (addRaw (wrap tag (JStr listItems) []) false s).

Inductive cell :=
| CellText (s : jsstr)
| CellObj (header data colspan rowspan : jsval).

Definition cell_html (c : cell) : jsstr :=
    match c with
    | CellText t => wrap (js "td") (JStr t) []
    | CellObj header data colspan rowspan =>
      wrap (if truthy header then js "th" else js "td") data
        (attr_if (js "colspan") colspan ++ attr_if (js "rowspan") rowspan)
    end.

Definition addTable (rows : list (list cell)) (s : Summary) : Summary :=
    let tableBody := concat ((λ row, wrap (js "tr") (JStr (concat (cell_html <$> row))) []) <$> rows) in
    addEOL (addRaw (wrap (js "table") (JStr tableBody) []) false s).

Definition addDetails (label : jsval) (content : jsstr) (s : Summary) : Summary :=
    addEOL (addRaw (wrap (js "details") (JStr (wrap (js "summary") label [] ++ content)) []) false s).

(** [Object.assign({ src, alt }, attrs)] with [width] and [height] of the options. *)
Definition addImage (src alt width height : jsval) (s : Summary) : Summary :=
    let attrs := attr_if (js "width") width ++ attr_if (js "height") height in
    addEOL (addRaw (wrap (js "img") JNull ([(js "src", src); (js "alt", alt)] ++ attrs)) false s).

Definition addHeading (text level : jsval) (s : Summary) : Summary :=
    let tag := js "h" ++ to_string level in
    let allowedTag :=
      if bool_decide (tag ∈ [js "h1"; js "h2"; js "h3"; js "h4"; js "h5"; js "h6"])
      then tag else js "h1" in
    addEOL (addRaw (wrap allowedTag text []) false s).

Definition addSeparator (s : Summary) : Summary := addEOL (addRaw (wrap (js "hr") JNull []) false s).
Definition addBreak (s : Summary) : Summary := addEOL (addRaw (wrap (js "br") JNull []) false s).
Definition addQuote (text cite : jsval) (s : Summary) : Summary :=
    addEOL (addRaw (wrap (js "blockquote") text (attr_if (js "cite") cite)) false s).
Definition addLink (text href : jsval) (s : Summary) : Summary :=
    addEOL (addRaw (wrap (js "a") text [(js "href", href)]) false s).

(** The summary operations that touch the file system run on the process and
    the summary object together. *)
Definition SIO := ST (process * Summary).

Definition lift_io {A} (m : IO A) : SIO A := λ ps,
    let '(p', r) := m ps.1 in ((p', ps.2), r).

Definition Summary_filePath : SIO jsstr :=
    ps <- st_gets (λ ps, ps);;
    match filePath ps.2 with
    | Some (c :: f) => st_ret (c :: f)
    | _ =>
      match env ps.1 !! SUMMARY_ENV_VAR with
      | None | Some [] =>
        st_throw (js_error (js "Unable to find environment variable for $" ++ SUMMARY_ENV_VAR ++
          js ". Check if your runtime environment supports job summaries."))
      | Some pathFromEnv =>
        match files ps.1 !! pathFromEnv with
        | Some (mk_file _ true) =>
          st_modify (λ ps, (ps.1, mk_Summary (buffer ps.2) (Some pathFromEnv)));;;
          st_ret pathFromEnv
        | _ => st_throw (js_error (js "Unable to access summary file: '" ++ pathFromEnv ++
                 js "'. Check if the file has correct read/write permissions."))
        end
      end
    end.

Definition Summary_write (overwrite : bool) : SIO () :=
    path <- Summary_filePath;;
    ps <- st_gets (λ ps, ps);;
    lift_io ((if overwrite then fs_write else fs_append) path (buffer ps.2));;;
    st_modify (λ ps, (ps.1, emptyBuffer ps.2)).

Definition Summary_clear : SIO () :=
    st_modify (λ ps, (ps.1, emptyBuffer ps.2));;;
    Summary_write true.
End platform.

(** Run the state monad without unfolding the strings. *)
Ltac io_run :=
  cbv [st_bind st_modify st_gets st_ret st_throw st_catch st_finally lift_io];
  cbn [env stdout exitCode files set_env write_stdout set_exitCode put_file
       buffer filePath emptyBuffer fst snd file_rw file_text].

(** ** Escaping of command data *)

(** What the runner does with a value: a percent sign followed by two
    hexadecimal digits stands for the character. *)
Fixpoint unescape (s : jsstr) : jsstr :=
  match s with
  | [] => []
  | c :: s1 =>
    if Z.eqb c 37 then
      match s1 with
      | h :: l :: s2 =>
        match hex_value h, hex_value l with
        | Some a, Some b => (a * 16 + b) :: unescape s2
        | _, _ => c :: unescape s1
        end
      | _ => c :: unescape s1
      end
    else c :: unescape s1
  end.

Definition escape_data_unit (c : Z) : jsstr :=
  if Z.eqb c 37 then js "%25" else if Z.eqb c 13 then js "%0D"
  else if Z.eqb c 10 then js "%0A" else [c].
Definition escape_prop_unit (c : Z) : jsstr :=
  if Z.eqb c 58 then js "%3A" else if Z.eqb c 44 then js "%2C" else escape_data_unit c.

(** Case on [c = k]: the equal case evaluates, the other one rewrites the test. *)
Ltac replace_unit c k :=
  destruct (Z.eqb_spec c k) as [->|];
  [vm_compute; done|rewrite ?replace_all_cons; rewrite ?(proj2 (Z.eqb_neq c k)) by done; simpl].

Lemma escapeData_units v : escapeData v = flat_map escape_data_unit (toCommandValue v).
Proof.
  unfold escapeData. induction (toCommandValue v) as [|c s IH]; [done|].
  rewrite replace_all_cons, !replace_all_app, IH. cbn [flat_map]. f_equal.
  unfold escape_data_unit. by replace_unit c 37; replace_unit c 13; replace_unit c 10.
Qed.

Lemma escapeProperty_units v : escapeProperty v = flat_map escape_prop_unit (toCommandValue v).
Proof.
  unfold escapeProperty. induction (toCommandValue v) as [|c s IH]; [done|].
  rewrite replace_all_cons, !replace_all_app, IH. cbn [flat_map]. f_equal.
  unfold escape_prop_unit, escape_data_unit.
  by replace_unit c 37; replace_unit c 13; replace_unit c 10; replace_unit c 58; replace_unit c 44.
Qed.

Lemma unescape_plain c s : c ≠ 37 → unescape (c :: s) = c :: unescape s.
Proof. intros. cbn [unescape]. destruct (Z.eqb_spec c 37); done. Qed.

Lemma unescape_data_unit c s : unescape (escape_data_unit c ++ s) = c :: unescape s.
Proof.
  unfold escape_data_unit. replace_unit c 37. replace_unit c 13. replace_unit c 10.
  by apply unescape_plain.
Qed.

Lemma unescape_prop_unit c s : unescape (escape_prop_unit c ++ s) = c :: unescape s.
Proof.
  unfold escape_prop_unit. destruct (Z.eqb_spec c 58) as [->|]; [by vm_compute|].
  destruct (Z.eqb_spec c 44) as [->|]; [by vm_compute|]. apply unescape_data_unit.
Qed.

Lemma unescape_units (f : Z → jsstr) s :
  (∀ c r, unescape (f c ++ r) = c :: unescape r) → unescape (flat_map f s) = s.
Proof. intros Hf. induction s as [|c s IH]; [done|]. simpl. by rewrite Hf, IH. Qed.

Lemma unescape_escapeProperty v : unescape (escapeProperty v) = toCommandValue v.
Proof. rewrite escapeProperty_units. apply unescape_units, unescape_prop_unit. Qed.

Lemma unescape_escapeData' v : unescape (escapeData v) = toCommandValue v.
Proof. rewrite escapeData_units. apply unescape_units, unescape_data_unit. Qed.

(** The characters that structure a command line. *)
Definition no_newline (s : jsstr) : Prop := 13 ∉ s ∧ 10 ∉ s.

Lemma escapeData_no_newline v : no_newline (escapeData v).
Proof.
  unfold no_newline, escapeData.
  split; repeat first [apply replace_all_removes | apply replace_all_keeps_absent];
    by apply (bool_decide_unpack _); vm_compute.
Qed.

Lemma escapeProperty_clean v :
  no_newline (escapeProperty v) ∧ 58 ∉ escapeProperty v ∧ 44 ∉ escapeProperty v.
Proof.
  unfold no_newline, escapeProperty.
  split_and!; repeat first [apply replace_all_removes | apply replace_all_keeps_absent];
    by apply (bool_decide_unpack _); vm_compute.
Qed.

(** C1. Escaping loses nothing and cannot inject a command: for every value,
    percent-decoding the escaped data gives back its command value, and the
    escaped text has no carriage return or line feed that would end the
    command line. *)
Theorem escapeData_faithful (v : jsval) :
  unescape (escapeData v) = toCommandValue v ∧ 13 ∉ escapeData v ∧ 10 ∉ escapeData v.
Proof. split; [apply unescape_escapeData'|apply escapeData_no_newline]. Qed.

(** ** The command line format

    [::name key=value,key=value::message], as the comment of command.js states
    it, read back by a reference parser. *)

(** The text before and after the first occurrence of [p]. *)
Fixpoint cut (p s : jsstr) : option (jsstr * jsstr) :=
  if starts_with p s then Some ([], drop (length p) s)
  else match s with
       | [] => None
       | c :: s' => match cut p s' with Some (a, b) => Some (c :: a, b) | None => None end
       end.

Definition parse_prop (e : jsstr) : option (jsstr * jsstr) :=
  match cut (js "=") e with Some (k, v) => Some (k, unescape v) | None => None end.

Definition parse_command (s : jsstr) : option (jsstr * list (jsstr * jsstr) * jsstr) :=
  if starts_with CMD_STRING s then
    match cut CMD_STRING (drop 2 s) with
    | Some (head, msg) =>
      match cut (js " ") head with
      | Some (name, props) => Some (name, omap parse_prop (split_on 44 props), unescape msg)
      | None => Some (head, [], unescape msg)
      end
    | None => None
    end
  else None.

(** The properties a command carries: those with a truthy value. *)
Definition carried (props : jsobj) : list (jsstr * jsstr) :=
  omap (λ kv, if truthy kv.2 then Some (kv.1, toCommandValue kv.2) else None) (own_props props).

Lemma cut_absent c p a b :
  c ∉ a → cut (c :: p) (a ++ (c :: p) ++ b) = Some (a, b).
Proof.
  induction a as [|x a IH]; intros Ha.
  - cbn [app cut]. assert (starts_with (c :: p) (c :: p ++ b) = true) as ->.
    { apply starts_with_prefix. by exists b. }
    simpl. by rewrite drop_app_length.
  - apply not_elem_of_cons in Ha as [Hne Ha]. cbn [app cut starts_with] in IH |- *.
    destruct (Z.eqb_spec c x); [done|]. cbn [andb]. by rewrite (IH Ha).
Qed.

Lemma cut_none c s : c ∉ s → cut [c] s = None.
Proof.
  induction s as [|x s IH]; [done|]. intros [? ?]%not_elem_of_cons. cbn [cut starts_with].
  destruct (Z.eqb_spec c x); [done|]. by rewrite IH.
Qed.

Definition entry (kv : jsstr * jsval) : jsstr := kv.1 ++ js "=" ++ escapeProperty kv.2.
Definition carried_props (props : jsobj) : jsobj := base.filter (λ kv, truthy kv.2 = true) props.

Lemma props_str_join first props :
  props_str first props =
    (if first || (length (carried_props props) =? 0)%nat then [] else js ",") ++
    join (js ",") (entry <$> carried_props props).
Proof.
  revert first. induction props as [|[k v] props IH]; intros first; [by destruct first|].
  cbn [props_str]. unfold carried_props in *. destruct (truthy v) eqn:E.
  - rewrite filter_cons_True by done. rewrite (IH false). cbn [length Nat.eqb]. rewrite orb_false_r.
    f_equal. rewrite fmap_cons. destruct (base.filter _ props) as [|kv l].
    + simpl length. cbn [Nat.eqb orb fmap list_fmap join app]. by rewrite app_nil_r.
    + rewrite join_cons by done. cbn [length Nat.eqb orb]. unfold entry at 2. cbn [fst snd].
      by rewrite <- !app_assoc.
  - rewrite filter_cons_False by (simpl; congruence). apply IH.
Qed.

(** A name that cannot be confused with the separators of the format. *)
Definition key_ok (k : jsstr) : Prop := 58 ∉ k ∧ 44 ∉ k ∧ 61 ∉ k.

Lemma entry_clean kv : key_ok kv.1 → 58 ∉ entry kv ∧ 44 ∉ entry kv.
Proof.
  destruct (escapeProperty_clean kv.2) as (_ & ? & ?). intros (? & ? & _).
  unfold entry. rewrite !not_elem_of_app.
  split_and!; try done; by apply (bool_decide_unpack _); vm_compute.
Qed.

Lemma parse_prop_entry kv : key_ok kv.1 → parse_prop (entry kv) = Some (kv.1, toCommandValue kv.2).
Proof.
  intros (_ & _ & Hk). unfold parse_prop, entry.
  change (js "=") with [61]. rewrite (cut_absent 61 []) by done.
  by rewrite unescape_escapeProperty.
Qed.

Lemma parse_props_str props :
  Forall (λ kv, key_ok kv.1) props →
  omap parse_prop (split_on 44 (props_str true props)) =
  omap (λ kv, if truthy kv.2 then Some (kv.1, toCommandValue kv.2) else None) props.
Proof.
  intros Hok. rewrite props_str_join. simpl app.
  assert (Hc : Forall (λ kv, key_ok kv.1) (carried_props props)) by by apply Forall_filter_keep.
  transitivity (omap parse_prop (entry <$> carried_props props)).
  - destruct (decide (carried_props props = [])) as [->|Hne]; [done|].
    change (js ",") with [44]. rewrite split_join; [done|by destruct (carried_props props)|].
    apply Forall_fmap. eapply Forall_impl; [exact Hc|]. intros kv ?. by apply entry_clean.
  - clear Hc. unfold carried_props. induction Hok as [|kv props Hkv _ IH]; [done|].
    cbn [omap list_omap]. destruct (truthy kv.2) eqn:E.
    + rewrite filter_cons_True by done. cbn [fmap list_fmap omap list_omap].
      rewrite parse_prop_entry by done. f_equal. apply IH.
    + rewrite filter_cons_False by congruence. apply IH.
Qed.

Lemma props_str_no_colon props :
  Forall (λ kv, key_ok kv.1) props → 58 ∉ props_str true props.
Proof.
  intros Hok. rewrite props_str_join. simpl app.
  assert (Hc : Forall (λ s, 58 ∉ s) (entry <$> carried_props props)).
  { apply Forall_fmap, Forall_filter_keep. eapply Forall_impl; [exact Hok|].
    intros kv ?. by apply entry_clean. }
  induction Hc as [|s l Hs Hl IH]; [by intros ?%elem_of_nil|].
  destruct l; [done|]. rewrite join_cons, !not_elem_of_app by done.
  split_and!; [done|by apply (bool_decide_unpack _); vm_compute|done].
Qed.

(** C2. The command line printed for a command parses, by the documented
    format, to exactly its name, its properties with a truthy value and its
    message, whatever characters the values and the message contain. *)
Theorem command_roundtrip (c : Command)
  (Hname : 58 ∉ command c ∧ 32 ∉ command c)
  (Hkeys : Forall (λ kv, key_ok kv.1) (properties c)) :
  parse_command (Command_toString c) =
    Some (command c, carried (properties c), toCommandValue (message c)).
Proof.
  destruct Hname as [Hn58 Hn32].
  assert (Hown : Forall (λ kv, key_ok kv.1) (own_props (properties c))) by by rewrite own_props_perm.
  unfold parse_command, Command_toString.
  rewrite starts_with_app. change (drop 2 (CMD_STRING ++ ?y)) with y.
  set (ps := if (0 <? length (own_keys (properties c)))%nat
             then js " " ++ props_str true (own_props (properties c)) else []). rewrite app_assoc. change CMD_STRING with (58 :: [58]).
  assert (Hps : 58 ∉ ps).
  { subst ps. case_match; [|by intros ?%elem_of_nil]. rewrite not_elem_of_app.
    split; [by apply (bool_decide_unpack _); vm_compute|by apply props_str_no_colon]. }
  rewrite cut_absent by (by rewrite not_elem_of_app).
  rewrite unescape_escapeData'. subst ps. unfold carried, own_keys. rewrite length_fmap.
  destruct (own_props (properties c)) as [|kv l] eqn:E.
  - cbn [length Nat.ltb Nat.leb]. change (js " ") with [32]. by rewrite app_nil_r, cut_none.
  - cbn [length Nat.ltb Nat.leb]. rewrite (cut_absent 32 []) by done.
    by rewrite parse_props_str.
Qed.

Lemma command_roundtrip_witness :
  parse_command (Command_toString (new_Command (js "error")
      [(js "title", JStr (js "a,b:c%")); (js "line", JNum (num_of_Z 0)); (js "col", JNum (num_of_Z 7))]
      (JStr (js "x::y" ++ [10]))))
  = Some (js "error", [(js "title", js "a,b:c%"); (js "col", js "7")], js "x::y" ++ [10]).
Proof.
  apply (command_roundtrip (new_Command (js "error")
      [(js "title", JStr (js "a,b:c%")); (js "line", JNum (num_of_Z 0)); (js "col", JNum (num_of_Z 7))]
      (JStr (js "x::y" ++ [10])))).
  - split; by apply (bool_decide_unpack _); vm_compute.
  - repeat constructor; by apply (bool_decide_unpack _); vm_compute.
Defined.

(** ** Environment files

    The format [name<<delimiter], lines of the value, [delimiter], read back by
    a reference reader on the lines of the file. *)

Fixpoint until_line (d : jsstr) (ls : list jsstr) : option (list jsstr * list jsstr) :=
  match ls with
  | [] => None
  | l :: ls' =>
    if str_eqb l d then Some ([], ls')
    else match until_line d ls' with Some (vs, r) => Some (l :: vs, r) | None => None end
  end.

Definition read_env_entry (ls : list jsstr) : option (jsstr * jsstr * list jsstr) :=
  match ls with
  | [] => None
  | h :: ls' =>
    match cut (js "<<") h with
    | Some (name, d) =>
      match until_line d ls' with
      | Some (vs, rest) => Some (name, join [10] vs, rest)
      | None => None
      end
    | None => None
    end
  end.

Lemma until_line_app d vs rest :
  Forall (λ l, l ≠ d) vs → until_line d (vs ++ d :: rest) = Some (vs, rest).
Proof.
  induction 1 as [|l vs Hl _ IH]; simpl; [by rewrite str_eqb_refl|].
  rewrite (proj2 (str_eqb_neq l d)) by done. by rewrite IH.
Qed.

Lemma includes_piece d c s : includes d s = false → Forall (λ l, l ≠ d) (split_on c s).
Proof.
  intros Hi. apply Forall_forall. intros l Hl ->.
  assert (Hinc : includes d s = true); [|congruence].
  apply includes_infix. apply list_elem_of_split in Hl as (l1 & l2 & Hs).
  rewrite <- (join_split c s), Hs. clear Hs Hi.
  induction l1 as [|x l1 IH]; simpl.
  - destruct l2; [exists [], []; by rewrite app_nil_r|by eexists [], _].
  - destruct IH as (a & b & Hab). exists (x ++ c :: a), b.
    destruct (l1 ++ d :: l2) eqn:E; [by destruct l1|].
    rewrite Hab. by rewrite <- app_assoc.
Qed.

Lemma read_env_block name delim val rest :
  60 ∉ name → 10 ∉ name → 10 ∉ delim → includes delim val = false →
  read_env_entry (split_on 10
    (name ++ js "<<" ++ delim ++ [10] ++ val ++ [10] ++ delim ++ [10] ++ rest))
  = Some (name, val, split_on 10 rest).
Proof.
  intros Hlt Hn Hd Hinc.
  replace (name ++ js "<<" ++ delim ++ [10] ++ val ++ [10] ++ delim ++ [10] ++ rest)
    with ((name ++ js "<<" ++ delim) ++ 10 :: val ++ 10 :: delim ++ 10 :: rest)
    by (by rewrite <- !app_assoc).
  rewrite split_on_app, split_on_middle, split_on_app; [|done|].
  - unfold read_env_entry. change (js "<<") with (60 :: [60]).
    rewrite cut_absent by done. rewrite until_line_app by (by apply includes_piece).
    by rewrite join_split.
  - rewrite !not_elem_of_app. split_and!; try done. by apply (bool_decide_unpack _); vm_compute.
Qed.

(** C3. Exporting a variable through the environment file: whenever neither
    the name nor the value contains the random delimiter, the call succeeds, sets the
    variable in the process, prints nothing, and appends one entry that a
    reader of the file decodes to exactly that name and value, whatever lines
    the value has. *)
Theorem exportVariable_file (uuid name f text : jsstr) (v : jsval) (p : process)
  (Henv : env p !! js "GITHUB_ENV" = Some f) (Hf : f ≠ [])
  (Hfile : files p !! f = Some (mk_file text true))
  (Hname : name ≠ js "GITHUB_ENV") (Hclean : 60 ∉ name ∧ 10 ∉ name) (Huuid : 10 ∉ uuid)
  (Hfresh : includes (js "ghadelimiter_" ++ uuid) name = false)
  (Hfreshv : includes (js "ghadelimiter_" ++ uuid) (toCommandValue v) = false) :
  ∃ p' block, exportVariable [10] uuid name v p = (p', Ok tt) ∧
    env p' = <[name := toCommandValue v]> (env p) ∧ stdout p' = stdout p ∧
    files p' = <[f := mk_file (text ++ block) true]> (files p) ∧
    ∀ rest, read_env_entry (split_on 10 (block ++ rest))
            = Some (name, toCommandValue v, split_on 10 rest).
Proof.
  eexists _, _. split_and!.
  - unfold exportVariable, env_or_empty. io_run.
    rewrite lookup_insert_ne, Henv by done. cbn [default from_option id].
    rewrite (proj2 (str_eqb_neq f [])) by done. rewrite Hfresh, Hfreshv.
    unfold file_issueCommand. io_run.
    change (js "GITHUB_" ++ js "ENV") with (js "GITHUB_ENV").
    rewrite lookup_insert_ne, Henv by done. destruct f as [|c f]; [done|].
    rewrite Hfile. unfold fs_append. io_run. by rewrite Hfile.
  - done.
  - done.
  - done.
  - intros rest. rewrite <- (read_env_block name (js "ghadelimiter_" ++ uuid)); try tauto.
    + do 2 f_equal. cbn [toCommandValue]. by rewrite <- !app_assoc.
    + rewrite not_elem_of_app. split; [by apply (bool_decide_unpack _); vm_compute|done].
Qed.

Definition example_process : process :=
  mk_process {[js "GITHUB_ENV" := js "/env"; js "GITHUB_STEP_SUMMARY" := js "/sum"]} [] None
    {[js "/env" := mk_file [] true; js "/sum" := mk_file (js "old") true]}.
Definition example_value : jsval := JStr (js "a" ++ [10] ++ js "b").

Lemma exportVariable_file_witness :
  ∃ p' block, exportVariable [10] (js "u1") (js "RESULT") example_value example_process
      = (p', Ok tt) ∧
    env p' = <[js "RESULT" := toCommandValue example_value]> (env example_process) ∧
    stdout p' = stdout example_process ∧
    files p' = <[js "/env" := mk_file ([] ++ block) true]> (files example_process) ∧
    ∀ rest, read_env_entry (split_on 10 (block ++ rest))
            = Some (js "RESULT", toCommandValue example_value, split_on 10 rest).
Proof.
  apply (exportVariable_file (js "u1") (js "RESULT") (js "/env") [] example_value example_process);
  try (by vm_compute); try split; by apply (bool_decide_unpack _); vm_compute.
Defined.

(** ** Inputs *)

(** Reading an input: the name is matched without regard to ASCII case or
    to space against underscore, and the value returned by default is the
    value of the variable with nothing but leading and trailing white space
    removed; an unset input reads as the empty string. *)
Theorem getInput_trims (name name' raw : jsstr) (p : process)
  (Hnames : input_key name' = input_key name)
  (Hval : default [] (env p !! input_key name) = raw) :
  getInput name' None p = (p, Ok (trim raw)) ∧ trimmed (trim raw) ∧
  ∃ a b, raw = a ++ trim raw ++ b ∧
    Forall (λ c, is_js_space c = true) a ∧ Forall (λ c, is_js_space c = true) b.
Proof.
  split_and!; [|apply trim_trimmed|apply trim_middle].
  unfold getInput, env_or_empty. io_run. by rewrite Hnames, Hval.
Qed.

Lemma getInput_trims_witness :
  let p := mk_process {[js "INPUT_DATA_FILE" := js "  out.csv "]} [] None ∅ in
  getInput (js "data file") None p = (p, Ok (trim (js "  out.csv "))) ∧
  trimmed (trim (js "  out.csv ")) ∧
  ∃ a b, js "  out.csv " = a ++ trim (js "  out.csv ") ++ b ∧
    Forall (λ c, is_js_space c = true) a ∧ Forall (λ c, is_js_space c = true) b.
Proof.
  apply (getInput_trims (js "DATA_FILE") (js "data file") (js "  out.csv ")
    (mk_process {[js "INPUT_DATA_FILE" := js "  out.csv "]} [] None ∅)); by vm_compute.
Defined.

(** A required input that is unset is an error, whatever the other options. *)
Lemma getInput_required name tw (p : process) :
  default [] (env p !! input_key name) = [] →
  getInput name (Some (mk_options true tw)) p
  = (p, Throw (js_error (js "Input required and not supplied: " ++ name))).
Proof. intros H. unfold getInput, env_or_empty. io_run. by rewrite H. Qed.

(** ** OIDC tokens *)

Lemma issueCommand_run EOL cmd props msg p :
  issueCommand EOL cmd props msg p =
  (write_stdout (Command_toString (new_Command cmd props msg) ++ EOL) p, Ok tt).
Proof. done. Qed.

Lemma getIDTokenUrl_ok p p' u : getIDTokenUrl p = (p', Ok u) → p' = p.
Proof.
  unfold getIDTokenUrl. intros (p1 & a & [= <- <-] & H)%st_bind_ok.
  destruct (str_eqb _ []); by simplify_eq H.
Qed.

Lemma getCall_ok getJson u p p' t :
  getCall getJson u p = (p', Ok t) → p' = p ∧ truthy t = true.
Proof.
  unfold getCall. intros (p1 & tk & Htk & H)%st_bind_ok.
  assert (p1 = p) as ->.
  { revert Htk. unfold getRequestToken. intros (? & ? & [= <- <-] & H')%st_bind_ok.
    destruct (str_eqb _ []); by simplify_eq H'. }
  destruct (getJson _ _ _) as [r|[? res]]; [|by destruct (result_message res)].
  destruct (truthy (result_value r)) eqn:E; [|done]. by injection H as <- <-.
Qed.

(** C4. A token request never returns an unmasked token: if [getIDToken]
    returns a token then the last thing the process printed is the command that
    registers that token as a secret; if it fails, the error is the wrapped
    one and no token is returned. *)
Theorem getIDToken_masks (EOL : jsstr) getJson aud (p p' : process) r
  (Hrun : getIDToken EOL getJson aud p = (p', r)) :
  match r with
  | Ok tok => truthy tok = true ∧
      ∃ out, stdout p' = stdout p ++ out ++ js "::add-mask::" ++ escapeData tok ++ EOL
  | Throw e => starts_with (js "Error message: ") (err_message e) = true
  end.
Proof.
  unfold getIDToken, st_catch in Hrun.
  destruct (st_bind getIDTokenUrl _ p) as [p1 [tok|e]] eqn:E; cycle 1.
  { unfold st_throw in Hrun. assert (r = Throw (js_error (js "Error message: " ++ err_message e))) as ->
      by congruence. apply starts_with_app. }
  assert (p' = p1 ∧ r = Ok tok) as [-> ->] by (split; congruence). clear Hrun.
  apply st_bind_ok in E as (p2 & u & Hu & E). apply getIDTokenUrl_ok in Hu as ->.
  apply st_bind_ok in E as (p3 & u' & Hu' & E).
  assert (p3 = p) as -> by (repeat case_match; unfold st_ret, st_throw in Hu'; congruence).
  apply st_bind_ok in E as (p4 & [] & Hd & E). unfold debug in Hd. rewrite issueCommand_run in Hd.
  assert (p4 = write_stdout (Command_toString (new_Command (js "debug") [] (JStr (js "ID token url is " ++ u'))) ++ EOL) p)
    as -> by congruence. clear Hd.
  apply st_bind_ok in E as (p5 & t & Ht & E). apply getCall_ok in Ht as [-> Ht].
  apply st_bind_ok in E as (p6 & [] & Hs & E). unfold setSecret in Hs. rewrite issueCommand_run in Hs.
  unfold st_ret in E. assert (t = tok) as -> by congruence. split; [done|].
  assert (stdout p1 = stdout p6) as -> by congruence.
  assert (stdout p6 = stdout (write_stdout (Command_toString (new_Command (js "add-mask") [] tok) ++ EOL)
    (write_stdout (Command_toString (new_Command (js "debug") [] (JStr (js "ID token url is " ++ u'))) ++ EOL) p)))
    as -> by congruence.
  cbn [write_stdout stdout]. rewrite <- app_assoc. eexists. by f_equal.
Qed.

Definition example_oidc : process :=
  mk_process {[js "ACTIONS_ID_TOKEN_REQUEST_TOKEN" := js "t"; js "ACTIONS_ID_TOKEN_REQUEST_URL" := js "u"]}
    [] None ∅.
Definition example_getJson (tok : jsstr) (opts : bool * Z) (url : jsstr) : result (jsval * jsval) jsval :=
  Ok (JObj [(js "value", JStr (js "id-token"))]).

Lemma getIDToken_masks_witness :
  truthy (JStr (js "id-token")) = true ∧
  ∃ out, stdout (getIDToken [10] example_getJson None example_oidc).1
    = stdout example_oidc ++ out ++ js "::add-mask::" ++ escapeData (JStr (js "id-token")) ++ [10].
Proof.
  apply (getIDToken_masks [10] example_getJson None example_oidc
    (getIDToken [10] example_getJson None example_oidc).1 (Ok (JStr (js "id-token")))).
  vm_compute. reflexivity.
Defined.

(** ** Job summaries *)

(** The summary object [s] writes to the file [f], which holds [text]. *)
Definition summary_at (f text : jsstr) (ps : process * Summary) : Prop :=
  f ≠ [] ∧ files ps.1 !! f = Some (mk_file text true) ∧
  (filePath ps.2 = Some f ∨ (filePath ps.2 = None ∧ env ps.1 !! SUMMARY_ENV_VAR = Some f)).

Lemma Summary_filePath_at f text ps :
  summary_at f text ps →
  Summary_filePath ps = ((ps.1, mk_Summary (buffer ps.2) (Some f)), Ok f).
Proof.
  intros (Hf & Hfile & Hpath). destruct ps as [p [b fp]]. cbn [fst snd filePath buffer] in *.
  unfold Summary_filePath. io_run. destruct f as [|c f]; [done|].
  destruct Hpath as [->|[-> Henv]]; [done|]. rewrite Henv. by rewrite Hfile.
Qed.

(** What [write] does: the file gets the buffer, the buffer is empty. *)
Lemma Summary_write_at overwrite f text p b fp :
  summary_at f text (p, mk_Summary b fp) →
  Summary_write overwrite (p, mk_Summary b fp) =
  ((put_file f (mk_file (if overwrite then b else text ++ b) true) p, mk_Summary [] (Some f)), Ok tt).
Proof.
  intros Hat. unfold Summary_write.
  rewrite (st_bind_run _ _ _ _ _ (Summary_filePath_at _ _ _ Hat)). io_run.
  destruct Hat as (_ & Hfile & _). destruct overwrite; unfold fs_write, fs_append;
    cbn [fst] in Hfile; by rewrite Hfile.
Qed.

(** Writing the summary in several steps or at once is the same: [write],
    more content, [write] leaves the same file, buffer and process as adding
    the content and writing once, and the file is its old text followed by all
    that was buffered. *)
Theorem summary_write_batching (EOL f text b t : jsstr) (p : process) (fp : option jsstr)
  (Hat : summary_at f text (p, mk_Summary b fp)) :
  let add := st_modify (λ ps : process * Summary, (ps.1, addRaw EOL t false ps.2)) in
  (Summary_write false;;; add;;; Summary_write false) (p, mk_Summary b fp)
  = (add;;; Summary_write false) (p, mk_Summary b fp) ∧
  (add;;; Summary_write false) (p, mk_Summary b fp)
  = ((put_file f (mk_file (text ++ b ++ t) true) p, mk_Summary [] (Some f)), Ok tt).
Proof.
  intros add.
  assert (Hone : (add;;; Summary_write false) (p, mk_Summary b fp)
    = ((put_file f (mk_file (text ++ b ++ t) true) p, mk_Summary [] (Some f)), Ok tt)).
  { subst add. unfold st_bind at 1. unfold st_modify. unfold addRaw. cbn [fst snd buffer filePath].
    rewrite app_nil_r. by rewrite (Summary_write_at false f text). }
  split; [|done]. rewrite Hone.
  rewrite (st_bind_run _ _ _ _ _ (Summary_write_at false _ _ _ _ _ Hat)).
  subst add. unfold st_bind, st_modify, addRaw. cbn [fst snd buffer filePath]. rewrite app_nil_r.
  rewrite (Summary_write_at false f (text ++ b)).
  - do 2 f_equal. unfold put_file. cbn [env stdout exitCode files].
    by rewrite insert_insert_eq, <- app_assoc.
  - destruct Hat as (Hf & _ & _). split_and!; [done| |by left].
    unfold put_file. cbn [fst files]. by rewrite lookup_insert_eq.
Qed.

Lemma summary_write_batching_witness :
  let add := st_modify (λ ps : process * Summary, (ps.1, addRaw [10] (js "new") false ps.2)) in
  (Summary_write false;;; add;;; Summary_write false) (example_process, mk_Summary (js "b") None)
  = (add;;; Summary_write false) (example_process, mk_Summary (js "b") None) ∧
  (add;;; Summary_write false) (example_process, mk_Summary (js "b") None)
  = ((put_file (js "/sum") (mk_file (js "old" ++ js "b" ++ js "new") true) example_process,
      mk_Summary [] (Some (js "/sum"))), Ok tt).
Proof.
  apply (summary_write_batching [10] (js "/sum") (js "old") (js "b") (js "new") example_process None).
  split_and!; [done|by vm_compute|right; by vm_compute].
Defined.
