(* ===== verification/SesAction.v ===== *)
(** * The SES e-mail action: .github/actions/ses-email-action/index.js

    The script the workflow runs: it reads its inputs with [core.getInput],
    parses the address lists, reads the data file, builds the parameters of
    [sendTemplatedEmail] and logs how the request settled. The AWS client is
    the parameter [send]: the region configured and the parameters in, the
    fulfilled data or the rejection out. *)

From stdpp Require Import base gmap strings list.
From Stdlib Require Import ZArith Lia.
From S2P Require Import Prelude JsValue Json ActionsCore.

Local Open Scope Z_scope.

(** ** The script *)

(** [JSON.parse] as a statement: a malformed text throws. *)
Definition json_parse_io (s : jsstr) : IO jsval :=
  match JSON_parse s with
  | Some v => st_ret v
  | None => st_throw (mk_error (js "SyntaxError") (js "Unexpected token in JSON"))
  end.

(** [fs.readFileSync(path, { encoding: 'utf-8' })]. *)
Definition readFileSync (path : jsstr) : IO jsstr := λ p,
  match files p !! path with
  | Some f => (p, Ok (file_text f))
  | None => (p, Throw (js_error (js "ENOENT: no such file or directory, open '" ++ path ++ js "'")))
  end.

Record inputs := mk_inputs {
  region : jsstr; version : jsstr; format : jsstr; Template : jsstr; dataFilePath : jsstr;
  CcAddresses : jsval; ToAddresses : jsval; ReplyToAddresses : jsval; workflowURL : jsstr
}.

Definition read_inputs : IO inputs :=
  region <- getInput (js "region") None;;
  version <- getInput (js "version") None;;
  format <- getInput (js "format") None;;
  Template <- getInput (js "template") None;;
  dataFilePath <- getInput (js "dataFile") None;;
  cc <- getInput (js "ccAddresses") None;;
  CcAddresses <- json_parse_io cc;;
  to <- getInput (js "toAddresses") None;;
  ToAddresses <- json_parse_io to;;
  reply <- getInput (js "replyToAddresses") None;;
  ReplyToAddresses <- json_parse_io reply;;
  workflowURL <- getInput (js "workflowURL") None;;
  st_ret (mk_inputs region version format Template dataFilePath
            CcAddresses ToAddresses ReplyToAddresses workflowURL).

Definition templated (i : inputs) (data : jsstr) : jsval :=
  JObj [(js "version", JStr (version i)); (js "format", JStr (format i));
        (js "results", JStr data); (js "workflowURL", JStr (workflowURL i))].

Definition email_params (i : inputs) (data : jsstr) : jsobj :=
  [(js "Destination", JObj [(js "CcAddresses", CcAddresses i); (js "ToAddresses", ToAddresses i)]);
   (js "Source", JStr (js "github-actions-bot@corp.ld-corp.com"));
   (js "Template", JStr (Template i));
   (js "TemplateData", match JSON_stringify (templated i data) with Some t => JStr t | None => JUndef end);
   (js "ReplyToAddresses", ReplyToAddresses i)].

(** The synchronous part: the region set with [aws.config.update] and the
    parameters handed to [sendTemplatedEmail]. *)
Definition prepare : IO (jsstr * jsobj) :=
  i <- read_inputs;;
  data <- (if str_eqb (dataFilePath i) [] then st_ret [] else readFileSync (dataFilePath i));;
  st_ret (region i, email_params i data).

(** What the script writes to the console.  The stack of an error of the language
    is the engine's text; it is left out. *)
Inductive console :=
| ConsoleLog (args : list jsval)
| ConsoleError (err : jserror + jsval) (stack : option jsval).

(** [v.name]: reading a property of [undefined] or [null] throws. *)
Definition read_property (name : string) (v : jsval) : result jserror jsval :=
  let cannot_read what := mk_error (js "TypeError") (js "Cannot read properties of " ++ what ++ js " (reading '" ++ js name ++ js "')") in
  match v with
  | JObj o => Ok (obj_prop o (js name))
  | JUndef => Throw (cannot_read (js "undefined"))
  | JNull => Throw (cannot_read (js "null"))
  | _ => Ok JUndef
  end.

(** The handlers of the promise: [then] logs the message id, [catch] takes the
    rejection, or what [then] threw, and prints it with its stack.  [Throw]: the
    handler of [catch] throws, so that the promise it makes is rejected and
    nobody handles that. *)
Definition settle (r : result jsval jsval) : result jserror console :=
  match r with
  | Ok data =>
    match read_property "MessageId" data with
    | Ok id => Ok (ConsoleLog [JStr (js "Successfully sent email:"); id])
    | Throw e => Ok (ConsoleError (inl e) None)
    end
  | Throw err =>
    let* stack := read_property "stack" err in
    Ok (ConsoleError (inr err) (Some stack))
  end.

Section action.
  Context (send : jsstr → jsobj → result jsval jsval).

(** A run of the script: the process afterwards, the requests made and the
    console output, or the exception or rejection nothing handles. *)
Definition run (p : process) : process * list (jsstr * jsobj) * result jserror console :=
    match prepare p with
    | (p', Ok (region, params)) => (p', [(region, params)], settle (send region params))
    | (p', Throw e) => (p', [], Throw e)
    end.

(** The exit status of the step: 1 after an uncaught exception or, in Node 16, an
    unhandled rejection. *)
Definition exit_status (p : process) : Z :=
    match run p with
    | (p', _, Ok _) => default 0 (exitCode p')
    | (_, _, Throw _) => 1
    end.
End action.

(** ** Correctness *)

(** The input [name] as [core.getInput] returns it. *)
Definition input (p : process) (name : jsstr) : jsstr := trim (default [] (env p !! input_key name)).

Lemma getInput_input name p : getInput name None p = (p, Ok (input p name)).
Proof. done. Qed.

Lemma json_parse_io_ok s v p : JSON_parse s = Some v → json_parse_io s p = (p, Ok v).
Proof. unfold json_parse_io. by intros ->. Qed.

Lemma json_parse_io_fail s p : JSON_parse s = None → ∃ e, json_parse_io s p = (p, Throw e).
Proof. unfold json_parse_io. intros ->. by eexists. Qed.

(** Reading the inputs changes nothing and either collects every input or
    throws because an address list is not JSON. *)
Lemma read_inputs_spec p :
  read_inputs p =
  (p, match JSON_parse (input p (js "ccAddresses")), JSON_parse (input p (js "toAddresses")),
            JSON_parse (input p (js "replyToAddresses")) with
      | Some cc, Some to, Some reply =>
        Ok (mk_inputs (input p (js "region")) (input p (js "version")) (input p (js "format"))
              (input p (js "template")) (input p (js "dataFile")) cc to reply (input p (js "workflowURL")))
      | _, _, _ => Throw (mk_error (js "SyntaxError") (js "Unexpected token in JSON"))
      end).
Proof.
  unfold read_inputs.
  do 5 rewrite (st_bind_run _ _ _ _ _ (getInput_input _ _)).
  rewrite (st_bind_run _ _ _ _ _ (getInput_input _ _)). unfold json_parse_io.
  destruct (JSON_parse (input p (js "ccAddresses"))); [|done].
  unfold st_bind at 1, st_ret at 1.
  rewrite (st_bind_run _ _ _ _ _ (getInput_input _ _)).
  destruct (JSON_parse (input p (js "toAddresses"))); [|done].
  unfold st_bind at 1, st_ret at 1.
  rewrite (st_bind_run _ _ _ _ _ (getInput_input _ _)).
  destruct (JSON_parse (input p (js "replyToAddresses"))); [|done].
  unfold st_bind at 1, st_ret at 1.
  by rewrite (st_bind_run _ _ _ _ _ (getInput_input _ _)).
Qed.

(** The text of a list of addresses survives [getInput] and [JSON.parse]. *)
Definition address_list (l : list jsstr) : jsval := JArr (JStr <$> l).
Definition addresses_ok (l : list jsstr) : Prop := Forall (Forall unit_ok) l.

Lemma address_list_ok l : addresses_ok l → json_ok (address_list l).
Proof.
  intros H. constructor. apply Forall_fmap. eapply Forall_impl; [exact H|]. by constructor.
Qed.

Lemma trimmed_ends a s b :
  is_js_space a = false → is_js_space b = false → trimmed (a :: s ++ [b]).
Proof.
  intros Ha Hb. split.
  - by intros x t [= <- <-].
  - intros x t H. change (a :: s ++ [b]) with ((a :: s) ++ [b]) in H.
    by apply app_inj_2 in H as [_ [= <-]].
Qed.

Lemma address_text_input p name l :
  addresses_ok l → env p !! input_key name = JSON_stringify (address_list l) →
  JSON_parse (input p name) = Some (address_list l).
Proof.
  intros Hl Henv. pose proof (address_list_ok l Hl) as Hok.
  destruct (JSON_roundtrip _ Hok) as (t & Ht & Hp). rewrite Ht in Henv.
  unfold input. rewrite Henv. cbn [default from_option id].
  rewrite json_ok_stringify in Ht by done. injection Ht as <-.
  rewrite trim_id; [done|]. unfold address_list. rewrite text_arr by (by inversion Hok).
  by apply trimmed_ends.
Qed.

Lemma templated_ok i data :
  Forall unit_ok (version i) → Forall unit_ok (format i) → Forall unit_ok data →
  Forall unit_ok (workflowURL i) → json_ok (templated i data).
Proof.
  intros. constructor.
  - apply (bool_decide_unpack _). by vm_compute.
  - repeat (apply Forall_cons; split); [..|done].
    all: split_and!; [by apply (bool_decide_unpack _); vm_compute|by vm_compute|by constructor].
Qed.

(** The strings of a process are sequences of UTF-16 code units. *)
Definition strings_ok (p : process) : Prop :=
  map_Forall (λ _ v, Forall unit_ok v) (env p) ∧
  map_Forall (λ _ f, Forall unit_ok (file_text f)) (files p).

Lemma input_units p name : strings_ok p → Forall unit_ok (input p name).
Proof.
  intros [He _]. unfold input. destruct (env p !! input_key name) as [v|] eqn:E; [|done].
  apply He in E. cbn [default from_option id].
  destruct (trim_middle v) as (a & b & Hv & _). rewrite Hv in E.
  by apply Forall_app in E as [_ [? _]%Forall_app].
Qed.

(** C5. The request carries what the workflow supplied: when the three address
    inputs are JSON lists of strings and the data file exists, the script makes
    exactly one request, in the configured region, whose address lists are
    those lists, and whose TemplateData is a JSON text that parses to the
    version, the format, the unmodified contents of the file and the URL. *)
Theorem run_delivers send (p : process) (cc to reply : list jsstr) (f : jsstr) (file : file)
  (Hp : strings_ok p)
  (Hcc : addresses_ok cc) (Hto : addresses_ok to) (Hreply : addresses_ok reply)
  (Ecc : env p !! input_key (js "ccAddresses") = JSON_stringify (address_list cc))
  (Eto : env p !! input_key (js "toAddresses") = JSON_stringify (address_list to))
  (Ereply : env p !! input_key (js "replyToAddresses") = JSON_stringify (address_list reply))
  (Hf : input p (js "dataFile") = f) (Hne : f ≠ []) (Hfile : files p !! f = Some file) :
  ∃ params text, run send p = (p, [(input p (js "region"), params)],
                               settle (send (input p (js "region")) params)) ∧
    obj_prop params (js "Destination")
      = JObj [(js "CcAddresses", address_list cc); (js "ToAddresses", address_list to)] ∧
    obj_prop params (js "ReplyToAddresses") = address_list reply ∧
    obj_prop params (js "Template") = JStr (input p (js "template")) ∧
    obj_prop params (js "TemplateData") = JStr text ∧
    JSON_parse text = Some (JObj [(js "version", JStr (input p (js "version")));
                                  (js "format", JStr (input p (js "format")));
                                  (js "results", JStr (file_text file));
                                  (js "workflowURL", JStr (input p (js "workflowURL")))]).
Proof.
  set (i := mk_inputs (input p (js "region")) (input p (js "version")) (input p (js "format"))
    (input p (js "template")) (input p (js "dataFile")) (address_list cc) (address_list to)
    (address_list reply) (input p (js "workflowURL"))).
  assert (Hi : read_inputs p = (p, Ok i)).
  { rewrite read_inputs_spec.
    by rewrite (address_text_input _ _ cc), (address_text_input _ _ to), (address_text_input _ _ reply). }
  assert (Hok : json_ok (templated i (file_text file))).
  { apply templated_ok; [by apply input_units..|by eapply Hp|by apply input_units]. }
  destruct (JSON_roundtrip _ Hok) as (t & Ht & Hpt).
  exists (email_params i (file_text file)), t. split_and!; try done.
  - unfold run, prepare. rewrite (st_bind_run _ _ _ _ _ Hi). cbn [dataFilePath].
    change (dataFilePath i) with (input p (js "dataFile")).
    rewrite Hf, (proj2 (str_eqb_neq f [])) by done.
    unfold st_bind, readFileSync, st_ret. by rewrite Hfile.
  - unfold email_params. rewrite Ht. done.
Qed.

(** C6. A malformed address list stops the action before anything is sent:
    no request is made and the step fails with status 1. *)
Theorem run_rejects_malformed send (p : process)
  (Hbad : JSON_parse (input p (js "ccAddresses")) = None ∨
          JSON_parse (input p (js "toAddresses")) = None ∨
          JSON_parse (input p (js "replyToAddresses")) = None) :
  (run send p).1.2 = [] ∧ exit_status send p = 1.
Proof.
  assert (∃ e, prepare p = (p, Throw e)) as (e & He).
  { unfold prepare. eexists. apply st_bind_throw. rewrite read_inputs_spec.
    destruct Hbad as [->|[->| ->]]; repeat case_match; done. }
  unfold exit_status, run. by rewrite He.
Qed.

(** The inputs the script accepts. *)
Definition accepted (p : process) : Prop :=
  is_Some (JSON_parse (input p (js "ccAddresses"))) ∧ is_Some (JSON_parse (input p (js "toAddresses"))) ∧
  is_Some (JSON_parse (input p (js "replyToAddresses"))) ∧
  (input p (js "dataFile") = [] ∨ is_Some (files p !! input p (js "dataFile"))).

Lemma prepare_accepts p :
  match prepare p with
  | (p', Ok _) => p' = p ∧ accepted p
  | (p', Throw _) => p' = p ∧ ¬ accepted p
  end.
Proof.
  unfold prepare, accepted. unfold st_bind at 1. rewrite read_inputs_spec.
  destruct (JSON_parse (input p (js "ccAddresses"))), (JSON_parse (input p (js "toAddresses"))),
    (JSON_parse (input p (js "replyToAddresses")));
    try (split; [done|]; by intros ([? ?] & [? ?] & [? ?] & _)).
  cbn [dataFilePath]. destruct (str_eqb_spec (input p (js "dataFile")) []) as [->|Hne].
  - unfold st_bind, st_ret. split; [done|]. split_and!; [by eexists..|by left].
  - unfold st_bind, readFileSync, st_ret. destruct (files p !! input p (js "dataFile")).
    + split; [done|]. split_and!; [by eexists..|right; by eexists].
    + split; [done|]. intros (_ & _ & _ & [?|[? ?]]); done.
Qed.

(** C7. The status of the step.  It is 0 exactly when the address lists are JSON,
    the data file exists or is not given, and the request is not rejected with
    null or undefined, and 1 otherwise.  So a failed delivery is not reported:
    whatever object the client rejects the request with, the step succeeds, and
    the error and its stack are only printed. *)
Theorem exit_status_exact send (p : process) (Hcode : exitCode p = None) :
  (exit_status send p = 0 ∨ exit_status send p = 1) ∧
  (exit_status send p = 0 ↔ accepted p ∧
    ∀ region params v, (run send p).1.2 = [(region, params)] → send region params = Throw v → v ≠ JUndef ∧ v ≠ JNull) ∧
  (∀ region params o, (run send p).1.2 = [(region, params)] → send region params = Throw (JObj o) →
    exit_status send p = 0 ∧ (run send p).2 = Ok (ConsoleError (inr (JObj o)) (Some (obj_prop o (js "stack"))))).
Proof.
  pose proof (prepare_accepts p) as Hp. unfold exit_status, run.
  destruct (prepare p) as [p' [[region params]|e]]; destruct Hp as [-> Hp]; cbn [fst snd].
  2: { split_and!; [by right|by split; [|intros [? _]]|done]. }
  rewrite Hcode. cbn [default from_option].
  split_and!.
  - destruct (settle _); [by left|by right].
  - split.
    + intros H0. split; [done|]. intros r' ps' v [= <- <-] Hs. rewrite Hs in H0. by destruct v.
    + intros [_ Hv]. specialize (Hv region params). destruct (send region params) as [data|v]; cbn [settle].
      * by destruct (read_property "MessageId" data).
      * destruct (Hv v eq_refl eq_refl) as [H1 H2]. by destruct v.
  - intros r' ps' o [= <- <-] ->. done.
Qed.

Definition example_inputs : process :=
  mk_process
    {[input_key (js "region") := js "us-west-2"; input_key (js "version") := js " 0.50.1";
      input_key (js "dataFile") := js "/out.csv";
      input_key (js "ccAddresses") := js "[]"; input_key (js "replyToAddresses") := js "[]";
      input_key (js "toAddresses") := js "[" ++ quote (js "a@b.c") ++ js "]"]}
    [] None {[js "/out.csv" := mk_file (js "x,y" ++ [10]) true]}.
Definition example_send (region : jsstr) (params : jsobj) : result jsval jsval :=
  Throw (JStr (js "MessageRejected")).

Lemma run_delivers_witness :
  ∃ params text, run example_send example_inputs
      = (example_inputs, [(input example_inputs (js "region"), params)],
         settle (example_send (input example_inputs (js "region")) params)) ∧
    obj_prop params (js "Destination")
      = JObj [(js "CcAddresses", address_list []); (js "ToAddresses", address_list [js "a@b.c"])] ∧
    obj_prop params (js "ReplyToAddresses") = address_list [] ∧
    obj_prop params (js "Template") = JStr (input example_inputs (js "template")) ∧
    obj_prop params (js "TemplateData") = JStr text ∧
    JSON_parse text = Some (JObj [(js "version", JStr (input example_inputs (js "version")));
      (js "format", JStr (input example_inputs (js "format")));
      (js "results", JStr (file_text (mk_file (js "x,y" ++ [10]) true)));
      (js "workflowURL", JStr (input example_inputs (js "workflowURL")))]).
Proof.
  apply (run_delivers example_send example_inputs [] [js "a@b.c"] [] (js "/out.csv")
    (mk_file (js "x,y" ++ [10]) true)).
  1: split; by apply (bool_decide_unpack _); vm_compute.
  1-3: by apply (bool_decide_unpack _); vm_compute.
  1-4: by vm_compute.
  - done.
  - by vm_compute.
Defined.

Definition example_bad : process :=
  mk_process {[input_key (js "ccAddresses") := js "a@b.c"]} [] None ∅.

Lemma run_rejects_malformed_witness :
  (run example_send example_bad).1.2 = [] ∧ exit_status example_send example_bad = 1.
Proof. apply (run_rejects_malformed example_send example_bad). left. by vm_compute. Defined.

Definition example_rejected (region : jsstr) (params : jsobj) : result jsval jsval :=
  Throw (JObj [(js "code", JStr (js "MessageRejected"))]).

Lemma exit_status_exact_witness :
  exit_status example_rejected example_inputs = 0 ∧ exit_status (λ _ _, Throw JNull) example_inputs = 1.
Proof.
  split.
  - apply (exit_status_exact example_rejected example_inputs eq_refl). split; [split_and!|].
    1-3: eexists; vm_compute; reflexivity.
    + right. eexists. vm_compute. reflexivity.
    + by intros region params v _ [= <-].
  - vm_compute. reflexivity.
Defined.
