(* ===== verification/LruCache.v ===== *)
(** * The endpoint cache of the AWS SDK (dist/index.js, lines 27536 to 27723)

    [LRUCache] keeps its entries in an object and threads them on a doubly
    linked list from most to least recently used; [EndpointCache] stores lists
    of endpoints with an expiry time in it. The linked nodes are a heap of
    mutable records addressed by locations, so that the aliasing between the
    object and the list is the one of the code.

    The property names are the keys of [nodeMap]; a key that is the name of a
    property of [Object.prototype] (which [nodeMap\[key\]] would find) is
    outside the model. *)

From stdpp Require Import base gmap strings list.
From Stdlib Require Import ZArith Lia.
From S2P Require Import Prelude JsValue.

Local Open Scope Z_scope.

Section lru.
  Context {V : Type}.

(** ** The implementation *)

Record LinkedListNode := mk_node {
    nkey : jsstr; nvalue : V; nprev : option nat; nnext : option nat
  }.

Record LRUCache := mk_lru {
    nodeMap : list (jsstr * nat);
    size : Z;
    sizeLimit : Z;
    headerNode : option nat;
    tailNode : option nat;
    heap : gmap nat LinkedListNode;
    fresh : nat
  }.

Definition set_next (o : option nat) (n : LinkedListNode) := mk_node (nkey n) (nvalue n) (nprev n) o.
Definition set_prev (o : option nat) (n : LinkedListNode) := mk_node (nkey n) (nvalue n) o (nnext n).

(** The size given to the constructor is an integer here; the SDK passes whole
    numbers. *)
Definition new_LRUCache (limit : Z) : result jserror LRUCache :=
    if Z.ltb limit 1 then Throw (js_error (js "Cache size can only be positive number"))
    else Ok (mk_lru [] 0 limit None None ∅ 0).

Definition prependToList (node : nat) (c : LRUCache) : LRUCache :=
    match headerNode c with
    | None => mk_lru (nodeMap c) (size c + 1) (sizeLimit c) (Some node) (Some node) (heap c) (fresh c)
    | Some h =>
      mk_lru (nodeMap c) (size c + 1) (sizeLimit c) (Some node) (tailNode c)
        (alter (set_next (Some h)) node (alter (set_prev (Some node)) h (heap c))) (fresh c)
    end.

(** Returns the node removed, [None] for [undefined]. *)
Definition removeFromTail (c : LRUCache) : option nat * LRUCache :=
    match tailNode c with
    | None => (None, c)
    | Some node =>
      let prevNode := heap c !! node ≫= nprev in
      let heap1 := match prevNode with Some p => alter (set_next None) p (heap c) | None => heap c end in
      (Some node, mk_lru (nodeMap c) (size c - 1) (sizeLimit c) (headerNode c) prevNode
                    (alter (set_prev None) node heap1) (fresh c))
    end.

Definition detachFromList (node : nat) (c : LRUCache) : LRUCache :=
    let next := heap c !! node ≫= nnext in
    let prev := heap c !! node ≫= nprev in
    let header' := if bool_decide (headerNode c = Some node) then next else headerNode c in
    let tail' := if bool_decide (tailNode c = Some node) then prev else tailNode c in
    let heap1 := match prev with Some p => alter (set_next next) p (heap c) | None => heap c end in
    let heap2 := match next with Some n => alter (set_prev prev) n heap1 | None => heap1 end in
    mk_lru (nodeMap c) (size c - 1) (sizeLimit c) header' tail'
      (alter (set_prev None) node (alter (set_next None) node heap2)) (fresh c).

Definition get (key : jsstr) (c : LRUCache) : option V * LRUCache :=
    match obj_get key (nodeMap c) with
    | Some node =>
      let c' := prependToList node (detachFromList node c) in
      (nvalue <$> heap c' !! node, c')
    | None => (None, c)
    end.

Definition set_nodeMap (m : list (jsstr * nat)) (c : LRUCache) : LRUCache :=
    mk_lru m (size c) (sizeLimit c) (headerNode c) (tailNode c) (heap c) (fresh c).

Definition remove (key : jsstr) (c : LRUCache) : LRUCache :=
    match obj_get key (nodeMap c) with
    | Some node => let c' := detachFromList node c in set_nodeMap (obj_del key (nodeMap c')) c'
    | None => c
    end.

(** [new LinkedListNode(key, value)], entered in [nodeMap] and the list. *)
Definition insert_new (key : jsstr) (value : V) (c : LRUCache) : LRUCache :=
    let l := fresh c in
    prependToList l
      (mk_lru (obj_set key l (nodeMap c)) (size c) (sizeLimit c) (headerNode c) (tailNode c)
         (<[l := mk_node key value None None]> (heap c)) (S l)).

Definition put (key : jsstr) (value : V) (c : LRUCache) : LRUCache * result jserror () :=
    match obj_get key (nodeMap c) with
    | Some _ => (insert_new key value (remove key c), Ok tt)
    | None =>
      if Z.eqb (size c) (sizeLimit c) then
        match removeFromTail c with
        | (Some t, c1) =>
          match heap c1 !! t with
          | Some n => (insert_new key value (set_nodeMap (obj_del (nkey n) (nodeMap c1)) c1), Ok tt)
          | None => (c1, Throw (mk_error (js "TypeError") (js "Cannot read properties of undefined (reading 'key')")))
          end
        | (None, c1) =>
          (c1, Throw (mk_error (js "TypeError") (js "Cannot read properties of undefined (reading 'key')")))
        end
      else (insert_new key value c, Ok tt)
    end.

(** The loop of [empty] over [Object.keys(this.nodeMap)]. *)
Fixpoint empty_keys (keys : list jsstr) (c : LRUCache) : LRUCache :=
    match keys with
    | [] => c
    | key :: rest =>
      match obj_get key (nodeMap c) with
      | Some node =>
        let c' := detachFromList node c in
        empty_keys rest (set_nodeMap (obj_del key (nodeMap c')) c')
      | None => empty_keys rest c
      end
    end.
Definition empty (c : LRUCache) : LRUCache := empty_keys (own_keys (nodeMap c)) c.

(** ** The abstract cache: its entries from most to least recently used *)

Abbreviation entries := (list (jsstr * V)).

Definition spec_get (k : jsstr) (l : entries) : option V * entries :=
    match obj_get k l with
    | Some v => (Some v, (k, v) :: obj_del k l)
    | None => (None, l)
    end.
Definition spec_put (limit : Z) (k : jsstr) (v : V) (l : entries) : entries :=
    match obj_get k l with
    | Some _ => (k, v) :: obj_del k l
    | None => if Z.eqb (Z.of_nat (length l)) limit then (k, v) :: take (length l - 1) l else (k, v) :: l
    end.

(** ** Linked segments *)

Definition first_or (ls : list nat) (n : option nat) : option nat :=
    match ls with [] => n | x :: _ => Some x end.
Definition last_or (ls : list nat) (p : option nat) : option nat :=
    match last ls with None => p | Some x => Some x end.

(** The nodes [ls] hold the entries [es]; the first points back to [p], the
    last points on to [n]. *)
Fixpoint seg (h : gmap nat (LinkedListNode)) (p : option nat) (ls : list nat) (es : entries)
    (n : option nat) : Prop :=
    match ls, es with
    | [], [] => True
    | l :: ls', (k, v) :: es' =>
      h !! l = Some (mk_node k v p (first_or ls' n)) ∧ seg h (Some l) ls' es' n
    | _, _ => False
    end.

Lemma last_or_cons l ls p : last_or (l :: ls) p = last_or ls (Some l).
Proof. unfold last_or. rewrite last_cons. by destruct (last ls). Qed.

Lemma last_or_snoc ls x p : last_or (ls ++ [x]) p = Some x.
Proof. unfold last_or. by rewrite last_snoc. Qed.

Lemma seg_length h p ls es n : seg h p ls es n → length ls = length es.
Proof.
  revert p es. induction ls as [|l ls IH]; intros p [|[k v] es]; simpl; try done.
  intros [_ ?]. f_equal. by eapply IH.
Qed.

Lemma seg_app h p l1 l2 e1 e2 n :
  length l1 = length e1 →
  seg h p (l1 ++ l2) (e1 ++ e2) n ↔
  seg h p l1 e1 (first_or l2 n) ∧ seg h (last_or l1 p) l2 e2 n.
Proof.
  revert p e1. induction l1 as [|l l1 IH]; intros p [|[k v] e1] Hlen; simplify_eq/=; [by firstorder|].
  rewrite IH by done. rewrite last_or_cons.
  destruct l1; simpl; tauto.
Qed.

Lemma seg_split h p ls es n l1 l l2 :
  seg h p ls es n → ls = l1 ++ l :: l2 →
  ∃ e1 k v e2, es = e1 ++ (k, v) :: e2 ∧ length l1 = length e1.
Proof.
  intros Hs ->. pose proof (seg_length _ _ _ _ _ Hs) as Hlen.
  rewrite length_app in Hlen. simpl in Hlen.
  exists (take (length l1) es).
  destruct (drop (length l1) es) as [|[k v] e2] eqn:E.
  { apply (f_equal length) in E. rewrite length_drop in E. simpl in E. lia. }
  exists k, v, e2. split; [by rewrite <- E, take_drop|]. rewrite length_take. lia.
Qed.

Lemma seg_frame h h' p ls es n :
  (∀ l, l ∈ ls → h' !! l = h !! l) → seg h p ls es n → seg h' p ls es n.
Proof.
  revert p es. induction ls as [|l ls IH]; intros p [|[k v] es] Hf; simpl; try done.
  intros [Hl Hs]. split; [by rewrite Hf by set_solver|]. apply IH; [set_solver|done].
Qed.

Lemma seg_alter_frame h f x p ls es n :
  x ∉ ls → seg h p ls es n → seg (alter f x h) p ls es n.
Proof. intros Hx. apply seg_frame. intros l Hl. apply lookup_alter_ne. by intros ->. Qed.

Lemma seg_set_prev h p p' x ls es n :
  NoDup (x :: ls) → seg h p (x :: ls) es n → seg (alter (set_prev p') x h) p' (x :: ls) es n.
Proof.
  intros [Hx _]%NoDup_cons. destruct es as [|[k v] es]; [done|]. intros [Hl Hs]. split.
  - by rewrite lookup_alter_eq, Hl.
  - by apply seg_alter_frame.
Qed.

Lemma seg_set_next h p x ls es n n' :
  NoDup (ls ++ [x]) → seg h p (ls ++ [x]) es n → seg (alter (set_next n') x h) p (ls ++ [x]) es n'.
Proof.
  intros Hnd Hs. destruct (seg_split _ _ _ _ _ ls x [] Hs eq_refl) as (e1 & k & v & e2 & -> & Hlen).
  assert (e2 = []) as ->.
  { pose proof (seg_length _ _ _ _ _ Hs) as H. rewrite !length_app in H. simpl in H.
    destruct e2; [done|simpl in H; lia]. }
  apply NoDup_app in Hnd as (_ & Hd & _).
  apply seg_app in Hs as [H1 [Hx _]]; [|done]. apply seg_app; [done|]. split.
  - apply seg_alter_frame; [set_solver|done].
  - split; [|done]. by rewrite lookup_alter_eq, Hx.
Qed.

(** ** The list of a cache *)

Record list_ok (c : LRUCache) (ls : list nat) (es : entries) : Prop := {
    lo_seg : seg (heap c) None ls es None;
    lo_nodup : NoDup ls;
    lo_header : headerNode c = first_or ls None;
    lo_tail : tailNode c = last_or ls None;
    lo_size : size c = Z.of_nat (length ls);
    lo_fresh : Forall (λ l, (l < fresh c)%nat) ls
  }.

Lemma first_or_app l1 l2 n : first_or (l1 ++ l2) n = first_or l1 (first_or l2 n).
Proof. by destruct l1. Qed.

Lemma last_or_app l1 l2 p : last_or (l1 ++ l2) p = last_or l2 (last_or l1 p).
Proof. unfold last_or. rewrite last_app. by destruct (last l2), (last l1). Qed.

Lemma first_or_elem ls n x : first_or ls n = Some x → ls ≠ [] → x ∈ ls.
Proof. destruct ls; [done|]. intros [= ->] _. set_solver. Qed.

Lemma last_or_elem ls p x : last_or ls p = Some x → ls ≠ [] → x ∈ ls.
Proof.
  destruct ls as [|y ls _] using rev_ind; [done|]. rewrite last_or_snoc. intros [= ->] _. set_solver.
Qed.

Lemma detach_header c l l1 l2 :
  NoDup (l1 ++ l :: l2) → headerNode c = first_or (l1 ++ l :: l2) None →
  (if bool_decide (headerNode c = Some l) then first_or l2 None else headerNode c)
  = first_or (l1 ++ l2) None.
Proof.
  intros Hnd ->. destruct l1 as [|x l1]; simpl.
  - by rewrite bool_decide_eq_true_2.
  - rewrite bool_decide_eq_false_2; [done|]. intros [= ->].
    apply NoDup_cons in Hnd as [Hx _]. apply Hx. set_solver.
Qed.

Lemma detach_tail c l l1 l2 :
  NoDup (l1 ++ l :: l2) → tailNode c = last_or (l1 ++ l :: l2) None →
  (if bool_decide (tailNode c = Some l) then last_or l1 None else tailNode c)
  = last_or (l1 ++ l2) None.
Proof.
  intros Hnd ->. destruct l2 as [|x l2 _] using rev_ind; simpl.
  - rewrite last_or_snoc, app_nil_r. by rewrite bool_decide_eq_true_2.
  - replace (l1 ++ l :: l2 ++ [x]) with ((l1 ++ l :: l2) ++ [x]) in * by (by rewrite <- app_assoc).
    rewrite last_or_snoc. rewrite bool_decide_eq_false_2; [by rewrite app_assoc, last_or_snoc|].
    intros [= ->]. apply NoDup_app in Hnd as (_ & Hd & _). apply (Hd l); set_solver.
Qed.

(** The pointer surgery of [detachFromList] on the two sides of the node. *)
Lemma detach_seg h l l1 l2 e1 k v e2 (Hnd : NoDup (l1 ++ l :: l2)) (Hlen : length l1 = length e1) :
  seg h None (l1 ++ l :: l2) (e1 ++ (k, v) :: e2) None →
  let h1 := match last_or l1 None with Some p => alter (set_next (first_or l2 None)) p h | None => h end in
  let h2 := match first_or l2 None with Some n => alter (set_prev (last_or l1 None)) n h1 | None => h1 end in
  seg h2 None (l1 ++ l2) (e1 ++ e2) None ∧ h2 !! l = Some (mk_node k v (last_or l1 None) (first_or l2 None)).
Proof.
  intros Hs h1 h2. apply seg_app in Hs as [H1 [Hl H2]]; [|done]. simpl in H1.
  apply NoDup_app in Hnd as (Hnd1 & Hd & [Hl2 Hnd2]%NoDup_cons).
  assert (Hl1 : l ∉ l1) by (intros ?; apply (Hd l); set_solver).
  assert (A1 : seg h1 None l1 e1 (first_or l2 None) ∧ seg h1 (Some l) l2 e2 None ∧
    h1 !! l = Some (mk_node k v (last_or l1 None) (first_or l2 None))).
  { subst h1. destruct l1 as [|x l1 _] using rev_ind.
    - cbn [last_or last]. destruct e1; [|done]. done.
    - rewrite last_or_snoc in *. split_and!.
      + by eapply seg_set_next.
      + apply seg_alter_frame; [|done]. intros Hx. apply (Hd x); set_solver.
      + rewrite lookup_alter_ne by set_solver. done. }
  destruct A1 as (B1 & B2 & B3). clear H1 H2 Hl.
  rewrite seg_app by done. subst h2. destruct l2 as [|y l2].
  - simpl. destruct e2; [|done]. done.
  - cbn [first_or] in *. split_and!.
    + apply seg_alter_frame; [|done]. intros Hy. apply (Hd y); set_solver.
    + by eapply seg_set_prev.
    + rewrite lookup_alter_ne by set_solver. done.
Qed.

Lemma detach_ok c l l1 l2 e1 k v e2 :
  length l1 = length e1 → list_ok c (l1 ++ l :: l2) (e1 ++ (k, v) :: e2) →
  list_ok (detachFromList l c) (l1 ++ l2) (e1 ++ e2) ∧
  heap (detachFromList l c) !! l = Some (mk_node k v None None).
Proof.
  intros Hlen [Hs Hnd Hh Ht Hsz Hf].
  destruct (detach_seg _ _ _ _ _ _ _ _ Hnd Hlen Hs) as [Hs2 Hl2].
  assert (Hnode : heap c !! l = Some (mk_node k v (last_or l1 None) (first_or l2 None))).
  { by apply seg_app in Hs as [_ [? _]]. }
  assert (Hnotin : l ∉ l1 ++ l2).
  { apply NoDup_app in Hnd as (_ & Hd & [? _]%NoDup_cons). rewrite elem_of_app.
    intros [?|?]; [|done]. apply (Hd l); set_solver. }
  unfold detachFromList. rewrite Hnode. cbn [mbind option_bind nnext nprev].
  split; [split; cbn [heap headerNode tailNode size fresh]|].
  - by do 2 (apply seg_alter_frame; [done|]).
  - rewrite <- Permutation_middle in Hnd. by apply NoDup_cons in Hnd as [_ ?].
  - by apply detach_header.
  - by apply detach_tail.
  - rewrite Hsz, !length_app. simpl. lia.
  - rewrite <- Permutation_middle in Hf. by apply Forall_cons in Hf as [_ ?].
  - cbn [heap]. rewrite !lookup_alter_eq, Hl2. done.
Qed.

Lemma prepend_ok c l ls es k v :
  list_ok c ls es → l ∉ ls → (l < fresh c)%nat → heap c !! l = Some (mk_node k v None None) →
  list_ok (prependToList l c) (l :: ls) ((k, v) :: es) ∧
  heap (prependToList l c) !! l = Some (mk_node k v None (first_or ls None)).
Proof.
  intros [Hs Hnd Hh Ht Hsz Hf] Hl Hfr Hnode. unfold prependToList. rewrite Hh.
  destruct ls as [|x ls].
  - destruct es; [|done]. split; [|done]. split; cbn [heap headerNode tailNode size fresh]; try done.
    + apply NoDup_singleton.
    + rewrite Hsz. done.
    + by constructor.
  - apply not_elem_of_cons in Hl as [Hx Hl]. cbn [first_or].
    assert (Hl' : alter (set_next (Some x)) l (alter (set_prev (Some l)) x (heap c)) !! l
              = Some (mk_node k v None (Some x))).
    { rewrite lookup_alter_eq, lookup_alter_ne by done. by rewrite Hnode. }
    split; [|done]. split; cbn [heap headerNode tailNode size fresh]; try done.
    + split; [done|]. apply seg_alter_frame; [set_solver|]. by eapply seg_set_prev.
    + by apply NoDup_cons; split; [set_solver|].
    + rewrite Hsz. simpl. lia.
    + by constructor.
Qed.

(** [removeFromTail] leaves [headerNode] alone: it keeps the list well formed
    only when the node is not the last one of the list. *)
Lemma tail_ok c l l1 e1 k v :
  l1 ≠ [] → list_ok c (l1 ++ [l]) (e1 ++ [(k, v)]) →
  ∃ c1, removeFromTail c = (Some l, c1) ∧ list_ok c1 l1 e1 ∧
    (nkey <$> heap c1 !! l) = Some k ∧ nodeMap c1 = nodeMap c ∧
    sizeLimit c1 = sizeLimit c ∧ fresh c1 = fresh c.
Proof.
  intros Hne [Hs Hnd Hh Ht Hsz Hf].
  assert (Hlen : length l1 = length e1).
  { apply seg_length in Hs. rewrite !length_app in Hs. simpl in Hs. lia. }
  destruct (detach_seg _ _ _ [] _ _ _ [] Hnd Hlen Hs) as [Hs2 Hl2]. cbn [first_or] in Hs2, Hl2.
  assert (Hnode : heap c !! l = Some (mk_node k v (last_or l1 None) None)).
  { by apply seg_app in Hs as [_ [? _]]. }
  unfold removeFromTail. rewrite Ht, last_or_snoc, Hnode. cbn [mbind option_bind nprev].
  eexists. split; [done|]. rewrite !app_nil_r in Hs2.
  assert (Hnotin : l ∉ l1).
  { apply NoDup_app in Hnd as (_ & Hd & _). intros ?. apply (Hd l); set_solver. }
  split; [|split_and!; try done; cbn [heap]; by rewrite lookup_alter_eq, Hl2].
  split; cbn [heap headerNode tailNode size fresh].
  - by apply seg_alter_frame.
  - by apply NoDup_app in Hnd as (? & _).
  - rewrite Hh. by destruct l1.
  - done.
  - rewrite Hsz, length_app. simpl. lia.
  - by apply Forall_app in Hf as [? _].
Qed.

(** ** The cache represents a list of entries *)

(** [nodeMap] names exactly the nodes of the list, under their keys. *)
Definition map_ok (nm : list (jsstr * nat)) (ls : list nat) (es : entries) : Prop :=
    ∀ k n, obj_get k nm = Some n ↔ ∃ v, (n, (k, v)) ∈ zip ls es.

Definition repr (c : LRUCache) (es : entries) : Prop :=
    ∃ ls, list_ok c ls es ∧ NoDup es.*1 ∧ NoDup (nodeMap c).*1 ∧ map_ok (nodeMap c) ls es ∧
      Z.of_nat (length es) ≤ sizeLimit c.

Lemma map_ok_split nm ls es k n :
  length ls = length es → map_ok nm ls es → obj_get k nm = Some n →
  ∃ l1 l2 e1 v e2, ls = l1 ++ n :: l2 ∧ es = e1 ++ (k, v) :: e2 ∧ length l1 = length e1.
Proof.
  intros Hlen Hm Hk. apply Hm in Hk as [v Hin].
  apply list_elem_of_lookup in Hin as [i Hi].
  rewrite lookup_zip_with in Hi.
  destruct (ls !! i) as [l|] eqn:El; [|done]. destruct (es !! i) as [e|] eqn:Ee; [|done].
  simplify_eq/=. exists (take i ls), (drop (S i) ls), (take i es), v, (drop (S i) es).
  split_and!; [by rewrite take_drop_middle|by rewrite take_drop_middle|by rewrite !length_take, Hlen].
Qed.

Lemma obj_del_middle (k : jsstr) {A} (e1 e2 : list (jsstr * A)) v :
  NoDup (e1 ++ (k, v) :: e2).*1 → obj_del k (e1 ++ (k, v) :: e2) = e1 ++ e2.
Proof.
  intros Hnd. unfold obj_del. rewrite filter_app, filter_cons_False by (simpl; tauto).
  assert (Hk : ∀ e : list (jsstr * A), k ∉ e.*1 → base.filter (λ kv, kv.1 ≠ k) e = e).
  { intros e He. induction e as [|[k' v'] e IH]; [done|]. simpl in He.
    rewrite filter_cons_True by (simpl; set_solver). f_equal. apply IH. set_solver. }
  rewrite fmap_app in Hnd. apply NoDup_app in Hnd as (_ & Hd & Hnd2). simpl in Hnd2.
  apply NoDup_cons in Hnd2 as [? _].
  rewrite !Hk; [done|done|]. intros ?. apply (Hd k); [done|]. simpl. set_solver.
Qed.

Lemma obj_get_middle (k : jsstr) {A} (e1 e2 : list (jsstr * A)) v :
  NoDup (e1 ++ (k, v) :: e2).*1 → obj_get k (e1 ++ (k, v) :: e2) = Some v.
Proof.
  induction e1 as [|[k' v'] e1 IH]; simpl; [by rewrite str_eqb_refl|].
  intros [Hk' Hnd]%NoDup_cons. rewrite (proj2 (str_eqb_neq k k')); [by apply IH|].
  intros ->. apply Hk'. rewrite fmap_app. simpl. set_solver.
Qed.

(** The entry for a key of [nodeMap], on both sides. *)
Lemma repr_found c es k n :
  repr c es → obj_get k (nodeMap c) = Some n →
  ∃ l1 l2 e1 v e2, list_ok c (l1 ++ n :: l2) (e1 ++ (k, v) :: e2) ∧ es = e1 ++ (k, v) :: e2 ∧
    length l1 = length e1 ∧ map_ok (nodeMap c) (l1 ++ n :: l2) es ∧
    obj_get k es = Some v ∧ obj_del k es = e1 ++ e2.
Proof.
  intros (ls & Hl & Hnd & _ & Hm & _) Hk.
  pose proof (seg_length _ _ _ _ _ (lo_seg _ _ _ Hl)) as Hlen.
  destruct (map_ok_split _ _ _ _ _ Hlen Hm Hk) as (l1 & l2 & e1 & v & e2 & -> & -> & Hlen1).
  exists l1, l2, e1, v, e2.
  split_and!; try done; [by apply obj_get_middle|by apply obj_del_middle].
Qed.

Lemma repr_absent c es k :
  repr c es → obj_get k (nodeMap c) = None → obj_get k es = None.
Proof.
  intros (ls & Hl & Hnd & _ & Hm & _) Hk.
  pose proof (seg_length _ _ _ _ _ (lo_seg _ _ _ Hl)) as Hlen.
  destruct (obj_get k es) eqn:E; [|done]. exfalso.
  assert (Hin : k ∈ es.*1) by (apply obj_get_elem; by eexists).
  apply list_elem_of_fmap in Hin as ([k' v'] & -> & Hin).
  apply list_elem_of_lookup in Hin as [i Hi].
  destruct (lookup_lt_is_Some_2 ls i) as [n Hn].
  { rewrite Hlen. by eapply lookup_lt_Some. }
  assert (obj_get k' (nodeMap c) = Some n); [|simpl in *; congruence].
  apply Hm. exists v'. apply list_elem_of_lookup. exists i. rewrite lookup_zip_with.
  by rewrite Hn, Hi.
Qed.

Lemma map_ok_del nm l1 n l2 e1 k v e2 :
  NoDup (e1 ++ (k, v) :: e2).*1 → length l1 = length e1 →
  map_ok nm (l1 ++ n :: l2) (e1 ++ (k, v) :: e2) → map_ok (obj_del k nm) (l1 ++ l2) (e1 ++ e2).
Proof.
  intros Hnd Hlen Hm k' n'. rewrite obj_get_del.
  assert (Hz : zip (l1 ++ n :: l2) (e1 ++ (k, v) :: e2) = zip l1 e1 ++ (n, (k, v)) :: zip l2 e2)
    by (by rewrite zip_with_app).
  assert (Hz' : zip (l1 ++ l2) (e1 ++ e2) = zip l1 e1 ++ zip l2 e2) by (by rewrite zip_with_app).
  rewrite fmap_app in Hnd. simpl in Hnd. rewrite <- Permutation_middle in Hnd.
  apply NoDup_cons in Hnd as [Hk _].
  assert (Hfst : ∀ n v, (n, (k, v)) ∉ zip l1 e1 ++ zip l2 e2).
  { intros m w Hin. apply Hk. rewrite <- fmap_app. apply list_elem_of_fmap.
    exists (k, w). split; [done|]. rewrite <- Hz' in Hin.
    by apply elem_of_zip_r in Hin. }
  rewrite Hz'. unfold map_ok in Hm. setoid_rewrite Hz in Hm.
  destruct (str_eqb k' k) eqn:E.
  - apply str_eqb_eq in E as ->. split; [done|]. intros [w Hw]. by apply Hfst in Hw.
  - apply str_eqb_neq in E. rewrite Hm. setoid_rewrite elem_of_app. setoid_rewrite elem_of_cons.
    naive_solver.
Qed.

Lemma map_ok_cons nm n ls k v es :
  map_ok nm ls es → k ∉ es.*1 → map_ok (obj_set k n nm) (n :: ls) ((k, v) :: es).
Proof.
  intros Hm Hk k' n'. rewrite obj_get_set. destruct (str_eqb k' k) eqn:E.
  - apply str_eqb_eq in E as ->. split.
    + intros [= <-]. exists v. simpl. set_solver.
    + intros [w Hw]. simpl in Hw. apply elem_of_cons in Hw as [[= -> _]|Hw]; [done|].
      apply elem_of_zip_r in Hw. exfalso. apply Hk. apply list_elem_of_fmap. by exists (k, w).
  - apply str_eqb_neq in E. rewrite (Hm k' n'). simpl. setoid_rewrite elem_of_cons. naive_solver.
Qed.

(** ** Refinement of each operation *)

Lemma map_ok_perm nm ls es ls' es' :
  zip ls es ≡ₚ zip ls' es' → map_ok nm ls es → map_ok nm ls' es'.
Proof. intros Hp Hm k n. rewrite (Hm k n). by setoid_rewrite Hp. Qed.

Lemma sizeLimit_prepend l c : sizeLimit (prependToList l c) = sizeLimit c.
Proof. unfold prependToList. by destruct (headerNode c). Qed.
Lemma nodeMap_prepend l c : nodeMap (prependToList l c) = nodeMap c.
Proof. unfold prependToList. by destruct (headerNode c). Qed.

Lemma notin_middle (n : nat) l1 l2 : NoDup (l1 ++ n :: l2) → n ∉ l1 ++ l2.
Proof. rewrite <- Permutation_middle. by intros [? _]%NoDup_cons. Qed.

Lemma get_refines c es k :
  repr c es → (get k c).1 = (spec_get k es).1 ∧ repr (get k c).2 (spec_get k es).2 ∧
    sizeLimit (get k c).2 = sizeLimit c.
Proof.
  intros Hr. unfold get, spec_get. destruct (obj_get k (nodeMap c)) as [n|] eqn:E.
  - destruct (repr_found _ _ _ _ Hr E) as (l1 & l2 & e1 & v & e2 & Hl & -> & Hlen & Hm & Hg & Hd).
    rewrite Hg, Hd. destruct Hr as (ls & _ & Hnd & Hndm & _ & Hlim).
    destruct (detach_ok _ _ _ _ _ _ _ _ Hlen Hl) as [Hl1 Hn1].
    destruct (prepend_ok _ n _ _ k v Hl1) as [Hl2 Hn2].
    { apply notin_middle, (lo_nodup _ _ _ Hl). }
    { pose proof (lo_fresh _ _ _ Hl) as Hf. apply Forall_app in Hf as [_ [? _]%Forall_cons]. done. }
    { done. }
    cbn [fst snd]. rewrite Hn2, sizeLimit_prepend. split_and!; [done| |done].
    exists (n :: l1 ++ l2). rewrite nodeMap_prepend, sizeLimit_prepend. split_and!; try done.
    + change ((k, v) :: e1 ++ e2).*1 with (k :: (e1 ++ e2).*1). rewrite fmap_app in *.
      simpl in Hnd. by rewrite Permutation_middle.
    + eapply map_ok_perm; [|exact Hm]. cbn [zip zip_with].
      rewrite !zip_with_app by done. simpl. by rewrite Permutation_middle.
    + rewrite length_app in Hlim. simpl in *. rewrite length_app. lia.
  - rewrite (repr_absent _ _ _ Hr E). done.
Qed.

(** What detaching the node of a key and deleting the key from [nodeMap] does. *)
Lemma detach_refines c es k n :
  repr c es → obj_get k (nodeMap c) = Some n →
  let c' := detachFromList n c in
  repr (set_nodeMap (obj_del k (nodeMap c')) c') (obj_del k es) ∧
  Z.of_nat (length (obj_del k es)) < sizeLimit c.
Proof.
  intros Hr E c'.
  destruct (repr_found _ _ _ _ Hr E) as (l1 & l2 & e1 & v & e2 & Hl & -> & Hlen & Hm & Hg & Hd).
  rewrite Hd. destruct Hr as (ls & _ & Hnd & Hndm & _ & Hlim).
  destruct (detach_ok _ _ _ _ _ _ _ _ Hlen Hl) as [[? ? ? ? ? ?] Hn1].
  rewrite length_app in Hlim. simpl in Hlim.
  split; [|rewrite length_app; lia].
  exists (l1 ++ l2). split_and!.
  - by split.
  - rewrite fmap_app in *. simpl in Hnd. rewrite <- Permutation_middle in Hnd.
    by apply NoDup_cons in Hnd as [_ ?].
  - unfold set_nodeMap, obj_del. cbn [nodeMap]. eapply sublist_NoDup; [exact Hndm|].
    apply fmap_sublist, sublist_filter.
  - by eapply map_ok_del.
  - rewrite length_app. simpl. lia.
Qed.

Lemma remove_refines c es k :
  repr c es → repr (remove k c) (obj_del k es) ∧ sizeLimit (remove k c) = sizeLimit c.
Proof.
  intros Hr. unfold remove. destruct (obj_get k (nodeMap c)) as [n|] eqn:E.
  - split; [|done]. by apply detach_refines.
  - rewrite obj_del_none; [done|]. by eapply repr_absent.
Qed.

Lemma insert_refines c es k v :
  repr c es → obj_get k es = None → Z.of_nat (length es) < sizeLimit c →
  repr (insert_new k v c) ((k, v) :: es) ∧ sizeLimit (insert_new k v c) = sizeLimit c.
Proof.
  intros (ls & Hl & Hnd & Hndm & Hm & _) Hk Hlt. unfold insert_new.
  rewrite sizeLimit_prepend. split; [|done].
  assert (Hfresh : fresh c ∉ ls).
  { intros Hin. pose proof (lo_fresh _ _ _ Hl) as Hf. rewrite Forall_forall in Hf.
    apply Hf in Hin. lia. }
  assert (Hk' : k ∉ es.*1) by (rewrite <- obj_get_elem, Hk; by intros [? ?]).
  destruct Hl as [Hs Hn Hh Ht Hsz Hf].
  edestruct (prepend_ok (mk_lru (obj_set k (fresh c) (nodeMap c)) (size c) (sizeLimit c)
    (headerNode c) (tailNode c) (<[fresh c := mk_node k v None None]> (heap c)) (S (fresh c))) (fresh c))
    as [Hl2 _]; [|exact Hfresh|cbn [fresh]; lia|cbn [heap]; apply lookup_insert_eq|].
  { split; cbn [heap headerNode tailNode size fresh]; try done.
    - eapply seg_frame; [|exact Hs]. intros l Hin. apply lookup_insert_ne. set_solver.
    - eapply Forall_impl; [exact Hf|]. simpl. lia. }
  exists (fresh c :: ls). rewrite nodeMap_prepend, sizeLimit_prepend. cbn [nodeMap sizeLimit].
  split_and!; [exact Hl2|by apply NoDup_cons|by apply obj_set_NoDup|by apply map_ok_cons|].
  simpl. lia.
Qed.

Lemma put_refines c es k v :
  repr c es → 2 ≤ sizeLimit c →
  ∃ c', put k v c = (c', Ok tt) ∧ repr c' (spec_put (sizeLimit c) k v es) ∧ sizeLimit c' = sizeLimit c.
Proof.
  intros Hr Hlim. unfold put, spec_put. destruct (obj_get k (nodeMap c)) as [n|] eqn:E.
  - destruct (repr_found _ _ _ _ Hr E) as (_ & _ & _ & v0 & _ & _ & _ & _ & _ & Hg & _). rewrite Hg.
    destruct (remove_refines _ _ k Hr) as [Hr1 Hlim1].
    assert (Hlt : Z.of_nat (length (obj_del k es)) < sizeLimit c) by (by apply (detach_refines _ _ _ _ Hr E)).
    destruct (insert_refines _ _ k v Hr1) as [Hr2 Hlim2]; [by rewrite obj_get_del, str_eqb_refl|lia|].
    eexists. split_and!; [done|done|lia].
  - rewrite (repr_absent _ _ _ Hr E). pose proof (repr_absent _ _ _ Hr E) as Hk.
    destruct Hr as (ls & Hl & Hnd & Hndm & Hm & Hle).
    pose proof (seg_length _ _ _ _ _ (lo_seg _ _ _ Hl)) as Hlen.
    rewrite (lo_size _ _ _ Hl), Hlen. destruct (Z.eqb_spec (Z.of_nat (length es)) (sizeLimit c)).
    + destruct ls as [|l ls _] using rev_ind; [simpl in Hlen; lia|].
      destruct es as [|[kt vt] es _] using rev_ind; [simpl in *; lia|].
      rewrite !length_app in Hlen. simpl in Hlen. rewrite length_app in *. simpl in *.
      destruct (tail_ok c l ls es kt vt) as (c1 & -> & Hl1 & Hkey & Hnm & Hlim1 & _);
        [by destruct ls; simpl in *; [lia|]|done|].
      destruct (heap c1 !! l) as [nd|] eqn:End; [|done]. simplify_eq/=.
      replace (length es + 1 - 1)%nat with (length es) by lia. rewrite take_app_length.
      assert (Hr1 : repr (set_nodeMap (obj_del (nkey nd) (nodeMap c1)) c1) es).
      { exists ls. destruct Hl1 as [? ? ? ? ? ?]. split_and!.
        - by split.
        - rewrite fmap_app in Hnd. by apply NoDup_app in Hnd as (? & _).
        - unfold set_nodeMap, obj_del. cbn [nodeMap]. rewrite Hnm. eapply sublist_NoDup; [exact Hndm|].
          apply fmap_sublist, sublist_filter.
        - cbn [set_nodeMap nodeMap]. rewrite Hnm.
          rewrite <- (app_nil_r ls), <- (app_nil_r es). eapply map_ok_del; [done|lia|done].
        - cbn [set_nodeMap sizeLimit]. lia. }
      destruct (insert_refines _ _ k v Hr1) as [Hr2 Hlim2].
      * destruct (obj_get k es) eqn:Eg; [|done]. exfalso.
        assert (is_Some (obj_get k (es ++ [(nkey nd, vt)]))) as [? ?]; [|congruence].
        apply obj_get_elem. rewrite fmap_app. apply elem_of_app. left. apply obj_get_elem. by eexists.
      * cbn [set_nodeMap sizeLimit]. lia.
      * eexists. split_and!; [done|done|]. rewrite Hlim2. done.
    + destruct (insert_refines c es k v) as [Hr2 Hlim2]; [by exists ls|done|lia|].
      by eexists.
Qed.

Lemma empty_keys_refines keys c es :
  repr c es → repr (empty_keys keys c) (foldl (λ l k, obj_del k l) es keys).
Proof.
  revert c es. induction keys as [|k keys IH]; intros c es Hr; [done|]. simpl.
  destruct (obj_get k (nodeMap c)) as [n|] eqn:E.
  - apply IH. by apply detach_refines.
  - rewrite obj_del_none by (by eapply repr_absent). by apply IH.
Qed.

Lemma foldl_obj_del (es : entries) (keys : list jsstr) :
  (∀ k, k ∈ es.*1 → k ∈ keys) → foldl (λ l k, obj_del k l) es keys = [].
Proof.
  revert es. induction keys as [|k keys IH]; intros es H; simpl.
  - destruct es as [|[k v] es]; [done|]. exfalso. apply (elem_of_nil k), H. simpl. set_solver.
  - apply IH. intros k' Hk'. unfold obj_del in Hk'.
    apply list_elem_of_fmap in Hk' as ([k2 v] & -> & [Hne Hin]%list_elem_of_filter).
    simpl in *. assert (k2 ∈ k :: keys) as [->|?]%elem_of_cons; [|done|done].
    apply H. apply list_elem_of_fmap. by exists (k2, v).
Qed.

Lemma empty_refines c es : repr c es → repr (empty c) [].
Proof.
  intros Hr. unfold empty.
  rewrite <- (foldl_obj_del es (own_keys (nodeMap c))); [by apply empty_keys_refines|].
  intros k Hk. unfold own_keys. rewrite own_props_perm. apply obj_get_elem.
  destruct (obj_get k (nodeMap c)) eqn:E; [by eexists|].
  apply (repr_absent _ _ _ Hr) in E. apply obj_get_elem in Hk as [? ?]. congruence.
Qed.

Lemma empty_keys_limit keys c : sizeLimit (empty_keys keys c) = sizeLimit c.
Proof.
  revert c. induction keys as [|k keys IH]; intros c; [done|]. simpl.
  destruct (obj_get k (nodeMap c)); by rewrite IH.
Qed.

(** ** Sequences of operations *)

Inductive op :=
| OpGet (k : jsstr)
| OpPut (k : jsstr) (v : V)
| OpRemove (k : jsstr)
| OpEmpty.

Definition run_op (o : op) (c : LRUCache) : LRUCache * result jserror (option V) :=
    match o with
    | OpGet k => let '(r, c') := get k c in (c', Ok r)
    | OpPut k v => let '(c', r) := put k v c in (c', let* _ := r in Ok None)
    | OpRemove k => (remove k c, Ok None)
    | OpEmpty => (empty c, Ok None)
    end.

Definition spec_op (limit : Z) (o : op) (l : entries) : entries * option V :=
    match o with
    | OpGet k => let '(r, l') := spec_get k l in (l', r)
    | OpPut k v => (spec_put limit k v l, None)
    | OpRemove k => (obj_del k l, None)
    | OpEmpty => ([], None)
    end.

Fixpoint run_ops (os : list op) (c : LRUCache) : LRUCache * list (result jserror (option V)) :=
    match os with
    | [] => (c, [])
    | o :: os' => let '(c1, r) := run_op o c in let '(c2, rs) := run_ops os' c1 in (c2, r :: rs)
    end.
Fixpoint spec_ops (limit : Z) (os : list op) (l : entries) : entries * list (option V) :=
    match os with
    | [] => (l, [])
    | o :: os' =>
      let '(l1, r) := spec_op limit o l in let '(l2, rs) := spec_ops limit os' l1 in (l2, r :: rs)
    end.

Lemma op_refines o c es :
  repr c es → 2 ≤ sizeLimit c →
  (run_op o c).2 = Ok (spec_op (sizeLimit c) o es).2 ∧
  repr (run_op o c).1 (spec_op (sizeLimit c) o es).1 ∧ sizeLimit (run_op o c).1 = sizeLimit c.
Proof.
  intros Hr Hlim. destruct o as [k|k v|k|]; cbn [run_op spec_op].
  - pose proof (get_refines c es k Hr) as (H1 & H2 & H3).
    destruct (get k c), (spec_get k es). simpl in *. by subst.
  - destruct (put_refines c es k v Hr Hlim) as (c' & -> & H2 & H3). done.
  - destruct (remove_refines c es k Hr). done.
  - split; [done|]. split; [by eapply empty_refines|apply empty_keys_limit].
Qed.

Lemma ops_refine os c es :
  repr c es → 2 ≤ sizeLimit c →
  (run_ops os c).2 = Ok <$> (spec_ops (sizeLimit c) os es).2 ∧
  repr (run_ops os c).1 (spec_ops (sizeLimit c) os es).1 ∧ sizeLimit (run_ops os c).1 = sizeLimit c.
Proof.
  revert c es. induction os as [|o os IH]; intros c es Hr Hlim; [done|]. simpl.
  destruct (op_refines o c es Hr Hlim) as (H1 & H2 & H3).
  destruct (run_op o c) as [c1 r] eqn:E1, (spec_op (sizeLimit c) o es) as [l1 r'] eqn:E2.
  simpl in *. subst r. rewrite <- H3 in Hlim. destruct (IH c1 l1 H2 Hlim) as (A1 & A2 & A3).
  rewrite H3 in A1, A2, A3.
  destruct (run_ops os c1), (spec_ops (sizeLimit c) os l1). simpl in *. by subst.
Qed.

Lemma new_repr limit c : new_LRUCache limit = Ok c → repr c [] ∧ sizeLimit c = limit.
Proof.
  unfold new_LRUCache. destruct (Z.ltb_spec limit 1); [done|]. intros [= <-]. split; [|done].
  exists []. split_and!; try done; [by split; try constructor|constructor|constructor| |simpl; lia].
  intros k n. simpl. split; [done|]. by intros [v ?%elem_of_nil].
Qed.

Lemma repr_size c es : repr c es → size c = Z.of_nat (length es) ∧ size c ≤ sizeLimit c.
Proof.
  intros (ls & Hl & _ & _ & _ & Hle). rewrite (lo_size _ _ _ Hl).
  rewrite (seg_length _ _ _ _ _ (lo_seg _ _ _ Hl)). done.
Qed.
End lru.
Arguments LinkedListNode : clear implicits.
Arguments LRUCache : clear implicits.

(** C13. The cache implements least-recently-used eviction: for every limit of
    at least two and every sequence of [get], [put], [remove] and [empty]
    calls on a new cache, no call throws, every result is the one of the
    recency-ordered list of entries, and the number of entries is the length of
    that list and never exceeds the limit. *)
Theorem lru_refines {V} (limit : Z) (c0 : LRUCache V) (os : list op)
  (Hlimit : 2 ≤ limit) (Hnew : new_LRUCache limit = Ok c0) :
  (run_ops os c0).2 = Ok <$> (spec_ops limit os []).2 ∧
  size (run_ops os c0).1 = Z.of_nat (length (spec_ops limit os []).1) ∧
  size (run_ops os c0).1 ≤ limit.
Proof.
  destruct (new_repr limit c0 Hnew) as [Hr Hl]. subst limit.
  destruct (ops_refine os c0 [] Hr Hlimit) as (H1 & H2 & H3).
  destruct (repr_size _ _ H2) as [H4 H5]. rewrite H3 in H5. done.
Qed.

Definition example_ops : list (@op Z) :=
  [OpPut (js "a") 1; OpPut (js "b") 2; OpGet (js "a"); OpPut (js "c") 3; OpGet (js "b"); OpGet (js "a")].

Lemma lru_refines_witness :
  (run_ops example_ops (mk_lru [] 0 2 None None ∅ 0)).2
    = Ok <$> (spec_ops 2 example_ops []).2 ∧
  size (run_ops example_ops (mk_lru [] 0 2 None None ∅ 0)).1
    = Z.of_nat (length (spec_ops 2 example_ops []).1) ∧
  size (run_ops example_ops (mk_lru [] 0 2 None None ∅ 0)).1 ≤ 2.
Proof. apply (lru_refines 2 (mk_lru [] 0 2 None None ∅ 0) example_ops); [lia|reflexivity]. Defined.

(** A cache of size one does not work: the constructor accepts the limit,
    but the third entry put into it raises a TypeError, because the second
    [put] emptied the list from the tail without resetting its head. *)
Theorem lru_limit_one_throws {V} (k1 k2 k3 : jsstr) (v1 v2 v3 : V)
  (H12 : k1 ≠ k2) (H13 : k1 ≠ k3) (H23 : k2 ≠ k3) :
  ∃ c0, new_LRUCache 1 = Ok c0 ∧
    (run_ops [OpPut k1 v1; OpPut k2 v2; OpPut k3 v3] c0).2
    = [Ok None; Ok None;
       Throw (mk_error (js "TypeError") (js "Cannot read properties of undefined (reading 'key')"))].
Proof.
  eexists. split; [done|]. unfold run_ops, run_op, put. cbn [obj_get nodeMap].
  assert (E : ∀ a b : jsstr, a ≠ b → str_eqb a b = false) by (intros; by apply str_eqb_neq).
  change (Z.eqb (size (mk_lru [] 0 1 None None ∅ 0)) (sizeLimit (mk_lru [] 0 1 None None ∅ 0))) with false.
  cbv iota. unfold insert_new at 2. cbn -[js str_eqb obj_del alter insert lookup].
  rewrite (E k2 k1) by done. cbn -[js str_eqb obj_del alter insert lookup].
  unfold removeFromTail. cbn -[js str_eqb obj_del alter insert lookup].
  rewrite lookup_insert_eq. cbn -[js str_eqb obj_del alter insert lookup].
  rewrite lookup_alter_eq, lookup_insert_eq. cbn -[js str_eqb obj_del alter insert lookup].
  change (0 + 1 =? 1) with true. cbv iota beta. cbn -[js str_eqb obj_del obj_set obj_get alter insert lookup].
  rewrite obj_get_set, obj_get_del, (E k3 k2), (E k3 k1) by done. cbn [obj_get].
  rewrite (E k3 k1) by done. done.
Qed.

Lemma lru_limit_one_throws_witness :
  ∃ c0, new_LRUCache 1 = Ok c0 ∧
    (run_ops [OpPut (js "a") 1; OpPut (js "b") 2; OpPut (js "c") 3] c0).2
    = [Ok None; Ok None;
       Throw (mk_error (js "TypeError") (js "Cannot read properties of undefined (reading 'key')"))].
Proof. by apply (lru_limit_one_throws (js "a") (js "b") (js "c") 1 2 3). Defined.

(** ** EndpointCache *)

(** An endpoint as a service returns it; an absent address or period is [None]. *)
Record endpoint := mk_endpoint { ep_Address : option jsstr; ep_CachePeriodInMinutes : option Z }.
Record endpoint_record := mk_record { Address : jsstr; Expire : Z }.

(** A cache key is a string or an object of identifiers. *)
Inductive cache_key :=
| KeyString (s : jsstr)
| KeyObject (o : jsobj).

Abbreviation EndpointCache := (LRUCache (list endpoint_record)).

Definition CACHE_SIZE : Z := 1000.
Definition new_EndpointCache (maxSize : option Z) : result jserror EndpointCache :=
  new_LRUCache (default CACHE_SIZE maxSize).

(** [identifiers.join(' ')] prints [null] as the empty string. *)
Definition identifier_str (v : jsval) : jsstr :=
  match v with JNull | JUndef => [] | v => to_string v end.

Definition getKeyString (o : jsobj) : jsstr :=
  let identifierNames := sort_strings (own_keys o) in
  join (js " ") (omap (λ name, match obj_prop o name with
                               | JUndef => None
                               | v => Some (identifier_str v)
                               end) identifierNames).

Definition key_string (k : cache_key) : jsstr :=
  match k with KeyString s => s | KeyObject o => getKeyString o end.

(** [now] is the value of [Date.now()] at the call, in milliseconds. *)
Definition populateValue (now : Z) (endpoints : list endpoint) : list endpoint_record :=
  (λ e, mk_record (default [] (ep_Address e))
          (now + (match ep_CachePeriodInMinutes e with
                  | None | Some 0 => 1
                  | Some m => m end) * 60 * 1000)) <$> endpoints.

Definition ec_put (now : Z) (key : cache_key) (value : list endpoint) (c : EndpointCache)
  : EndpointCache * result jserror () := put (key_string key) (populateValue now value) c.

Definition ec_get (now : Z) (key : cache_key) (c : EndpointCache)
  : option (list endpoint_record) * EndpointCache :=
  let '(records, c1) := get (key_string key) c in
  match records with
  | Some rs =>
    if existsb (λ r, Z.ltb (Expire r) now) rs then (None, remove (key_string key) c1)
    else (Some rs, c1)
  | None => (None, c1)
  end.

Definition ec_empty (c : EndpointCache) : EndpointCache := empty c.
Definition ec_remove (key : cache_key) (c : EndpointCache) : EndpointCache := remove (key_string key) c.
Definition ec_size (c : EndpointCache) : Z := size c.

(** What [put] leaves under the key, for the specification. *)
Lemma spec_put_get {V} limit k (v : V) es : 2 ≤ limit →
  spec_get k (spec_put limit k v es) = (Some v, (k, v) :: obj_del k (spec_put limit k v es)).
Proof.
  intros. unfold spec_get, spec_put.
  destruct (obj_get k es); [|destruct (Z.eqb _ _)]; simpl; by rewrite str_eqb_refl.
Qed.

Lemma some_expired now rs :
  existsb (λ r, Z.ltb (Expire r) now) rs = negb (forallb (λ r, Z.leb now (Expire r)) rs).
Proof.
  induction rs as [|r rs IH]; [done|]. simpl. by rewrite IH, negb_andb, Z.ltb_antisym.
Qed.

(** Endpoints are served until they expire and never after: reading a key
    right after it was stored returns the stored records exactly when none of
    them has expired at the time of the read, whatever the cache held before,
    and drops the entry otherwise. *)
Theorem endpoint_cache_expiry (c : EndpointCache) es (key : cache_key) (eps : list endpoint) (t now : Z)
  (Hrepr : repr c es) (Hlimit : 2 ≤ sizeLimit c) :
  ∃ c1, ec_put t key eps c = (c1, Ok tt) ∧
    (ec_get now key c1).1 =
      (if forallb (λ r, Z.leb now (Expire r)) (populateValue t eps)
       then Some (populateValue t eps) else None) ∧
    (forallb (λ r, Z.leb now (Expire r)) (populateValue t eps) = false →
     (get (key_string key) (ec_get now key c1).2).1 = None).
Proof.
  destruct (put_refines c es (key_string key) (populateValue t eps) Hrepr Hlimit) as (c1 & Hput & Hr1 & Hl1).
  exists c1. split; [done|]. unfold ec_get.
  pose proof (get_refines c1 _ (key_string key) Hr1) as (Hg & Hr2 & _).
  rewrite spec_put_get in Hg, Hr2 by done. cbn [fst snd] in Hg, Hr2.
  destruct (get (key_string key) c1) as [r c2]. simpl in Hg, Hr2. subst r.
  rewrite some_expired. destruct (forallb _ _); [done|]. split; [done|]. intros _. cbn [negb fst snd].
  destruct (remove_refines c2 _ (key_string key) Hr2) as [Hr3 _].
  pose proof (get_refines _ _ (key_string key) Hr3) as (Hg & _). rewrite Hg.
  unfold spec_get. by rewrite obj_get_del, str_eqb_refl.
Qed.

Definition example_cache : EndpointCache := mk_lru [] 0 2 None None ∅ 0.

Lemma endpoint_cache_expiry_witness :
  ∃ c1, ec_put 0 (KeyString (js "k")) [mk_endpoint (Some (js "h")) None] example_cache = (c1, Ok tt) ∧
    (ec_get 60001 (KeyString (js "k")) c1).1 =
      (if forallb (λ r, Z.leb 60001 (Expire r)) (populateValue 0 [mk_endpoint (Some (js "h")) None])
       then Some (populateValue 0 [mk_endpoint (Some (js "h")) None]) else None) ∧
    (forallb (λ r, Z.leb 60001 (Expire r)) (populateValue 0 [mk_endpoint (Some (js "h")) None]) = false →
     (get (key_string (KeyString (js "k"))) (ec_get 60001 (KeyString (js "k")) c1).2).1 = None).
Proof.
  apply (endpoint_cache_expiry example_cache [] (KeyString (js "k")) [mk_endpoint (Some (js "h")) None] 0 60001).
  - apply (new_repr 2). reflexivity.
  - vm_compute. discriminate.
Defined.

(** Two identifier objects that list the same properties in another order name
    the same entry. *)
Lemma getKeyString_order o o' : NoDup o.*1 → o ≡ₚ o' → getKeyString o = getKeyString o'.
Proof.
  intros Hnd Hp. unfold getKeyString. f_equal.
  rewrite (sort_strings_canonical (own_keys o) (own_keys o')).
  - apply list_omap_ext. apply Forall_Forall2_diag, Forall_true. intros name.
    unfold obj_prop. by rewrite (obj_get_perm name o o').
  - unfold own_keys. by rewrite !own_props_perm, Hp.
Qed.
