(* ===== verification/SequentialExecutor.v ===== *)
(** * SequentialExecutor: event listeners run one after another

    [AWS.SequentialExecutor] of the bundled SDK (dist/index.js 21228-21442),
    the base of [AWS.Request] and of the listener tables.  A listener is a
    function object; only its identity (a value of the type [F]) and its
    [_isAsync] mark are data, its body is an argument of the emission.  [_events] is the object
    from event names to arrays of listeners; the marks are kept beside it since
    they belong to the function objects and not to the arrays. *)

From stdpp Require Import base gmap strings list.
From Stdlib Require Import ZArith Lia.
From S2P Require Import Prelude JsValue.

Section Executor.
  (** The identities of the function objects, compared with [===]. *)
  Context {F : Type} `{!EqDecision F}.

Record executor := Executor {
  _events : list (jsstr * list F);
  _isAsync : list F;
}.

Definition new_executor (marks : list F) : executor := Executor [] marks.

Definition listeners (eventName : jsstr) (ex : executor) : list F :=
  match obj_get eventName (_events ex) with Some ls => ls | None => [] end.

Definition on (eventName : jsstr) (listener : F) (toHead : bool) (ex : executor) : executor :=
  match obj_get eventName (_events ex) with
  | Some ls =>
    Executor (obj_set eventName (if toHead then listener :: ls else ls ++ [listener]) (_events ex))
      (_isAsync ex)
  | None => Executor (obj_set eventName [listener] (_events ex)) (_isAsync ex)
  end.

Definition onAsync (eventName : jsstr) (listener : F) (toHead : bool) (ex : executor) : executor :=
  on eventName listener toHead (Executor (_events ex) (listener :: _isAsync ex)).

(** The loop of [removeListener]: the last index at which the listener stands. *)
Fixpoint last_position (i : nat) (listener : F) (ls : list F) (position : option nat)
    : option nat :=
  match ls with
  | [] => position
  | l :: ls' =>
    last_position (S i) listener ls' (if bool_decide (l = listener) then Some i else position)
  end.

Definition removeListener (eventName : jsstr) (listener : F) (ex : executor) : executor :=
  match obj_get eventName (_events ex) with
  | Some ls =>
    match last_position 0 listener ls None with
    | Some position => Executor (obj_set eventName (delete position ls) (_events ex)) (_isAsync ex)
    | None => ex
    end
  | None => ex
  end.

Definition removeAllListeners (eventName : option jsstr) (ex : executor) : executor :=
  match eventName with
  | Some ((_ :: _) as name) => Executor (obj_del name (_events ex)) (_isAsync ex)
  | _ => Executor [] (_isAsync ex)
  end.

(** [addListeners] takes another executor or an object whose values are a
    function or an array of functions. *)
Inductive callbacks := OneCallback (f : F) | ManyCallbacks (fs : list F).
Definition callback_list (c : callbacks) : list F :=
  match c with OneCallback f => [f] | ManyCallbacks fs => fs end.

Definition addListeners (l : list (jsstr * callbacks)) (ex : executor) : executor :=
  foldl (λ ex ec, foldl (λ ex f, on ec.1 f false ex) ex (callback_list ec.2)) ex (own_props l).
Definition events_object (ex : executor) : list (jsstr * callbacks) :=
  prod_map id ManyCallbacks <$> _events ex.

(** [addNamedListener] also stores the callback as a property of the executor. *)
Definition addNamedListener (name : jsstr) (eventName : jsstr) (callback : F) (toHead : bool)
    (st : list (jsstr * F) * executor) : list (jsstr * F) * executor :=
  (obj_set name callback st.1, on eventName callback toHead st.2).
Definition addNamedAsyncListener (name : jsstr) (eventName : jsstr) (callback : F) (toHead : bool)
    (st : list (jsstr * F) * executor) : list (jsstr * F) * executor :=
  addNamedListener name eventName callback toHead
    (st.1, Executor (_events st.2) (callback :: _isAsync st.2)).

(** [addNamedListeners(function(add, addAsync) {...})]: the callback's calls of
    its two arguments, in order. *)
Inductive named_call :=
| Add (name eventName : jsstr) (callback : F) (toHead : bool)
| AddAsync (name eventName : jsstr) (callback : F) (toHead : bool).
Definition addNamedListeners (calls : list named_call)
    (st : list (jsstr * F) * executor) : list (jsstr * F) * executor :=
  foldl (λ st c, match c with
                 | Add n e f h => addNamedListener n e f h st
                 | AddAsync n e f h => addNamedAsyncListener n e f h st
                 end) st calls.

End Executor.
Arguments executor : clear implicits.
Arguments callbacks : clear implicits.
Arguments named_call : clear implicits.

(** ** Emission *)

(** What an asynchronous listener does with the callback it is given. *)
Inductive async_reaction (E : Type) : Type :=
| CallsBack (err : option E)   (* [done(err)], sooner or later *)
| NeverCalls                   (* returns and never calls it *)
| Raises (err : E).            (* throws before calling it *)
Arguments CallsBack {E} err.
Arguments NeverCalls {E}.
Arguments Raises {E} err.

(** How an emission ends: the [doneCallback] is called with an error or null,
    it is never called, or an exception leaves [emit]. *)
Inductive emission (E : Type) : Type :=
| DoneCallback (error : option E)
| Pending
| Escapes (err : E).
Arguments DoneCallback {E} error.
Arguments Pending {E}.
Arguments Escapes {E} err.

Section Emission.
  Context {F : Type} `{!EqDecision F} {St E : Type}.
  (** The executor and the [_haltHandlersOnError] flag inside the state. *)
  Variable exec : St → executor F.
  Variable halt : St → bool.
  (** [AWS.util.error(error || new Error(), err)]. *)
  Variable chain : St → option E → E → E.
  (** The bodies of the functions: [inl] what was thrown by a call without a
      callback, and the reaction of a call with one. *)
  Variable sync_body : F → St → St * option E.
  Variable async_body : F → St → St * async_reaction E.

Fixpoint callListeners (ls : list F) (error : option E) (s : St) : St * emission E :=
    match ls with
    | [] => (s, DoneCallback error)
    | l :: ls' =>
      if bool_decide (l ∈ _isAsync (exec s)) then
        match async_body l s with
        | (s', CallsBack None) => callListeners ls' error s'
        | (s', CallsBack (Some err)) =>
          let error' := Some (chain s' error err) in
          if halt s' then (s', DoneCallback error') else callListeners ls' error' s'
        | (s', NeverCalls) => (s', Pending)
        | (s', Raises err) => (s', Escapes err)
        end
      else
        let '(s', thrown) := sync_body l s in
        let error' := match thrown with Some err => Some (chain s' error err) | None => error end in
        match error' with
        | Some _ => if halt s' then (s', DoneCallback error') else callListeners ls' error' s'
        | None => callListeners ls' error' s'
        end
    end.

Definition emit (eventName : jsstr) (s : St) : St * emission E * bool :=
    let ls := listeners eventName (exec s) in
    (callListeners ls None s, Nat.ltb 0 (length ls)).
End Emission.

(** ** The listener tables *)

Section Tables.
  Context {F : Type} `{!EqDecision F}.
  Implicit Types (l : F) (ls : list F) (ex : executor F).

Lemma listeners_on e e' l h ex :
  listeners e' (on e l h ex) =
  if str_eqb e e' then (if h then l :: listeners e ex else listeners e ex ++ [l])
  else listeners e' ex.
Proof.
  unfold listeners, on. destruct (str_eqb_spec e e') as [->|Hne];
    destruct (obj_get _ (_events ex)) as [ls|] eqn:He; simpl; rewrite ?obj_get_set;
    rewrite ?str_eqb_refl, ?(proj2 (str_eqb_neq e' e)), ?He by done; by destruct h.
Qed.

Lemma on_isAsync e l h ex : _isAsync (on e l h ex) = _isAsync ex.
Proof. unfold on. by case_match. Qed.

Lemma last_position_app i l ls p :
  last_position i l (ls ++ [l]) p = Some (i + length ls)%nat.
Proof.
  revert i p. induction ls as [|x ls IH]; intros i p; simpl.
  - by rewrite bool_decide_true, Nat.add_0_r by done.
  - rewrite IH. f_equal. lia.
Qed.

(** What [removeListener] takes out: the last occurrence, when there is one. *)
Lemma last_position_split i l ls p :
  last_position i l ls p = p ∧ l ∉ ls ∨
  ∃ a b, ls = a ++ l :: b ∧ l ∉ b ∧ last_position i l ls p = Some (i + length a)%nat.
Proof.
  revert i p. induction ls as [|x ls IH]; intros i p; simpl; [left; set_solver|].
  destruct (IH (S i) (if bool_decide (x = l) then Some i else p)) as [[Hp Hl]|(a & b & -> & Hb & Hp)].
  - rewrite Hp. case_bool_decide as Hxl; [subst x|].
    + right. exists [], ls. rewrite Nat.add_0_r. auto.
    + left. set_solver.
  - right. exists (x :: a), b. rewrite Hp. split_and!; [done|done|]. f_equal. simpl. lia.
Qed.

Lemma delete_app_middle {A} (a b : list A) (x : A) : delete (length a) (a ++ x :: b) = a ++ b.
Proof. by rewrite delete_middle. Qed.

(** The events other than the one named are left alone. *)
Lemma listeners_removeListener e e' l ex :
  listeners e' (removeListener e l ex) =
  if str_eqb e e' then
    match last_position 0 l (listeners e ex) None with
    | Some p => delete p (listeners e ex)
    | None => listeners e ex
    end
  else listeners e' ex.
Proof.
  unfold listeners, removeListener. destruct (str_eqb_spec e e') as [->|Hne].
  - destruct (obj_get e' (_events ex)) as [ls|] eqn:He; [|by rewrite He].
    destruct (last_position 0 l ls None) as [p|]; simpl; [|by rewrite He].
    by rewrite obj_get_set, str_eqb_refl.
  - repeat case_match; simpl in *; simplify_eq; try done;
      rewrite obj_get_set, (proj2 (str_eqb_neq e' e)) in * by done; simplify_eq; congruence.
Qed.

Lemma removeListener_isAsync e l ex : _isAsync (removeListener e l ex) = _isAsync ex.
Proof. unfold removeListener. by repeat case_match. Qed.

(** Registering a table's callbacks for one event. *)
Lemma on_all e fs e' ex :
  listeners e' (foldl (λ ex f, on e f false ex) ex fs) =
  if str_eqb e e' then listeners e ex ++ fs else listeners e' ex.
Proof.
  revert ex. induction fs as [|f fs IH]; intros ex; simpl.
  - destruct (str_eqb_spec e e') as [->|]; [|done]. by rewrite app_nil_r.
  - rewrite IH, !listeners_on, str_eqb_refl. case_match; [|done].
    by rewrite <- app_assoc.
Qed.

Lemma addListeners_absent (l : list (jsstr * callbacks F)) e ex :
  e ∉ l.*1 →
  listeners e (foldl (λ ex ec, foldl (λ ex f, on ec.1 f false ex) ex (callback_list ec.2)) ex l)
  = listeners e ex.
Proof.
  revert ex. induction l as [|[k c] l IH]; intros ex; [done|].
  intros [? ?]%not_elem_of_cons. simpl. rewrite IH by done. rewrite on_all.
  by destruct (str_eqb_spec k e) as [->|].
Qed.

Lemma addListeners_fold (l : list (jsstr * callbacks F)) e ex :
  NoDup l.*1 →
  listeners e (foldl (λ ex ec, foldl (λ ex f, on ec.1 f false ex) ex (callback_list ec.2)) ex l)
  = listeners e ex ++ match obj_get e l with Some c => callback_list c | None => [] end.
Proof.
  revert ex. induction l as [|[k c] l IH]; intros ex Hnd; simpl.
  - by rewrite app_nil_r.
  - apply NoDup_cons in Hnd as [Hk Hnd]. simpl in Hk.
    destruct (str_eqb_spec e k) as [->|Hne].
    + rewrite addListeners_absent by done. by rewrite on_all, str_eqb_refl.
    + rewrite IH by done. rewrite on_all. by rewrite (proj2 (str_eqb_neq k e)).
Qed.

Lemma addListeners_listeners (l : list (jsstr * callbacks F)) e ex :
  NoDup l.*1 →
  listeners e (addListeners l ex) =
  listeners e ex ++ match obj_get e l with Some c => callback_list c | None => [] end.
Proof.
  intros Hnd. unfold addListeners. rewrite addListeners_fold.
  - f_equal. rewrite (obj_get_perm e (own_props l) l); [done| |apply own_props_perm].
    by rewrite own_props_perm.
  - by rewrite own_props_perm.
Qed.

End Tables.

(** Listener tables compose by concatenation: adding every listener of a
    table [core] to an executor appends, for each event, the table's callbacks
    to those already registered, in the table's order; and removing a listener
    right after [on] registered it at the end gives the arrays back as they
    were, for every event. *)
Theorem listeners_compose {F} `{!EqDecision F} (ex core : executor F) (e e' : jsstr) (l : F) :
  NoDup (_events core).*1 →
  listeners e (addListeners (events_object core) ex) = listeners e ex ++ listeners e core ∧
  listeners e' (removeListener e l (on e l false ex)) = listeners e' ex ∧
  _isAsync (removeListener e l (on e l false ex)) = _isAsync ex.
Proof.
  intros Hnd. split_and!.
  - rewrite addListeners_listeners.
    + f_equal. unfold listeners, events_object. clear Hnd.
      induction (_events core) as [|[k v] o IH]; simpl; [done|].
      by destruct (str_eqb e k).
    + unfold events_object. by rewrite <- list_fmap_compose.
  - rewrite listeners_removeListener, !listeners_on, str_eqb_refl, last_position_app. simpl.
    rewrite delete_app_middle, app_nil_r. by destruct (str_eqb_spec e e') as [->|].
  - by rewrite removeListener_isAsync, on_isAsync.
Qed.

Lemma listeners_compose_witness :
  let core := on (js "retry") 3 false (on (js "retry") 2 false (new_executor [])) in
  let ex := on (js "retry") 1 false (new_executor []) in
  listeners (js "retry") (addListeners (events_object core) ex) = [1; 2; 3] ∧
  listeners (js "retry") (removeListener (js "retry") 1 (on (js "retry") 1 false ex)) = [1].
Proof.
  pose proof (listeners_compose (on (js "retry") 1 false (new_executor []))
    (on (js "retry") 3 false (on (js "retry") 2 false (new_executor [])))
    (js "retry") (js "retry") 1) as [H [H2 _]].
  - apply (bool_decide_unpack _). vm_compute. reflexivity.
  - split; [rewrite H | rewrite H2]; vm_compute; reflexivity.
Defined.

(** ** Emission is serial *)

Section Serial.
  Context {F : Type} `{!EqDecision F} {St E : Type}.
  Context (exec : St → executor F) (halt : St → bool) (chain : St → option E → E → E).
  Context (sync_body : F → St → St * option E) (async_body : F → St → St * async_reaction E).

  (** One call of a listener, with or without a callback. *)
Definition call (l : F) (s : St) : St * async_reaction E :=
    if bool_decide (l ∈ _isAsync (exec s)) then async_body l s
    else prod_map id CallsBack (sync_body l s).

  (** The state after calling the listeners of [ls] once each, in order, and
      the errors these calls report. *)
Definition after (ls : list F) (s : St) : St := foldl (λ s l, (call l s).1) s ls.
Fixpoint failures (ls : list F) (s : St) : list E :=
    match ls with
    | [] => []
    | l :: ls' =>
      match (call l s).2 with CallsBack (Some e) => [e] | _ => [] end ++ failures ls' (call l s).1
    end.

  (** Every call hands control back. *)
Definition all_call_back (ls : list F) : Prop :=
    ∀ l s, l ∈ ls → ∃ err, (call l s).2 = CallsBack err.

Local Abbreviation callListeners := (callListeners exec halt chain sync_body async_body).

  (** One turn of the loop of [callListeners], for both kinds of listener. *)
Lemma callListeners_cons l ls error s :
    callListeners (l :: ls) error s =
    match call l s with
    | (s', CallsBack None) =>
      match error with
      | Some _ => if halt s' && negb (bool_decide (l ∈ _isAsync (exec s)))
                  then (s', DoneCallback error) else callListeners ls error s'
      | None => callListeners ls error s'
      end
    | (s', CallsBack (Some err)) =>
      if halt s' then (s', DoneCallback (Some (chain s' error err)))
      else callListeners ls (Some (chain s' error err)) s'
    | (s', NeverCalls) => (s', Pending)
    | (s', Raises err) => (s', Escapes err)
    end.
Proof.
    unfold call. cbn [SequentialExecutor.callListeners]. case_bool_decide.
    - destruct (async_body l s) as [s' [[err|]| |err]]; try done.
      rewrite andb_false_r. by destruct error.
    - destruct (sync_body l s) as [s' [err|]]; simpl; [done|].
      rewrite andb_true_r. by destruct error.
Qed.

  (** The outcome of running the listeners [ls] from [s] with the error so far. *)
Definition serial (ls : list F) (error : option E) (s : St) (out : St * emission E) : Prop :=
    ∃ ran rest r, ls = ran ++ rest ∧ out = (after ran s, DoneCallback r) ∧
      (rest ≠ [] → halt (after ran s) = true ∧ is_Some r) ∧
      (r = None ↔ error = None ∧ failures ran s = []).

Lemma serial_continue l ls error error1 s s1 err out :
    call l s = (s1, CallsBack err) → (error1 = None ↔ error = None ∧ err = None) →
    serial ls error1 s1 out → serial (l :: ls) error s out.
Proof.
    intros Hcall Hn (ran & rest & r & -> & -> & Hrest & Hr).
    exists (l :: ran), rest, r. unfold after in *. simpl. rewrite Hcall. simpl.
    split_and!; [done|done|done|]. rewrite Hr, Hn, app_nil. destruct err; naive_solver.
Qed.

Lemma serial_halt l ls error s s1 err e :
    call l s = (s1, CallsBack err) → halt s1 = true → (err = None → is_Some error) →
    serial (l :: ls) error s (s1, DoneCallback (Some e)).
Proof.
    intros Hcall Hh He. exists [l], ls, (Some e). unfold after. simpl. rewrite Hcall. simpl.
    split_and!; [done|done|done|]. destruct err; [naive_solver|].
    destruct He as [? ->]; [done|]. naive_solver.
Qed.

Lemma callListeners_serial ls error s :
    all_call_back ls → serial ls error s (callListeners ls error s).
Proof.
    revert error s. induction ls as [|l ls IH]; intros error s Hcb.
    { exists [], [], error. simpl. naive_solver. }
    assert (Hls : all_call_back ls) by (intros ???; apply Hcb; by right).
    destruct (Hcb l s) as [err Herr]; [by left|].
    rewrite callListeners_cons. destruct (call l s) as [s1 re] eqn:Hcall.
    simpl in Herr. subst re.
    destruct err as [err|]; [|destruct error as [e|]].
    - destruct (halt s1) eqn:Hh; [by eapply serial_halt|].
      eapply serial_continue; [done| |by apply IH]. naive_solver.
    - destruct (halt s1) eqn:Hh; cbn [andb]; [destruct (negb _)|];
        [by eapply serial_halt| |]; (eapply serial_continue; [done| |by apply IH]; naive_solver).
    - eapply serial_continue; [done| |by apply IH]. naive_solver.
Qed.

  (** What every call preserves, the emission preserves. *)
Lemma callListeners_frame (R : relation St) `{!PreOrder R} ls error s :
    (∀ l s, l ∈ ls → R s (call l s).1) → R s (callListeners ls error s).1.
Proof.
    intros HR. revert error s. induction ls as [|l ls IH]; intros error s; [done|].
    assert (HRls : ∀ l s, l ∈ ls → R s (call l s).1) by (intros; apply HR; by right).
    specialize (HR l s (list_elem_of_here _ _)). rewrite callListeners_cons.
    destruct (call l s) as [s' re]. simpl in HR.
    destruct re as [[err|]| |err]; [|destruct error|..]; repeat case_match; simpl; try done;
      (transitivity s'; [done|by apply IH]).
Qed.

  (** The same for a property of the state and one of the errors reported. *)
Lemma callListeners_errors (P : St → Prop) (Q : E → Prop) ls error s :
    (∀ l s, l ∈ ls → P s → P (call l s).1 ∧
       ∀ prev err, (call l s).2 = CallsBack (Some err) → (∀ e, prev = Some e → Q e) →
         Q (chain (call l s).1 prev err)) →
    P s → (∀ e, error = Some e → Q e) →
    P (callListeners ls error s).1 ∧ ∀ e, (callListeners ls error s).2 = DoneCallback (Some e) → Q e.
Proof.
    intros HR. revert error s. induction ls as [|l ls IH]; intros error s Hs Herr.
    { split; [done|]. intros e [= ->]. by apply Herr. }
    assert (IH' := λ error s, IH (λ l s Hl, HR l s (list_elem_of_further _ _ _ Hl)) error s). clear IH.
    destruct (HR l s (list_elem_of_here _ _) Hs) as [Hs' He]. rewrite callListeners_cons.
    destruct (call l s) as [s' [[err|]| |err]]; cbn [fst snd] in *; [|destruct error as [e|]|by split..].
    - specialize (He error err eq_refl Herr). destruct (halt s'); [split; [done|]; by intros e [= <-]|].
      apply IH'; [done|]. by intros e [= <-].
    - case_match; [split; [done|]; intros e' [= ->]; by apply Herr|]. by apply IH'.
    - by apply IH'.
Qed.

  (** C14. An emission of an event whose listeners all hand control back is
      serial and complete: its final state is that of calling, once each and
      in registration order, a prefix of the registered listeners; the
      [doneCallback] is then called once, with an error exactly when one of
      these calls failed; and a listener is left out only after a failure with
      [_haltHandlersOnError] set. *)
Theorem emit_serial (eventName : jsstr) (s : St) :
    all_call_back (listeners eventName (exec s)) →
    ∃ ran rest r, listeners eventName (exec s) = ran ++ rest ∧
      (emit exec halt chain sync_body async_body eventName s).1 = (after ran s, DoneCallback r) ∧
      (r = None ↔ failures ran s = []) ∧
      (rest ≠ [] → halt (after ran s) = true ∧ failures ran s ≠ []).
Proof.
    intros Hcb. destruct (callListeners_serial _ None s Hcb) as (ran & rest & r & Hls & He & Hh & Hr).
    exists ran, rest, r. unfold emit. simpl. split_and!; [done|done|naive_solver|].
    intros Hne. destruct (Hh Hne) as [? [e ->]]. split; [done|]. intros Hf.
    assert (Some e = None) by (apply Hr; done). done.
Qed.
End Serial.

(** Three listeners on a log: the second throws, the third is asynchronous. *)
Lemma emit_serial_witness :
  let ex := onAsync (js "retry") 3 false (on (js "retry") 2 false (on (js "retry") 1 false (new_executor []))) in
  let sync := λ l (s : executor nat * list nat), ((s.1, s.2 ++ [l]), if Nat.eqb l 2 then Some l else None) in
  let async := λ l (s : executor nat * list nat), ((s.1, s.2 ++ [l]), CallsBack (E := nat) None) in
  ∃ ran rest r, [1; 2; 3] = ran ++ rest ∧
    (emit fst (λ _, false) (λ _ _ e, e) sync async (js "retry") (ex, [])).1
    = (after fst sync async ran (ex, []), DoneCallback r).
Proof.
  set (ex := onAsync _ _ _ _).
  destruct (emit_serial fst (λ _, false) (λ _ _ e, e)
    (λ l (s : executor nat * list nat), ((s.1, s.2 ++ [l]), if Nat.eqb l 2 then Some l else None))
    (λ l (s : executor nat * list nat), ((s.1, s.2 ++ [l]), CallsBack (E := nat) None))
    (js "retry") (ex, [])) as (ran & rest & r & Hl & He & _).
  - intros l s _. unfold call. case_bool_decide; by eexists.
  - exists ran, rest, r. split; [|exact He]. rewrite <- Hl. vm_compute. reflexivity.
Defined.
