(* ===== verification/AwsError.v ===== *)
(** * AWS errors

    [AWS.util.error] and the property updates it is made of (dist/index.js
    26599-26680), the classification of errors by [AWS.Service]
    (21963-22083) and the delay before a retry (26930-26939).

    An [Error] object is its four special properties and the object of its
    other enumerable properties.  A [Date] stored in a property is represented
    by its time value. *)

From stdpp Require Import base gmap strings list.
From Stdlib Require Import ZArith Lia.
From S2P Require Import Prelude JsValue.

Local Open Scope Z_scope.

Record aws_error := AwsErr {
  e_message : jsval;
  e_message_enumerable : bool;
  e_name : jsval;
  e_name_own : bool;
  e_stack : jsval;
  e_props : jsobj;
}.

(** [new Error(message)] and [new Error()]: the name and, without an argument,
    the empty message are inherited. *)
Definition new_Error (message : jsstr) (stack : jsval) : aws_error :=
  AwsErr (JStr message) false (JStr (js "Error")) false stack [].

Definition err_get (e : aws_error) (k : jsstr) : jsval :=
  if str_eqb k (js "message") then e_message e
  else if str_eqb k (js "name") then e_name e
  else if str_eqb k (js "stack") then e_stack e
  else obj_prop (e_props e) k.

Definition err_set (k : jsstr) (v : jsval) (e : aws_error) : aws_error :=
  if str_eqb k (js "message") then AwsErr v (e_message_enumerable e) (e_name e) (e_name_own e) (e_stack e) (e_props e)
  else if str_eqb k (js "name") then AwsErr (e_message e) (e_message_enumerable e) v true (e_stack e) (e_props e)
  else if str_eqb k (js "stack") then AwsErr (e_message e) (e_message_enumerable e) (e_name e) (e_name_own e) v (e_props e)
  else AwsErr (e_message e) (e_message_enumerable e) (e_name e) (e_name_own e) (e_stack e) (obj_set k v (e_props e)).

(** The properties [for-in] visits. *)
Definition err_enumerable (e : aws_error) : jsobj :=
  (if e_message_enumerable e then [(js "message", e_message e)] else []) ++ own_props (e_props e).

(** The second argument of [AWS.util.error]. *)
Inductive error_options :=
| NoOptions
| MessageOptions (s : jsstr)
| ErrorOptions (e : aws_error)
| ObjectOptions (o : jsobj).

Definition opt_get (o : error_options) (k : jsstr) : jsval :=
  match o with
  | NoOptions | MessageOptions _ => JUndef
  | ErrorOptions e => err_get e k
  | ObjectOptions o => obj_prop o k
  end.

Definition opt_enumerable (o : error_options) : jsobj :=
  match o with
  | NoOptions | MessageOptions _ => []
  | ErrorOptions e => err_enumerable e
  | ObjectOptions o => own_props o
  end.

(** [util.update(err, options)] on an error object. *)
Definition err_update (e : aws_error) (o : jsobj) : aws_error :=
  foldl (λ e kv, err_set kv.1 kv.2 e) e o.

(** [util.copy(err)] with [originalError.message = err.message]. *)
Definition err_copy (e : aws_error) : jsobj :=
  obj_set (js "message") (e_message e) (err_enumerable e).

Definition has_message (e : aws_error) : bool :=
  match e_message e with JStr (_ :: _) => true | _ => false end.

Definition gives_message (o : error_options) : bool :=
  match o with MessageOptions _ => true | _ => truthy (opt_get o (js "message")) end.

Definition set_if_truthy (k : jsstr) (v : jsval) (e : aws_error) : aws_error :=
  if truthy v then err_set k v e else e.

(** [Object.defineProperty(err, 'name', {writable: true, enumerable: false})]
    gives an error that only inherits its name an own one, undefined; the
    message becomes enumerable. *)
Definition define_properties (e : aws_error) : aws_error :=
  AwsErr (e_message e) true (if e_name_own e then e_name e else JUndef) true (e_stack e) (e_props e).

(** [util.error(err, options)] at time [now]. *)
Definition util_error (now : Z) (err : aws_error) (options : error_options) : aws_error :=
  let originalError :=
    if has_message err && gives_message options then Some (err_copy err) else None in
  let err := err_set (js "message") (js_or (e_message err) JNull) err in
  let err :=
    match options with
    | NoOptions => err
    | MessageOptions s => err_set (js "message") (JStr s) err
    | ErrorOptions _ | ObjectOptions _ =>
      let err := err_update err (opt_enumerable options) in
      let err := set_if_truthy (js "message") (opt_get options (js "message")) err in
      let err := set_if_truthy (js "code")
                   (js_or (opt_get options (js "code")) (opt_get options (js "name"))) err in
      set_if_truthy (js "stack") (opt_get options (js "stack")) err
    end in
  let err := define_properties err in
  let err := err_set (js "name")
    (JStr (to_string (js_or (js_or (js_or (opt_get options (js "name")) (e_name err))
                             (err_get err (js "code"))) (JStr (js "Error"))))) err in
  let err := err_set (js "time") (JNum (num_of_Z now)) err in
  match originalError with
  | Some o => err_set (js "originalError") (JObj o) err
  | None => err
  end.

(** ** Service: which errors are worth a retry *)

Definition has_code (error : aws_error) (codes : list jsstr) : bool :=
  existsb (λ c, is_str c (err_get error (js "code"))) codes.

Definition networkingError (error : aws_error) : bool := has_code error [js "NetworkingError"].
Definition timeoutError (error : aws_error) : bool := has_code error [js "TimeoutError"].
Definition expiredCredentialsError (error : aws_error) : bool :=
  has_code error [js "ExpiredTokenException"].
Definition clockSkewError (error : aws_error) : bool :=
  has_code error [js "RequestTimeTooSkewed"; js "RequestExpired"; js "InvalidSignatureException";
                  js "SignatureDoesNotMatch"; js "AuthFailure"; js "RequestInTheFuture"].
Definition throttledError (error : aws_error) : bool :=
  bool_decide (err_get error (js "statusCode") = JNum (num_of_Z 429)) ||
  has_code error [js "ProvisionedThroughputExceededException"; js "Throttling";
                  js "ThrottlingException"; js "RequestLimitExceeded"; js "RequestThrottled";
                  js "RequestThrottledException"; js "TooManyRequestsException";
                  js "TransactionInProgressException"; js "EC2ThrottledException"].

Definition retryableError (error : aws_error) : bool :=
  if timeoutError error then true
  else if networkingError error then true
  else if expiredCredentialsError error then true
  else if throttledError error then true
  else num_leb (num_of_Z 500) (cmp_num (err_get error (js "statusCode"))).

(** [successfulResponse]: an undefined status is not below 300. *)
Definition successfulResponse (statusCode : option Z) : bool :=
  match statusCode with Some c => Z.ltb c 300 | None => false end.

Definition defaultRetryCount : Z := 3.
Definition numRetries (config_maxRetries : option Z) : Z :=
  match config_maxRetries with Some n => n | None => defaultRetryCount end.

(** [retryDelayOptions]: a custom back-off function or a base. *)
Record delay_options := DelayOptions {
  customBackoff : option (Z → aws_error → jsval);
  base : option jsnum;
}.

(** The product of two numbers; the exact decimal product where both are finite. *)
Definition num_mul (a b : jsnum) : jsnum :=
  match a, b with
  | NumNaN, _ | _, NumNaN => NumNaN
  | NumDec m e, NumDec m' e' => num_dec (m * m') (e + e')
  | NumInf n, NumDec m _ | NumDec m _, NumInf n =>
    if Z.eqb m 0 then NumNaN else NumInf (xorb n (Z.ltb m 0))
  | NumInf n, NumInf n' => NumInf (xorb n n')
  end.

(** [random] is the number [Math.random()] returns. *)
Definition calculateRetryDelay (random : jsnum) (retryCount : Z) (o : delay_options)
    (err : aws_error) : jsval :=
  match customBackoff o with
  | Some f => f retryCount err
  | None =>
    let b := match base o with Some b => b | None => num_of_Z 100 end in
    JNum (num_mul random (num_mul (num_of_Z (2 ^ retryCount)) b))
  end.

(** ** Lemmas *)

Lemma err_get_set k k' v e : err_get (err_set k' v e) k = if str_eqb k k' then v else err_get e k.
Proof.
  unfold err_get, err_set.
  destruct (str_eqb_spec k' (js "message")) as [->|?];
    [destruct (str_eqb_spec k (js "message")) as [->|?]; [done|]; done|].
  destruct (str_eqb_spec k' (js "name")) as [->|?].
  { destruct (str_eqb_spec k (js "message")) as [->|?]; [done|].
    by destruct (str_eqb_spec k (js "name")) as [->|?]. }
  destruct (str_eqb_spec k' (js "stack")) as [->|?].
  { destruct (str_eqb_spec k (js "message")) as [->|?]; [done|].
    destruct (str_eqb_spec k (js "name")) as [->|?]; [done|].
    by destruct (str_eqb_spec k (js "stack")) as [->|?]. }
  simpl. destruct (str_eqb_spec k (js "message")) as [->|?];
    [by rewrite (proj2 (str_eqb_neq _ _))|].
  destruct (str_eqb_spec k (js "name")) as [->|?]; [by rewrite (proj2 (str_eqb_neq _ _))|].
  destruct (str_eqb_spec k (js "stack")) as [->|?]; [by rewrite (proj2 (str_eqb_neq _ _))|].
  unfold obj_prop. rewrite obj_get_set. by destruct (str_eqb k k').
Qed.

Lemma err_update_get k e o :
  NoDup o.*1 →
  err_get (err_update e o) k = match obj_get k o with Some v => v | None => err_get e k end.
Proof.
  unfold err_update. revert e. induction o as [|[k' v] o IH]; intros e Hnd; [done|].
  apply NoDup_cons in Hnd as [Hk Hnd]. simpl in Hk |- *. rewrite IH by done.
  destruct (str_eqb_spec k k') as [->|Hne].
  - destruct (obj_get k' o) eqn:E; [|by rewrite err_get_set, str_eqb_refl].
    destruct Hk. apply obj_get_elem. by eexists.
  - by rewrite err_get_set, (proj2 (str_eqb_neq k k')).
Qed.

Lemma err_get_set_if k k' v e :
  err_get (set_if_truthy k' v e) k = if truthy v && str_eqb k k' then v else err_get e k.
Proof.
  unfold set_if_truthy. destruct (truthy v); [|done]. simpl. apply err_get_set.
Qed.

(** Redefining the properties changes the value of an inherited name only. *)
Lemma err_get_define e k : k ≠ js "name" → err_get (define_properties e) k = err_get e k.
Proof.
  intros Hk. unfold err_get, define_properties. cbn [e_message e_name e_stack e_props].
  by rewrite (proj2 (str_eqb_neq k (js "name"))).
Qed.

Lemma name_own_set k v e : k ≠ js "name" → e_name_own (err_set k v e) = e_name_own e.
Proof.
  intros Hk. unfold err_set. rewrite (proj2 (str_eqb_neq k (js "name"))) by done. by repeat case_match.
Qed.

Lemma name_own_update e o : js "name" ∉ o.*1 → e_name_own (err_update e o) = e_name_own e.
Proof.
  unfold err_update. revert e. induction o as [|[k v] o IH]; intros e; [done|].
  rewrite fmap_cons. intros [Hk Ho]%not_elem_of_cons. cbn [foldl fst snd]. rewrite IH by done.
  apply name_own_set. by apply not_eq_sym.
Qed.

Lemma name_own_set_if k v e : k ≠ js "name" → e_name_own (set_if_truthy k v e) = e_name_own e.
Proof. intros Hk. unfold set_if_truthy. destruct (truthy v); [by apply name_own_set|done]. Qed.

Lemma err_get_name e : e_name e = err_get e (js "name").
Proof. done. Qed.

(** The properties [util.error] gives a meaning of its own. *)
Definition special_props : list jsstr :=
  [js "message"; js "code"; js "stack"; js "name"; js "time"; js "originalError"].

(** The options that carry properties. *)
Definition carries (o : error_options) : Prop :=
  match o with ErrorOptions _ | ObjectOptions _ => True | _ => False end.

(** The error after the options' properties were copied. *)
Definition merged (err : aws_error) (o : error_options) : aws_error :=
  set_if_truthy (js "stack") (opt_get o (js "stack"))
    (set_if_truthy (js "code") (js_or (opt_get o (js "code")) (opt_get o (js "name")))
      (set_if_truthy (js "message") (opt_get o (js "message"))
        (err_update (err_set (js "message") (js_or (e_message err) JNull) err) (opt_enumerable o)))).

Lemma util_error_merged now err o k :
  carries o → k ≠ js "time" → k ≠ js "name" → k ≠ js "originalError" →
  err_get (util_error now err o) k = err_get (merged err o) k.
Proof.
  intros Hc ? ? ?. unfold util_error.
  replace (match o with NoOptions => _ | MessageOptions s => _ | _ => _ end) with (merged err o)
    by (by destruct o).
  destruct (has_message err && gives_message o); rewrite !err_get_set;
    rewrite ?(proj2 (str_eqb_neq k (js "time"))), ?(proj2 (str_eqb_neq k (js "name"))),
      ?(proj2 (str_eqb_neq k (js "originalError"))) by done; by apply err_get_define.
Qed.

(** An error that has no name of its own takes the one of its code. *)
Lemma util_error_name now err o :
  carries o → js "name" ∉ (opt_enumerable o).*1 → e_name_own err = false →
  truthy (opt_get o (js "name")) = false → truthy (opt_get o (js "code")) = true →
  err_get (util_error now err o) (js "name") = JStr (to_string (opt_get o (js "code"))).
Proof.
  intros Hc Hn Hown Hname Hcode. unfold util_error.
  replace (match o with NoOptions => _ | MessageOptions s => _ | _ => _ end) with (merged err o)
    by (by destruct o).
  assert (Hm : e_name_own (merged err o) = false).
  { unfold merged. rewrite !name_own_set_if, name_own_update, name_own_set by done. exact Hown. }
  assert (Hmc : err_get (merged err o) (js "code") = opt_get o (js "code")).
  { unfold merged. rewrite !err_get_set_if. unfold js_or at 1 2. rewrite Hcode, str_eqb_refl.
    replace (str_eqb (js "code") (js "stack")) with false by done. by rewrite andb_false_r, Hcode. }
  destruct (has_message err && gives_message o); rewrite !err_get_set; cbn [fst snd];
    repeat replace (str_eqb (js "name") (js "originalError")) with false by done;
    repeat replace (str_eqb (js "name") (js "time")) with false by done; rewrite str_eqb_refl;
    rewrite err_get_define, Hmc by done; unfold define_properties; cbn [e_name]; rewrite Hm;
    unfold js_or; rewrite Hname; cbn [truthy]; by rewrite !Hcode.
Qed.

Lemma util_error_get now err o k :
  carries o → NoDup (opt_enumerable o).*1 → k ∉ special_props →
  err_get (util_error now err o) k =
  match obj_get k (opt_enumerable o) with Some v => v | None => err_get err k end.
Proof.
  intros Hc Hnd Hk. unfold special_props in Hk. rewrite util_error_merged by set_solver.
  unfold merged. rewrite !err_get_set_if. rewrite !(proj2 (str_eqb_neq k _)) by set_solver.
  rewrite !andb_false_r, err_update_get by done. destruct (obj_get k _); [done|].
  by rewrite err_get_set, (proj2 (str_eqb_neq k _)) by set_solver.
Qed.

Lemma util_error_code now err o :
  carries o → truthy (opt_get o (js "code")) = true →
  err_get (util_error now err o) (js "code") = opt_get o (js "code").
Proof.
  intros Hc Hcode. rewrite util_error_merged by done. unfold merged. rewrite !err_get_set_if.
  unfold js_or at 1 2. rewrite Hcode, str_eqb_refl.
  replace (str_eqb (js "code") (js "stack")) with false by done.
  by rewrite andb_false_r, Hcode.
Qed.

(** [AWS.util.error(err, options)] merges: a property the options carry
    replaces the error's own and every other property is kept; a truthy
    [options.code] and [options.message] become the error's code and message;
    when a message replaces one, the old one is kept in [originalError]; and an
    error without a name of its own is named by the code. *)
Theorem util_error_merges (now : Z) (err : aws_error) (o : error_options) :
  carries o → NoDup (opt_enumerable o).*1 →
  (∀ k, k ∉ special_props →
    err_get (util_error now err o) k =
    match obj_get k (opt_enumerable o) with Some v => v | None => err_get err k end) ∧
  (truthy (opt_get o (js "code")) = true →
    err_get (util_error now err o) (js "code") = opt_get o (js "code")) ∧
  (truthy (opt_get o (js "message")) = true →
    err_get (util_error now err o) (js "message") = opt_get o (js "message")) ∧
  (truthy (opt_get o (js "message")) = true → has_message err = true →
    ∃ old, err_get (util_error now err o) (js "originalError") = JObj old ∧
           obj_prop old (js "message") = e_message err) ∧
  (js "name" ∉ (opt_enumerable o).*1 → e_name_own err = false →
    truthy (opt_get o (js "name")) = false → truthy (opt_get o (js "code")) = true →
    err_get (util_error now err o) (js "name") = JStr (to_string (opt_get o (js "code")))).
Proof.
  intros Hc Hnd. split_and!; [| | | |by apply util_error_name].
  - intros k Hk. by apply util_error_get.
  - intros Hcode. by apply util_error_code.
  - intros Hm. rewrite util_error_merged by done. unfold merged. rewrite !err_get_set_if, Hm, str_eqb_refl.
    replace (str_eqb (js "message") (js "stack")) with false by done.
    replace (str_eqb (js "message") (js "code")) with false by done.
    by rewrite !andb_false_r.
  - intros Hm Hh. unfold util_error. rewrite Hh.
    replace (gives_message o) with true by (destruct o; done). cbn [andb]. cbv zeta.
    exists (err_copy err). split; [by rewrite err_get_set, str_eqb_refl|].
    unfold err_copy, obj_prop. by rewrite obj_get_set, str_eqb_refl.
Qed.

Lemma util_error_merges_witness :
  let err := new_Error (js "getaddrinfo ENOTFOUND") JUndef in
  let o := [(js "code", JStr (js "NetworkingError")); (js "retryable", JBool true)] in
  err_get (util_error 0 err (ObjectOptions o)) (js "retryable") = JBool true ∧
  err_get (util_error 0 err (ObjectOptions o)) (js "code") = JStr (js "NetworkingError").
Proof.
  set (err := new_Error _ _). set (o := [_; _]).
  destruct (util_error_merges 0 err (ObjectOptions o)) as (H1 & H2 & _).
  - exact I.
  - apply (bool_decide_unpack _). vm_compute. exact I.
  - split; [rewrite H1; [reflexivity|]|apply H2; reflexivity].
    apply (bool_decide_unpack _). vm_compute. exact I.
Defined.
