(* ===== verification/RequestMachine.v ===== *)
(** * The state machine of a request

    [AcceptorStateMachine] (dist/index.js 26021-26060) and the machine that
    [AWS.Request] runs on it (19252-19301): the table of states and the
    [transition] function, which emits the event named like the current state.
    What an emission does to the request is an argument here; the listeners of
    the SDK are modelled in RequestListeners. *)

From stdpp Require Import base gmap strings list.
From Stdlib Require Import ZArith Lia.
From S2P Require Import Prelude JsValue SequentialExecutor.

(** ** AcceptorStateMachine *)

Section Acceptor.
  (** State names, the object the functions are bound to, and errors. *)
  Context {Name : Type} `{!EqDecision Name} {St E : Type}.

  (** [fn.call(bindObject, inputError, callback)] changes the object and calls
      the callback, never does, or throws. *)
Record asm_state := AsmState {
    accept : option Name;
    fail : option Name;
    fn : Name → option E → St → St * async_reaction E;
  }.

Record machine := Machine {
    currentState : option Name;
    states : list (Name * asm_state);
  }.

Definition new_machine (states : list (Name * asm_state)) (state : option Name) : machine :=
    Machine state states.

  (** [this.states[name]] and its assignment. *)
Fixpoint state_lookup (n : Name) (l : list (Name * asm_state)) : option asm_state :=
    match l with
    | [] => None
    | (m, x) :: l' => if bool_decide (m = n) then Some x else state_lookup n l'
    end.
Fixpoint state_store (n : Name) (st : asm_state) (l : list (Name * asm_state))
      : list (Name * asm_state) :=
    match l with
    | [] => [(n, st)]
    | (m, x) :: l' => if bool_decide (m = n) then (m, st) :: l' else (m, x) :: state_store n st l'
    end.

Definition addState (name : Name) (acceptState failState : option Name)
      (fn : Name → option E → St → St * async_reaction E) (m : machine) : machine :=
    Machine (match currentState m with None => Some name | c => c end)
      (state_store name (AsmState acceptState failState fn) (states m)).

  (** How [runTo] ends: [done] is called, a state function never calls its
      callback, or an exception leaves it ([NoState]: there is no state of the
      current name, and reading its [fn] is a TypeError). *)
Inductive run_end :=
  | Stopped (err : option E)
  | Suspended
  | Thrown (err : E)
  | NoState
  | OutOfFuel.

  (** [runTo(finalState, done, bindObject, inputError)]: the states whose
      function is called, the machine's state and the object at the end. *)
Fixpoint runTo (fuel : nat) (table : list (Name * asm_state)) (finalState : option Name)
      (cur : Name) (inputError : option E) (s : St) : list Name * (Name * St * run_end) :=
    match fuel with
    | O => ([], (cur, s, OutOfFuel))
    | S fuel' =>
      match state_lookup cur table with
      | None => ([], (cur, s, NoState))
      | Some state =>
        match fn state cur inputError s with
        | (s', NeverCalls) => ([cur], (cur, s', Suspended))
        | (s', Raises e) => ([cur], (cur, s', Thrown e))
        | (s', CallsBack err) =>
          match (match err with Some _ => fail state | None => accept state end) with
          | None => ([cur], (cur, s', Stopped err))
          | Some next =>
            if bool_decide (Some next = finalState) then ([cur], (next, s', Stopped err))
            else let '(tr, r) := runTo fuel' table finalState next err s' in (cur :: tr, r)
          end
        end
      end
    end.
End Acceptor.
Arguments asm_state : clear implicits.
Arguments machine : clear implicits.
Arguments run_end : clear implicits.

(** ** The states of a request *)

Inductive state :=
| s_validate | s_build | s_afterBuild | s_sign | s_retry | s_afterRetry | s_send
| s_validateResponse | s_extractError | s_extractData | s_restart
| s_success | s_error | s_complete.
#[global] Instance state_eq_dec : EqDecision state.
Proof. solve_decision. Defined.

(** The name of the state, and of the event it emits. *)
Definition state_name (c : state) : jsstr :=
  match c with
  | s_validate => js "validate" | s_build => js "build" | s_afterBuild => js "afterBuild"
  | s_sign => js "sign" | s_retry => js "retry" | s_afterRetry => js "afterRetry"
  | s_send => js "send" | s_validateResponse => js "validateResponse"
  | s_extractError => js "extractError" | s_extractData => js "extractData"
  | s_restart => js "restart" | s_success => js "success" | s_error => js "error"
  | s_complete => js "complete"
  end.

(** [hardErrorStates] and [isTerminalState]. *)
Definition isTerminalState (c : state) : bool :=
  match c with s_success | s_error | s_complete => true | _ => false end.

Section Request.
  Context {St E : Type}.
  (** [response.error] and [_haltHandlersOnError] of the request, and what the
      emission of an event through [emitEvent] does. *)
  Variable get_error : St → option E.
  Variable set_error : option E → St → St.
  Variable set_halt : bool → St → St.
  Variable emitted : state → St → St * emission E.

  (** [emitEvent]: an error also becomes the response's. *)
Definition emitEvent (c : state) (s : St) : St * emission E :=
    match emitted c s with
    | (s', DoneCallback (Some err)) => (set_error (Some err) s', DoneCallback (Some err))
    | r => r
    end.

Definition transition (c : state) (_ : option E) (s : St) : St * async_reaction E :=
    match emitEvent c (set_halt false s) with
    | (s', DoneCallback (Some err)) =>
      if isTerminalState c then (s', Raises err)
      else (set_error (Some err) s', CallsBack (Some err))
    | (s', DoneCallback None) => (s', CallsBack (get_error s'))
    | (s', Pending) => (s', NeverCalls)
    | (s', Escapes err) => (s', Raises err)
    end.

Definition setupStates (m : machine state St E) : machine state St E :=
    let add n a f := addState n a f transition in
    add s_complete None None
    (add s_error (Some s_complete) (Some s_complete)
    (add s_success (Some s_complete) (Some s_complete)
    (add s_restart (Some s_build) (Some s_error)
    (add s_extractData (Some s_success) (Some s_retry)
    (add s_extractError (Some s_extractData) (Some s_retry)
    (add s_validateResponse (Some s_extractData) (Some s_extractError)
    (add s_send (Some s_validateResponse) (Some s_retry)
    (add s_afterRetry (Some s_sign) (Some s_error)
    (add s_retry (Some s_afterRetry) (Some s_afterRetry)
    (add s_sign (Some s_send) (Some s_retry)
    (add s_afterBuild (Some s_sign) (Some s_restart)
    (add s_build (Some s_afterBuild) (Some s_restart)
    (add s_validate (Some s_build) (Some s_error) m))))))))))))).

Definition fsm : machine state St E := setupStates (new_machine [] None).

  (** [Request.runTo(state, done)] of a request whose machine is at [cur]. *)
Definition request_runTo (fuel : nat) (finalState : option state) (cur : state) (s : St)
      : list state * (state * St * run_end E) :=
    runTo fuel (states fsm) finalState cur None s.
End Request.

(** ** Lemmas on the table *)

(** Where each state goes when its emission ends without ([true]) or with an
    error. *)
Definition next (c : state) (ok : bool) : option state :=
  match c with
  | s_validate => Some (if ok then s_build else s_error)
  | s_build => Some (if ok then s_afterBuild else s_restart)
  | s_afterBuild => Some (if ok then s_sign else s_restart)
  | s_sign => Some (if ok then s_send else s_retry)
  | s_retry => Some s_afterRetry
  | s_afterRetry => Some (if ok then s_sign else s_error)
  | s_send => Some (if ok then s_validateResponse else s_retry)
  | s_validateResponse => Some (if ok then s_extractData else s_extractError)
  | s_extractError => Some (if ok then s_extractData else s_retry)
  | s_extractData => Some (if ok then s_success else s_retry)
  | s_restart => Some (if ok then s_build else s_error)
  | s_success | s_error => Some s_complete
  | s_complete => None
  end.

Definition is_none {A} (o : option A) : bool := match o with None => true | Some _ => false end.

Section RequestLemmas.
  Context {St E : Type}.
  Context (get_error : St → option E) (set_error : option E → St → St).
  Context (set_halt : bool → St → St) (emitted : state → St → St * emission E).

Local Abbreviation transition := (transition get_error set_error set_halt emitted).
Local Abbreviation fsm := (fsm get_error set_error set_halt emitted).
Local Abbreviation request_runTo := (request_runTo get_error set_error set_halt emitted).

Lemma fsm_lookup c :
    state_lookup c (states fsm) = Some (AsmState (next c true) (next c false) transition).
Proof. by destruct c. Qed.

Lemma request_runTo_S fuel c s :
    request_runTo (S fuel) None c s =
    match transition c None s with
    | (s', NeverCalls) => ([c], (c, s', Suspended))
    | (s', Raises e) => ([c], (c, s', Thrown e))
    | (s', CallsBack err) =>
      match next c (is_none err) with
      | None => ([c], (c, s', Stopped err))
      | Some c' => let '(tr, r) := request_runTo fuel None c' s' in (c :: tr, r)
      end
    end.
Proof.
    unfold request_runTo at 1. cbn [runTo]. rewrite fsm_lookup. cbn [fn accept fail].
    destruct (transition c None s) as [s' [err| |e]]; [|done..].
    assert (Hn : match err with Some _ => next c false | None => next c true end
                 = next c (is_none err)) by by destruct err.
    rewrite Hn. destruct (next c (is_none err)) as [c'|]; [|done].
    rewrite bool_decide_false by done.
    assert (Hin : ∀ f i1 i2, runTo f (states fsm) None c' i1 s' = runTo f (states fsm) None c' i2 s').
    { intros [|f] i1 i2; [done|]. cbn [runTo]. rewrite fsm_lookup. done. }
    unfold request_runTo. by rewrite (Hin fuel err None).
Qed.

  (** *** The states visited form a path of the table *)

Definition is_path (tr : list state) : Prop :=
    ∀ i a b, tr !! i = Some a → tr !! S i = Some b → ∃ ok, next a ok = Some b.

Lemma request_path fuel c s tr r :
    request_runTo fuel None c s = (tr, r) → is_path tr ∧ (∀ a, head tr = Some a → a = c).
Proof.
    revert c s tr r. induction fuel as [|fuel IH]; intros c s tr r H.
    { injection H as <- <-. split; [intros ???; by rewrite lookup_nil|done]. }
    rewrite request_runTo_S in H.
    assert (Hone : is_path [c] ∧ (∀ a, head [c] = Some a → a = c)).
    { split; [|naive_solver]. intros [|i] a b; simpl; [done|]. by rewrite !lookup_nil. }
    destruct (transition c None s) as [s' [err| |e]]; [|by injection H as <- <-..].
    destruct (next c (is_none err)) as [c'|] eqn:Hn; [|by injection H as <- <-].
    destruct (request_runTo fuel None c' s') as [tr' r'] eqn:Hr. injection H as <- <-.
    apply IH in Hr as [Hp Hh]. split; [|naive_solver].
    intros [|i] a b Ha Hb; simpl in *; [|by eapply Hp].
    injection Ha as <-. rewrite <- head_lookup in Hb. rewrite (Hh b Hb) in *. by exists (is_none err).
Qed.

  (** A state that every edge into [D] either leaves from [D] or from [m] is
      reached, from outside [D], only through [m]. *)
Lemma path_dominated (D : state → bool) (m : state) tr i b :
    is_path tr → (∀ a, head tr = Some a → D a = false) →
    (∀ a ok b, next a ok = Some b → D b = true → D a = true ∨ a = m) →
    tr !! i = Some b → D b = true → ∃ j, j < i ∧ tr !! j = Some m.
Proof.
    intros Hp Hh Hd. revert b. induction i as [|i IH]; intros b Hb HD.
    { rewrite <- head_lookup in Hb. apply Hh in Hb. congruence. }
    destruct (tr !! i) as [a|] eqn:Ha.
    - destruct (Hp i a b Ha Hb) as [ok Hok].
      destruct (Hd a ok b Hok HD) as [HDa| ->]; [|exists i; eauto with lia].
      destruct (IH a eq_refl HDa) as (j & ? & ?). exists j. eauto with lia.
    - apply lookup_ge_None in Ha. apply lookup_lt_Some in Hb. lia.
Qed.
End RequestLemmas.

(** The states that come after a request was built, and those that come after
    a response was received. *)
Definition built (c : state) : bool :=
  match c with
  | s_validate | s_build | s_afterBuild | s_restart | s_error | s_complete => false
  | _ => true
  end.
Definition received (c : state) : bool :=
  match c with
  | s_validateResponse | s_extractError | s_extractData | s_success => true
  | _ => false
  end.

(** C15. Whatever the listeners do, the events of a request come in a safe
    order: each [send] directly follows a [sign]; nothing is signed or sent
    before [afterBuild]; [success] only comes after a [send]; and [complete]
    directly follows [success] or [error] and is the last event. *)
Theorem request_order {St E} (get_error : St → option E) (set_error : option E → St → St)
    (set_halt : bool → St → St) (emitted : state → St → St * emission E)
    (fuel : nat) (s : St) (tr : list state) r :
  request_runTo get_error set_error set_halt emitted fuel None s_validate s = (tr, r) →
  (∀ i, tr !! S i = Some s_send → tr !! i = Some s_sign) ∧
  (∀ i, tr !! i = Some s_sign → ∃ j, j < i ∧ tr !! j = Some s_afterBuild) ∧
  (∀ i, tr !! i = Some s_success → ∃ j, j < i ∧ tr !! j = Some s_send) ∧
  (∀ i, tr !! S i = Some s_complete →
    (tr !! i = Some s_success ∨ tr !! i = Some s_error) ∧ length tr = S (S i)).
Proof.
  intros H. apply request_path in H as [Hp Hh].
  assert (Hprev : ∀ i b, tr !! S i = Some b → ∃ a ok, tr !! i = Some a ∧ next a ok = Some b).
  { intros i b Hb. destruct (lookup_lt_is_Some_2 tr i) as [a Ha].
    - apply lookup_lt_Some in Hb. lia.
    - destruct (Hp i a b Ha Hb). eauto. }
  split_and!.
  - intros i Hi. destruct (Hprev i _ Hi) as (a & ok & Ha & Hn). by destruct a, ok.
  - intros i Hi. eapply (path_dominated built); eauto; [naive_solver|].
    intros [] [] []; naive_solver.
  - intros i Hi. eapply (path_dominated received); eauto; [naive_solver|].
    intros [] [] []; naive_solver.
  - intros i Hi. split.
    + destruct (Hprev i _ Hi) as (a & ok & Ha & Hn). destruct a, ok; naive_solver.
    + apply lookup_lt_Some in Hi as Hl.
      destruct (decide (length tr = S (S i))) as [|Hne]; [done|].
      destruct (lookup_lt_is_Some_2 tr (S (S i))) as [b Hb]; [lia|].
      destruct (Hp _ _ _ Hi Hb). done.
Qed.

(** A request whose events all go well. *)
Lemma request_order_witness :
  let run := request_runTo (λ s : unit, None (A := unit)) (λ _ s, s) (λ _ s, s)
               (λ _ s, (s, DoneCallback None)) 20 None s_validate tt in
  run.1 = [s_validate; s_build; s_afterBuild; s_sign; s_send; s_validateResponse; s_extractData;
           s_success; s_complete] ∧
  ∀ i, run.1 !! S i = Some s_send → run.1 !! i = Some s_sign.
Proof.
  split; [reflexivity|].
  destruct (request_order (λ s : unit, None (A := unit)) (λ _ s, s) (λ _ s, s)
    (λ _ s, (s, DoneCallback None)) 20 tt _ _ eq_refl) as [H _].
  exact H.
Defined.

(** ** Termination within a retry budget *)

(** The height of a state: every edge goes down, except the one from
    [afterRetry] back to [sign] and the one from [restart] back to [build]. *)
Definition height (c : state) : nat :=
  match c with
  | s_validate => 13 | s_build => 12 | s_afterBuild => 11 | s_sign => 10 | s_send => 9
  | s_validateResponse => 8 | s_extractError => 7 | s_extractData => 6 | s_retry => 5
  | s_afterRetry => 4 | s_restart => 3 | s_success | s_error => 2 | s_complete => 1
  end.

(** How many [send] events can still come, with [b] retries left. *)
Definition sends_left (c : state) (b : nat) : nat := b + if Nat.leb 9 (height c) then 1 else 0.
Definition send_count (tr : list state) : nat := length (base.filter (s_send =.) tr).

Section Termination.
  Context {St E : Type}.
  Context (get_error : St → option E) (set_error : option E → St → St).
  Context (set_halt : bool → St → St) (emitted : state → St → St * emission E).
  Local Abbreviation transition := (transition get_error set_error set_halt emitted).
  Local Abbreviation request_runTo := (request_runTo get_error set_error set_halt emitted).

  (** An invariant of the request at each state, and a count of the retries left
      that no event increases; every event ends, [afterRetry] uses up a retry
      when it clears the error, and [restart] does not clear it. *)
  Context (inv : state → St → Prop) (budget : St → nat).
  Context (Hstep : ∀ c s, inv c s → ∃ s' err,
    transition c None s = (s', CallsBack err) ∧
    (∀ c', next c (is_none err) = Some c' → inv c' s') ∧
    budget s' ≤ budget s ∧
    (c = s_afterRetry → err = None → budget s' < budget s) ∧
    (c = s_restart → err ≠ None)).

  (** One step: the height goes down, or a retry is used up. *)
Lemma transition_progress c s s' err c' :
    inv c s → transition c None s = (s', CallsBack err) → next c (is_none err) = Some c' →
    inv c' s' ∧
    (height c' < height c ∧ budget s' ≤ budget s ∨
     c = s_afterRetry ∧ c' = s_sign ∧ budget s' < budget s).
Proof.
    intros Hinv Ht Hn. destruct (Hstep c s Hinv) as (s2 & err2 & Ht2 & Hi & Hb & Hr & Hs).
    rewrite Ht in Ht2. simplify_eq. split; [by apply Hi|].
    destruct c; destruct err2 as [e|]; simpl in Hn; simplify_eq; simpl; try (left; lia);
      [right; auto|]. by destruct Hs.
Qed.

Lemma request_budget fuel c s :
    inv c s → 12 * budget s + height c ≤ fuel →
    ∃ tr s', request_runTo fuel None c s = (tr, (s_complete, s', Stopped (get_error s'))) ∧
      send_count tr ≤ sends_left c (budget s).
Proof.
    revert c s. induction fuel as [|fuel IH]; intros c s Hinv Hf.
    { destruct c; simpl in Hf; lia. }
    rewrite request_runTo_S. destruct (Hstep c s Hinv) as (s' & err & Ht & _).
    rewrite Ht. destruct (next c (is_none err)) as [c'|] eqn:Hn.
    - pose proof (transition_progress _ _ _ _ _ Hinv Ht Hn) as [Hi Hp].
      destruct (IH c' s' Hi) as (tr & s2 & -> & Hc).
      { destruct Hp as [[? ?]|(-> & -> & ?)]; simpl in *; lia. }
      exists (c :: tr), s2. split; [done|]. unfold send_count, sends_left in *.
      rewrite filter_cons.
      destruct c, (is_none err); simpl in Hn; simplify_eq; simpl in *; naive_solver lia.
    - destruct c, (is_none err); simplify_eq/=.
      all: unfold RequestMachine.transition in Ht; repeat case_match; simplify_eq/=.
      all: exists [s_complete], s'; split; [done|]; unfold send_count; simpl; lia.
Qed.

  (** Every state of the trace is entered with the invariant. *)
Lemma request_visits fuel c s c' :
    inv c s → c' ∈ (request_runTo fuel None c s).1 → ∃ s', inv c' s'.
Proof.
    revert c s. induction fuel as [|fuel IH]; intros c s Hinv.
    { intros H. cbn in H. set_solver. }
    rewrite request_runTo_S. destruct (Hstep c s Hinv) as (s' & err & Ht & Hi & _). rewrite Ht.
    destruct (next c (is_none err)) as [c2|] eqn:Hn.
    - specialize (IH c2 s' (Hi c2 eq_refl)). destruct (request_runTo fuel None c2 s') as [tr out]. cbn [fst] in *.
      intros [->|Hin]%elem_of_cons; eauto.
    - intros H. exists s. set_solver.
Qed.
End Termination.
