(* ===== verification/Http.v ===== *)
(** * Endpoints and HTTP requests

    [AWS.Endpoint], [AWS.HttpRequest] and [AWS.HttpResponse] of the bundled
    SDK (dist/index.js 15864-16055) with the user agent they carry
    (26092-26109).  [url.parse] of Node is the argument [urlParse]. *)

From stdpp Require Import base strings list.
From Stdlib Require Import ZArith Lia.
From S2P Require Import Prelude JsValue UriUtil.

Local Open Scope Z_scope.

(** The fields of [url.parse(s)] the SDK reads. *)
Record url := Url {
  u_protocol : jsstr;
  u_host : jsstr;
  u_hostname : jsstr;
  u_port : option jsstr;
  u_path : option jsstr;
}.

Record endpoint := Endpoint {
  protocol : jsstr;
  host : jsstr;
  hostname : jsstr;
  port : Z;
  ep_path : option jsstr;
}.

(** [new AWS.Endpoint(endpoint, config)] of a string. *)
Definition new_Endpoint (urlParse : jsstr → url) (sslEnabled : bool) (s : jsstr) : endpoint :=
  let s :=
    if starts_with (js "http") s then s
    else (if sslEnabled then js "https" else js "http") ++ js "://" ++ s in
  let u := urlParse s in
  Endpoint (u_protocol u) (u_host u) (u_hostname u)
    (match u_port u with
     | Some ((_ :: _) as p) => dec_value 0 p
     | _ => if str_eqb (u_protocol u) (js "https:") then 443 else 80
     end)
    (u_path u).

(** [util.engine()] and [util.userAgent()] in Node. *)
Definition engine (platform version : jsstr) (AWS_EXECUTION_ENV : option jsstr) : jsstr :=
  platform ++ js "/" ++ version ++
  match AWS_EXECUTION_ENV with Some ((_ :: _) as e) => js " exec-env/" ++ e | _ => [] end.
Definition userAgent (VERSION engine : jsstr) : jsstr :=
  js "aws-sdk-nodejs/" ++ VERSION ++ js " " ++ engine.

Record http_request := HttpRequest {
  hr_method : jsstr;
  hr_path : jsstr;
  hr_headers : jsobj;
  hr_body : jsstr;
  hr_endpoint : endpoint;
  hr_region : jsval;
  _userAgent : jsstr;
}.

Definition getUserAgentHeaderName : jsstr := js "User-Agent".

(** [p || d] for a string that may be absent. *)
Definition path_or_slash (p : option jsstr) : jsstr :=
  match p with Some ((_ :: _) as p) => p | _ => js "/" end.

(** [new AWS.HttpRequest(endpoint, region)] with the agent [util.userAgent()];
    [new AWS.Endpoint] of an endpoint object is a copy of it. *)
Definition new_HttpRequest (agent : jsstr) (ep : endpoint) (region : jsval) : http_request :=
  HttpRequest (js "POST") (path_or_slash (ep_path ep))
    [(getUserAgentHeaderName, JStr agent)] [] ep region agent.

Definition set_header (k : jsstr) (v : jsval) (r : http_request) : http_request :=
  HttpRequest (hr_method r) (hr_path r) (obj_set k v (hr_headers r)) (hr_body r) (hr_endpoint r)
    (hr_region r) (_userAgent r).
Definition delete_header (k : jsstr) (r : http_request) : http_request :=
  HttpRequest (hr_method r) (hr_path r) (obj_del k (hr_headers r)) (hr_body r) (hr_endpoint r)
    (hr_region r) (_userAgent r).

Definition appendToUserAgent (agentPartial : jsval) (r : http_request) : http_request :=
  let agent :=
    match agentPartial with
    | JStr ((_ :: _) as s) => _userAgent r ++ js " " ++ s
    | _ => _userAgent r
    end in
  HttpRequest (hr_method r) (hr_path r) (obj_set getUserAgentHeaderName (JStr agent) (hr_headers r))
    (hr_body r) (hr_endpoint r) (hr_region r) agent.

(** [path.split('?', 1)[0]]. *)
Definition pathname (r : http_request) : jsstr := default [] (head (split_on 63 (hr_path r))).

(** [search()]: the query of the path parsed by [querystring.parse] and printed
    again in canonical order; [None] when [uriEscape] throws. *)
Definition search (queryStringParse : jsstr → jsobj) (r : http_request) : option jsstr :=
  match split_on 63 (hr_path r) !! 1%nat with
  | Some ((_ :: _) as query) => queryParamsToString (queryStringParse query)
  | _ => Some []
  end.

Definition updateEndpoint (urlParse : jsstr → url) (sslEnabled : bool) (endpointStr : jsstr)
    (r : http_request) : http_request :=
  let newEndpoint := new_Endpoint urlParse sslEnabled endpointStr in
  HttpRequest (hr_method r) (path_or_slash (ep_path newEndpoint))
    (if truthy (obj_prop (hr_headers r) (js "Host"))
     then obj_set (js "Host") (JStr (host newEndpoint)) (hr_headers r) else hr_headers r)
    (hr_body r) newEndpoint (hr_region r) (_userAgent r).

(** [AWS.HttpResponse]: [hs_buffers] and [hs_numBytes] are the properties the
    data listeners add and delete. *)
Record http_response := HttpResponse {
  hs_statusCode : option Z;
  hs_statusMessage : jsval;
  hs_headers : jsobj;
  hs_body : option jsstr;
  hs_buffers : option (list jsstr);
  hs_numBytes : option Z;
  hs_streaming : bool;
}.
Definition new_HttpResponse : http_response := HttpResponse None JUndef [] None None None false.
Definition createUnbufferedStream (r : http_response) : http_response :=
  HttpResponse (hs_statusCode r) (hs_statusMessage r) (hs_headers r) (hs_body r) (hs_buffers r)
    (hs_numBytes r) true.
