(* ===== verification/RequestListeners.v ===== *)
(** * The listeners of a request

    The listeners [AWS.EventListeners.Core] and [CorePost] register on every
    request (dist/index.js 15264-15712), [AWS.Response] (20370-20386), and the
    registration of the listener tables by [AWS.Service]
    (21713-21739).  Each listener is a function on the [request]; what it asks
    of the rest of the world (credentials, signer, validator, network) is an
    argument of the section. *)

From stdpp Require Import base gmap strings list.
From Stdlib Require Import ZArith Lia.
From coqutil Require Import Datatypes.RecordSetters.
From S2P Require Import Prelude JsValue JsText SequentialExecutor AwsError RequestMachine Http.

Import DoubleBraceUpdate.
Local Open Scope Z_scope.

(** ** The request *)

(** The functions registered as listeners. *)
Inductive fn_id :=
| VALIDATE_CREDENTIALS | VALIDATE_REGION | BUILD_IDEMPOTENCY_TOKENS | VALIDATE_PARAMETERS
| COMPUTE_SHA256 | SET_CONTENT_LENGTH | SET_HTTP_HOST | RESTART | DISCOVER_ENDPOINT | SIGN
| VALIDATE_RESPONSE | SEND | HTTP_HEADERS | HTTP_DATA | HTTP_DONE | FINALIZE_ERROR
| INVALIDATE_CREDENTIALS | EXPIRED_SIGNATURE | CLOCK_SKEWED | REDIRECT | RETRY_CHECK
| RESET_RETRY_STATE | EXTRACT_REQUEST_ID | ENOTFOUND_ERROR
| BUILD | EXTRACT_DATA | EXTRACT_ERROR
| OtherFn (n : nat).
#[global] Instance fn_id_eq_dec : EqDecision fn_id.
Proof. solve_decision. Defined.

(** [AWS.Response], without the back reference to the request. *)
Record response := Response {
  data : jsval;
  error : option aws_error;
  retryCount : Z;
  redirectCount : Z;
  maxRetries : Z;
  maxRedirects : option Z;
  httpResponse : http_response;
  requestId : jsval;
}.

(** [AWS.Request]: the executor it inherits, its response and HTTP request, and
    what it shares with the service: the clock offset and the [expired] mark of
    the credentials.  [clock] is the time of the machine. *)
Record request := Request {
  exec : executor fn_id;
  _haltHandlersOnError : bool;
  resp : response;
  httpRequest : http_request;
  params : jsobj;
  signedAt : option Z;
  credentials_expired : bool;
  systemClockOffset : Z;
  clock : Z;
}.

(** An operation of the API as the listeners see it. *)
Record operation_rules := OperationRules {
  authtype : jsstr;
  idempotentMembers : list jsstr;
  hasEventOutput : bool;
}.

(** The service and its configuration.  [operations] is absent when
    [api.operations] is; the operation is absent when the table has no entry
    of the request's name. *)
Record service := Service {
  api_signatureVersion : option jsstr;
  cfg_signatureVersion : option jsstr;
  cfg_region : jsval;
  isGlobalEndpoint : bool;
  operations : option (option operation_rules);
  cfg_maxRetries : option Z;
  cfg_maxRedirects : option Z;
  cfg_correctClockSkew : bool;
  cfg_paramValidation : bool;
  cfg_retryDelayOptions : delay_options;
  svc_endpoint : endpoint;
  svc_region : jsval;
  svc_agent : jsstr;
}.

Definition new_Response (svc : service) : response :=
  Response JNull None 0 0 (numRetries (cfg_maxRetries svc)) (cfg_maxRedirects svc)
    new_HttpResponse JUndef.

(** [a < b] where [b] may be undefined. *)
Definition below (a : Z) (b : option Z) : bool :=
  match b with Some b => Z.ltb a b | None => false end.

(** The skew-corrected time. *)
Definition getSkewCorrectedDate (r : request) : Z := clock r + systemClockOffset r.

(** [service.isClockSkewed] and [service.applyClockOffset]; a time value of 0
    or NaN ([None]) is falsy. *)
Definition isClockSkewed (newServerTime : option Z) (r : request) : bool :=
  match newServerTime with
  | Some t => negb (Z.eqb t 0) && Z.leb 300000 (Z.abs (getSkewCorrectedDate r - t))
  | None => false
  end.
Definition applyClockOffset (newServerTime : option Z) (r : request) : request :=
  match newServerTime with
  | Some t => if Z.eqb t 0 then r else r {{ systemClockOffset := t - clock r }}
  | None => r
  end.

(** [resp.error = err] and the update of a property of the response's error. *)
Definition set_error (err : option aws_error) (r : request) : request :=
  r {{ resp -> error := err }}.
Definition upd_error (k : jsstr) (v : jsval) (r : request) : request :=
  match error (resp r) with
  | Some e => set_error (Some (err_set k v e)) r
  | None => r
  end.
Definition get_error (r : request) : option aws_error := error (resp r).
Definition set_halt (b : bool) (r : request) : request := r {{ _haltHandlersOnError := b }}.
Definition haltHandlersOnError : request → request := set_halt true.

Definition TypeError (message : jsstr) : aws_error :=
  AwsErr (JStr message) false (JStr (js "TypeError")) false JUndef [].

(** A new error with the given properties, as the listeners make them. *)
Definition fresh_error (r : request) (message : jsstr) (options : jsobj) : aws_error :=
  util_error (clock r) (new_Error message JUndef) (ObjectOptions options).

(** ** Signers by version *)

Inductive signer := SignerV2 | SignerV3 | SignerV4 | SignerS3 | SignerV3Https.
#[global] Instance signer_eq_dec : EqDecision signer.
Proof. solve_decision. Defined.

(** [AWS.Signers.RequestSigner.getVersion]. *)
Definition getVersion (version : option jsstr) : result aws_error signer :=
  let v := default (js "undefined") version in
  if str_eqb v (js "v2") then Ok SignerV2
  else if str_eqb v (js "v3") then Ok SignerV3
  else if str_eqb v (js "s3v4") then Ok SignerV4
  else if str_eqb v (js "v4") then Ok SignerV4
  else if str_eqb v (js "s3") then Ok SignerS3
  else if str_eqb v (js "v3https") then Ok SignerV3Https
  else Throw (new_Error (js "Unknown signing version " ++ v) JUndef).

(** A string that is present and not empty. *)
Definition given (s : option jsstr) : bool := match s with Some (_ :: _) => true | _ => false end.

(** The operation's [authtype], the empty string without an operation. *)
Definition getOperationAuthtype (svc : service) : jsstr :=
  match operations svc with Some (Some op) => authtype op | _ => [] end.

Definition getSignerClass (svc : service) : result aws_error signer :=
  let authtype := getOperationAuthtype svc in
  getVersion (if given (cfg_signatureVersion svc) then cfg_signatureVersion svc
              else if str_eqb authtype (js "v4") || str_eqb authtype (js "v4-unsigned-body")
                   then Some (js "v4") else api_signatureVersion svc).

(** [dnsHostRegex]: a label of at most 63 letters, digits and inner hyphens. *)
Definition dnsHost (s : jsstr) : bool :=
  match s, last s with
  | x :: _, Some y =>
    is_alnum x && is_alnum y && forallb (λ c, is_alnum c || Z.eqb c 45) s
    && Nat.leb (length s) 63
  | _, _ => false
  end.

(** What the HTTP client reports of a request. *)
Inductive http_event :=
| EvHeaders (statusCode : Z) (headers : jsobj) (statusMessage : jsval)
| EvData (chunk : jsstr)
| EvEnd
| EvError (err : aws_error).

(** The arguments of the events emitted with some of their own. *)
Inductive event_args :=
| NoArgs
| HeadersArgs (statusCode : Z) (headers : jsobj) (statusMessage : jsval)
| DataArgs (chunk : jsstr)
| ErrorArgs (err : aws_error).

(** [array.indexOf(v)]. *)
Fixpoint array_indexOf (i : Z) (v : jsval) (l : list jsval) : Z :=
  match l with
  | [] => -1
  | x :: l' => if bool_decide (x = v) then i else array_indexOf (i + 1) v l'
  end.

(** The rest of the world, as the listeners use it. *)
Record world (Creds : Type) := World {
  w_getCredentials : request → bool * result aws_error Creds;   (* the credential provider: the new [expired] mark and the outcome *)
  w_addAuthorization : signer → Creds → Z → http_request → result aws_error http_request;   (* the signers *)
  w_validateParams : jsobj → option aws_error;   (* [ParamValidator.validate] *)
  w_uuid_v4 : request → nat → jsstr;
  w_computeSha256 : jsstr → result aws_error jsstr;
  w_network : request → Z * list http_event;   (* [HttpClient.handleRequest]: the time the response ends and its events *)
  w_getSystemErrorName : option (jsnum → jsstr);
  w_sslEnabled : bool;   (* [AWS.config.sslEnabled] *)
  w_urlParse : jsstr → url;
  w_Date_parse : jsstr → option Z;
  w_random : request → jsnum;   (* [Math.random()] *)
  w_other_sync : fn_id → event_args → request → request * option aws_error;   (* the listeners other than the core ones *)
  w_other_async : fn_id → event_args → request → request * async_reaction aws_error;
}.
Arguments w_getCredentials {Creds}.
Arguments w_addAuthorization {Creds}.
Arguments w_validateParams {Creds}.
Arguments w_uuid_v4 {Creds}.
Arguments w_computeSha256 {Creds}.
Arguments w_network {Creds}.
Arguments w_getSystemErrorName {Creds}.
Arguments w_sslEnabled {Creds}.
Arguments w_urlParse {Creds}.
Arguments w_Date_parse {Creds}.
Arguments w_random {Creds}.
Arguments w_other_sync {Creds}.
Arguments w_other_async {Creds}.

Section Core.
  Context {Creds : Type}.
  Variable svc : service.
  Variable w : world Creds.
  Local Abbreviation getCredentials := (w_getCredentials w).
  Local Abbreviation addAuthorization := (w_addAuthorization w).
  Local Abbreviation validateParams := (w_validateParams w).
  Local Abbreviation uuid_v4 := (w_uuid_v4 w).
  Local Abbreviation computeSha256 := (w_computeSha256 w).
  Local Abbreviation network := (w_network w).
  Local Abbreviation getSystemErrorName := (w_getSystemErrorName w).
  Local Abbreviation sslEnabled := (w_sslEnabled w).
  Local Abbreviation urlParse := (w_urlParse w).
  Local Abbreviation Date_parse := (w_Date_parse w).
  Local Abbreviation random := (w_random w).
  Local Abbreviation other_sync := (w_other_sync w).
  Local Abbreviation other_async := (w_other_async w).

Definition needs_credentials : bool :=
    given (api_signatureVersion svc) || given (cfg_signatureVersion svc).

Definition validate_credentials (r : request) : request * async_reaction aws_error :=
    if needs_credentials then
      let '(expired, res) := getCredentials r in
      let r := r {{ credentials_expired := expired }} in
      (match res with
       | Throw err => set_error (Some (util_error (clock r) err (ObjectOptions
           [(js "code", JStr (js "CredentialsError"));
            (js "message", JStr (js "Missing credentials in config, if using AWS_CONFIG_FILE, set AWS_SDK_LOAD_CONFIG=1"))]))) r
       | Ok _ => r
       end, CallsBack None)
    else (r, CallsBack None).

Definition config_error (r : request) (message : jsstr) : aws_error :=
    fresh_error r [] [(js "code", JStr (js "ConfigError")); (js "message", JStr message)].

Definition validate_region (r : request) : request :=
    if isGlobalEndpoint svc then r
    else if negb (truthy (cfg_region svc)) then
      set_error (Some (config_error r (js "Missing region in config"))) r
    else if negb (dnsHost (to_string (cfg_region svc))) then
      set_error (Some (config_error r (js "Invalid region in config"))) r
    else r.

Definition build_idempotency_tokens (r : request) : request :=
    match operations svc with
    | Some (Some op) =>
      match idempotentMembers op with
      | [] => r
      | members =>
        r {{ params := (foldl (λ (ip : nat * jsobj) m,
               if truthy (obj_prop ip.2 m) then (S ip.1, ip.2)
               else (S ip.1, obj_set m (JStr (uuid_v4 r ip.1)) ip.2)) (0%nat, params r) members).2 }}
      end
    | _ => r
    end.

Definition validate_parameters (r : request) : request * option aws_error :=
    match operations svc with
    | None => (r, None)
    | Some None => (r, Some (TypeError (js "Cannot read properties of undefined (reading 'input')")))
    | Some (Some _) => (r, validateParams (params r))
    end.

Definition compute_sha256 (r : request) : request * async_reaction aws_error :=
    let r := haltHandlersOnError r in
    let authtype := getOperationAuthtype svc in
    match operations svc with
    | None => (r, NeverCalls)
    | Some _ =>
      if negb needs_credentials && negb (given (Some authtype)) then (r, CallsBack None)
      else
        match getSignerClass svc with
        | Throw e => (r, Raises e)
        | Ok SignerV4 =>
          if includes (js "unsigned-body") authtype then
            (r {{ httpRequest ::= set_header (js "X-Amz-Content-Sha256") (JStr (js "UNSIGNED-PAYLOAD")) }},
             CallsBack None)
          else
            match computeSha256 (hr_body (httpRequest r)) with
            | Throw err => (r, CallsBack (Some err))
            | Ok sha => (r {{ httpRequest ::= set_header (js "X-Amz-Content-Sha256") (JStr sha) }},
                         CallsBack None)
            end
        | Ok _ => (r, CallsBack None)
        end
    end.

  (** The body is a string, whose length in bytes is always known. *)
Definition set_content_length (r : request) : request :=
    match obj_prop (hr_headers (httpRequest r)) (js "Content-Length") with
    | JUndef =>
      r {{ httpRequest ::= set_header (js "Content-Length")
             (JNum (num_of_Z (Z.of_nat (length (utf8 (hr_body (httpRequest r))))))) }}
    | _ => r
    end.

Definition set_http_host (r : request) : request :=
    r {{ httpRequest ::= set_header (js "Host") (JStr (host (hr_endpoint (httpRequest r)))) }}.

Definition restart (r : request) : request :=
    match get_error r with
    | None => r
    | Some err =>
      if negb (truthy (err_get err (js "retryable"))) then r
      else
        let r := r {{ httpRequest := new_HttpRequest (svc_agent svc) (svc_endpoint svc) (svc_region svc) }} in
        if below (retryCount (resp r)) (cfg_maxRetries svc)
        then r {{ resp -> retryCount ::= Z.succ }}
        else set_error None r
    end.

Definition sign (r : request) : request * async_reaction aws_error :=
    if negb needs_credentials && negb (given (Some (getOperationAuthtype svc))) then (r, CallsBack None)
    else
      let '(expired, res) := getCredentials r in
      let r := r {{ credentials_expired := expired }} in
      match res with
      | Throw err => (set_error (Some err) r, CallsBack None)
      | Ok credentials =>
        let date := getSkewCorrectedDate r in
        match getSignerClass svc with
        | Throw e => (set_error (Some e) r, CallsBack None)
        | Ok SignerClass =>
          let r := r {{ httpRequest ::= λ h, delete_header (js "X-Amz-Date")
                          (delete_header (js "Date") (delete_header (js "Authorization") h)) }} in
          match addAuthorization SignerClass credentials date (httpRequest r) with
          | Ok h => (r {{ httpRequest := h; signedAt := Some date }}, CallsBack None)
          | Throw e => (set_error (Some e) r, CallsBack None)
          end
        end
      end.

Definition validate_response (r : request) : request :=
    if successfulResponse (hs_statusCode (httpResponse (resp r)))
    then r {{ resp -> data := JObj []; resp -> error := None }}
    else r {{ resp -> data := JNull;
              resp -> error := Some (fresh_error r [] [(js "code", JStr (js "UnknownError"));
                                 (js "message", JStr (js "An unknown error occurred."))]) }}.

Definition http_headers (statusCode : Z) (headers : jsobj) (statusMessage : jsval) (r : request)
      : request :=
    let r := r {{ resp -> httpResponse :=
      HttpResponse (Some statusCode) statusMessage headers (Some []) (Some []) (Some 0)
        (hs_streaming (httpResponse (resp r))) }} in
    let dateHeader := js_or (obj_prop headers (js "date")) (obj_prop headers (js "Date")) in
    if truthy dateHeader then
      let serverTime := Date_parse (to_string dateHeader) in
      if cfg_correctClockSkew svc && isClockSkewed serverTime r
      then applyClockOffset serverTime r else r
    else r.

Definition http_data (chunk : jsstr) (r : request) : request :=
    r {{ resp -> httpResponse -> hs_numBytes ::= option_map (λ n, n + Z.of_nat (length chunk));
         resp -> httpResponse -> hs_buffers ::= option_map (λ l, l ++ [chunk]) }}.

  (** [AWS.util.buffer.concat]. *)
Definition buffer_concat (buffers : list jsstr) : jsstr := concat buffers.

Definition http_done (r : request) : request :=
    let r :=
      match hs_buffers (httpResponse (resp r)) with
      | Some ((_ :: _) as buffers) =>
        r {{ resp -> httpResponse -> hs_body := Some (buffer_concat buffers) }}
      | _ => r
      end in
    r {{ resp -> httpResponse -> hs_numBytes := None; resp -> httpResponse -> hs_buffers := None }}.

  (** *** The listeners of [retry] *)

Definition finalize_error (r : request) : request * option aws_error :=
    match hs_statusCode (httpResponse (resp r)) with
    | Some code =>
      if Z.eqb code 0 then (r, None)
      else
        match get_error r with
        | None => (r, Some (TypeError (js "Cannot set properties of null (setting 'statusCode')")))
        | Some e =>
          let e := err_set (js "statusCode") (JNum (num_of_Z code)) e in
          let e := match err_get e (js "retryable") with
                   | JUndef => err_set (js "retryable") (JBool (retryableError e)) e
                   | _ => e
                   end in
          (set_error (Some e) r, None)
        end
    | None => (r, None)
    end.

Definition invalidate_credentials (r : request) : request :=
    match get_error r with
    | None => r
    | Some e =>
      if has_code e [js "RequestExpired"; js "ExpiredTokenException"; js "ExpiredToken"]
      then (upd_error (js "retryable") (JBool true) r) {{ credentials_expired := true }}
      else r
    end.

Definition expired_signature (r : request) : request :=
    match get_error r with
    | None => r
    | Some err =>
      match err_get err (js "code"), err_get err (js "message") with
      | JStr code, JStr message =>
        if includes (js "Signature") code && includes (js "expired") message
        then upd_error (js "retryable") (JBool true) r else r
      | _, _ => r
      end
    end.

Definition clock_skewed (r : request) : request :=
    match get_error r with
    | None => r
    | Some e =>
      if clockSkewError e && cfg_correctClockSkew svc
      then upd_error (js "retryable") (JBool true) r else r
    end.

Definition redirect_status (e : aws_error) : bool :=
    let status := cmp_num (err_get e (js "statusCode")) in
    num_leb (num_of_Z 300) status && num_ltb status (num_of_Z 400).

  (** The request goes to the location from now on. *)
Definition redirected (location : jsval) (r : request) : request :=
    let ep := new_Endpoint urlParse sslEnabled (to_string location) in
    let h := httpRequest r in
    let h := HttpRequest (hr_method h) (hr_path h) (hr_headers h) (hr_body h) ep (hr_region h)
               (_userAgent h) in
    r {{ httpRequest := set_header (js "Host") (JStr (host ep)) h }}.

Definition redirect (r : request) : request :=
    match get_error r with
    | None => r
    | Some e =>
      let location := obj_prop (hs_headers (httpResponse (resp r))) (js "location") in
      if redirect_status e && truthy location then
        upd_error (js "retryable") (JBool true)
          (upd_error (js "redirect") (JBool true) (redirected location r))
      else r
    end.

Definition retry_check (r : request) : request :=
    match get_error r with
    | None => r
    | Some e =>
      if truthy (err_get e (js "redirect")) && below (redirectCount (resp r)) (maxRedirects (resp r))
      then upd_error (js "retryDelay") (JNum (num_of_Z 0)) r
      else if Z.ltb (retryCount (resp r)) (maxRetries (resp r)) then
        upd_error (js "retryDelay")
          (js_or (calculateRetryDelay (random r) (retryCount (resp r)) (cfg_retryDelayOptions svc) e)
             (JNum (num_of_Z 0))) r
      else r
    end.

Definition reset_retry_state (r : request) : request * async_reaction aws_error :=
    match get_error r with
    | None => (r, CallsBack None)
    | Some e =>
      let delay := js_or (err_get e (js "retryDelay")) (JNum (num_of_Z 0)) in
      let '(r, willRetry) :=
        if truthy (err_get e (js "retryable")) && Z.ltb (retryCount (resp r)) (maxRetries (resp r))
        then (r {{ resp -> retryCount ::= Z.succ }}, true)
        else if truthy (err_get e (js "redirect")) && below (redirectCount (resp r)) (maxRedirects (resp r))
        then (r {{ resp -> redirectCount ::= Z.succ }}, true)
        else (r, false) in
      if willRetry && num_leb (num_of_Z 0) (cmp_num delay)
      then (set_error None r, CallsBack None)
      else (r, CallsBack None)
    end.

  (** *** The listeners of [CorePost] *)

Definition extract_request_id (r : request) : request :=
    let headers := hs_headers (httpResponse (resp r)) in
    let id := js_or (obj_prop headers (js "x-amz-request-id")) (obj_prop headers (js "x-amzn-requestid")) in
    let id :=
      match truthy id, data (resp r) with
      | false, JObj d =>
        let metadata := obj_prop d (js "ResponseMetadata") in
        if truthy metadata
        then match metadata with JObj m => obj_prop m (js "RequestId") | _ => JUndef end
        else id
      | _, _ => id
      end in
    let r := if truthy id then r {{ resp -> requestId := id }} else r in
    upd_error (js "requestId") id r.

Definition isDNSError (err : aws_error) : jsval :=
    match err_get err (js "errno") with
    | JStr errno => JBool (str_eqb errno (js "ENOTFOUND"))
    | JNum errno =>
      match getSystemErrorName with
      | Some f =>
        JNum (num_of_Z (array_indexOf 0
          (JBool (num_leb (num_of_Z 0) (cmp_num (JStr (f errno)))))
          [JStr (js "EAI_NONAME"); JStr (js "EAI_NODATA")]))
      | None => JBool false
      end
    | _ => JBool false
    end.

  (** The object form of an error, as a property of another one. *)
Definition error_value (e : aws_error) : jsval := JObj (err_enumerable e).

Definition enotfound_error (err : aws_error) (r : request) : request :=
    if networkingError err && truthy (isDNSError err) then
      let message := js "Inaccessible host: `" ++ to_string (err_get err (js "hostname")) ++
        js "'. This service may not be available in the `" ++ to_string (err_get err (js "region")) ++
        js "' region." in
      set_error (Some (fresh_error r message
        [(js "code", JStr (js "UnknownEndpoint")); (js "region", err_get err (js "region"));
         (js "hostname", err_get err (js "hostname")); (js "retryable", JBool true);
         (js "originalError", error_value err)])) r
    else r.

  (** ** The bodies of the listeners *)

Definition returns (r : request) : request * option aws_error := (r, None).

Definition sync_body (a : event_args) (f : fn_id) (r : request) : request * option aws_error :=
    match f, a with
    | VALIDATE_REGION, _ => returns (validate_region r)
    | BUILD_IDEMPOTENCY_TOKENS, _ => returns (build_idempotency_tokens r)
    | VALIDATE_PARAMETERS, _ => validate_parameters r
    | SET_CONTENT_LENGTH, _ => returns (set_content_length r)
    | SET_HTTP_HOST, _ => returns (set_http_host r)
    | RESTART, _ => returns (restart r)
    | VALIDATE_RESPONSE, _ => returns (validate_response r)
    | HTTP_HEADERS, HeadersArgs c h m => returns (http_headers c h m r)
    | HTTP_DATA, DataArgs chunk => returns (http_data chunk r)
    | HTTP_DONE, _ => returns (http_done r)
    | FINALIZE_ERROR, _ => finalize_error r
    | INVALIDATE_CREDENTIALS, _ => returns (invalidate_credentials r)
    | EXPIRED_SIGNATURE, _ => returns (expired_signature r)
    | CLOCK_SKEWED, _ => returns (clock_skewed r)
    | REDIRECT, _ => returns (redirect r)
    | RETRY_CHECK, _ => returns (retry_check r)
    | EXTRACT_REQUEST_ID, _ => returns (extract_request_id r)
    | ENOTFOUND_ERROR, ErrorArgs err => returns (enotfound_error err r)
    | _, _ => other_sync f a r
    end.

  (** The asynchronous listeners other than SEND. *)
Definition leaf_async (a : event_args) (f : fn_id) (r : request)
      : request * async_reaction aws_error :=
    match f with
    | VALIDATE_CREDENTIALS => validate_credentials r
    | COMPUTE_SHA256 => compute_sha256 r
    | SIGN => sign r
    | RESET_RETRY_STATE => reset_retry_state r
    | _ => other_async f a r
    end.

  (** [AWS.util.error(error || new Error(), err)] between two listeners. *)
Definition chain (r : request) (error : option aws_error) (err : aws_error) : aws_error :=
    util_error (clock r) (default (new_Error [] JUndef) error) (ErrorOptions err).

  (** [request.emit(name, args, done)]: [emitEvent] over the listeners registered
      at that moment, none of which is SEND. *)
Definition emit_leaf (name : jsstr) (a : event_args) (r : request) : request * emission aws_error :=
    match (emit exec _haltHandlersOnError chain (sync_body a) (leaf_async a) name r).1 with
    | (r', DoneCallback (Some err)) => (set_error (Some err) r', DoneCallback (Some err))
    | out => out
    end.

  (** An event emitted without waiting for its end. *)
Definition notify (name : jsstr) (a : event_args) (r : request) : result aws_error request :=
    match emit_leaf name a r with
    | (r', Escapes err) => Throw err
    | (r', _) => Ok r'
    end.

Definition send_error (err : aws_error) (r : request) : request * async_reaction aws_error :=
    let err :=
      if has_code err [js "RequestAbortedError"] then err
      else util_error (clock r) err (ObjectOptions
        [(js "code", if has_code err [js "TimeoutError"] then err_get err (js "code")
                     else JStr (js "NetworkingError"));
         (js "region", hr_region (httpRequest r));
         (js "hostname", JStr (hostname (hr_endpoint (httpRequest r))));
         (js "retryable", JBool true)]) in
    let r := set_error (Some err) r in
    match emit_leaf (js "httpError") (ErrorArgs err) r with
    | (r', DoneCallback _) => (r', CallsBack None)
    | (r', Pending) => (r', NeverCalls)
    | (r', Escapes e) => (r', Raises e)
    end.

Definition event_output (r : request) : bool :=
    match operations svc with
    | Some (Some op) => hasEventOutput op
    | _ => false
    end && successfulResponse (hs_statusCode (httpResponse (resp r))).

  (** The handlers SEND attaches to the response stream, fed with its events. *)
Fixpoint receive (evs : list http_event) (r : request) : request * async_reaction aws_error :=
    let finish r :=
      match notify (js "httpDone") NoArgs r with
      | Ok r' => (r', CallsBack None)
      | Throw e => (r, Raises e)
      end in
    match evs with
    | [] => (r, NeverCalls)
    | EvHeaders c h m :: evs' =>
      match notify (js "httpHeaders") (HeadersArgs c h m) r with
      | Throw e => (r, Raises e)
      | Ok r' =>
        if negb (hs_streaming (httpResponse (resp r'))) && event_output r' then finish r'
        else receive evs' r'
      end
    | EvData chunk :: evs' =>
      if hs_streaming (httpResponse (resp r)) then receive evs' r
      else match notify (js "httpData") (DataArgs chunk) r with
           | Throw e => (r, Raises e)
           | Ok r' => receive evs' r'
           end
    | EvEnd :: evs' => if event_output r then receive evs' r else finish r
    | EvError err :: _ => send_error err r
    end.

Definition executeSend (r : request) : request * async_reaction aws_error :=
    let '(now, evs) := network r in receive evs (r {{ clock := now }}).

Definition send_listener (r : request) : request * async_reaction aws_error :=
    let r := r {{ resp -> error := None; resp -> data := JNull }} in
    let resign := match signedAt r with
                  | Some t => Z.leb (60 * 10 * 1000) (getSkewCorrectedDate r - t)
                  | None => false
                  end in
    if resign then
      match emit_leaf (js "sign") NoArgs r with
      | (r', DoneCallback (Some err)) => (r', CallsBack (Some err))
      | (r', DoneCallback None) => executeSend r'
      | (r', Pending) => (r', NeverCalls)
      | (r', Escapes e) => (r', Raises e)
      end
    else executeSend r.

Definition async_body (a : event_args) (f : fn_id) (r : request)
      : request * async_reaction aws_error :=
    match f with SEND => send_listener r | _ => leaf_async a f r end.

  (** *** The emissions of the state machine *)

Definition eventParameters (c : state) (r : request) : event_args :=
    match c, get_error r with
    | s_error, Some e => ErrorArgs e
    | _, _ => NoArgs
    end.

Definition emitted (c : state) (r : request) : request * emission aws_error :=
    let a := eventParameters c r in
    (emit exec _haltHandlersOnError chain (sync_body a) (async_body a) (state_name c) r).1.

  (** [request.runTo()], from the state the request is in. *)
Definition run_request (fuel : nat) (c : state) (r : request)
      : list state * (state * request * run_end aws_error) :=
    request_runTo get_error set_error set_halt emitted fuel None c r.
End Core.

(** ** The listener tables *)

Definition Core : list (jsstr * fn_id) * executor fn_id :=
  addNamedListeners
    [ AddAsync (js "VALIDATE_CREDENTIALS") (js "validate") VALIDATE_CREDENTIALS false;
      Add (js "VALIDATE_REGION") (js "validate") VALIDATE_REGION false;
      Add (js "BUILD_IDEMPOTENCY_TOKENS") (js "validate") BUILD_IDEMPOTENCY_TOKENS false;
      Add (js "VALIDATE_PARAMETERS") (js "validate") VALIDATE_PARAMETERS false;
      AddAsync (js "COMPUTE_SHA256") (js "afterBuild") COMPUTE_SHA256 false;
      Add (js "SET_CONTENT_LENGTH") (js "afterBuild") SET_CONTENT_LENGTH false;
      Add (js "SET_HTTP_HOST") (js "afterBuild") SET_HTTP_HOST false;
      Add (js "RESTART") (js "restart") RESTART false;
      AddAsync (js "DISCOVER_ENDPOINT") (js "sign") DISCOVER_ENDPOINT true;
      AddAsync (js "SIGN") (js "sign") SIGN false;
      Add (js "VALIDATE_RESPONSE") (js "validateResponse") VALIDATE_RESPONSE false;
      AddAsync (js "SEND") (js "send") SEND false;
      Add (js "HTTP_HEADERS") (js "httpHeaders") HTTP_HEADERS false;
      Add (js "HTTP_DATA") (js "httpData") HTTP_DATA false;
      Add (js "HTTP_DONE") (js "httpDone") HTTP_DONE false;
      Add (js "FINALIZE_ERROR") (js "retry") FINALIZE_ERROR false;
      Add (js "INVALIDATE_CREDENTIALS") (js "retry") INVALIDATE_CREDENTIALS false;
      Add (js "EXPIRED_SIGNATURE") (js "retry") EXPIRED_SIGNATURE false;
      Add (js "CLOCK_SKEWED") (js "retry") CLOCK_SKEWED false;
      Add (js "REDIRECT") (js "retry") REDIRECT false;
      Add (js "RETRY_CHECK") (js "retry") RETRY_CHECK false;
      AddAsync (js "RESET_RETRY_STATE") (js "afterRetry") RESET_RETRY_STATE false ]
    ([], new_executor []).

Definition CorePost : list (jsstr * fn_id) * executor fn_id :=
  addNamedListeners
    [ Add (js "EXTRACT_REQUEST_ID") (js "extractData") EXTRACT_REQUEST_ID false;
      Add (js "EXTRACT_REQUEST_ID") (js "extractError") EXTRACT_REQUEST_ID false;
      Add (js "ENOTFOUND_ERROR") (js "httpError") ENOTFOUND_ERROR false ]
    ([], new_executor []).

(** The table of a protocol ([Query], [Json], [Rest], ...): the three listeners
    differ in their bodies only. *)
Definition Protocol : list (jsstr * fn_id) * executor fn_id :=
  addNamedListeners
    [ Add (js "BUILD") (js "build") BUILD false;
      Add (js "EXTRACT_DATA") (js "extractData") EXTRACT_DATA false;
      Add (js "EXTRACT_ERROR") (js "extractError") EXTRACT_ERROR false ]
    ([], new_executor []).

(** The function objects marked [_isAsync] once the tables are built. *)
Definition async_marks : list fn_id := _isAsync (Core.2).

(** [addAllRequestListeners]: [AWS.events], then the three tables; without
    parameter validation its listener is removed. *)
Definition addAllRequestListeners (svc : service) (AWS_events : executor fn_id)
    (ex : executor fn_id) : executor fn_id :=
  let ex := foldl (λ ex l, addListeners (events_object l) ex) ex
              [AWS_events; Core.2; Protocol.2; CorePost.2] in
  if cfg_paramValidation svc then ex
  else removeListener (js "validate") VALIDATE_PARAMETERS ex.

(** ** Making and sending a request *)

(** The region of the HTTP request. *)
Definition request_region (svc : service) (signingRegion : option jsstr) : jsval :=
  if isGlobalEndpoint svc
  then JStr (match signingRegion with Some ((_ :: _) as s) => s | _ => js "us-east-1" end)
  else cfg_region svc.

(** [new AWS.Request(service, operation, params)] with its listeners, as
    [service.makeRequest] makes it. *)
Definition makeRequest (svc : service) (signingRegion : option jsstr) (customUserAgent : jsval)
    (AWS_events : executor fn_id) (params : jsobj) (offset now : Z) : request :=
  Request (addAllRequestListeners svc AWS_events (new_executor async_marks)) false (new_Response svc)
    (appendToUserAgent customUserAgent
       (new_HttpRequest (svc_agent svc) (svc_endpoint svc) (request_region svc signingRegion)))
    params None false offset now.

(** [request.send(callback)] and [request.promise()] up to [runTo]: the user
    agent is marked and a listener of [complete] is added. *)
Definition send (callback : option fn_id) (r : request) : request :=
  match callback with
  | Some f => r {{ httpRequest ::= appendToUserAgent (JStr (js "callback"));
                   exec ::= on (js "complete") f false }}
  | None => r
  end.
Definition promise (settle : fn_id) (r : request) : request :=
  r {{ httpRequest ::= appendToUserAgent (JStr (js "promise"));
       exec ::= on (js "complete") settle false }}.

(** How the listener of [promise] settles it. *)
Inductive settlement := Resolved (data : jsval) | Rejected (err : aws_error).
Definition promise_settlement (r : request) : settlement :=
  match get_error r with
  | Some e => Rejected e
  | None => Resolved (js_or (data (resp r)) (JObj []))
  end.

Definition toUnauthenticated (r : request) : request :=
  r {{ exec ::= λ ex, removeListener (js "sign") SIGN
                        (removeListener (js "validate") VALIDATE_CREDENTIALS ex) }}.

(** [toGet] of a [query] or [ec2] service; [buildAsGet] is the listener it adds. *)
Definition toGet (protocol : jsstr) (buildAsGet : fn_id) (r : request) : request :=
  if str_eqb protocol (js "query") || str_eqb protocol (js "ec2") then
    r {{ exec ::= λ ex, on (js "build") buildAsGet false (removeListener (js "build") buildAsGet ex) }}
  else r.

Definition buildAsGet (svc : service) (r : request) : request :=
  r {{ httpRequest ::= λ h,
    delete_header (js "Content-Type") (delete_header (js "Content-Length")
      (HttpRequest (js "GET")
         ((match ep_path (svc_endpoint svc) with Some p => p | None => js "undefined" end)
            ++ js "?" ++ hr_body h)
         (hr_headers h) [] (hr_endpoint h) (hr_region h) (_userAgent h))) }}.

Definition isPresigned (r : request) : bool :=
  match obj_get (js "presigned-expires") (hr_headers (httpRequest r)) with Some _ => true | None => false end.

(** [request.abort()], up to what it does to an HTTP stream in flight: the
    listener that reports the abortion replaces those of [validateResponse]. *)
Definition abort (addAbortedError : fn_id) (r : request) : request :=
  r {{ exec ::= λ ex, on (js "validateResponse") addAbortedError false
         (removeAllListeners (Some (js "extractError"))
           (removeAllListeners (Some (js "validateResponse")) ex)) }}.
Definition addAbortedError (r : request) : request :=
  set_error (Some (fresh_error r (js "Request aborted by user")
    [(js "code", JStr (js "RequestAbortedError")); (js "retryable", JBool false)])) r.
