(* ===== verification/RequestFrame.v ===== *)
(** * What the listeners of a request leave alone

    [FairWorld] states what the SDK relies on from its surroundings, and the
    lemmas show that under it every core listener outside the retry logic keeps
    the retry counters and the registered listeners. *)

From stdpp Require Import base gmap strings list.
From Stdlib Require Import ZArith Lia.
From coqutil Require Import Datatypes.RecordSetters.
From S2P Require Import Prelude JsValue SequentialExecutor AwsError RequestMachine Http RequestListeners.

Import DoubleBraceUpdate.
Local Open Scope Z_scope.

(** The listener that settles the promise of the request. *)
Definition SETTLE : fn_id := OtherFn 0.

(** The listeners of a request made by the SDK and sent with [promise]. *)
Definition sdk_executor (svc : service) : executor fn_id :=
  on (js "complete") SETTLE false
    (addAllRequestListeners svc (new_executor []) (new_executor async_marks)).

(** What a listener outside the retry logic leaves alone: the counters, and
    either the registered listeners or that they are [good] ones. *)
Definition same_counts (r r' : request) : Prop :=
  retryCount (resp r') = retryCount (resp r) ∧ redirectCount (resp r') = redirectCount (resp r) ∧
  maxRetries (resp r') = maxRetries (resp r) ∧ maxRedirects (resp r') = maxRedirects (resp r).
Definition untouched (r r' : request) : Prop := exec r' = exec r ∧ same_counts r r'.
Definition frame (good : executor fn_id → Prop) (r r' : request) : Prop :=
  (good (exec r) → good (exec r')) ∧ same_counts r r'.
#[global] Instance frame_preorder good : PreOrder (frame good).
Proof.
  split; [by intros r|]. unfold frame, same_counts. intros ??? (?&?&?&?&?) (?&?&?&?&?). split_and!; [auto|congruence..].
Qed.
Lemma untouched_frame good r r' : untouched r r' → frame good r r'.
Proof. unfold untouched, frame. intros [-> ?]. by split. Qed.

(** The stream of a response ends. *)
Definition ends (evs : list http_event) : Prop :=
  Exists (λ e, match e with EvEnd | EvError _ => True | _ => False end) evs.

(** What the SDK relies on: its other listeners keep to their own business and
    call back, the network answers or fails, and the promise's listener does
    not throw. *)
Class FairWorld {Creds} (w : world Creds) : Prop := {
  fair_sync f a r : untouched r (w_other_sync w f a r).1;
  fair_async f a r : untouched r (w_other_async w f a r).1;
  fair_calls f a r : ∃ err, (w_other_async w f a r).2 = CallsBack err;
  fair_network r : ends (w_network w r).2;
  fair_settle a r : (w_other_sync w SETTLE a r).2 = None;
}.

(** The events emitted inside SEND. *)
Definition inner_event (name : jsstr) : Prop :=
  name ∈ [js "httpHeaders"; js "httpData"; js "httpDone"; js "httpError"; js "sign"].

(** The same for listeners that may register or remove some of their own, as
    those of a waiter do: the [tame] ones stay within the [good] executors. *)
Class Fair {Creds} (tame : fn_id → Prop) (good : executor fn_id → Prop) (w : world Creds) : Prop := {
  keep_sync f a r : tame f → frame good r (w_other_sync w f a r).1;
  keep_async f a r : frame good r (w_other_async w f a r).1;
  keep_calls f a r : ∃ err, (w_other_async w f a r).2 = CallsBack err;
  keep_network r : ends (w_network w r).2;
  keep_settle a r : (w_other_sync w SETTLE a r).2 = None;
  inner_tame ex name f : good ex → inner_event name → f ∈ listeners name ex → tame f;
}.
Definition anyone (f : fn_id) : Prop := True.
#[global] Instance FairWorld_Fair {Creds} good (w : world Creds) : FairWorld w → Fair anyone good w.
Proof.
  intros []. split; [intros; by apply untouched_frame..|done|done|done|done].
Qed.

(** What the completion of a request needs of the registered listeners: those of
    the retry logic stand where the SDK puts them and nowhere else, and further
    listeners of [retry] keep the error. *)
Definition retry_listener_ids : list fn_id :=
  [FINALIZE_ERROR; INVALIDATE_CREDENTIALS; EXPIRED_SIGNATURE; CLOCK_SKEWED; REDIRECT; RETRY_CHECK].
Definition async_ids : list fn_id :=
  [RESET_RETRY_STATE; SEND; SIGN; DISCOVER_ENDPOINT; COMPUTE_SHA256; VALIDATE_CREDENTIALS].
Class Listening {Creds} (good : executor fn_id → Prop) (w : world Creds) : Prop := {
  good_afterRetry ex : good ex → listeners (js "afterRetry") ex = [RESET_RETRY_STATE];
  good_restart ex : good ex → listeners (js "restart") ex = [RESTART];
  good_success ex : good ex → listeners (js "success") ex = [];
  good_error ex : good ex → listeners (js "error") ex = [];
  good_complete ex : good ex → listeners (js "complete") ex = [SETTLE];
  good_build ex : good ex → listeners (js "build") ex = [BUILD];
  good_afterBuild ex : good ex → listeners (js "afterBuild") ex = [COMPUTE_SHA256; SET_CONTENT_LENGTH; SET_HTTP_HOST];
  good_retry ex : good ex → ∃ more : list nat, listeners (js "retry") ex = retry_listener_ids ++ (OtherFn <$> more) ∧
    ∀ n a r, n ∈ more → is_Some (get_error r) → is_Some (get_error (w_other_sync w (OtherFn n) a r).1);
  good_marks ex f : good ex → f ∈ _isAsync ex ↔ f ∈ async_ids;
  good_restart_only ex name : good ex → RESTART ∈ listeners name ex → name = js "restart";
  good_reset_only ex name : good ex → RESET_RETRY_STATE ∈ listeners name ex → name = js "afterRetry";
}.

(** A function stands for no other event than [name]. *)
Definition only_at (f : fn_id) (name : jsstr) (ex : executor fn_id) : Prop :=
  Forall (λ p, f ∈ p.2 → p.1 = name) (_events ex).
Lemma only_at_name f name ex n : only_at f name ex → f ∈ listeners n ex → n = name.
Proof.
  unfold only_at, listeners. intros H. destruct (obj_get n (_events ex)) as [ls|] eqn:E; [|by intros ?%not_elem_of_nil].
  apply elem_of_obj_get in E. rewrite Forall_forall in H. apply (H _ E).
Qed.

Definition on_sdk (svc : service) (ex : executor fn_id) : Prop := ex = sdk_executor svc.
#[global] Instance on_sdk_listening {Creds} svc (w : world Creds) : Listening (on_sdk svc) w.
Proof.
  unfold on_sdk, sdk_executor, addAllRequestListeners.
  split; intros ex; (intros -> || intros f ->); destruct (cfg_paramValidation svc); try reflexivity;
    try (exists []; split; [reflexivity|]; by intros ??? ?%not_elem_of_nil);
    (apply only_at_name; apply (bool_decide_unpack _); vm_compute; exact I).
Qed.

(** An operation of the API that is answered in one piece, signed with a known
    version. *)
Definition plain_operation (svc : service) : Prop :=
  match operations svc with Some (Some op) => hasEventOutput op = false | _ => False end ∧
  is_ok (getSignerClass svc) = true.

Section Frame.
  Context {Creds : Type} (svc : service) (w : world Creds).
  Context (tame : fn_id → Prop) (good : executor fn_id → Prop) `{!Fair tame good w, !Listening good w}.
  Local Abbreviation frame := (frame good).

  (** Under good listeners. *)
Definition framed (r r' : request) : Prop := good (exec r) → frame r r'.
#[local] Instance framed_preorder : PreOrder framed.
Proof.
    split; [by intros r _|]. unfold framed. intros r1 r2 r3 H12 H23 H.
    specialize (H12 H). etrans; [done|]. apply H23. destruct H12 as [H12 _]. auto.
Qed.

Lemma frame_framed r r' : frame r r' → framed r r'.
Proof. by intros H _. Qed.

Ltac frame_solve :=
    apply untouched_frame; unfold untouched, same_counts, returns, set_halt, haltHandlersOnError, upd_error, set_error, applyClockOffset;
    repeat case_match; simplify_eq/=; try done; split_and!; done.

Lemma sync_body_frame a f r : f ≠ RESTART → tame f → frame r (sync_body svc w a f r).1.
Proof.
    intros Hf Ht. destruct f; try done; try (by apply keep_sync); cbn [sync_body].
    - unfold validate_region. frame_solve.
    - unfold build_idempotency_tokens. frame_solve.
    - unfold validate_parameters. frame_solve.
    - unfold set_content_length. frame_solve.
    - unfold validate_response. frame_solve.
    - destruct a; try (by apply keep_sync). unfold http_headers. frame_solve.
    - destruct a; try (by apply keep_sync). unfold http_data. frame_solve.
    - unfold http_done. frame_solve.
    - unfold finalize_error. frame_solve.
    - unfold invalidate_credentials. frame_solve.
    - unfold expired_signature. frame_solve.
    - unfold clock_skewed. frame_solve.
    - unfold redirect, redirected. frame_solve.
    - unfold retry_check. frame_solve.
    - unfold extract_request_id. frame_solve.
    - destruct a; try (by apply keep_sync). unfold enotfound_error. frame_solve.
Qed.

Lemma leaf_async_frame a f r : f ≠ RESET_RETRY_STATE → frame r (leaf_async svc w a f r).1.
Proof.
    intros Hf. destruct f; try done; try apply keep_async; cbn [leaf_async].
    - unfold validate_credentials. frame_solve.
    - unfold compute_sha256. frame_solve.
    - unfold RequestListeners.sign. frame_solve.
Qed.

  (** The events emitted inside SEND touch nothing of the retry state. *)
Lemma inner_event_names name :
    inner_event name → name ≠ js "restart" ∧ name ≠ js "afterRetry".
Proof.
    unfold inner_event. intros H.
    repeat (apply elem_of_cons in H as [->|H]; [by split|]). by apply not_elem_of_nil in H.
Qed.

Lemma emit_leaf_frame name a r : inner_event name → framed r (emit_leaf svc w name a r).1.
Proof.
    intros Hn Hex. destruct (inner_event_names name Hn) as [H1 H2].
    pose proof (λ H, H1 (good_restart_only _ name Hex H)) as HR. pose proof (λ H, H2 (good_reset_only _ name Hex H)) as HS.
    unfold emit_leaf, emit. cbn [fst].
    pose proof (callListeners_frame exec _haltHandlersOnError chain (sync_body svc w a)
      (leaf_async svc w a) frame (listeners name (exec r)) None r) as HF.
    destruct (callListeners _ _ _ _ _ _ None r) as [r' out].
    assert (Hr : frame r r').
    { apply HF. intros l s Hl. unfold call. case_bool_decide.
      - apply leaf_async_frame. congruence.
      - destruct (sync_body svc w a l s) as [s' t] eqn:Hs.
        pose proof (sync_body_frame a l s) as Hf. rewrite Hs in Hf. apply Hf; [congruence|]. by eapply inner_tame. }
    destruct out as [[e|]| |]; [|done..]. etrans; [exact Hr|]. by split_and!.
Qed.

Lemma notify_frame name a r r' :
    inner_event name → notify svc w name a r = Ok r' → framed r r'.
Proof.
    intros Hn. unfold notify. pose proof (emit_leaf_frame name a r Hn).
    destruct (emit_leaf svc w name a r) as [r2 [| |]]; intros; simplify_eq; done.
Qed.

Lemma send_error_frame err r : framed r (send_error svc w err r).1.
Proof.
    unfold send_error.
    match goal with |- context [emit_leaf svc w ?n ?a ?r2] =>
      pose proof (emit_leaf_frame n a r2) as HF; assert (Hr2 : frame r r2) by (split_and!; done);
      destruct (emit_leaf svc w n a r2) as [r3 out] end.
    assert (Hi : inner_event (js "httpError")) by (unfold inner_event; set_solver).
    destruct out; (etrans; [by apply frame_framed|by apply HF]).
Qed.

Lemma receive_frame evs r : framed r (receive svc w evs r).1.
Proof.
    assert (Hfin : ∀ r, framed r (match notify svc w (js "httpDone") NoArgs r with
      | Ok r' => (r', CallsBack None) | Throw e => (r, Raises e) end).1).
    { intros r0. destruct (notify _ _ _ _ _) eqn:Hn; [|done].
      eapply notify_frame; [|exact Hn]. unfold inner_event. set_solver. }
    revert r. induction evs as [|ev evs IH]; intros r; cbn [receive]; [done|].
    destruct ev as [c h m|chunk| |err].
    - destruct (notify _ _ _ _ _) as [r'|e] eqn:Hn; [|done].
      transitivity r'; [eapply notify_frame; [|exact Hn]; unfold inner_event; set_solver|].
      case_match; [apply Hfin|apply IH].
    - case_match; [apply IH|]. destruct (notify _ _ _ _ _) as [r'|e] eqn:Hn; [|done].
      transitivity r'; [eapply notify_frame; [|exact Hn]; unfold inner_event; set_solver|apply IH].
    - case_match; [apply IH|apply Hfin].
    - apply send_error_frame.
Qed.

Lemma executeSend_frame r : framed r (executeSend svc w r).1.
Proof.
    unfold executeSend. destruct (w_network w r) as [now evs].
    etrans; [|apply receive_frame]. by apply frame_framed; split_and!.
Qed.

Lemma send_frame r : framed r (send_listener svc w r).1.
Proof.
    unfold send_listener. set (r1 := apply_update _ (apply_update _ r)).
    transitivity r1; [by apply frame_framed; split_and!|].
    assert (Hi : inner_event (js "sign")) by (unfold inner_event; set_solver).
    pose proof (emit_leaf_frame (js "sign") NoArgs r1 Hi) as HF. cbv zeta.
    destruct (match signedAt r1 with Some _ => _ | None => _ end); [|apply executeSend_frame].
    destruct (emit_leaf svc w (js "sign") NoArgs r1) as [r2 [[e|]| |e]]; try done.
    transitivity r2; [done|apply executeSend_frame].
Qed.
End Frame.

