(* ===== verification/RequestLiveness.v ===== *)
(** * Every request completes

    The retry accounting of the core listeners (RequestListeners) bounds the
    run of the request machine (RequestMachine): under the laws of [FairWorld]
    a request always reaches [complete], after a bounded number of attempts. *)

From stdpp Require Import base gmap strings list.
From Stdlib Require Import ZArith Lia.
From coqutil Require Import Datatypes.RecordSetters.
From S2P Require Import Prelude JsValue SequentialExecutor AwsError RequestMachine Http RequestListeners RequestFrame.

Import DoubleBraceUpdate.
Local Open Scope Z_scope.

Section Ends.
  Context {Creds : Type} (svc : service) (w : world Creds).
  Context (tame : fn_id → Prop) (good : executor fn_id → Prop) `{!Fair tame good w, !Listening good w}.
  Local Abbreviation frame := (frame good).
  Local Abbreviation framed := (framed good).
  Local Abbreviation transition := (transition get_error set_error set_halt (emitted svc w)).
  Context (Hplain : plain_operation svc).

Lemma leaf_calls a f r : ∃ err, (leaf_async svc w a f r).2 = CallsBack err.
Proof.
    destruct Hplain as [Hop Hsig].
    destruct f; try apply keep_calls; cbn [leaf_async].
    - unfold validate_credentials. repeat case_match; eexists; done.
    - unfold compute_sha256. destruct (operations svc); [|done].
      destruct (getSignerClass svc); [|done]. repeat case_match; eexists; done.
    - unfold RequestListeners.sign. repeat case_match; eexists; done.
    - unfold reset_retry_state. repeat case_match; eexists; done.
Qed.

Lemma emit_leaf_done name a r : ∃ err, (emit_leaf svc w name a r).2 = DoneCallback err.
Proof.
    unfold emit_leaf, emit. cbn [fst].
    destruct (callListeners_serial exec _haltHandlersOnError chain (sync_body svc w a)
      (leaf_async svc w a) (listeners name (exec r)) None r) as (ran & rest & e & _ & -> & _).
    - intros l s _. unfold call. case_bool_decide; [apply leaf_calls|]. by eexists.
    - destruct e; by eexists.
Qed.

Lemma notify_ok name a r : ∃ r', notify svc w name a r = Ok r'.
Proof.
    unfold notify. destruct (emit_leaf_done name a r) as [err H].
    destruct (emit_leaf svc w name a r) as [r' out]. simpl in H. subst out. by eexists.
Qed.

Lemma no_event_output r : event_output svc r = false.
Proof.
    destruct Hplain as [Hop _]. unfold event_output.
    destruct (operations svc) as [[op|]|]; [by rewrite Hop|done..].
Qed.

Lemma receive_calls evs r : ends evs → ∃ err, (receive svc w evs r).2 = CallsBack err.
Proof.
    intros He. revert r. induction evs as [|ev evs IH]; intros r; [by inversion He|].
    cbn [receive]. destruct ev as [c h m|chunk| |err].
    - destruct (notify_ok (js "httpHeaders") (HeadersArgs c h m) r) as [r' ->].
      rewrite no_event_output, andb_false_r. apply IH. by inversion He.
    - assert (Hevs : ends evs) by by inversion He.
      case_match; [by apply IH|].
      destruct (notify_ok (js "httpData") (DataArgs chunk) r) as [r' ->]. by apply IH.
    - rewrite no_event_output.
      destruct (notify_ok (js "httpDone") NoArgs r) as [r' ->]. by eexists.
    - unfold send_error.
      match goal with |- context [emit_leaf svc w ?n ?a ?r2] =>
        destruct (emit_leaf_done n a r2) as [e2 H2];
        destruct (emit_leaf svc w n a r2) as [r3 out] end.
      simpl in H2. subst out. by eexists.
Qed.

Lemma send_calls r : ∃ err, (send_listener svc w r).2 = CallsBack err.
Proof.
    assert (Hx : ∀ r, ∃ err, (executeSend svc w r).2 = CallsBack err).
    { intros r0. unfold executeSend. pose proof (keep_network r0) as Hn.
      destruct (w_network w r0). by apply receive_calls. }
    unfold send_listener. cbv zeta. case_match; [|apply Hx].
    match goal with |- context [emit_leaf svc w ?n ?a ?r2] =>
      destruct (emit_leaf_done n a r2) as [e2 H2];
      destruct (emit_leaf svc w n a r2) as [r3 out] end.
    simpl in H2. subst out. destruct e2; [by eexists|apply Hx].
Qed.

Lemma emitted_done c r : ∃ r' err, emitted svc w c r = (r', DoneCallback err).
Proof.
    unfold emitted, emit. cbn [fst].
    destruct (callListeners_serial exec _haltHandlersOnError chain
      (sync_body svc w (eventParameters c r)) (async_body svc w (eventParameters c r))
      (listeners (state_name c) (exec r)) None r) as (ran & rest & e & _ & -> & _); [|by do 2 eexists].
    intros l s _. unfold call. case_bool_decide; [|by eexists].
    unfold async_body. destruct l; apply send_calls || apply leaf_calls.
Qed.

  (** *** The retry state at each event *)

  (** Outside [afterRetry] and [restart], an event keeps the retry state. *)
Lemma emitted_frame c r :
    good (exec r) → c ≠ s_afterRetry → c ≠ s_restart →
    (∀ l, l ∈ listeners (state_name c) (exec r) → tame l) →
    frame r (emitted svc w c r).1.
Proof.
    intros Hex H1 H2 Htame. unfold emitted, emit. cbn [fst].
    set (a := eventParameters c r).
    assert (Hl : RESTART ∉ listeners (state_name c) (exec r) ∧
                 RESET_RETRY_STATE ∉ listeners (state_name c) (exec r)).
    { split; [intros Hn%(good_restart_only _ _ Hex)|intros Hn%(good_reset_only _ _ Hex)]; by destruct c. }
    enough (HF : framed r (callListeners exec _haltHandlersOnError chain (sync_body svc w a)
      (async_body svc w a) (listeners (state_name c) (exec r)) None r).1) by exact (HF Hex).
    apply callListeners_frame; [apply framed_preorder|]. intros l s Hin. unfold call. case_bool_decide.
    - destruct (decide (l = SEND)) as [->|]; [by apply (send_frame svc w tame good)|].
      unfold async_body. destruct l; try done;
        (apply frame_framed, (leaf_async_frame svc w tame good); naive_solver).
    - apply frame_framed.
      pose proof (sync_body_frame svc w tame good a l s) as HF.
      destruct (sync_body svc w a l s) as [s' t] eqn:Hs. apply HF; naive_solver.
Qed.

Lemma emitted_afterRetry r :
    good (exec r) →
    emitted svc w s_afterRetry r = ((reset_retry_state r).1, DoneCallback None).
Proof.
    intros Hex. unfold emitted, emit. cbn [fst state_name]. rewrite (good_afterRetry _ Hex). cbn [callListeners].
    rewrite bool_decide_true by (apply (good_marks _ _ Hex); unfold async_ids; set_solver).
    cbn [async_body leaf_async]. destruct (leaf_calls NoArgs RESET_RETRY_STATE r) as [err He].
    cbn [leaf_async] in He. unfold reset_retry_state in *. repeat case_match; simplify_eq/=; done.
Qed.

Lemma emitted_restart r :
    good (exec r) →
    emitted svc w s_restart r = (restart svc r, DoneCallback None).
Proof.
    intros Hex. unfold emitted, emit. cbn [fst state_name]. rewrite (good_restart _ Hex). cbn [callListeners].
    rewrite bool_decide_false; [done|]. rewrite (good_marks _ _ Hex). unfold async_ids. set_solver.
Qed.

Lemma emitted_terminal c r :
    good (exec r) → isTerminalState c = true →
    (emitted svc w c r).2 = DoneCallback None.
Proof.
    intros Hex Hc. unfold emitted, emit. cbn [fst].
    destruct c; try done; cbn [state_name]; [by rewrite (good_success _ Hex)|by rewrite (good_error _ Hex)|].
    rewrite (good_complete _ Hex). cbn [callListeners].
    rewrite bool_decide_false by (rewrite (good_marks _ _ Hex); unfold async_ids; set_solver).
    cbn [sync_body SETTLE]. pose proof (keep_settle (eventParameters s_complete r) r) as Hf.
    unfold SETTLE in *. destruct (w_other_sync w _ _ r) as [r' t]. simpl in Hf. by subst t.
Qed.

  (** What a transition does, in terms of the emission. *)
Lemma transition_result c r :
    good (exec r) →
    ∃ r' err, transition c None r = (r', CallsBack err) ∧ err = get_error r' ∧
      let '(r1, out) := emitted svc w c (set_halt false r) in
      (out = DoneCallback None → r' = r1) ∧ frame r1 r' ∧ (is_Some (get_error r1) → is_Some err).
Proof.
    intros Hex. unfold RequestMachine.transition, emitEvent.
    destruct (emitted_done c (set_halt false r)) as (r1 & err & Hem).
    pose proof (emitted_terminal c (set_halt false r) Hex) as Hterm. rewrite Hem in *.
    simpl in Hterm. destruct err as [e|].
    - destruct (isTerminalState c); [by specialize (Hterm eq_refl)|].
      do 2 eexists. by split_and!.
    - do 2 eexists. split_and!; [done|done|done|reflexivity|done].
Qed.

Lemma transition_frame c r r' err :
    good (exec r) → c ≠ s_afterRetry → c ≠ s_restart →
    (∀ l, l ∈ listeners (state_name c) (exec r) → tame l) →
    transition c None r = (r', CallsBack err) → frame r r'.
Proof.
    intros Hex H1 H2 Htame Ht. destruct (transition_result c r Hex) as (r2 & e2 & Ht2 & _ & Hr).
    rewrite Ht in Ht2. simplify_eq.
    pose proof (emitted_frame c (set_halt false r) Hex H1 H2 Htame) as HF.
    destruct (emitted svc w c (set_halt false r)) as [r1 out]. destruct Hr as (_ & Hr & _).
    transitivity (set_halt false r); [by split_and!|]. by transitivity r1.
Qed.

End Ends.

(** A request whose error, if it has one, is not marked retryable. *)
Definition unmarked (e : aws_error) : Prop := truthy (err_get e (js "retryable")) = false.
Definition unmarked_response (r : request) : Prop := ∀ e, get_error r = Some e → unmarked e.

(** An error none of whose own properties asks for a retry: thrown by a
    listener, it stays unmarked when it is copied into an error of the request. *)
Definition final_error (e : aws_error) : Prop :=
  ∀ v, (js "retryable", v) ∈ err_enumerable e → truthy v = false.

(** What fails while the request is built fails for good: neither the listener
    of the protocol that builds it nor the digest of its body asks for a retry. *)
Definition build_final {Creds} (w : world Creds) : Prop :=
  (∀ body e, w_computeSha256 w body = Throw e → final_error e) ∧
  (∀ a r, unmarked_response r →
     unmarked_response (w_other_sync w BUILD a r).1 ∧
     ∀ e, (w_other_sync w BUILD a r).2 = Some e → final_error e).

(** A request can then not be built for ever; nor can it with a positive
    [maxRetries] in the configuration. *)
Definition restart_safe {Creds} (svc : service) (w : world Creds) : Prop :=
  (∃ n, cfg_maxRetries svc = Some n ∧ 0 < n) ∨ build_final w.

Lemma err_update_unmarked e o :
  truthy (err_get e (js "retryable")) = false →
  (∀ v, (js "retryable", v) ∈ o → truthy v = false) →
  truthy (err_get (err_update e o) (js "retryable")) = false.
Proof.
  unfold err_update. revert e. induction o as [|[k v] o IH]; intros e He Ho; [done|]. cbn [foldl fst snd].
  apply IH; [|intros; apply Ho; by right]. rewrite err_get_set.
  destruct (str_eqb_spec (js "retryable") k) as [<-|]; [|done]. apply Ho. by left.
Qed.

Lemma chain_unmarked r error e :
  (∀ p, error = Some p → unmarked p) → final_error e → unmarked (chain r error e).
Proof.
  intros Hp He. unfold unmarked, chain. rewrite util_error_merged by done. unfold merged.
  rewrite !err_get_set_if, !andb_false_r. cbn [opt_enumerable]. apply err_update_unmarked; [|exact He].
  destruct error as [p|]; [|done]. cbn [default]. rewrite err_get_set. apply (Hp p eq_refl).
Qed.

Section Completes.
  Context {Creds : Type} (svc : service) (w : world Creds).
  Context (good : executor fn_id → Prop) `{!Fair anyone good w, !Listening good w}.
  Local Abbreviation frame := (frame good).
  Local Abbreviation transition := (transition get_error set_error set_halt (emitted svc w)).
  Context (Hplain : plain_operation svc).

  (** The listeners of [retry] keep the error they are looking at. *)
Lemma emitted_retry_error r :
    good (exec r) → is_Some (get_error r) →
    is_Some (get_error (emitted svc w s_retry r).1).
Proof.
    intros Hex. unfold emitted, emit. cbn [fst state_name eventParameters].
    set (a := NoArgs). clearbody a.
    set (R := λ r r' : request, good (exec r) → good (exec r') ∧
      (is_Some (get_error r) → is_Some (get_error r'))).
    enough (HR : R r (callListeners exec _haltHandlersOnError chain (sync_body svc w a)
      (async_body svc w a) (listeners (js "retry") (exec r)) None r).1) by exact (proj2 (HR Hex)).
    apply callListeners_frame.
    { split; [by intros ??|]. unfold R. intros r1 r2 r3 H12 H23 H1.
      destruct (H12 H1) as [H2 ?]. destruct (H23 H2). auto. }
    destruct (good_retry _ Hex) as (more & -> & Hmore).
    intros l s Hl Hs.
    assert (Hsync : l ∉ _isAsync (exec s) ∧ l ≠ RESTART).
    { rewrite (good_marks _ _ Hs). apply elem_of_app in Hl as [Hl|(n & -> & _)%list_elem_of_fmap_1];
        unfold async_ids, retry_listener_ids in *; set_solver. }
    destruct Hsync as [Hsync Hr]. unfold call. rewrite bool_decide_false by done. split.
    - pose proof (sync_body_frame svc w anyone good a l s Hr I) as [H _].
      destruct (sync_body svc w a l s) as [s' t]. by apply H.
    - apply elem_of_app in Hl as [Hl|(n & -> & Hn)%list_elem_of_fmap_1]; [|cbn [sync_body]].
      2: { intros He. pose proof (Hmore n a s Hn He) as Hk. by destruct (w_other_sync w _ a s). }
      intros [e He]. clear Hs Hsync. unfold get_error in *. unfold retry_listener_ids in Hl.
      repeat (apply elem_of_cons in Hl as [->|Hl];
        [cbn [sync_body returns prod_map fst];
         unfold finalize_error, invalidate_credentials, expired_signature, clock_skewed, redirect, redirected,
           retry_check, upd_error, set_error, get_error in *; rewrite ?He;
         repeat case_match; simplify_eq/=; rewrite ?He; by eexists|]).
      by apply not_elem_of_nil in Hl.
Qed.

  (** The listeners of [build] and [afterBuild] mark no error. *)
Lemma build_listener_unmarked a l s :
    build_final w → good (exec s) → l ∈ [BUILD; COMPUTE_SHA256; SET_CONTENT_LENGTH; SET_HTTP_HOST] →
    unmarked_response s →
    let '(s', re) := call exec (sync_body svc w a) (async_body svc w a) l s in
    good (exec s') ∧ unmarked_response s' ∧ ∀ e, re = CallsBack (Some e) → final_error e.
Proof.
    intros [Hsha Hb] Hex Hl Hs. unfold call.
    assert (Hm := good_marks (w := w) _ l Hex). destruct (decide (l = COMPUTE_SHA256)) as [->|Hn].
    - rewrite bool_decide_true by (rewrite Hm; unfold async_ids; set_solver).
      cbn [async_body leaf_async]. pose proof (leaf_async_frame svc w anyone good a COMPUTE_SHA256 s ltac:(done)) as [HF _].
      cbn [leaf_async] in HF. specialize (HF Hex).
      unfold compute_sha256 in *. cbv zeta in *. repeat case_match; simplify_eq/=; (split_and!; [done|done|]); try done.
      intros e' [= ->]. by eapply Hsha.
    - rewrite bool_decide_false by (rewrite Hm; unfold async_ids; set_solver).
      assert (Hr : l ≠ RESTART) by set_solver.
      pose proof (sync_body_frame svc w anyone good a l s Hr I) as [HF _]. specialize (HF Hex).
      repeat (apply elem_of_cons in Hl as [->|Hl]; [|]); [..|by apply not_elem_of_nil in Hl]; [|done|..].
      + cbn [sync_body] in *. destruct (Hb a s Hs) as [H1 H2].
        destruct (w_other_sync w BUILD a s) as [s' t]. cbn [prod_map id fst snd] in *.
        split_and!; [done|done|]. intros e [= ->]. by apply H2.
      + cbn [sync_body returns prod_map id fst] in *. unfold set_content_length in *. case_match; by split_and!.
      + by split_and!.
Qed.

Lemma build_unmarked c r r' e :
    build_final w → c = s_build ∨ c = s_afterBuild → good (exec r) → unmarked_response r →
    transition c None r = (r', CallsBack (Some e)) → unmarked e.
Proof.
    intros Hb Hc Hex Hu. unfold RequestMachine.transition, emitEvent, emitted, emit. cbn [fst].
    set (a := eventParameters c _).
    assert (Hl : ∀ l, l ∈ listeners (state_name c) (exec r) → l ∈ [BUILD; COMPUTE_SHA256; SET_CONTENT_LENGTH; SET_HTTP_HOST]).
    { destruct Hc as [-> | ->]; cbn [state_name]; rewrite ?(good_build _ Hex), ?(good_afterBuild _ Hex); set_solver. }
    destruct (callListeners_errors exec _haltHandlersOnError chain (sync_body svc w a) (async_body svc w a)
      (λ s, good (exec s) ∧ unmarked_response s) unmarked (listeners (state_name c) (exec r)) None (set_halt false r))
      as [[_ H1] H2]; [|done|done|].
    - intros l s Hin [Hs Hus]. pose proof (build_listener_unmarked a l s Hb Hs (Hl l Hin) Hus) as HL.
      destruct (call exec _ _ l s) as [s' re]. destruct HL as (? & ? & HL). cbn [fst snd]. split; [done|].
      intros prev err -> Hp. apply chain_unmarked; [done|]. by apply HL.
    - change (exec (set_halt false r)) with (exec r).
      destruct (callListeners _ _ _ _ _ _ _ _) as [s' [[e'|]| |]]; cbn [fst snd] in *; [|intros [= <- He]; by apply H1|done|done].
      destruct Hc as [-> | ->]; cbn [isTerminalState]; intros [= _ <-]; by apply H2.
Qed.

  (** *** The budget and the invariant *)

Definition budget (r : request) : nat :=
    Z.to_nat (maxRetries (resp r) - retryCount (resp r)) +
    Z.to_nat (default 0 (maxRedirects (resp r)) - redirectCount (resp r)).

Lemma frame_budget r r' : frame r r' → budget r' = budget r.
Proof. unfold budget, RequestFrame.frame, same_counts. by intros (_ & -> & -> & -> & ->). Qed.

Definition inv (c : state) (r : request) : Prop :=
    good (exec r) ∧
    (c = s_restart ∨ c = s_retry ∨ c = s_afterRetry → is_Some (get_error r)) ∧
    ((11 ≤ height c)%nat ∨ c = s_restart → retryCount (resp r) = 0) ∧
    (c = s_restart → (∃ n, cfg_maxRetries svc = Some n ∧ 0 < n) ∨ unmarked_response r) ∧
    (c = s_build ∨ c = s_afterBuild → unmarked_response r).

Lemma reset_retry_budget r :
    is_Some (get_error r) →
    exec (reset_retry_state r).1 = exec r ∧
    (budget (reset_retry_state r).1 ≤ budget r)%nat ∧
    (get_error (reset_retry_state r).1 = None → (budget (reset_retry_state r).1 < budget r)%nat).
Proof.
    destruct r as [ex h [d er rc rd mr mrd hr ri] hq ps sa ce off ck].
    intros [e He]. unfold get_error in He. simpl in He. subst er.
    unfold reset_retry_state, get_error. cbn [resp error retryCount maxRetries redirectCount maxRedirects].
    destruct (truthy (err_get e (js "retryable")) && (rc <? mr)) eqn:C1;
      [|destruct (truthy (err_get e (js "redirect")) && below rd mrd) eqn:C2];
      cbn [andb]; try (destruct (num_leb _ _)); cbn [fst];
      unfold below in *; destruct mrd; rewrite ?andb_false_r in *; try done;
      rewrite ?andb_true_iff, ?Z.ltb_lt in *; unfold budget; simpl;
      (split_and!; [done|lia|done || (intros _; lia)]).
Qed.

Lemma restart_keeps_error r :
    inv s_restart r →
    exec (restart svc r) = exec r ∧ is_Some (get_error (restart svc r)) ∧
    (budget (restart svc r) ≤ budget r)%nat.
Proof.
    intros (_ & He & Hc & Hs & _). specialize (He (or_introl eq_refl)).
    specialize (Hc (or_intror eq_refl)). specialize (Hs eq_refl). unfold restart.
    destruct (get_error r) as [e|] eqn:Herr; [|by destruct He].
    destruct (truthy (err_get e (js "retryable"))) eqn:Hr; cbn [negb].
    - destruct Hs as [(n & -> & Hn)|Hs]; [|specialize (Hs e Herr); unfold unmarked in Hs; congruence].
      match goal with |- context [below ?a (Some n)] => change a with (retryCount (resp r)) end.
      rewrite Hc. cbn [below]. rewrite (proj2 (Z.ltb_lt 0 n) Hn). split_and!; [done|by exists e|].
      destruct r as [? ? [] ? ? ? ? ? ?]. unfold budget. simpl in *. lia.
    - split_and!; [done|by exists e|done].
Qed.

Lemma inv_next c c' r r' err :
    restart_safe svc w → inv c r → c ≠ s_afterRetry → c ≠ s_restart →
    transition c None r = (r', CallsBack err) → next c (is_none err) = Some c' → inv c' r'.
Proof.
    intros Hsafe (Hex & He & Hc & Hs & Hu) H1 H2 Ht Hn.
    pose proof (transition_frame svc w anyone good Hplain _ _ _ _ Hex H1 H2 (λ _ _, I) Ht) as (Hex' & Hrc & _).
    destruct (transition_result svc w anyone good Hplain c r Hex) as (r2 & e2 & Ht2 & -> & Hr).
    rewrite Ht in Ht2. simplify_eq. split_and!.
    - auto.
    - intros Hc'. destruct (get_error r2) eqn:E2; [by eexists|].
      clear Hu Hs Hsafe. destruct c; simplify_eq/=; try naive_solver.
      pose proof (emitted_retry_error (set_halt false r) Hex (He (or_intror (or_introl eq_refl)))) as HR.
      destruct (emitted svc w s_retry (set_halt false r)) as [r1 out].
      destruct Hr as (_ & _ & Hr). by apply Hr.
    - rewrite Hrc. intros Hc'. apply Hc. left. clear Hu Hs Hsafe.
      destruct c, (is_none (get_error r2)); simplify_eq/=; try lia; naive_solver lia.
    - intros ->. destruct Hsafe as [Hn2|Hsafe]; [by left|right]. intros e Hge. rewrite Hge in Ht.
      assert (Hc' : c = s_build ∨ c = s_afterBuild) by (destruct c, (is_none (get_error r2)); simplify_eq/=; auto).
      eapply (build_unmarked c); eauto.
    - intros Hc'. destruct (get_error r2) as [e|] eqn:Hge; [|by intros e ?; congruence].
      destruct Hc' as [-> | ->], c; simplify_eq/=.
Qed.

Lemma inv_step c r :
    restart_safe svc w → inv c r → ∃ r' err,
      transition c None r = (r', CallsBack err) ∧
      (∀ c', next c (is_none err) = Some c' → inv c' r') ∧
      (budget r' ≤ budget r)%nat ∧
      (c = s_afterRetry → err = None → (budget r' < budget r)%nat) ∧
      (c = s_restart → err ≠ None).
Proof.
    intros Hsafe Hinv. pose proof Hinv as (Hex & He & _).
    assert (Hfree : ∀ r', exec r' = exec r → inv s_sign r' ∧ inv s_error r').
    { intros r' Hr'. split; (split_and!; [by rewrite Hr'|naive_solver|simpl; naive_solver lia|done|by intros [?|?]]). }
    destruct (transition_result svc w anyone good Hplain c r Hex) as (r' & err & Ht & -> & Hr). exists r', (get_error r').
    split; [done|]. destruct (decide (c = s_afterRetry)) as [->|H1];
      [|destruct (decide (c = s_restart)) as [->|H2]].
    - rewrite (emitted_afterRetry svc w anyone good Hplain) in Hr by done. destruct Hr as [Hr _].
      rewrite (Hr eq_refl).
      destruct (reset_retry_budget (set_halt false r)) as (Hx & Hb & Hlt); [by apply He; auto|].
      split_and!; [|exact Hb|exact (λ _, Hlt)|discriminate]. intros c' Hn.
      destruct (Hfree _ Hx), (is_none _); simpl in Hn; by simplify_eq.
    - rewrite (emitted_restart svc w anyone good) in Hr by done. destruct Hr as [Hr _].
      rewrite (Hr eq_refl).
      destruct (restart_keeps_error (set_halt false r)) as (Hx & [e He'] & Hb); [exact Hinv|].
      rewrite He'. split_and!; [|exact Hb|discriminate|discriminate]. intros c' [= <-]. by apply Hfree.
    - split_and!; [|by rewrite (frame_budget r r') by (by eapply (transition_frame svc w anyone good Hplain))|done|done].
      intros c' Hn. by eapply inv_next.
Qed.

  (** A fresh request completes within its budget. *)
Lemma run_bounded fuel r :
    restart_safe svc w → good (exec r) → retryCount (resp r) = 0 → (12 * budget r + 13 ≤ fuel)%nat →
    ∃ tr r', run_request svc w fuel s_validate r = (tr, (s_complete, r', Stopped (get_error r'))) ∧
      (send_count tr ≤ 1 + budget r)%nat.
Proof.
    intros Hsafe Hex Hc Hfuel.
    destruct (request_budget get_error set_error set_halt (emitted svc w) inv budget
      (λ c s H, inv_step c s Hsafe H) fuel s_validate r) as (tr & r' & Hrun & Hs).
    - split_and!; [done|naive_solver|done|done|by intros [?|?]].
    - simpl. lia.
    - exists tr, r'. split; [exact Hrun|]. unfold sends_left in Hs. simpl in Hs. lia.
Qed.
End Completes.

(** *** The listeners of the SDK *)

Lemma sdk_listeners svc :
    listeners (js "afterRetry") (sdk_executor svc) = [RESET_RETRY_STATE] ∧
    listeners (js "restart") (sdk_executor svc) = [RESTART] ∧
    listeners (js "success") (sdk_executor svc) = [] ∧
    listeners (js "error") (sdk_executor svc) = [] ∧
    listeners (js "complete") (sdk_executor svc) = [SETTLE] ∧
    listeners (js "retry") (sdk_executor svc) =
      [FINALIZE_ERROR; INVALIDATE_CREDENTIALS; EXPIRED_SIGNATURE; CLOCK_SKEWED; REDIRECT; RETRY_CHECK].
Proof.
    unfold sdk_executor, addAllRequestListeners.
    destruct (cfg_paramValidation svc); vm_compute; split_and!; reflexivity.
Qed.

Lemma sdk_marks svc f :
    f ∈ _isAsync (sdk_executor svc) ↔
    f ∈ [RESET_RETRY_STATE; SEND; SIGN; DISCOVER_ENDPOINT; COMPUTE_SHA256; VALIDATE_CREDENTIALS].
Proof.
    unfold sdk_executor, addAllRequestListeners. destruct (cfg_paramValidation svc); reflexivity.
Qed.

(** C16. Every request completes.  In a fair world, a request of a plain
    operation sent with [promise] runs its state machine to [complete] within
    [12 * (maxRetries + maxRedirects) + 13] transitions, whatever the network,
    the credential provider, the signer and the protocol's listeners answer,
    and it goes through at most [1 + maxRetries + maxRedirects] [send] events.
    The listener that builds the request and the digest of its body must fail
    for good, with errors that are not marked retryable, unless the configured
    [maxRetries] is positive (RequestRetry shows why). *)
Theorem request_completes {Creds} (svc : service) (w : world Creds) `{!FairWorld w}
    (signingRegion : option jsstr) (customUserAgent : jsval) (params : jsobj) (offset now : Z)
    (fuel : nat) :
  plain_operation svc → restart_safe svc w →
  let bound := (Z.to_nat (numRetries (cfg_maxRetries svc)) +
                Z.to_nat (default 0%Z (cfg_maxRedirects svc)))%nat in
  (12 * bound + 13 ≤ fuel)%nat →
  ∃ tr r',
    run_request svc w fuel s_validate
      (promise SETTLE (makeRequest svc signingRegion customUserAgent (new_executor []) params offset now))
    = (tr, (s_complete, r', Stopped (get_error r'))) ∧
    (send_count tr ≤ 1 + bound)%nat.
Proof.
  intros Hplain Hsafe bound Hfuel. set (r := promise _ _).
  assert (Hb : budget r = bound) by (unfold budget; simpl; by rewrite !Z.sub_0_r).
  rewrite <- Hb in *. by apply (run_bounded svc w (on_sdk svc) Hplain).
Qed.

(** A service and a server that always answers 503. *)
Definition demo_service : service :=
  Service (Some (js "v4")) None (JStr (js "us-west-2")) false
    (Some (Some (OperationRules [] [] false))) (Some 2) (Some 10) false true (DelayOptions None None)
    (Endpoint (js "https:") (js "email.us-west-2.amazonaws.com") (js "email.us-west-2.amazonaws.com")
       443 (Some (js "/"))) JUndef (js "aws-sdk-nodejs/2.1035.0").
Definition demo_world (answer : request → list http_event) : world unit :=
  {| w_getCredentials := λ _, (false, Ok tt);
     w_addAuthorization := λ _ _ _ h, Ok h;
     w_validateParams := λ _, None;
     w_uuid_v4 := λ _ _, [];
     w_computeSha256 := λ _, Ok [];
     w_network := λ r, (clock r, answer r);
     w_getSystemErrorName := None;
     w_sslEnabled := true;
     w_urlParse := λ s, Url (js "https:") s s None None;
     w_Date_parse := λ _, None;
     w_random := λ _, NumDec 5 (-1);
     w_other_sync := λ _ _ r, (r, None);
     w_other_async := λ _ _ r, (r, CallsBack None) |}.

#[global] Instance demo_fair answer : (∀ r, ends (answer r)) → FairWorld (demo_world answer).
Proof. intros Ha. split; try done. by eexists. Qed.

(** The configuration of the SDK when the user gives none. *)
Definition default_service : service := demo_service {{ cfg_maxRetries := None }}.

Lemma demo_build_final answer : build_final (demo_world answer).
Proof. split; [done|]. intros a r Hr. by split. Qed.

Lemma request_completes_witness :
  ∃ tr r',
    run_request default_service (demo_world (λ _, [EvHeaders 503 [] JUndef; EvEnd])) 200 s_validate
      (promise SETTLE (makeRequest default_service None JUndef (new_executor []) [] 0 0))
    = (tr, (s_complete, r', Stopped (get_error r'))) ∧ (send_count tr ≤ 14)%nat.
Proof.
  assert (Hfair : FairWorld (demo_world (λ _, [EvHeaders 503 [] JUndef; EvEnd]))).
  { apply demo_fair. intros r. by right; left. }
  apply (request_completes default_service (demo_world (λ _, [EvHeaders 503 [] JUndef; EvEnd]))
    None JUndef [] 0 0 200).
  - by split.
  - right. apply demo_build_final.
  - apply Nat.leb_le. vm_compute. reflexivity.
Defined.
