(* ===== verification/RequestRetry.v ===== *)
(** * Which failures are retried

    The decisions the core listeners take when an attempt fails: which errors
    are marked retryable on [retry], when [afterRetry] sends the request again
    and whom it charges, what [restart] does with an error made while building,
    and how a DNS failure is recognised. *)

From stdpp Require Import base gmap strings list.
From Stdlib Require Import ZArith Lia.
From coqutil Require Import Datatypes.RecordSetters.
From S2P Require Import Prelude JsValue SequentialExecutor AwsError RequestMachine Http RequestListeners RequestFrame RequestLiveness.

Import DoubleBraceUpdate.
Local Open Scope Z_scope.

(** ** restart *)

Section Restart.
  Context {Creds : Type} (svc : service) (w : world Creds) `{!FairWorld w}.
  Context (Hplain : plain_operation svc).
  (** The listener that builds the request always throws the error [e], which
      is marked retryable. *)
  Context (e : aws_error) (v : jsval).
  Context (Hnd : NoDup (err_enumerable e).*1).
  Context (Hv : obj_get (js "retryable") (err_enumerable e) = Some v) (Htrue : truthy v = true).
  Context (Hbuild : ∀ a r, w_other_sync w BUILD a r = (r, Some e)).

Local Abbreviation transition := (transition get_error set_error set_halt (emitted svc w)).

Lemma chain_retryable r : err_get (chain r None e) (js "retryable") = v.
Proof.
    unfold chain. rewrite util_error_get; [cbn [opt_enumerable]; by rewrite Hv|done|done|].
    apply (bool_decide_unpack _). vm_compute. exact I.
Qed.

Lemma build_listeners : listeners (js "build") (sdk_executor svc) = [BUILD].
Proof. unfold sdk_executor, addAllRequestListeners. by destruct (cfg_paramValidation svc). Qed.

  (** [build] fails with a retryable error and changes nothing else. *)
Lemma build_fails r :
    exec r = sdk_executor svc →
    let err := chain (set_halt false r) None e in
    transition s_build None r = (set_error (Some err) (set_halt false r), CallsBack (Some err)).
Proof.
    intros Hex. unfold RequestMachine.transition, emitEvent, emitted, emit. cbn [fst state_name].
    replace (exec (set_halt false r)) with (sdk_executor svc) by done.
    rewrite build_listeners. cbn [callListeners].
    replace (exec (set_halt false r)) with (sdk_executor svc) by done.
    rewrite bool_decide_false by (intros H%sdk_marks; set_solver).
    cbn [sync_body]. rewrite Hbuild. done.
Qed.

Lemma restart_transition r :
    exec r = sdk_executor svc →
    transition s_restart None r =
    (restart svc (set_halt false r), CallsBack (get_error (restart svc (set_halt false r)))).
Proof.
    intros Hex. unfold RequestMachine.transition, emitEvent. by rewrite (emitted_restart svc w anyone (on_sdk svc)).
Qed.

Lemma restart_loop fuel r :
    exec r = sdk_executor svc → below (retryCount (resp r)) (cfg_maxRetries svc) = false →
    ∃ c r', (run_request svc w fuel s_build r).2 = (c, r', OutOfFuel).
Proof.
    revert r. induction fuel as [fuel IH] using lt_wf_ind. intros r Hex Hb.
    destruct fuel as [|[|fuel]]; [by do 2 eexists| |].
    all: unfold run_request; rewrite request_runTo_S, build_fails by done; cbn [next is_none].
    { by do 2 eexists. }
    rewrite request_runTo_S, restart_transition by done.
    set (r2 := set_error _ _). unfold restart.
    replace (get_error (set_halt false r2)) with (Some (chain (set_halt false r) None e)) by done.
    rewrite chain_retryable, Htrue. cbn [negb].
    match goal with |- context [below ?a _] => change a with (retryCount (resp r)) end.
    rewrite Hb. set (r3 := set_error None _). cbn [get_error].
    replace (get_error r3) with (@None aws_error) by done. cbn [next is_none].
    destruct (IH fuel ltac:(lia) r3 Hex Hb) as (c & r' & Hr). unfold run_request in Hr.
    destruct (request_runTo _ _ _ _ fuel None s_build r3) as [tr out]. simpl in *. subst out.
    by do 2 eexists.
Qed.

Lemma restart_gives_up fuel r :
    exec r = sdk_executor svc → below (retryCount (resp r)) (cfg_maxRetries svc) = true →
    (4 ≤ fuel)%nat →
    (run_request svc w fuel s_build r).1 = [s_build; s_restart; s_error; s_complete].
Proof.
    intros Hex Hb Hf. do 4 (destruct fuel as [|fuel]; [lia|]).
    unfold run_request. rewrite request_runTo_S, build_fails by done. cbn [next is_none].
    rewrite request_runTo_S, restart_transition by done. set (r2 := set_error _ _).
    assert (Hr3 : ∃ r3, restart svc (set_halt false r2) = r3 ∧ is_Some (get_error r3) ∧
              exec r3 = sdk_executor svc).
    { unfold restart.
      replace (get_error (set_halt false r2)) with (Some (chain (set_halt false r) None e)) by done.
      rewrite chain_retryable, Htrue. cbn [negb].
      match goal with |- context [below ?a _] => change a with (retryCount (resp r)) end.
      rewrite Hb. eexists. by split_and!. }
    destruct Hr3 as (r3 & -> & [e3 He3] & Hex3). rewrite He3.
    cbn [next is_none]. rewrite request_runTo_S.
    destruct (transition_result svc w anyone (on_sdk svc) Hplain s_error r3 Hex3) as (r4 & err4 & Ht4 & _ & _).
    rewrite Ht4. destruct (transition_frame svc w anyone (on_sdk svc) Hplain s_error r3 r4 err4) as [H4 _]; [done..|].
    replace (next s_error (is_none err4)) with (Some s_complete) by done.
    rewrite request_runTo_S.
    destruct (transition_result svc w anyone (on_sdk svc) Hplain s_complete r4) as (r5 & err5 & Ht5 & _ & _); [by apply H4|].
    by rewrite Ht5.
Qed.
End Restart.

(** C17. The retry of an error made while building is inverted.  When the
    listener that builds a request fails with a retryable error, the request
    is never built again while retries are left (it ends in [error] at once),
    and once none is left, in particular with the default configuration where
    [maxRetries] is undefined, it is built again and again for ever. *)
Theorem restart_inverted {Creds} (svc : service) (w : world Creds) `{!FairWorld w}
    (e : aws_error) (v : jsval) (r : request) (fuel : nat) :
  plain_operation svc →
  NoDup (err_enumerable e).*1 → obj_get (js "retryable") (err_enumerable e) = Some v →
  truthy v = true → (∀ a r, w_other_sync w BUILD a r = (r, Some e)) →
  exec r = sdk_executor svc →
  if below (retryCount (resp r)) (cfg_maxRetries svc) then
    (4 ≤ fuel)%nat →
    (run_request svc w fuel s_build r).1 = [s_build; s_restart; s_error; s_complete]
  else ∃ c r', (run_request svc w fuel s_build r).2 = (c, r', OutOfFuel).
Proof.
  intros Hp Hnd Hv Ht Hb Hex. destruct (below _ _) eqn:E.
  - by eapply restart_gives_up.
  - by eapply restart_loop.
Qed.

(** A builder that fails with a retryable error, with the default configuration. *)
Definition flaky : aws_error :=
  AwsErr (JStr (js "flaky")) false (JStr (js "Error")) false JUndef [(js "retryable", JBool true)].
Definition flaky_world : world unit :=
  let d := demo_world (λ _, [EvEnd]) in
  World unit (w_getCredentials d) (w_addAuthorization d) (w_validateParams d) (w_uuid_v4 d)
    (w_computeSha256 d) (w_network d) (w_getSystemErrorName d) (w_sslEnabled d) (w_urlParse d)
    (w_Date_parse d) (w_random d) (λ f _ r, (r, if bool_decide (f = BUILD) then Some flaky else None))
    (w_other_async d).
#[global] Instance flaky_fair : FairWorld flaky_world.
Proof. split; try done; [by eexists|]. intros r. by left. Qed.

Lemma restart_inverted_witness :
  ∃ c r', (run_request default_service flaky_world 1000 s_build
    (promise SETTLE (makeRequest default_service None JUndef (new_executor []) [] 0 0))).2
    = (c, r', OutOfFuel).
Proof.
  apply (restart_inverted default_service flaky_world flaky (JBool true)
    (promise SETTLE (makeRequest default_service None JUndef (new_executor []) [] 0 0)) 1000).
  - by split.
  - apply (bool_decide_unpack _). vm_compute. exact I.
  - reflexivity.
  - reflexivity.
  - done.
  - done.
Defined.

(** ** retry: which errors are marked retryable *)

(** The listeners of [retry], one after the other. *)
Definition retry_listeners {Creds} (svc : service) (w : world Creds) (r : request) : request :=
  retry_check svc w (redirect w (clock_skewed svc (expired_signature (invalidate_credentials
    (finalize_error r).1)))).

(** The conditions of the listeners, on the error after FINALIZE_ERROR. *)
Definition credentials_expired_code (e : aws_error) : bool :=
  has_code e [js "RequestExpired"; js "ExpiredTokenException"; js "ExpiredToken"].
Definition signature_expired (e : aws_error) : bool :=
  match err_get e (js "code"), err_get e (js "message") with
  | JStr code, JStr message => includes (js "Signature") code && includes (js "expired") message
  | _, _ => false
  end.
Definition marked (svc : service) (location : jsval) (e : aws_error) : bool :=
  retryableError e || credentials_expired_code e || signature_expired e ||
  (clockSkewError e && cfg_correctClockSkew svc) || (redirect_status e && truthy location).

(** The failures a retry can help with, told from the status of the response
    and the code and the message of the error: time-outs and broken
    connections, credentials that expired, throttling, faults of the server, a
    clock that is off and a resource that moved. *)
Definition retried_codes : list jsstr :=
  [js "TimeoutError"; js "NetworkingError";
   js "ExpiredTokenException"; js "ExpiredToken"; js "RequestExpired";
   js "ProvisionedThroughputExceededException"; js "Throttling"; js "ThrottlingException";
   js "RequestLimitExceeded"; js "RequestThrottled"; js "RequestThrottledException";
   js "TooManyRequestsException"; js "TransactionInProgressException"; js "EC2ThrottledException"].
Definition skew_codes : list jsstr :=
  [js "RequestTimeTooSkewed"; js "RequestExpired"; js "InvalidSignatureException";
   js "SignatureDoesNotMatch"; js "AuthFailure"; js "RequestInTheFuture"].
Definition infix_of (x s : jsstr) : Prop := ∃ a b, s = a ++ x ++ b.

Inductive worth_retrying (correctClockSkew : bool) (location : jsval) (status : Z) (code message : jsval) : Prop :=
| Worth_server : 500 ≤ status → worth_retrying correctClockSkew location status code message
| Worth_too_many : status = 429 → worth_retrying correctClockSkew location status code message
| Worth_code c : code = JStr c → c ∈ retried_codes →
    worth_retrying correctClockSkew location status code message
| Worth_signature c m : code = JStr c → message = JStr m →
    infix_of (js "Signature") c → infix_of (js "expired") m →
    worth_retrying correctClockSkew location status code message
| Worth_skew c : correctClockSkew = true → code = JStr c → c ∈ skew_codes →
    worth_retrying correctClockSkew location status code message
| Worth_moved : 300 ≤ status < 400 → truthy location = true →
    worth_retrying correctClockSkew location status code message.

Lemma has_code_iff e cs : has_code e cs = true ↔ ∃ c, err_get e (js "code") = JStr c ∧ c ∈ cs.
Proof.
  unfold has_code. rewrite existsb_exists. split.
  - intros (c & Hc & H). destruct (err_get e _) as [| | | |t| |]; try done. cbn in H.
    apply str_eqb_eq in H as <-. exists c. split; [done|]. by apply list_elem_of_In.
  - intros (c & -> & Hc). exists c. split; [by apply list_elem_of_In|]. apply str_eqb_refl.
Qed.

Lemma num_leb_of_Z a b : num_leb (num_of_Z a) (num_of_Z b) = Z.leb a b.
Proof.
  destruct (num_of_Z_value a) as (m & x & -> & Ha & Hx), (num_of_Z_value b) as (m' & y & -> & Hb & Hy).
  cbn [num_leb]. set (low := Z.min x y). rewrite <- Ha, <- Hb.
  replace x with (x - low + low) at 2 by lia. replace y with (y - low + low) at 2 by lia.
  rewrite !Z.pow_add_r, !Z.mul_assoc by lia. apply eq_true_iff_eq. rewrite !Z.leb_le.
  assert (0 < 10 ^ low) by (apply Z.pow_pos_nonneg; lia). nia.
Qed.

(** The code's conditions are the conditions above. *)
Lemma retryable_codes_iff e :
  retryableError e = true ∨ credentials_expired_code e = true ↔
  has_code e retried_codes = true ∨ err_get e (js "statusCode") = JNum (num_of_Z 429) ∨
  num_leb (num_of_Z 500) (cmp_num (err_get e (js "statusCode"))) = true.
Proof.
  transitivity (timeoutError e = true ∨ networkingError e = true ∨ expiredCredentialsError e = true ∨
    throttledError e = true ∨ num_leb (num_of_Z 500) (cmp_num (err_get e (js "statusCode"))) = true ∨
    credentials_expired_code e = true).
  { unfold retryableError. repeat case_match; naive_solver. }
  unfold throttledError. rewrite orb_true_iff, bool_decide_eq_true.
  unfold timeoutError, networkingError, expiredCredentialsError, credentials_expired_code, has_code, retried_codes.
  cbn [existsb]. rewrite !orb_true_iff. tauto.
Qed.

Lemma signature_expired_iff e :
  signature_expired e = true ↔ ∃ c m, err_get e (js "code") = JStr c ∧ err_get e (js "message") = JStr m ∧
    infix_of (js "Signature") c ∧ infix_of (js "expired") m.
Proof.
  unfold signature_expired, infix_of. split.
  - repeat case_match; try done. rewrite andb_true_iff, !includes_infix. eauto 6.
  - intros (c & m & -> & -> & H1 & H2). by rewrite andb_true_iff, !includes_infix.
Qed.

Lemma marked_iff svc location status e :
  err_get e (js "statusCode") = JNum (num_of_Z status) →
  marked svc location e = true ↔
  worth_retrying (cfg_correctClockSkew svc) location status (err_get e (js "code")) (err_get e (js "message")).
Proof.
  intros Hs. unfold marked, redirect_status, clockSkewError, num_ltb. fold skew_codes.
  rewrite !orb_true_iff, retryable_codes_iff, Hs. cbn [cmp_num].
  rewrite !andb_true_iff, negb_true_iff, !num_leb_of_Z, !Z.leb_le, Z.leb_gt, signature_expired_iff, !has_code_iff.
  split.
  - intros [[[[(c & Hc & Hin)|[H|H]]|(c & m & Hc & Hm & H1 & H2)]|[(c & Hc & Hin) Hk]]|[(H1 & _ & H2) Hl]].
    + by eapply Worth_code.
    + apply Worth_too_many, num_of_Z_inj. congruence.
    + by apply Worth_server.
    + by eapply Worth_signature.
    + by eapply Worth_skew.
    + by apply Worth_moved.
  - intros [H|H|c Hc Hin|c m Hc Hm H1 H2|c Hk Hc Hin|H Hl]; subst; [naive_solver..|]. right. split_and!; lia || done.
Qed.

(** What the listeners of [retry] after FINALIZE_ERROR look at is not what they
    change. *)
Definition same_evidence (e e' : aws_error) : Prop :=
  ∀ k, k ∈ [js "code"; js "message"; js "statusCode"] → err_get e' k = err_get e k.

Lemma same_evidence_conditions e e' :
  same_evidence e e' →
  credentials_expired_code e' = credentials_expired_code e ∧
  signature_expired e' = signature_expired e ∧
  clockSkewError e' = clockSkewError e ∧ redirect_status e' = redirect_status e.
Proof.
  intros H. unfold credentials_expired_code, signature_expired, clockSkewError, redirect_status, has_code.
  rewrite !(H (js "code")), !(H (js "message")), !(H (js "statusCode")) by set_solver. done.
Qed.

Lemma same_evidence_set e k v :
  k ∉ [js "code"; js "message"; js "statusCode"] → same_evidence e (err_set k v e).
Proof.
  intros Hk k' Hk'. rewrite err_get_set. destruct (str_eqb_spec k' k) as [->|]; done.
Qed.

(** A stage that marks the error retryable when its condition, on the response
    and the error, holds. *)
Definition stage (P : http_response → aws_error → bool) (f : request → request) : Prop :=
  ∀ r e, get_error r = Some e → ∃ e',
    get_error (f r) = Some e' ∧ same_evidence e e' ∧
    httpResponse (resp (f r)) = httpResponse (resp r) ∧
    truthy (err_get e' (js "retryable")) =
      (truthy (err_get e (js "retryable")) || P (httpResponse (resp r)) e).

Lemma stage_none f k v :
  k ∉ [js "code"; js "message"; js "statusCode"] → k ≠ js "retryable" →
  (∀ r e, get_error r = Some e → ∃ b : bool, f r = if b then upd_error k (v r) r else r) →
  stage (λ _ _, false) f.
Proof.
  intros Hk Hk' Hf r e He. destruct (Hf r e He) as [[] ->].
  - unfold upd_error. unfold get_error in He. rewrite He. exists (err_set k (v r) e).
    split_and!; [done|by apply same_evidence_set|done|].
    rewrite orb_false_r, err_get_set, (proj2 (str_eqb_neq _ k)); done.
  - exists e. split_and!; [done|by intros ?|done|by rewrite orb_false_r].
Qed.

(** The marking stages; [g] is what they change besides. *)
Lemma stage_mark (P : http_response → aws_error → bool) (f g : request → request) :
  (∀ r, httpResponse (resp (g r)) = httpResponse (resp r) ∧
        ∀ e, get_error r = Some e → ∃ e', get_error (g r) = Some e' ∧ same_evidence e e') →
  (∀ r e, get_error r = Some e →
     f r = if P (httpResponse (resp r)) e then upd_error (js "retryable") (JBool true) (g r) else r) →
  stage P f.
Proof.
  intros Hg Hf r e He. rewrite (Hf r e He). destruct (Hg r) as [Hr Hge].
  destruct (P (httpResponse (resp r)) e).
  - destruct (Hge e He) as (e' & He' & Hs). unfold upd_error, get_error in *. rewrite He'.
    exists (err_set (js "retryable") (JBool true) e'). split_and!; [done| |done|].
    + intros k Hk. rewrite <- (Hs k Hk). revert k Hk. apply same_evidence_set.
      apply (bool_decide_unpack _). vm_compute. exact I.
    + by rewrite err_get_set, str_eqb_refl, orb_true_r.
  - exists e. split_and!; [done|by intros ?|done|by rewrite orb_false_r].
Qed.

Lemma stage_compose P Q f g :
  (∀ h e e', same_evidence e e' → Q h e' = Q h e) →
  stage P f → stage Q g → stage (λ h e, P h e || Q h e) (λ r, g (f r)).
Proof.
  intros HQ Hf Hg r e He. destruct (Hf r e He) as (e1 & He1 & Hs1 & Hr1 & Ht1).
  destruct (Hg (f r) e1 He1) as (e2 & He2 & Hs2 & Hr2 & Ht2). exists e2.
  split_and!; [done| |congruence|].
  - intros k Hk. by rewrite Hs2, Hs1.
  - rewrite Ht2, Ht1, Hr1, (HQ _ e e1) by done. by rewrite orb_assoc.
Qed.

Lemma invalidate_stage : stage (λ _, credentials_expired_code) invalidate_credentials.
Proof.
  apply (stage_mark _ _ (λ r, r {{ credentials_expired := true }})).
  - intros r. split; [done|]. intros e He. exists e. split; [done|by intros ?].
  - intros r e He. unfold invalidate_credentials, credentials_expired_code. rewrite He.
    case_match; [|done]. unfold upd_error, get_error in *. simpl. rewrite He.
    destruct r as [? ? [] ? ? ? ? ? ?]. simpl in He. by subst.
Qed.

Lemma expired_signature_stage : stage (λ _, signature_expired) expired_signature.
Proof.
  apply (stage_mark _ _ id).
  - intros r. split; [done|]. intros e He. exists e. split; [done|by intros ?].
  - intros r e He. unfold expired_signature, signature_expired. rewrite He. by repeat case_match.
Qed.

Lemma clock_skewed_stage svc :
  stage (λ _ e, clockSkewError e && cfg_correctClockSkew svc) (clock_skewed svc).
Proof.
  apply (stage_mark _ _ id).
  - intros r. split; [done|]. intros e He. exists e. split; [done|by intros ?].
  - intros r e He. unfold clock_skewed. by rewrite He.
Qed.

Lemma redirect_stage {Creds} (w : world Creds) :
  stage (λ h e, redirect_status e && truthy (obj_prop (hs_headers h) (js "location"))) (redirect w).
Proof.
  apply (stage_mark _ _ (λ r, upd_error (js "redirect") (JBool true)
    (redirected w (obj_prop (hs_headers (httpResponse (resp r))) (js "location")) r))).
  - intros r. unfold upd_error, get_error.
    set (r2 := redirected _ _ _). replace (error (resp r2)) with (error (resp r)) by done.
    split; [by destruct (error (resp r))|]. intros e ->. eexists. split; [done|].
    apply same_evidence_set. apply (bool_decide_unpack _). vm_compute. exact I.
  - intros r e He. unfold redirect. by rewrite He.
Qed.

Lemma retry_check_stage {Creds} svc (w : world Creds) : stage (λ _ _, false) (retry_check svc w).
Proof.
  intros r e He. unfold retry_check. rewrite He.
  assert (Hd : ∀ v, ∃ e', get_error (upd_error (js "retryDelay") v r) = Some e' ∧ same_evidence e e' ∧
    httpResponse (resp (upd_error (js "retryDelay") v r)) = httpResponse (resp r) ∧
    truthy (err_get e' (js "retryable")) = (truthy (err_get e (js "retryable")) || false)).
  { intros v. unfold upd_error, get_error in *. rewrite He. eexists. split_and!; [done| |done|].
    - apply same_evidence_set. apply (bool_decide_unpack _). vm_compute. exact I.
    - rewrite err_get_set, orb_false_r. done. }
  case_match; [apply Hd|]. case_match; [apply Hd|].
  exists e. split_and!; [done|by intros ?|done|by rewrite orb_false_r].
Qed.

(** The error FINALIZE_ERROR leaves for a response with a status. *)
Definition finalized (code : Z) (e : aws_error) : aws_error :=
  let e := err_set (js "statusCode") (JNum (num_of_Z code)) e in
  match err_get e (js "retryable") with
  | JUndef => err_set (js "retryable") (JBool (retryableError e)) e
  | _ => e
  end.

Lemma finalize_error_spec r e code :
  get_error r = Some e → hs_statusCode (httpResponse (resp r)) = Some code → code ≠ 0 →
  finalize_error r = (set_error (Some (finalized code e)) r, None).
Proof.
  intros He Hs Hc. unfold finalize_error. rewrite Hs, He. by rewrite (proj2 (Z.eqb_neq _ _) Hc).
Qed.

(** Listeners that do not throw run in a row. *)
Lemma quiet_listeners {Creds} (svc : service) (w : world Creds) `{!FairWorld w} a ls r :
  exec r = sdk_executor svc →
  Forall (λ l, l ∉ [RESET_RETRY_STATE; SEND; SIGN; DISCOVER_ENDPOINT; COMPUTE_SHA256; VALIDATE_CREDENTIALS]
               ∧ l ≠ RESTART ∧ ∀ r, (sync_body svc w a l r).2 = None) ls →
  callListeners exec _haltHandlersOnError chain (sync_body svc w a) (async_body svc w a) ls None r
  = (foldl (λ r l, (sync_body svc w a l r).1) r ls, DoneCallback None).
Proof.
  intros Hex Hls. revert r Hex. induction Hls as [|l ls (Hl & Hr & Hq) Hls IH]; intros r Hex; [done|].
  cbn [callListeners foldl]. rewrite Hex, bool_decide_false by by rewrite sdk_marks.
  specialize (Hq r). pose proof (sync_body_frame svc w anyone (on_sdk svc) a l r Hr I) as [Hf _].
  destruct (sync_body svc w a l r) as [r' t]. simpl in *. subst t. apply IH. by apply Hf.
Qed.

Lemma retry_listeners_emitted {Creds} (svc : service) (w : world Creds) `{!FairWorld w} r e code :
  exec r = sdk_executor svc →
  get_error r = Some e → hs_statusCode (httpResponse (resp r)) = Some code → code ≠ 0 →
  emitted svc w s_retry r = (retry_listeners svc w r, DoneCallback None).
Proof.
  intros Hex He Hs Hc. unfold emitted, emit. cbn [fst state_name eventParameters]. rewrite Hex.
  destruct (sdk_listeners svc) as (_ & _ & _ & _ & _ & ->).
  cbn [callListeners]. rewrite Hex, bool_decide_false by (rewrite sdk_marks; set_solver).
  cbn [sync_body]. unfold retry_listeners. rewrite (finalize_error_spec r e code) by done.
  set (r1 := set_error (Some (finalized code e)) r).
  change (callListeners exec _haltHandlersOnError chain (sync_body svc w NoArgs) (async_body svc w NoArgs)
    [INVALIDATE_CREDENTIALS; EXPIRED_SIGNATURE; CLOCK_SKEWED; REDIRECT; RETRY_CHECK] None r1 =
    (retry_check svc w (redirect w (clock_skewed svc (expired_signature (invalidate_credentials r1)))),
     DoneCallback None)).
  rewrite quiet_listeners; try done. repeat constructor; try done; set_solver.
Qed.

(** The listeners after FINALIZE_ERROR, as one stage. *)
Lemma later_listeners_stage {Creds} (svc : service) (w : world Creds) :
  stage (λ h e, credentials_expired_code e || signature_expired e ||
                (clockSkewError e && cfg_correctClockSkew svc) ||
                (redirect_status e && truthy (obj_prop (hs_headers h) (js "location"))) || false)
    (λ r, retry_check svc w (redirect w (clock_skewed svc (expired_signature (invalidate_credentials r))))).
Proof.
  apply (stage_compose _ (λ _ _, false)
    (λ r, redirect w (clock_skewed svc (expired_signature (invalidate_credentials r)))));
    [done| |apply retry_check_stage].
  apply (stage_compose _ _ (λ r, clock_skewed svc (expired_signature (invalidate_credentials r))));
    [intros h e e' H; by destruct (same_evidence_conditions e e' H) as (_ & _ & _ & ->)|
    |apply redirect_stage].
  apply (stage_compose _ _ (λ r, expired_signature (invalidate_credentials r)));
    [intros h e e' H; by destruct (same_evidence_conditions e e' H) as (_ & _ & -> & _)|
    |apply clock_skewed_stage].
  apply (stage_compose _ _ invalidate_credentials);
    [intros h e e' H; by destruct (same_evidence_conditions e e' H) as (_ & -> & _ & _)|
    apply invalidate_stage|apply expired_signature_stage].
Qed.

(** C18. Which HTTP failures are marked for a retry.  When an attempt got a
    response with a status and an error not yet marked, the listeners of
    [retry] mark it retryable exactly when a retry can help: the status is 429
    or at least 500, the code names a time-out, a networking failure, expired
    credentials or a throttling, the code mentions a signature and the message
    that it expired, the code is one of a clock skew and the configuration
    corrects it, or the status is a redirection's and there is a location. *)
Theorem retry_classification {Creds} (svc : service) (w : world Creds) `{!FairWorld w}
    (r : request) (e : aws_error) (code : Z) :
  exec r = sdk_executor svc → get_error r = Some e →
  hs_statusCode (httpResponse (resp r)) = Some code → code ≠ 0 →
  err_get e (js "retryable") = JUndef →
  ∃ e', get_error (emitted svc w s_retry r).1 = Some e' ∧
    (truthy (err_get e' (js "retryable")) = true ↔
     worth_retrying (cfg_correctClockSkew svc)
       (obj_prop (hs_headers (httpResponse (resp r))) (js "location"))
       code (err_get e (js "code")) (err_get e (js "message"))).
Proof.
  intros Hex He Hs Hc Hr. rewrite (retry_listeners_emitted svc w r e code) by done. cbn [fst].
  unfold retry_listeners. rewrite (finalize_error_spec r e code) by done. cbn [fst].
  set (r1 := set_error (Some (finalized code e)) r). set (e1 := err_set (js "statusCode") (JNum (num_of_Z code)) e).
  assert (Hr1 : err_get e1 (js "retryable") = JUndef) by (unfold e1; by rewrite err_get_set, Hr).
  assert (Hfin : finalized code e = err_set (js "retryable") (JBool (retryableError e1)) e1).
  { unfold finalized. fold e1. by rewrite Hr1. }
  assert (Hev : same_evidence e1 (finalized code e)).
  { rewrite Hfin. apply same_evidence_set. apply (bool_decide_unpack _). vm_compute. exact I. }
  destruct (same_evidence_conditions _ _ Hev) as (H1 & H2 & H3 & H4).
  destruct (later_listeners_stage svc w r1 (finalized code e) eq_refl) as (e' & He' & _ & _ & Ht).
  exists e'. split; [exact He'|]. rewrite Ht, H1, H2, H3, H4, Hfin.
  rewrite err_get_set, str_eqb_refl. cbn [truthy].
  replace (err_get e (js "code")) with (err_get e1 (js "code")) by (unfold e1; by rewrite err_get_set).
  replace (err_get e (js "message")) with (err_get e1 (js "message")) by (unfold e1; by rewrite err_get_set).
  rewrite <- marked_iff by (unfold e1; by rewrite err_get_set). unfold marked.
  by rewrite !orb_false_r, !orb_assoc.
Qed.

(** A throttled request. *)
Definition throttled_request : request :=
  let r := promise SETTLE (makeRequest demo_service None JUndef (new_executor []) [] 0 0) in
  set_error (Some (fresh_error r [] [(js "code", JStr (js "Throttling"))]))
    (http_headers demo_service (demo_world (λ _, [EvEnd])) 400 [] JUndef r).

Lemma retry_classification_witness :
  ∃ e', get_error (emitted demo_service (demo_world (λ _, [EvEnd])) s_retry throttled_request).1 = Some e' ∧
    truthy (err_get e' (js "retryable")) = true.
Proof.
  assert (Hf : FairWorld (demo_world (λ _, [EvEnd]))) by (apply demo_fair; intros r; by left).
  destruct (retry_classification demo_service (demo_world (λ _, [EvEnd])) throttled_request
    (default flaky (get_error throttled_request)) 400) as (e' & He' & Ht).
  - reflexivity.
  - vm_compute. reflexivity.
  - vm_compute. reflexivity.
  - discriminate.
  - vm_compute. reflexivity.
  - exists e'. split; [exact He'|]. apply Ht. apply (Worth_code _ _ _ _ _ (js "Throttling")).
    + reflexivity.
    + apply (bool_decide_unpack _). vm_compute. exact I.
Defined.

(** ** afterRetry: whether to send again, and at whose charge *)

(** RESET_RETRY_STATE clears the error, so that the request is sent again,
    exactly when the error is retryable and a retry is left or is a redirection
    and a redirect is left, and its delay is not negative.  It charges one
    counter: the retries whenever the error is retryable and one is left, the
    redirects otherwise. *)
Theorem retry_decision (r : request) (e : aws_error) :
  get_error r = Some e →
  let may_retry := truthy (err_get e (js "retryable")) && (retryCount (resp r) <? maxRetries (resp r)) in
  let may_redirect := truthy (err_get e (js "redirect")) &&
                      below (redirectCount (resp r)) (maxRedirects (resp r)) in
  let delay := js_or (err_get e (js "retryDelay")) (JNum (num_of_Z 0)) in
  let r' := (reset_retry_state r).1 in
  get_error r' = (if (may_retry || may_redirect) && num_leb (num_of_Z 0) (cmp_num delay)
                  then None else Some e) ∧
  retryCount (resp r') = retryCount (resp r) + (if may_retry then 1 else 0) ∧
  redirectCount (resp r') = redirectCount (resp r) + (if may_retry then 0 else if may_redirect then 1 else 0).
Proof.
  intros He. unfold reset_retry_state. rewrite He. cbv zeta.
  destruct (truthy (err_get e (js "retryable")) && _) eqn:C1;
    [|destruct (truthy (err_get e (js "redirect")) && _) eqn:C2];
    cbn [orb andb]; try destruct (num_leb _ _); cbn [fst];
    (split_and!; [done || (by rewrite <- He)| |]; simpl; try done;
     destruct r as [? ? [] ? ? ? ? ? ?]; simpl; lia).
Qed.

Lemma retry_decision_witness :
  get_error (reset_retry_state (upd_error (js "retryable") (JBool true) throttled_request)).1 = None.
Proof.
  destruct (retry_decision (upd_error (js "retryable") (JBool true) throttled_request)
    (default flaky (get_error (upd_error (js "retryable") (JBool true) throttled_request))))
    as (H & _ & _); [vm_compute; reflexivity|].
  rewrite H. vm_compute. reflexivity.
Defined.

(** A redirection is charged to the retries as long as one is left, although
    it is bounded by [maxRedirects]: a server that redirects for ever is
    followed [maxRetries + maxRedirects] times, 12 times where [maxRedirects]
    is 10. *)
Theorem redirects_exceed_maxRedirects :
  let location := [(js "location", JStr (js "https://elsewhere.example/"))] in
  let w := demo_world (λ _, [EvHeaders 301 location JUndef; EvEnd]) in
  let run := run_request demo_service w 200 s_validate
    (promise SETTLE (makeRequest demo_service None JUndef (new_executor []) [] 0 0)) in
  cfg_maxRetries demo_service = Some 2 ∧ cfg_maxRedirects demo_service = Some 10 ∧
  send_count run.1 = 13%nat ∧ run.2.2 = Stopped (get_error run.2.1.2).
Proof. vm_compute. split_and!; reflexivity. Qed.

(** ** httpError: what counts as a DNS failure *)

(** ENOTFOUND_ERROR takes every networking error whose [errno] is a number
    for a DNS failure, whatever the system's name of that number is: the
    comparison with the two names is made inside the argument of [indexOf], so
    its result is always the truthy -1.  The response's error becomes
    [UnknownEndpoint]. *)
Theorem any_errno_is_dns_failure {Creds} (w : world Creds) (name : jsnum → jsstr)
    (err : aws_error) (errno : jsnum) (r : request) :
  w_getSystemErrorName w = Some name →
  err_get err (js "code") = JStr (js "NetworkingError") →
  err_get err (js "errno") = JNum errno →
  isDNSError w err = JNum (num_of_Z (-1)) ∧
  ∃ e, get_error (enotfound_error w err r) = Some e ∧
    err_get e (js "code") = JStr (js "UnknownEndpoint") ∧ err_get e (js "retryable") = JBool true.
Proof.
  intros Hname Hcode Herr.
  assert (Hdns : isDNSError w err = JNum (num_of_Z (-1))).
  { unfold isDNSError. rewrite Herr, Hname. reflexivity. }
  split; [done|]. unfold enotfound_error. rewrite Hdns.
  replace (networkingError err) with true.
  2: { unfold networkingError, has_code. cbn [existsb]. rewrite Hcode. reflexivity. }
  replace (truthy (JNum (num_of_Z (-1)))) with true by reflexivity. cbn [andb].
  eexists. split; [reflexivity|]. unfold fresh_error.
  set (o := [_; _; _; _; _]).
  assert (Hnd : NoDup (own_props o).*1).
  { rewrite own_props_perm. apply (bool_decide_unpack _). vm_compute. exact I. }
  split; [by rewrite util_error_code|].
  rewrite util_error_get; [|done|done|apply (bool_decide_unpack _); vm_compute; exact I].
  cbn [opt_enumerable]. by rewrite (obj_get_perm _ (own_props o) o Hnd (own_props_perm o)).
Qed.

(** A refused connection (errno -111) is reported as an unknown endpoint. *)
Lemma any_errno_is_dns_failure_witness :
  let w := World unit (λ _, (false, Ok tt)) (λ _ _ _ h, Ok h) (λ _, None) (λ _ _, []) (λ _, Ok [])
    (λ r, (0, [EvEnd])) (Some (λ _, js "ECONNREFUSED")) true (λ s, Url [] s s None None) (λ _, None)
    (λ _, NumDec 0 0) (λ _ _ r, (r, None)) (λ _ _ r, (r, CallsBack None)) in
  let err := AwsErr (JStr (js "connect ECONNREFUSED")) true (JStr (js "Error")) true JUndef
    [(js "code", JStr (js "NetworkingError")); (js "errno", JNum (num_of_Z (-111)))] in
  ∃ e, get_error (enotfound_error w err throttled_request) = Some e ∧
       err_get e (js "code") = JStr (js "UnknownEndpoint").
Proof.
  intros w err.
  destruct (any_errno_is_dns_failure w (λ _, js "ECONNREFUSED") err (num_of_Z (-111)) throttled_request)
    as (_ & e & He & Hc & _); [reflexivity..|].
  exists e. split; [exact He|exact Hc].
Defined.
