(* ===== verification/SignerV4.v ===== *)
(** * Signature version 4

    [AWS.Signers.V4] (dist/index.js 25689-25905) and the cache of signing keys
    it uses (25911-26016).  The two digests of Node's crypto module are the
    interface [Crypto]; the encodings of their results and everything they are
    applied to are defined here.  A signer works on the HTTP request it was
    made for, which is the state of its operations. *)

From stdpp Require Import base strings list sorting.
From Stdlib Require Import ZArith Lia.
From S2P Require Import Prelude JsValue Json JsText UriUtil JsDate AwsError Http RequestListeners.

Local Open Scope Z_scope.

(** ** Digests *)

(** HMAC-SHA256 and SHA-256 on bytes. *)
Class Crypto := {
  hmac_sha256 : list Z → list Z → list Z;
  sha256_bytes : list Z → list Z;
}.

(** [digest('hex')] and [digest('base64')]. *)
Definition hex_bytes (l : list Z) : jsstr := flat_map (λ b, [digit_unit (b / 16); digit_unit (b mod 16)]) l.

Definition base64_unit (d : Z) : Z :=
  if Z.ltb d 26 then 65 + d else if Z.ltb d 52 then 71 + d else if Z.ltb d 62 then d - 4
  else if Z.eqb d 62 then 43 else 47.
Fixpoint base64_bytes (l : list Z) : jsstr :=
  match l with
  | a :: b :: c :: l =>
    base64_unit (a / 4) :: base64_unit (a mod 4 * 16 + b / 16) ::
    base64_unit (b mod 16 * 4 + c / 64) :: base64_unit (c mod 64) :: base64_bytes l
  | [a; b] => [base64_unit (a / 4); base64_unit (a mod 4 * 16 + b / 16); base64_unit (b mod 16 * 4); 61]
  | [a] => [base64_unit (a / 4); base64_unit (a mod 4 * 16); 61; 61]
  | [] => []
  end.

(** ** Signers *)

Record credentials := Credentials {
  cr_accessKeyId : jsstr;
  cr_secretAccessKey : jsstr;
  cr_sessionToken : option jsstr;
}.

Record v4_signer := V4 {
  serviceName : jsstr;
  signatureCache : bool;
  v4_operation : jsval;
  v4_signatureVersion : jsval;
}.

(** [new V4(request, serviceName, options)]. *)
Definition new_V4 (serviceName : jsstr) (options : jsobj) : v4_signer :=
  V4 serviceName
    (match obj_prop options (js "signatureCache") with JBool b => b | _ => true end)
    (obj_prop options (js "operation")) (obj_prop options (js "signatureVersion")).

Definition expiresHeader : jsstr := js "presigned-expires".
Definition algorithm : jsstr := js "AWS4-HMAC-SHA256".
Definition v4Identifier : jsstr := js "aws4_request".

Definition unsignableHeaders : list jsstr :=
  [js "authorization"; js "content-type"; js "content-length"; js "user-agent"; expiresHeader;
   js "expect"; js "x-amzn-trace-id"].

Definition isSignableHeader (key : jsstr) : bool :=
  if Z.eqb (index_of (js "x-amz-") (to_lower key)) 0 then true
  else negb (existsb (str_eqb key) unsignableHeaders).

Definition isPresigned (r : http_request) : bool := truthy (obj_prop (hr_headers r) expiresHeader).

(** [values.replace(/\s+/g, ' ')]: [run] says that the last unit was white. *)
Fixpoint collapse_spaces (run : bool) (s : jsstr) : jsstr :=
  match s with
  | [] => []
  | c :: s =>
    if is_js_space c then if run then collapse_spaces true s else 32 :: collapse_spaces true s
    else c :: collapse_spaces false s
  end.
Definition canonicalHeaderValues (values : jsstr) : jsstr := trim (collapse_spaces false values).

(** [headers.sort] by lower-case name. *)
Definition sort_headers : list (jsstr * jsval) → list (jsstr * jsval) := sort_by (λ h, to_lower h.1).

Definition InvalidHeader (now : Z) (key : jsstr) : aws_error :=
  util_error now (new_Error (js "Header " ++ key ++ js " contains invalid value") JUndef)
    (ObjectOptions [(js "code", JStr (js "InvalidHeader"))]).

(** The lines of [canonicalHeaders], over the sorted headers. *)
Fixpoint canonical_lines (now : Z) (headers : list (jsstr * jsval)) : result aws_error (list jsstr) :=
  match headers with
  | [] => Ok []
  | (name, value) :: headers =>
    let key := to_lower name in
    if isSignableHeader key then
      match value with
      | JUndef | JNull => Throw (InvalidHeader now key)
      | _ =>
        let* rest := canonical_lines now headers in
        Ok ((key ++ js ":" ++ canonicalHeaderValues (to_string value)) :: rest)
      end
    else canonical_lines now headers
  end.

Definition canonicalHeaders (now : Z) (r : http_request) : result aws_error jsstr :=
  let* parts := canonical_lines now (sort_headers (own_props (hr_headers r))) in
  Ok (join [10] parts).

Definition signedHeaders (r : http_request) : jsstr :=
  join (js ";") (sort_strings (List.filter isSignableHeader (to_lower <$> own_keys (hr_headers r)))).

(** An element of an array under [join]. *)
Definition join_item (v : jsval) : jsstr := match v with JUndef | JNull => [] | _ => to_string v end.

Definition createScope (date : jsstr) (region : jsval) (serviceName : jsstr) : jsstr :=
  join (js "/") [take 8 date; join_item region; serviceName; v4Identifier].

(** ** Signing keys and their cache *)

Record key_cache := KeyCache {
  cachedSecret : list (jsstr * list Z);
  cacheQueue : list jsstr;
}.
Definition maxCacheEntries : nat := 50.
Definition emptyCache : key_cache := KeyCache [] [].

(** [delete cachedSecret[cacheQueue.shift()]]. *)
Definition evict_oldest (c : key_cache) : key_cache :=
  match cacheQueue c with
  | k :: q => KeyCache (obj_del k (cachedSecret c)) q
  | [] => c
  end.

Section signer.
Context `{Crypto}.
Context (now : Z).   (* the time of errors *)
Context (queryStringParse : jsstr → jsobj).   (* [querystring.parse] of Node *)

(** [AWS.util.crypto.hmac(key, v, 'buffer')]: only strings are accepted. *)
Definition hmac (key : list Z) (v : jsval) : result aws_error (list Z) :=
  match v with
  | JStr s => Ok (hmac_sha256 key (utf8 s))
  | _ => Throw (TypeError (js "The data argument must be of type string or an instance of Buffer"))
  end.

Definition creds_identifier (cr : credentials) : jsstr :=
  base64_bytes (hmac_sha256 (utf8 (cr_secretAccessKey cr)) (utf8 (cr_accessKeyId cr))).

Definition cache_key_of (cr : credentials) (date : jsstr) (region : jsval) (service : jsstr) : jsstr :=
  join (js "_") [creds_identifier cr; date; join_item region; service].

Definition derive_key (cr : credentials) (date : jsstr) (region : jsval) (service : jsstr) :
    result aws_error (list Z) :=
  let* kDate := hmac (utf8 (js "AWS4" ++ cr_secretAccessKey cr)) (JStr date) in
  let* kRegion := hmac kDate region in
  let* kService := hmac kRegion (JStr service) in
  hmac kService (JStr v4Identifier).

(** [getSigningKey(credentials, date, region, service, shouldCache)].  A cache
    key starts with the 44 characters of a base64 digest, so the operator [in]
    does not meet the names inherited from Object.prototype. *)
Definition getSigningKey (cr : credentials) (date : jsstr) (region : jsval) (service : jsstr)
    (shouldCache : bool) (c : key_cache) : key_cache * result aws_error (list Z) :=
  let cacheKey := cache_key_of cr date region service in
  match (if shouldCache then obj_get cacheKey (cachedSecret c) else None) with
  | Some key => (c, Ok key)
  | None =>
    match derive_key cr date region service with
    | Throw e => (c, Throw e)
    | Ok signingKey =>
      if shouldCache then
        let c := KeyCache (obj_set cacheKey signingKey (cachedSecret c)) (cacheQueue c ++ [cacheKey]) in
        (if Nat.ltb maxCacheEntries (length (cacheQueue c)) then evict_oldest c else c, Ok signingKey)
      else (c, Ok signingKey)
    end
  end.

(** ** The string to sign *)

Definition hexEncodedHash (s : jsstr) : jsstr := hex_bytes (sha256_bytes (utf8 s)).

Definition hexEncodedBodyHash (sg : v4_signer) (r : http_request) : jsstr :=
  let given := obj_prop (hr_headers r) (js "X-Amz-Content-Sha256") in
  if isPresigned r && str_eqb (serviceName sg) (js "s3") && str_eqb (hr_body r) []
  then js "UNSIGNED-PAYLOAD"
  else if truthy given then join_item given
  else hexEncodedHash (hr_body r).

Definition uri_error : aws_error := AwsErr (JStr (js "URI malformed")) false (JStr (js "URIError")) false JUndef [].
Definition or_uri_error (o : option jsstr) : result aws_error jsstr :=
  match o with Some s => Ok s | None => Throw uri_error end.

Definition canonical_path (sg : v4_signer) (r : http_request) : result aws_error jsstr :=
  if negb (str_eqb (serviceName sg) (js "s3")) && negb (is_str (js "s3v4") (v4_signatureVersion sg))
  then or_uri_error (uriEscapePath (pathname r)) else Ok (pathname r).

Definition canonicalString (sg : v4_signer) (r : http_request) : result aws_error jsstr :=
  let* path := canonical_path sg r in
  let* query := or_uri_error (search queryStringParse r) in
  let* headers := canonicalHeaders now r in
  Ok (join [10] [hr_method r; path; query; headers ++ [10]; signedHeaders r; hexEncodedBodyHash sg r]).

Definition credentialString (sg : v4_signer) (r : http_request) (datetime : jsstr) : jsstr :=
  createScope (take 8 datetime) (hr_region r) (serviceName sg).

Definition stringToSign (sg : v4_signer) (r : http_request) (datetime : jsstr) : result aws_error jsstr :=
  let* canonical := canonicalString sg r in
  Ok (join [10] [js "AWS4-HMAC-SHA256"; datetime; credentialString sg r datetime; hexEncodedHash canonical]).

Definition signature (sg : v4_signer) (cr : credentials) (r : http_request) (datetime : jsstr)
    (c : key_cache) : key_cache * result aws_error jsstr :=
  let '(c, key) := getSigningKey cr (take 8 datetime) (hr_region r) (serviceName sg) (signatureCache sg) c in
  (c, let* signingKey := key in
      let* string := stringToSign sg r datetime in
      Ok (hex_bytes (hmac_sha256 signingKey (utf8 string)))).

Definition authorization (sg : v4_signer) (cr : credentials) (r : http_request) (datetime : jsstr)
    (c : key_cache) : key_cache * result aws_error jsstr :=
  let '(c, sig) := signature sg cr r datetime c in
  (c, let* sig := sig in
      Ok (join (js ", ")
        [algorithm ++ js " Credential=" ++ cr_accessKeyId cr ++ js "/" ++ credentialString sg r datetime;
         js "SignedHeaders=" ++ signedHeaders r; js "Signature=" ++ sig])).

(** ** addAuthorization *)

(** [s.replace(/[:\-]|\.\d{3}/g, '')]. *)
Fixpoint strip_punctuation (s : jsstr) : jsstr :=
  match s with
  | [] => []
  | x :: s' =>
    if Z.eqb x 58 || Z.eqb x 45 then strip_punctuation s'
    else match s' with
    | a :: b :: c :: s'' =>
      if Z.eqb x 46 && is_digit a && is_digit b && is_digit c then strip_punctuation s''
      else x :: strip_punctuation s'
    | _ => x :: strip_punctuation s'
    end
  end.
Definition amz_datetime (date : Z) : jsstr := strip_punctuation (iso8601 date).

Definition session_token (cr : credentials) : jsval :=
  match cr_sessionToken cr with Some s => JStr s | None => JUndef end.

Definition addHeaders (cr : credentials) (datetime : jsstr) (r : http_request) : http_request :=
  let r := set_header (js "X-Amz-Date") (JStr datetime) r in
  if truthy (session_token cr) then set_header (js "x-amz-security-token") (session_token cr) r else r.

(** [if (headers[name]) qs[name] = headers[name]]. *)
Definition copy_header (r : http_request) (name : jsstr) (qs : jsobj) : jsobj :=
  let v := obj_prop (hr_headers r) name in if truthy v then obj_set name v qs else qs.

(** One header of the loop that pulls in the X-Amz headers. *)
Definition presigned_header (qs : jsobj) (h : jsstr * jsval) : jsobj :=
  let '(key, value) := h in
  if str_eqb key expiresHeader then qs
  else if isSignableHeader key then
    let lowerKey := to_lower key in
    if Z.eqb (index_of (js "x-amz-meta-") lowerKey) 0 then obj_set lowerKey value qs
    else if Z.eqb (index_of (js "x-amz-") lowerKey) 0 then obj_set key value qs
    else qs
  else qs.

Definition presigned_query (sg : v4_signer) (cr : credentials) (datetime : jsstr) (r : http_request) : jsobj :=
  let qs :=
    [(js "X-Amz-Date", JStr datetime);
     (js "X-Amz-Algorithm", JStr algorithm);
     (js "X-Amz-Credential", JStr (cr_accessKeyId cr ++ js "/" ++ credentialString sg r datetime));
     (js "X-Amz-Expires", obj_prop (hr_headers r) expiresHeader);
     (js "X-Amz-SignedHeaders", JStr (signedHeaders r))] in
  let qs := if truthy (session_token cr) then obj_set (js "X-Amz-Security-Token") (session_token cr) qs else qs in
  let qs := copy_header r (js "Content-Type") qs in
  let qs := copy_header r (js "Content-MD5") qs in
  let qs := copy_header r (js "Cache-Control") qs in
  foldl presigned_header qs (own_props (hr_headers r)).

Definition set_path (path : jsstr) (r : http_request) : http_request :=
  HttpRequest (hr_method r) path (hr_headers r) (hr_body r) (hr_endpoint r) (hr_region r) (_userAgent r).

Definition updateForPresigned (sg : v4_signer) (cr : credentials) (datetime : jsstr) (r : http_request) :
    result aws_error http_request :=
  let sep := if Z.leb 0 (index_of (js "?") (hr_path r)) then js "&" else js "?" in
  let* query := or_uri_error (queryParamsToString (presigned_query sg cr datetime r)) in
  Ok (set_path (hr_path r ++ sep ++ query) r).

(** The request and the cache after the call, and the error it throws. *)
Definition addAuthorization (sg : v4_signer) (cr : credentials) (date : Z) (r : http_request) (c : key_cache) :
    http_request * key_cache * option aws_error :=
  let datetime := amz_datetime date in
  match (if isPresigned r then updateForPresigned sg cr datetime r else Ok (addHeaders cr datetime r)) with
  | Throw e => (r, c, Some e)
  | Ok r =>
    let '(c, auth) := authorization sg cr r datetime c in
    match auth with
    | Throw e => (r, c, Some e)
    | Ok auth => (set_header (js "Authorization") (JStr auth) r, c, None)
    end
  end.

End signer.

(** ** Canonical headers *)

Definition signable (h : jsstr * jsval) : bool := isSignableHeader (to_lower h.1).

(** The headers of a request that can be signed: names distinct up to case, and
    a value for each header that is signed. *)
Definition headers_ok (o : jsobj) : Prop :=
  NoDup ((λ h, to_lower h.1) <$> o) ∧
  Forall (λ h, signable h = true → h.2 ≠ JUndef ∧ h.2 ≠ JNull) o.

Definition header_line (h : jsstr * jsval) : jsstr :=
  to_lower h.1 ++ js ":" ++ canonicalHeaderValues (to_string h.2).

(** The headers that are signed, in the order they are signed in. *)
Definition signed_list (o : jsobj) : list (jsstr * jsval) := List.filter signable (sort_headers (own_props o)).

Lemma Sorted_List_filter {A} (R : A → A → Prop) f l : StronglySorted R l → StronglySorted R (List.filter f l).
Proof.
  induction 1 as [|x l Hl IH Hx]; simpl; [constructor|]. destruct (f x); [|done].
  constructor; [done|]. rewrite Forall_forall in Hx |- *.
  intros y Hy. apply Hx. apply list_elem_of_In, filter_In in Hy as [Hy _]. by apply list_elem_of_In.
Qed.

Lemma List_filter_perm {A} (f : A → bool) l k : l ≡ₚ k → List.filter f l ≡ₚ List.filter f k.
Proof.
  induction 1 as [|x l k _ IH|x y l|l k m _ IH1 _ IH2]; simpl; [done| | |by etrans].
  - destruct (f x); [by constructor|done].
  - destruct (f x), (f y); try done. apply Permutation_swap.
Qed.

Lemma List_filter_fmap {A B} (f : B → bool) (g : A → B) l :
  List.filter f (g <$> l) = g <$> List.filter (λ x, f (g x)) l.
Proof. induction l as [|x l IH]; simpl; [done|]. destruct (f (g x)); [|exact IH]. exact (f_equal (cons (g x)) IH). Qed.

Lemma sort_strings_filter f l : sort_strings (List.filter f l) = List.filter f (sort_strings l).
Proof.
  apply (StronglySorted_unique str_le); auto using sort_strings_sorted, Sorted_List_filter.
  rewrite sort_strings_perm. apply List_filter_perm. by rewrite sort_strings_perm.
Qed.

Lemma canonical_lines_ok now l :
  Forall (λ h, signable h = true → h.2 ≠ JUndef ∧ h.2 ≠ JNull) l →
  canonical_lines now l = Ok (header_line <$> List.filter signable l).
Proof.
  induction 1 as [|[name value] l Hh _ IH]; [done|]. cbn -[js]. unfold signable in *. cbn [fst snd] in *.
  destruct (isSignableHeader (to_lower name)); [|done]. destruct (Hh eq_refl).
  rewrite IH. by destruct value.
Qed.

Lemma canonicalHeaders_list now r :
  headers_ok (hr_headers r) →
  canonicalHeaders now r = Ok (join [10] (header_line <$> signed_list (hr_headers r))).
Proof.
  intros [_ Hv]. unfold canonicalHeaders. rewrite canonical_lines_ok; [done|].
  destruct (sort_by_spec (λ h : jsstr * jsval, to_lower h.1) (own_props (hr_headers r))) as [Hp _].
  unfold sort_headers. by rewrite Hp, own_props_perm.
Qed.

Lemma signedHeaders_list r :
  signedHeaders r = join (js ";") ((λ h, to_lower h.1) <$> signed_list (hr_headers r)).
Proof.
  unfold signedHeaders, signed_list, own_keys. f_equal. rewrite sort_strings_filter, <- list_fmap_compose.
  change (to_lower ∘ fst) with (λ h : jsstr * jsval, to_lower h.1).
  rewrite <- sort_by_keys. exact (List_filter_fmap isSignableHeader (λ h : jsstr * jsval, to_lower h.1) _).
Qed.

Lemma signed_list_perm o o' : headers_ok o → o ≡ₚ o' → signed_list o' = signed_list o.
Proof.
  intros [Hnd _] Hp. unfold signed_list, sort_headers. f_equal. symmetry. apply sort_by_canonical.
  - by rewrite own_props_perm.
  - by rewrite !own_props_perm.
Qed.

Lemma signed_list_spec o :
  signed_list o ≡ₚ List.filter signable o ∧
  StronglySorted (λ a b, str_le (to_lower a.1) (to_lower b.1)) (signed_list o).
Proof.
  destruct (sort_by_spec (λ h : jsstr * jsval, to_lower h.1) (own_props o)) as [Hp Hs]. split.
  - apply List_filter_perm. unfold sort_headers. by rewrite Hp, own_props_perm.
  - by apply Sorted_List_filter.
Qed.

(** The header block and the list of signed headers agree.  For a request
    whose header names are distinct up to case and whose signed headers have
    values, [canonicalHeaders] has one line per signable header, in the order
    of the lower-case names, and [signedHeaders] names exactly those headers in
    the same order; neither depends on the order the headers were set in. *)
Theorem canonical_headers_agree (now : Z) (r : http_request) :
  headers_ok (hr_headers r) →
  (∃ hs, hs ≡ₚ List.filter signable (hr_headers r) ∧
    StronglySorted (λ a b, str_le (to_lower a.1) (to_lower b.1)) hs ∧
    canonicalHeaders now r = Ok (join [10] (header_line <$> hs)) ∧
    signedHeaders r = join (js ";") ((λ h, to_lower h.1) <$> hs)) ∧
  ∀ r', hr_headers r ≡ₚ hr_headers r' →
    canonicalHeaders now r' = canonicalHeaders now r ∧ signedHeaders r' = signedHeaders r.
Proof.
  intros Hok. split.
  - exists (signed_list (hr_headers r)). destruct (signed_list_spec (hr_headers r)).
    by rewrite canonicalHeaders_list, signedHeaders_list by done.
  - intros r' Hp. assert (Hok' : headers_ok (hr_headers r')) by (unfold headers_ok; by rewrite <- Hp).
    by rewrite !canonicalHeaders_list, !signedHeaders_list, (signed_list_perm (hr_headers r)) by done.
Qed.

(** ** What the canonical string covers *)

(** What [querystring.parse] returns: strings and arrays of strings. *)
Definition query_ok (o : jsobj) : Prop :=
  Forall (λ kv, Forall unit_ok kv.1 ∧
    match kv.2 with
    | JStr s => Forall unit_ok s
    | JArr l => Forall (λ v, match v with JStr s => Forall unit_ok s | _ => False end) l
    | _ => False
    end) o.

(** Text without line breaks where the canonical string needs it: in the method,
    the path and the header names; a name has no colon and no semicolon. *)
Record plain_request (r : http_request) : Prop := {
  plain_method : 10 ∉ hr_method r;
  plain_path : 10 ∉ hr_path r ∧ Forall unit_ok (hr_path r);
  plain_names : Forall (λ h, 10 ∉ h.1 ∧ 58 ∉ h.1 ∧ 59 ∉ h.1) (hr_headers r);
  plain_headers : headers_ok (hr_headers r);
}.

Lemma uriEscape_no_newline s t : Forall unit_ok s → uriEscape s = Some t → 10 ∉ t.
Proof. intros Hu [_ ->]%uriEscape_Some; [|done]. by apply pct_encode_absent. Qed.

Lemma mapM_no_newline {A} (f : A → option jsstr) l ts :
  (∀ x t, x ∈ l → f x = Some t → 10 ∉ t) → mapM f l = Some ts → ∀ t, t ∈ ts → 10 ∉ t.
Proof.
  intros Hf Hm%mapM_Some t Ht. apply list_elem_of_lookup in Ht as [i Hi].
  destruct (Forall2_lookup_r _ _ _ _ _ Hm Hi) as (x & Hx & Hfx).
  eapply Hf; [|done]. by eapply list_elem_of_lookup_2.
Qed.

Lemma join_no_newline sep l : 10 ∉ sep → (∀ t, t ∈ l → 10 ∉ t) → 10 ∉ join sep l.
Proof. intros Hsep Hl [?|(t & Ht & ?)]%elem_of_join; [done|]. by eapply Hl. Qed.

Lemma query_item_no_newline o name t : query_ok o → query_item o name = Some t → name ∈ o.*1 → 10 ∉ t.
Proof.
  intros Hok Ht [v Hv]%obj_get_elem. unfold query_item, obj_prop in Ht. rewrite Hv in Ht.
  cbn [default from_option id] in Ht.
  assert (Hin : (name, v) ∈ o).
  { clear -Hv. induction o as [|[k w] o IH]; simpl in *; [done|]. destruct (str_eqb_spec name k).
    - simplify_eq. by left.
    - right. by apply IH. }
  unfold query_ok in Hok. rewrite Forall_forall in Hok. destruct (Hok _ Hin) as [Hn Hval]. cbn [fst snd] in *.
  destruct (uriEscape name) as [ename|] eqn:Hname; [|done].
  pose proof (uriEscape_no_newline _ _ Hn Hname) as Hen.
  assert (He : 10 ∉ js "=" ∧ 10 ∉ js "&") by js_decide. destruct He as [He Ha].
  destruct v as [| | | |s|l|]; try done; cbn [mbind option_bind] in Ht.
  - change (to_string (JStr s)) with s in Ht.
    destruct (uriEscape s) as [u|] eqn:Hu; [|done].
    assert (t = ename ++ js "=" ++ u) as -> by (symmetry; by apply Some_inj).
    rewrite !not_elem_of_app. split_and!; [done..|]. exact (uriEscape_no_newline _ _ Hval Hu).
  - destruct (mapM _ l) as [ts|] eqn:Hm; [|done].
    assert (t = ename ++ js "=" ++ join (js "&" ++ ename ++ js "=") (sort_strings ts)) as ->
      by (symmetry; by apply Some_inj).
    assert (Hts : ∀ u, u ∈ ts → 10 ∉ u).
    { eapply mapM_no_newline; [|exact Hm]. intros x u Hx Hu. rewrite Forall_forall in Hval.
      specialize (Hval x Hx). destruct x; try done. exact (uriEscape_no_newline _ _ Hval Hu). }
    rewrite !not_elem_of_app. split_and!; [done..|].
    apply join_no_newline; [by rewrite !not_elem_of_app|]. intros u. rewrite sort_strings_perm. apply Hts.
Qed.

(** ** The canonical string, taken apart *)

Lemma query_no_newline o t : query_ok o → queryParamsToString o = Some t → 10 ∉ t.
Proof.
  intros Hok. unfold queryParamsToString. destruct (mapM _ _) as [items|] eqn:Hm; [|done].
  intros [= <-]. apply join_no_newline; [js_decide|].
  eapply mapM_no_newline; [|exact Hm]. intros name t Hn Ht.
  eapply query_item_no_newline; [done|exact Ht|].
  rewrite sort_strings_perm in Hn. unfold own_keys in Hn. by rewrite own_props_perm in Hn.
Qed.

Lemma pathname_part r c : c ∈ pathname r → c ∈ hr_path r.
Proof.
  unfold pathname. rewrite <- (join_split 63 (hr_path r)) at 2.
  destruct (split_on 63 (hr_path r)) as [|p [|q ps]]; simpl; [done..|].
  rewrite elem_of_app. tauto.
Qed.

Lemma canonical_path_no_newline sg r p : plain_request r → canonical_path sg r = Ok p → 10 ∉ p.
Proof.
  intros [_ [Hn Hu] _ _]. unfold canonical_path. destruct (_ && _).
  - unfold uriEscapePath. destruct (mapM _ _) as [ps|] eqn:Hm; [|done]. intros [= <-].
    apply join_no_newline; [js_decide|]. eapply mapM_no_newline; [|exact Hm].
    intros s t Hs Ht. eapply uriEscape_no_newline; [|exact Ht].
    rewrite Forall_forall in Hu |- *. intros c Hc. apply Hu, pathname_part.
    rewrite <- (join_split 47 (pathname r)). clear -Hs Hc.
    induction (split_on 47 (pathname r)) as [|a l IH]; [by apply not_elem_of_nil in Hs|].
    destruct l as [|b l]; [by apply list_elem_of_singleton in Hs as ->|].
    rewrite join_cons by done. rewrite !elem_of_app. apply elem_of_cons in Hs as [->|Hs]; [by left|].
    right; right. by apply IH.
  - intros [= <-] Hin. by apply Hn, pathname_part.
Qed.

Lemma canonical_value_no_newline s : 10 ∉ canonicalHeaderValues s.
Proof.
  unfold canonicalHeaderValues.
  assert (Hc : ∀ b, 10 ∉ collapse_spaces b s).
  { induction s as [|c s IH]; intros run; simpl; [by apply not_elem_of_nil|].
    destruct (is_js_space c) eqn:Hc; [destruct run; [done|]|]; apply not_elem_of_cons; split; try done.
    intros <-. discriminate Hc. }
  destruct (trim_middle (collapse_spaces false s)) as (a & b & Heq & _).
  intros Hin. apply (Hc false). rewrite Heq, !elem_of_app. tauto.
Qed.

Lemma to_lower_absent c s : ¬ (97 ≤ c ≤ 122) → c ∉ s → c ∉ to_lower s.
Proof.
  intros Hc Hs (x & -> & Hx)%list_elem_of_fmap. unfold to_lower_unit in *.
  destruct (Z.leb_spec 65 x), (Z.leb_spec x 90); simpl in *; try done. lia.
Qed.

(** Lines that are not empty, up to the first empty one. *)
Lemma lines_inj (l1 l2 : list jsstr) s1 s2 :
  Forall (λ x, x ≠ []) l1 → Forall (λ x, x ≠ []) l2 →
  l1 ++ [] :: s1 = l2 ++ [] :: s2 → l1 = l2 ∧ s1 = s2.
Proof.
  intros H1. revert l2. induction H1 as [|x l1 Hx _ IH]; intros [|y l2] H2 Heq; cbn [app] in Heq.
  - by injection Heq.
  - apply Forall_cons in H2 as [Hy _]. congruence.
  - congruence.
  - apply Forall_cons in H2 as [_ H2]. injection Heq as -> Heq. by destruct (IH l2 H2 Heq) as [-> ->].
Qed.

(** A block of lines, an empty line and the rest. *)
Lemma block_inj (l1 l2 : list jsstr) s1 s2 :
  Forall (λ x, x ≠ [] ∧ 10 ∉ x) l1 → Forall (λ x, x ≠ [] ∧ 10 ∉ x) l2 →
  join [10] l1 ++ 10 :: 10 :: s1 = join [10] l2 ++ 10 :: 10 :: s2 → l1 = l2 ∧ s1 = s2.
Proof.
  intros H1 H2 Heq. apply (f_equal (split_on 10)) in Heq.
  assert (Hsplit : ∀ l s, Forall (λ x, x ≠ [] ∧ 10 ∉ x) l →
    split_on 10 (join [10] l ++ 10 :: 10 :: s) =
      l ++ [] :: match l with [] => [] :: split_on 10 s | _ => split_on 10 s end).
  { intros l s Hl. rewrite split_on_middle. destruct l as [|x l]; [done|].
    rewrite split_join; [done|done|]. eapply Forall_impl; [exact Hl|]. by intros ? [_ ?]. }
  rewrite !Hsplit in Heq by done. apply lines_inj in Heq as [-> Heq].
  - split; [done|]. rewrite <- (join_split 10 s1), <- (join_split 10 s2).
    destruct l2; simplify_eq/=; congruence.
  - eapply Forall_impl; [exact H1|]. by intros ? [? _].
  - eapply Forall_impl; [exact H2|]. by intros ? [? _].
Qed.

(** The name and the canonical value of each signed header. *)
Definition covered_headers (o : jsobj) : list (jsstr * jsstr) :=
  (λ h, (to_lower h.1, canonicalHeaderValues (to_string h.2))) <$> signed_list o.

Lemma signed_list_names r :
  plain_request r → Forall (λ h, 10 ∉ to_lower h.1 ∧ 58 ∉ to_lower h.1) (signed_list (hr_headers r)).
Proof.
  intros [_ _ Hn _]. destruct (signed_list_spec (hr_headers r)) as [Hp _]. rewrite Hp.
  rewrite Forall_forall in Hn |- *. intros h Hin.
  apply list_elem_of_In, filter_In in Hin as [Hin _]. apply list_elem_of_In in Hin.
  destruct (Hn h Hin) as (? & ? & ?). split; apply to_lower_absent; (done || lia).
Qed.

Lemma header_lines_ok r :
  plain_request r → Forall (λ x, x ≠ [] ∧ 10 ∉ x) (header_line <$> signed_list (hr_headers r)).
Proof.
  intros Hp. rewrite Forall_fmap. eapply Forall_impl; [by apply signed_list_names|].
  intros h [Hn _]. unfold header_line, compose. split; [by destruct (to_lower h.1)|].
  rewrite !not_elem_of_app. split_and!; [done|js_decide|apply canonical_value_no_newline].
Qed.

Lemma cons_inj {A} (x y : A) l k : x :: l = y :: k → x = y ∧ l = k.
Proof. by intros [= -> ->]. Qed.

Lemma header_lines_inj l1 l2 :
  Forall (λ h, 58 ∉ to_lower h.1) l1 → Forall (λ h, 58 ∉ to_lower h.1) l2 →
  header_line <$> l1 = header_line <$> l2 →
  (λ h, (to_lower h.1, canonicalHeaderValues (to_string h.2))) <$> l1 =
  (λ h, (to_lower h.1, canonicalHeaderValues (to_string h.2))) <$> l2.
Proof.
  intros H1. revert l2. induction H1 as [|h1 l1 Hh1 _ IH]; intros [|h2 l2] H2 Heq; try done.
  apply Forall_cons in H2 as [Hh2 H2].
  apply (cons_inj (header_line h1) (header_line h2)) in Heq as [Hline Heq].
  rewrite !fmap_cons, (IH l2 H2 Heq). f_equal.
  destruct (cut_inj 58 (to_lower h1.1) (to_lower h2.1) _ _ Hh1 Hh2 Hline) as [-> ->]. done.
Qed.

Section covers.
Context `{Crypto} (now : Z) (queryStringParse : jsstr → jsobj).
Hypothesis parse_ok : ∀ q, query_ok (queryStringParse q).

Lemma search_no_newline r q : search queryStringParse r = Some q → 10 ∉ q.
Proof.
  unfold search. destruct (split_on 63 (hr_path r) !! 1%nat) as [[|c s]|];
    [by intros [= <-]; apply not_elem_of_nil| |by intros [= <-]; apply not_elem_of_nil].
  by apply query_no_newline.
Qed.

Lemma signedHeaders_no_newline r : plain_request r → 10 ∉ signedHeaders r.
Proof.
  intros Hp. rewrite signedHeaders_list. apply join_no_newline; [js_decide|].
  intros t (h & -> & Hh)%list_elem_of_fmap. pose proof (signed_list_names r Hp) as Hn.
  rewrite Forall_forall in Hn. by destruct (Hn h Hh).
Qed.

(** A canonical string is the six parts it was made of. *)
Lemma canonicalString_parts sg r s :
  plain_request r → canonicalString now queryStringParse sg r = Ok s →
  ∃ path query, canonical_path sg r = Ok path ∧ search queryStringParse r = Some query ∧
    10 ∉ path ∧ 10 ∉ query ∧
    s = hr_method r ++ 10 :: path ++ 10 :: query ++ 10 ::
        join [10] (header_line <$> signed_list (hr_headers r)) ++ 10 :: 10 ::
        signedHeaders r ++ 10 :: hexEncodedBodyHash sg r.
Proof.
  intros Hp. unfold canonicalString.
  destruct (canonical_path sg r) as [path|] eqn:Hpath; [|done]. cbn [rbind].
  destruct (search queryStringParse r) as [query|] eqn:Hq; [|done]. cbn [rbind or_uri_error].
  rewrite canonicalHeaders_list by apply Hp. cbn [rbind]. intros Hs.
  exists path, query. split_and!; [done..| | |].
  - by eapply canonical_path_no_newline.
  - by eapply search_no_newline.
  - assert (s = join [10] [hr_method r; path; query;
      join [10] (header_line <$> signed_list (hr_headers r)) ++ [10]; signedHeaders r; hexEncodedBodyHash sg r])
      as -> by congruence.
    cbn [join]. rewrite <- (assoc_L (++) (join _ _)). done.
Qed.

(** C25. The canonical string covers the request.  If two requests have the
    same canonical string under a signer, they have the same method, the same
    escaped path, the same query string, the same signed headers with the same
    values up to white space, and the same payload hash: no part can be moved
    into another one.  (For methods, paths and header names without line
    breaks, and names without colons.) *)
Theorem canonicalString_covers (sg : v4_signer) (r1 r2 : http_request) (s : jsstr) :
  plain_request r1 → plain_request r2 →
  canonicalString now queryStringParse sg r1 = Ok s →
  canonicalString now queryStringParse sg r2 = Ok s →
  hr_method r1 = hr_method r2 ∧ canonical_path sg r1 = canonical_path sg r2 ∧
  search queryStringParse r1 = search queryStringParse r2 ∧
  covered_headers (hr_headers r1) = covered_headers (hr_headers r2) ∧
  hexEncodedBodyHash sg r1 = hexEncodedBodyHash sg r2.
Proof.
  intros Hp1 Hp2 (p1 & q1 & Hpath1 & Hs1 & Np1 & Nq1 & E1)%canonicalString_parts
    (p2 & q2 & Hpath2 & Hs2 & Np2 & Nq2 & E2)%canonicalString_parts; [|done..].
  rewrite E1 in E2. rewrite Hpath1, Hpath2, Hs1, Hs2. clear E1 Hpath1 Hpath2 Hs1 Hs2.
  apply cut_inj in E2 as [Hm E2]; [|by apply plain_method..].
  apply cut_inj in E2 as [-> E2]; [|done..]. apply cut_inj in E2 as [-> E2]; [|done..].
  apply block_inj in E2 as [Hl E2]; [|by apply header_lines_ok..].
  apply cut_inj in E2 as [_ Hh]; [|by apply signedHeaders_no_newline..].
  split_and!; [done..| |done]. unfold covered_headers. apply header_lines_inj; [| |done].
  - eapply Forall_impl; [by apply signed_list_names|]. by intros ? [].
  - eapply Forall_impl; [by apply signed_list_names|]. by intros ? [].
Qed.

End covers.

(** ** A concrete instance *)

(** Digests that keep everything, for the examples. *)
#[local] Instance concat_crypto : Crypto := {| hmac_sha256 k d := k ++ d; sha256_bytes d := d |}.

Definition demo_endpoint : endpoint := Endpoint (js "https:") (js "a.b") (js "a.b") 443 (Some (js "/")).
Definition demo_http (headers : jsobj) : http_request :=
  HttpRequest (js "POST") (js "/p?x") headers (js "body") demo_endpoint (JStr (js "us-east-1")) [].
Definition demo_headers : jsobj :=
  [(js "User-Agent", JStr (js "ua")); (js "X-Amz-Target", JStr (js " a  b")); (js "Host", JStr (js "a.b"))].

Lemma demo_headers_ok : headers_ok demo_headers.
Proof.
  split; [js_decide|]. repeat (apply Forall_cons_2; [intros _; split; discriminate|]). apply Forall_nil_2.
Qed.

Lemma canonical_headers_agree_witness :
  canonicalHeaders 0 (demo_http demo_headers) = Ok (js "host:a.b" ++ [10] ++ js "x-amz-target:a b") ∧
  signedHeaders (demo_http demo_headers) = js "host;x-amz-target" ∧
  canonicalHeaders 0 (demo_http (reverse demo_headers)) = canonicalHeaders 0 (demo_http demo_headers).
Proof.
  destruct (canonical_headers_agree 0 (demo_http demo_headers) demo_headers_ok) as [_ Hperm].
  split; [vm_compute; reflexivity|]. split; [vm_compute; reflexivity|].
  apply (Hperm (demo_http (reverse demo_headers))). simpl. symmetry. apply reverse_Permutation.
Defined.

(** The query text itself as the name of a parameter, when it is text. *)
Definition one_param (q : jsstr) : jsobj := if bool_decide (Forall unit_ok q) then [(q, JStr [])] else [].

Lemma canonicalString_covers_witness :
  ∃ s, canonicalString 0 one_param (new_V4 (js "ses") []) (demo_http demo_headers) = Ok s ∧
    covered_headers demo_headers = covered_headers (reverse demo_headers).
Proof.
  assert (Hplain : ∀ o, Forall (λ h, 10 ∉ h.1 ∧ 58 ∉ h.1 ∧ 59 ∉ h.1) o → headers_ok o → plain_request (demo_http o)).
  { intros o Ho Hok. split; [js_decide|split; js_decide|exact Ho|exact Hok]. }
  eexists. split; [vm_compute; reflexivity|].
  refine (proj1 (proj2 (proj2 (proj2 (canonicalString_covers 0 one_param _ (new_V4 (js "ses") [])
    (demo_http demo_headers) (demo_http (reverse demo_headers)) _ _ _ _ _))))).
  - intros q. unfold one_param. case_bool_decide; repeat constructor; done.
  - apply Hplain; [js_decide|apply demo_headers_ok].
  - apply Hplain; [js_decide|]. destruct demo_headers_ok as [H1 H2].
    split; [js_decide|]. repeat (apply Forall_cons_2; [intros _; split; discriminate|]). apply Forall_nil_2.
  - vm_compute. reflexivity.
  - vm_compute. reflexivity.
Defined.
