(* ===== verification/SigningKeys.v ===== *)
(** * The cache of signing keys

    [getSigningKey] (dist/index.js 25967-26003) returns, cached or not, the key
    derived from its arguments, and keeps at most fifty keys. *)

From stdpp Require Import base sets strings list sorting.
From Stdlib Require Import ZArith Lia.
From S2P Require Import Prelude JsValue Json JsText UriUtil JsDate AwsError Http RequestListeners SignerV4.

Local Open Scope Z_scope.

(** ** Cache keys *)

Lemma base64_unit_no_underscore d : base64_unit d ≠ 95.
Proof. unfold base64_unit. repeat case_match; lia. Qed.

Lemma base64_no_underscore l : 95 ∉ base64_bytes l.
Proof.
  induction l as [l IH] using (induction_ltof1 _ (@length Z)). unfold ltof in IH.
  pose proof base64_unit_no_underscore as Hu.
  destruct l as [|a [|b [|c l]]]; cbn [base64_bytes]; rewrite ?not_elem_of_cons;
    split_and?; try (by apply not_eq_sym); try lia; try apply not_elem_of_nil.
  apply IH. simpl. lia.
Qed.

Lemma cache_key_split `{Crypto} cr date region service :
  cache_key_of cr date (JStr region) service =
    creds_identifier cr ++ 95 :: date ++ 95 :: region ++ 95 :: service.
Proof. done. Qed.

(** Keys of calls with the same cache key, for dates and regions without an
    underscore. *)
Lemma cache_key_inj `{Crypto} cr1 d1 r1 s1 cr2 d2 r2 s2 :
  95 ∉ d1 → 95 ∉ d2 → 95 ∉ r1 → 95 ∉ r2 →
  cache_key_of cr1 d1 (JStr r1) s1 = cache_key_of cr2 d2 (JStr r2) s2 →
  creds_identifier cr1 = creds_identifier cr2 ∧ d1 = d2 ∧ r1 = r2 ∧ s1 = s2.
Proof.
  intros Hd1 Hd2 Hr1 Hr2. rewrite !cache_key_split. intros Heq.
  apply cut_inj in Heq as [Hid Heq]; [|apply base64_no_underscore..].
  apply cut_inj in Heq as [-> Heq]; [|done..]. by apply cut_inj in Heq as [-> ->].
Qed.

(** ** Calls *)

Inductive key_call :=
| GetKey (cr : credentials) (date region service : jsstr) (shouldCache : bool)
| EmptyCache.

Section keys.
Context `{Crypto}.

Definition run_call (k : key_call) (c : key_cache) : key_cache * option (result aws_error (list Z)) :=
  match k with
  | GetKey cr date region service b =>
    let '(c, key) := getSigningKey cr date (JStr region) service b c in (c, Some key)
  | EmptyCache => (emptyCache, None)
  end.

Fixpoint run_calls (ks : list key_call) (c : key_cache) : key_cache * list (option (result aws_error (list Z))) :=
  match ks with
  | [] => (c, [])
  | k :: ks =>
    let '(c, key) := run_call k c in
    let '(c, keys) := run_calls ks c in (c, key :: keys)
  end.

(** What a call returns without a cache. *)
Definition uncached (k : key_call) : option (result aws_error (list Z)) :=
  match k with
  | GetKey cr date region service _ => Some (derive_key cr date (JStr region) service)
  | EmptyCache => None
  end.

(** Calls with credentials of [U], and dates and regions as AWS writes them. *)
Definition call_ok (U : credentials → Prop) (k : key_call) : Prop :=
  match k with
  | GetKey cr date region _ _ => U cr ∧ 95 ∉ date ∧ 95 ∉ region
  | EmptyCache => True
  end.

(** The digest that identifies credentials tells their secrets apart. *)
Definition identifies (U : credentials → Prop) : Prop :=
  ∀ a b, U a → U b → creds_identifier a = creds_identifier b → cr_secretAccessKey a = cr_secretAccessKey b.

(** The queue lists the keys of the cache, oldest first; each entry is the key
    its arguments derive. *)
Record cache_ok (U : credentials → Prop) (c : key_cache) : Prop := {
  co_queue : (cachedSecret c).*1 = cacheQueue c;
  co_NoDup : NoDup (cacheQueue c);
  co_size : (length (cacheQueue c) ≤ maxCacheEntries)%nat;
  co_entry : ∀ k v, (k, v) ∈ cachedSecret c →
    ∃ cr date region service, U cr ∧ 95 ∉ date ∧ 95 ∉ region ∧
      k = cache_key_of cr date (JStr region) service ∧ derive_key cr date (JStr region) service = Ok v;
}.

Lemma derive_key_secret a b date region service :
  cr_secretAccessKey a = cr_secretAccessKey b →
  derive_key a date region service = derive_key b date region service.
Proof. intros Hs. unfold derive_key. by rewrite Hs. Qed.

Lemma derive_key_ok cr date region service :
  ∃ v, derive_key cr date (JStr region) service = Ok v.
Proof. eexists. reflexivity. Qed.

Lemma emptyCache_ok U : cache_ok U emptyCache.
Proof. split; [done|constructor|simpl; lia|]. by intros ? ? ?%not_elem_of_nil. Qed.

Lemma obj_del_head {A} k (v : A) l : k ∉ l.*1 → obj_del k ((k, v) :: l) = l.
Proof.
  intros Hk. unfold obj_del. rewrite filter_cons_False by (simpl; tauto).
  induction l as [|[k' w] l IH]; [done|]. apply not_elem_of_cons in Hk as [Hne Hk]. simpl in Hne.
  rewrite filter_cons_True by (simpl; congruence). f_equal. by apply IH.
Qed.

(** Storing a key that is not in the cache. *)
Lemma store_ok U c cr date region service v :
  cache_ok U c → U cr → 95 ∉ date → 95 ∉ region →
  derive_key cr date (JStr region) service = Ok v →
  obj_get (cache_key_of cr date (JStr region) service) (cachedSecret c) = None →
  let k := cache_key_of cr date (JStr region) service in
  let c' := KeyCache (obj_set k v (cachedSecret c)) (cacheQueue c ++ [k]) in
  cache_ok U (if Nat.ltb maxCacheEntries (length (cacheQueue c')) then evict_oldest c' else c').
Proof.
  intros [Hq Hnd Hsz He] HU Hd Hr Hv Hnone k c'. fold k in Hnone.
  assert (Hk : k ∉ (cachedSecret c).*1) by (rewrite <- obj_get_elem, Hnone; by intros [??]).
  assert (Hset : cachedSecret c' = cachedSecret c ++ [(k, v)]) by (by apply obj_set_fresh).
  assert (Hq' : (cachedSecret c').*1 = cacheQueue c') by (rewrite Hset, fmap_app, Hq; done).
  assert (Hnd' : NoDup (cacheQueue c')).
  { simpl. rewrite Hq in Hk. apply NoDup_app. split_and!; [done|set_solver|apply NoDup_singleton]. }
  assert (He' : ∀ k v, (k, v) ∈ cachedSecret c' → ∃ cr date region service, U cr ∧ 95 ∉ date ∧ 95 ∉ region ∧
      k = cache_key_of cr date (JStr region) service ∧ derive_key cr date (JStr region) service = Ok v).
  { intros k' v'. rewrite Hset, elem_of_app, list_elem_of_singleton. intros [Hin|[= -> ->]]; [by apply He|].
    by exists cr, date, region, service. }
  assert (Hlen : length (cacheQueue c') = S (length (cacheQueue c))) by (simpl; rewrite length_app; simpl; lia).
  clearbody c'. destruct (Nat.ltb_spec maxCacheEntries (length (cacheQueue c'))); [|split; (done || lia)].
  unfold evict_oldest. destruct c' as [[|[k0 v0] l] [|k1 q]]; simpl in *; try done; try lia.
  injection Hq' as -> Hq'. change (l.*1 = q) in Hq'. apply NoDup_cons in Hnd' as [Hnin Hnd'].
  rewrite obj_del_head by (by rewrite Hq'). split; simpl; [done..|lia|].
  intros k' v' Hin. apply He'. by right.
Qed.

Lemma getSigningKey_ok U c cr date region service b :
  identifies U → cache_ok U c → U cr → 95 ∉ date → 95 ∉ region →
  (getSigningKey cr date (JStr region) service b c).2 = derive_key cr date (JStr region) service ∧
  cache_ok U (getSigningKey cr date (JStr region) service b c).1.
Proof.
  intros Hid Hc HU Hd Hr. unfold getSigningKey.
  destruct (derive_key_ok cr date region service) as [v Hv]. rewrite Hv.
  destruct b; [|done].
  destruct (obj_get _ (cachedSecret c)) as [w|] eqn:Hget.
  - split; [|done]. simpl. f_equal. apply obj_get_elem_of in Hget; [|rewrite (co_queue _ _ Hc); apply Hc].
    destruct (co_entry _ _ Hc _ _ Hget) as (cr' & d' & r' & s' & HU' & Hd' & Hr' & Hk & Hw).
    apply cache_key_inj in Hk as (Hi & <- & <- & <-); [|done..].
    rewrite (derive_key_secret cr' cr) in Hw by (symmetry; by apply Hid). congruence.
  - split; [done|]. by apply (store_ok U).
Qed.

Lemma run_call_ok U k c :
  identifies U → cache_ok U c → call_ok U k →
  (run_call k c).2 = uncached k ∧ cache_ok U (run_call k c).1.
Proof.
  intros Hid Hc. destruct k as [cr date region service b|]; simpl.
  - intros (HU & Hd & Hr). destruct (getSigningKey_ok U c cr date region service b) as [H1 H2]; try done.
    destruct (getSigningKey _ _ _ _ _ _) as [c' key]. simpl in *. by rewrite H1.
  - intros _. split; [done|]. apply emptyCache_ok.
Qed.

(** C26. The cache of signing keys is transparent and bounded.  Whatever the
    sequence of calls, with or without caching and with the cache emptied in
    between, every [getSigningKey] returns the key its own arguments derive,
    and no more than fifty keys are kept; for dates and regions without an
    underscore, and credentials that their identifying digest tells apart. *)
Theorem signing_key_cache (U : credentials → Prop) (ks : list key_call) :
  identifies U → Forall (call_ok U) ks →
  (run_calls ks emptyCache).2 = uncached <$> ks ∧
  (length (cachedSecret (run_calls ks emptyCache).1) ≤ 50)%nat ∧
  (cachedSecret (run_calls ks emptyCache).1).*1 = cacheQueue (run_calls ks emptyCache).1.
Proof.
  intros Hid Hks.
  enough (Hg : ∀ c, cache_ok U c →
    (run_calls ks c).2 = uncached <$> ks ∧ cache_ok U (run_calls ks c).1).
  { destruct (Hg emptyCache (emptyCache_ok U)) as [Hr [Hq _ Hs _]]. split_and!; [done| |done].
    rewrite <- Hq, length_fmap in Hs. exact Hs. }
  induction Hks as [|k ks Hk _ IH]; intros c Hc; [done|]. cbn [run_calls fmap list_fmap].
  destruct (run_call_ok U k c Hid Hc Hk) as [H1 H2]. destruct (run_call k c) as [c1 key].
  destruct (IH c1 H2) as [H3 H4]. destruct (run_calls ks c1). simpl in *. by rewrite H1, H3.
Qed.

End keys.

#[local] Instance keys_crypto : Crypto := concat_crypto.

Definition demo_creds : credentials := Credentials (js "AKID") (js "secret") None.
Definition demo_calls : list key_call :=
  [GetKey demo_creds (js "20240229") (js "us-east-1") (js "ses") true;
   GetKey demo_creds (js "20240229") (js "us-east-1") (js "ses") true; EmptyCache;
   GetKey demo_creds (js "20240301") (js "us-east-1") (js "ses") false].

Lemma signing_key_cache_witness :
  (run_calls demo_calls emptyCache).2 = uncached <$> demo_calls ∧
  (length (cachedSecret (run_calls demo_calls emptyCache).1) ≤ 50)%nat.
Proof.
  destruct (signing_key_cache (λ cr, cr = demo_creds) demo_calls) as (H1 & H2 & _).
  - intros a b -> -> _. reflexivity.
  - repeat constructor; js_decide.
  - split; [exact H1|exact H2].
Defined.
