(* ===== verification/SignedRequest.v ===== *)
(** * Signed requests verify

    [AWS.Signers.V4.addAuthorization] against a verifier that recomputes the
    signature of the request it receives, from the secret key and without a
    cache. *)

From stdpp Require Import base sets strings list sorting.
From Stdlib Require Import ZArith Lia.
From S2P Require Import Prelude JsValue Json JsText UriUtil JsDate AwsError Http RequestListeners SignerV4 SigningKeys.

Local Open Scope Z_scope.

(** ** The date of a signature *)

Definition amz_pieces : list piece :=
  [Num 4; Num 2; Num 2; Lit (js "T"); Num 2; Num 2; Num 2; Lit (js "Z")].

Lemma strip_digit x s : is_digit x = true → strip_punctuation (x :: s) = x :: strip_punctuation s.
Proof.
  intros Hx. cbn [strip_punctuation]. unfold is_digit in Hx.
  replace (Z.eqb x 58 || Z.eqb x 45) with false by lia. replace (Z.eqb x 46) with false by lia.
  by destruct s as [|a [|b [|c s]]].
Qed.

Lemma strip_digits l s :
  forallb is_digit l = true → strip_punctuation (l ++ s) = l ++ strip_punctuation s.
Proof.
  induction l as [|x l IH]; [done|]. cbn [forallb app]. intros [Hx Hl]%andb_true_iff.
  by rewrite strip_digit, IH.
Qed.

Lemma strip_T s : strip_punctuation (js "T" ++ s) = js "T" ++ strip_punctuation s.
Proof. by destruct s as [|a [|b [|c s]]]. Qed.
Lemma strip_dash s : strip_punctuation (js "-" ++ s) = strip_punctuation s.
Proof. done. Qed.
Lemma strip_colon s : strip_punctuation (js ":" ++ s) = strip_punctuation s.
Proof. done. Qed.

Lemma amz_datetime_fields t y m d :
  civil_of_day (day_of t) = (y, m, d) → 0 ≤ y ≤ 9999 →
  amz_datetime t = print_pieces amz_pieces [y; m; d; hour_of t; minute_of t; second_of t].
Proof.
  intros Hc Hy. unfold amz_datetime. rewrite (iso8601_fields t y m d) by done.
  unfold iso_pieces, amz_pieces. cbn [print_pieces].
  repeat first [rewrite strip_digits by apply pad_digits | rewrite strip_dash | rewrite strip_colon
    | rewrite strip_T].
  done.
Qed.

(** The scope's date: the digits of the day. *)
Lemma amz_datetime_day t y m d :
  civil_of_day (day_of t) = (y, m, d) → 0 ≤ y ≤ 9999 →
  take 8 (amz_datetime t) = pad 4 y ++ pad 2 m ++ pad 2 d ∧ 95 ∉ take 8 (amz_datetime t).
Proof.
  intros Hc Hy. rewrite (amz_datetime_fields t y m d) by done.
  assert (Htake : ∀ s, take 8 (pad 4 y ++ pad 2 m ++ pad 2 d ++ s) = pad 4 y ++ pad 2 m ++ pad 2 d).
  { intros s. rewrite !(assoc_L (++)). rewrite take_app_length'; [done|].
    by rewrite !length_app, !pad_length. }
  unfold amz_pieces. cbn [print_pieces]. rewrite Htake. split; [done|].
  assert (Hd : ∀ w n, 95 ∉ pad w n).
  { intros w n Hin. pose proof (pad_digits w n) as Hp. rewrite forallb_forall in Hp.
    apply list_elem_of_In, Hp in Hin. done. }
  rewrite !not_elem_of_app. auto.
Qed.

(** ** Setting headers *)

(** A header has one spelling. *)
Definition canonical_spelling (k : jsstr) (o : jsobj) : Prop :=
  ∀ h, h ∈ o → to_lower h.1 = to_lower k → h.1 = k.

Lemma canonical_spelling_set k k' v o :
  canonical_spelling k o → to_lower k' ≠ to_lower k ∨ k' = k → canonical_spelling k (obj_set k' v o).
Proof.
  intros Hs Hk h [->|Hin]%elem_of_obj_set Hl; [|by apply Hs]. simpl in *. naive_solver.
Qed.

Lemma headers_ok_set k v o :
  headers_ok o → canonical_spelling k o → (isSignableHeader (to_lower k) = true → v ≠ JUndef ∧ v ≠ JNull) →
  headers_ok (obj_set k v o).
Proof.
  intros [Hnd Hv] Hs Hk. split.
  - destruct (decide (k ∈ o.*1)) as [Hin|Hnin].
    + enough (Heq : (λ h : jsstr * jsval, to_lower h.1) <$> obj_set k v o = (λ h, to_lower h.1) <$> o)
        by (by rewrite Heq).
      change (λ h : jsstr * jsval, to_lower h.1) with (to_lower ∘ @fst jsstr jsval).
      rewrite !list_fmap_compose. by rewrite obj_set_keys.
    + rewrite obj_set_fresh by done. rewrite fmap_app. apply NoDup_app. split_and!; [done| |apply NoDup_singleton].
      intros x (h & -> & Hh)%list_elem_of_fmap Hx. apply list_elem_of_singleton in Hx.
      apply Hnin. rewrite <- (Hs h Hh Hx). by apply list_elem_of_fmap_2.
  - apply Forall_forall. intros h [->|Hin]%elem_of_obj_set; [exact Hk|].
    rewrite Forall_forall in Hv. by apply Hv.
Qed.

Definition same_signed (o o' : jsobj) : Prop := List.filter signable o ≡ₚ List.filter signable o'.

(** The signed headers are determined by the signable headers of the request. *)
Lemma signed_list_determined o o' :
  headers_ok o → same_signed o o' → signed_list o = signed_list o'.
Proof.
  intros [Hnd _] Hp. destruct (signed_list_spec o) as [P1 S1], (signed_list_spec o') as [P2 S2].
  eapply StronglySorted_unique_strong; [|exact S1|exact S2|by rewrite P1, P2].
  intros h1 h2 H1 H2 L1 L2. rewrite P1 in H1. rewrite P2 in H2. unfold same_signed in Hp.
  rewrite <- Hp in H2.
  apply list_elem_of_In, filter_In in H1 as [H1 _], H2 as [H2 _].
  apply list_elem_of_In in H1, H2. assert (Heq : to_lower h1.1 = to_lower h2.1) by (by apply (anti_symm str_le)).
  apply list_elem_of_lookup in H1 as [i Hi], H2 as [j Hj].
  assert (i = j) as ->; [|congruence].
  eapply NoDup_lookup; [exact Hnd| |]; rewrite list_lookup_fmap; [by rewrite Hi|]. by rewrite Hj, Heq.
Qed.

(** Headers that are not signed do not matter. *)
Lemma same_signed_set k v o :
  isSignableHeader (to_lower k) = false → same_signed o (obj_set k v o).
Proof.
  intros Hk. unfold same_signed, signable. induction o as [|[k' v'] o IH].
  - simpl. by rewrite Hk.
  - cbn [obj_set]. destruct (str_eqb_spec k k') as [->|].
    + simpl. by rewrite Hk.
    + cbn [List.filter fst]. by destruct (isSignableHeader (to_lower k')); [constructor|].
Qed.

Lemma set_header_same k v r : obj_get k (hr_headers r) = Some v → set_header k v r = r.
Proof. intros Hg. unfold set_header. rewrite obj_set_same by done. by destruct r. Qed.

(** ** The verifier *)

Section verify.
Context `{Crypto} (now : Z) (queryStringParse : jsstr → jsobj).

(** The Authorization header of a received request, from its X-Amz-Date header
    and the secret key.  The scope, the string to sign, the key derivation and
    the header are written out from the protocol; the canonical form of the
    request is the signer's own, whose coverage is stated apart
    ([canonicalString_covers]). *)
Definition expected_authorization (sg : v4_signer) (cr : credentials) (r : http_request) :
    result aws_error jsstr :=
  let datetime := to_string (obj_prop (hr_headers r) (js "X-Amz-Date")) in
  let day := take 8 datetime in
  let scope := day ++ js "/" ++ join_item (hr_region r) ++ js "/" ++ serviceName sg ++ js "/aws4_request" in
  let* canonical := canonicalString now queryStringParse sg r in
  let* key := derive_key cr day (hr_region r) (serviceName sg) in
  let string := js "AWS4-HMAC-SHA256" ++ [10] ++ datetime ++ [10] ++ scope ++ [10] ++
                hexEncodedHash canonical in
  Ok (js "AWS4-HMAC-SHA256 Credential=" ++ cr_accessKeyId cr ++ js "/" ++ scope ++
      js ", SignedHeaders=" ++ signedHeaders r ++
      js ", Signature=" ++ hex_bytes (hmac_sha256 key (utf8 string))).

Definition verifies (sg : v4_signer) (cr : credentials) (r : http_request) : Prop :=
  ∃ a, obj_prop (hr_headers r) (js "Authorization") = JStr a ∧ expected_authorization sg cr r = Ok a.

(** [authorization] is what the verifier expects. *)
Lemma authorization_expected sg cr r region datetime c canonical U :
  identifies U → cache_ok U c → U cr → hr_region r = JStr region → 95 ∉ region → 95 ∉ take 8 datetime →
  obj_get (js "X-Amz-Date") (hr_headers r) = Some (JStr datetime) →
  canonicalString now queryStringParse sg r = Ok canonical →
  ∃ a, (authorization now queryStringParse sg cr r datetime c).2 = Ok a ∧
    expected_authorization sg cr r = Ok a ∧
    cache_ok U (authorization now queryStringParse sg cr r datetime c).1.
Proof.
  intros Hid Hc HU Hreg Hr Hd Hdate Hcan.
  destruct (getSigningKey_ok U c cr (take 8 datetime) region (serviceName sg) (signatureCache sg)) as [Hk Hok];
    [done..|].
  unfold authorization, signature, expected_authorization, obj_prop. rewrite Hreg, Hdate.
  change (to_string (default JUndef (Some (JStr datetime)))) with datetime.
  destruct (getSigningKey _ _ _ _ _ _) as [c' key]. cbn [fst snd] in *. rewrite Hk.
  destruct (derive_key_ok cr (take 8 datetime) region (serviceName sg)) as [v Hv]. rewrite Hv, Hcan.
  unfold stringToSign. rewrite Hcan. cbn [rbind fst snd].
  eexists. split; [reflexivity|]. split; [|done]. f_equal.
  unfold credentialString, createScope. rewrite Hreg, take_take. 
  change (join_item (JStr region)) with region. cbn [join].
  change (8 `min` 8)%nat with 8%nat. unfold algorithm, v4Identifier.
  rewrite <- !(assoc_L (++)). done.
Qed.

(** The Authorization header is not signed. *)
Lemma expected_set_authorization sg cr r v :
  headers_ok (hr_headers r) → canonical_spelling (js "Authorization") (hr_headers r) →
  canonicalString now queryStringParse sg (set_header (js "Authorization") v r) =
    canonicalString now queryStringParse sg r ∧
  expected_authorization sg cr (set_header (js "Authorization") v r) = expected_authorization sg cr r.
Proof.
  intros Hok Hs. set (r' := set_header (js "Authorization") v r).
  assert (Hok' : headers_ok (hr_headers r')) by (by apply headers_ok_set).
  assert (Hl : signed_list (hr_headers r') = signed_list (hr_headers r)).
  { symmetry. apply signed_list_determined; [done|]. by apply same_signed_set. }
  assert (Hsh : signedHeaders r' = signedHeaders r) by (by rewrite !signedHeaders_list, Hl).
  assert (Hprop : ∀ k, k ≠ js "Authorization" → obj_prop (hr_headers r') k = obj_prop (hr_headers r) k).
  { intros k Hk. unfold obj_prop. simpl. by rewrite obj_get_set_other. }
  assert (Hcan : canonicalString now queryStringParse sg r' = canonicalString now queryStringParse sg r).
  { unfold canonicalString, hexEncodedBodyHash, isPresigned.
    rewrite !canonicalHeaders_list, Hl, Hsh, !Hprop by (done || js_decide). done. }
  split; [done|]. unfold expected_authorization. by rewrite Hcan, Hsh, Hprop by js_decide.
Qed.

(** What signing needs of a request: a region, headers with one spelling each
    and values, and a path and a query that can be escaped. *)
Record can_sign (sg : v4_signer) (region : jsstr) (r : http_request) : Prop := {
  cs_region : hr_region r = JStr region ∧ 95 ∉ region;
  cs_headers : headers_ok (hr_headers r);
  cs_spelling : Forall (λ k, canonical_spelling k (hr_headers r))
    [js "Authorization"; js "X-Amz-Date"; js "x-amz-security-token"];
  cs_path : is_ok (canonical_path sg r) = true;
  cs_query : is_Some (search queryStringParse r);
}.

Lemma canonicalString_ok sg region r :
  can_sign sg region r → ∃ s, canonicalString now queryStringParse sg r = Ok s.
Proof.
  intros [_ Hok _ Hp [q Hq]]. unfold canonicalString. rewrite Hq, canonicalHeaders_list by done.
  destruct (canonical_path sg r); [|done]. eexists. reflexivity.
Qed.

Lemma can_sign_set_header sg region k v r :
  can_sign sg region r → canonical_spelling k (hr_headers r) →
  (isSignableHeader (to_lower k) = true → v ≠ JUndef ∧ v ≠ JNull) →
  Forall (λ n, to_lower k ≠ to_lower n ∨ k = n)
    [js "Authorization"; js "X-Amz-Date"; js "x-amz-security-token"] →
  can_sign sg region (set_header k v r).
Proof.
  intros [? Hok Hs ? ?] Hk Hv Hn. split; [done|by apply headers_ok_set| |done|done].
  rewrite Forall_forall in Hs, Hn |- *. intros n Hin.
  apply canonical_spelling_set; [by apply Hs|]. by apply Hn.
Qed.

Lemma addHeaders_can_sign sg region cr datetime r :
  can_sign sg region r → can_sign sg region (addHeaders cr datetime r).
Proof.
  intros Hc. pose proof (cs_spelling _ _ _ Hc) as Hs. decompose_Forall_hyps.
  assert (Hdate : can_sign sg region (set_header (js "X-Amz-Date") (JStr datetime) r)).
  { apply can_sign_set_header; [done|done|done|]. js_decide. }
  unfold addHeaders. destruct (truthy (session_token cr)) eqn:Ht; [|done].
  pose proof (cs_spelling _ _ _ Hdate) as Hs1. decompose_Forall_hyps.
  apply can_sign_set_header; [done|done| |js_decide].
  intros _. by destruct (session_token cr).
Qed.

Lemma addHeaders_get cr datetime r :
  obj_get (js "X-Amz-Date") (hr_headers (addHeaders cr datetime r)) = Some (JStr datetime) ∧
  (truthy (session_token cr) = true →
   obj_get (js "x-amz-security-token") (hr_headers (addHeaders cr datetime r)) = Some (session_token cr)) ∧
  isPresigned (addHeaders cr datetime r) = isPresigned r.
Proof.
  unfold addHeaders, isPresigned, obj_prop. destruct (truthy (session_token cr)); cbn [hr_headers set_header].
  - split; [|split].
    + by rewrite obj_get_set_other, obj_get_set_eq by js_decide.
    + by rewrite obj_get_set_eq.
    + by rewrite !obj_get_set_other by js_decide.
  - split; [|split]; [by rewrite obj_get_set_eq|done|]. by rewrite obj_get_set_other by js_decide.
Qed.

(** Setting the headers of a request that has them changes nothing. *)
Lemma addHeaders_idempotent cr datetime r :
  obj_get (js "X-Amz-Date") (hr_headers r) = Some (JStr datetime) →
  (truthy (session_token cr) = true →
   obj_get (js "x-amz-security-token") (hr_headers r) = Some (session_token cr)) →
  addHeaders cr datetime r = r.
Proof.
  intros Hd Ht. unfold addHeaders. rewrite (set_header_same _ _ _ Hd).
  destruct (truthy (session_token cr)); [|done]. by apply set_header_same, Ht.
Qed.

Lemma signed_list_In o k v : obj_get k o = Some v → isSignableHeader (to_lower k) = true → (k, v) ∈ signed_list o.
Proof.
  intros Hg Hs. destruct (signed_list_spec o) as [Hp _]. rewrite Hp.
  apply list_elem_of_In, filter_In. split; [|done]. by apply list_elem_of_In, elem_of_obj_get.
Qed.

(** The step shared by signing and signing again: a request that has its date
    and token headers. *)
Lemma sign_prepared U sg cr region datetime r c :
  identifies U → cache_ok U c → U cr → can_sign sg region r → 95 ∉ take 8 datetime →
  obj_get (js "X-Amz-Date") (hr_headers r) = Some (JStr datetime) →
  ∃ a c', authorization now queryStringParse sg cr r datetime c = (c', Ok a) ∧ cache_ok U c' ∧
    expected_authorization sg cr r = Ok a ∧
    verifies sg cr (set_header (js "Authorization") (JStr a) r).
Proof.
  intros Hid Hc HU Hcs Hd Hdate. destruct (canonicalString_ok sg region r Hcs) as [s Hs].
  pose proof (cs_region _ _ _ Hcs) as [Hreg Hr]. pose proof (cs_spelling _ _ _ Hcs) as Hsp.
  decompose_Forall_hyps.
  destruct (authorization_expected sg cr r region datetime c s U) as (a & Ha & He & Hok); [done..|].
  destruct (authorization _ _ _ _ _ _ _) as [c' res]. cbn [fst snd] in *. subst res.
  exists a, c'. split_and!; [done..|]. exists a. split.
  - unfold obj_prop. simpl. by rewrite obj_get_set_eq.
  - rewrite (proj2 (expected_set_authorization sg cr r (JStr a) (cs_headers _ _ _ Hcs) ltac:(assumption))).
    done.
Qed.

(** C24. Signed requests verify.  Signing a request that has a region, headers
    with one spelling each, and a path and query that can be escaped, succeeds;
    a verifier that knows the secret key and recomputes the Authorization
    header from the received request, without the cache, finds the same value.
    The X-Amz-Date header is signed and reads back to the time of signing, the
    session token is signed when there is one, method, path and body are left
    alone, the cache of keys stays correct, and signing the signed request
    again at the same time changes nothing. *)
Theorem signed_request_verifies (U : credentials → Prop) (sg : v4_signer) (cr : credentials)
    (region : jsstr) (t : Z) (r : http_request) (c : key_cache) :
  identifies U → cache_ok U c → U cr → can_sign sg region r → isPresigned r = false →
  -62167219200000 ≤ t < 253402300800000 →
  ∃ r' c', addAuthorization now queryStringParse sg cr t r c = (r', c', None) ∧ cache_ok U c' ∧
    verifies sg cr r' ∧
    (∃ d vs, (js "X-Amz-Date", JStr d) ∈ signed_list (hr_headers r') ∧
       read_pieces amz_pieces d = Some vs ∧ seconds_of vs = Some (t / 1000)) ∧
    (truthy (session_token cr) = true →
       (js "x-amz-security-token", session_token cr) ∈ signed_list (hr_headers r')) ∧
    (hr_method r', hr_path r', hr_body r') = (hr_method r, hr_path r, hr_body r) ∧
    ∃ c'', addAuthorization now queryStringParse sg cr t r' c' = (r', c'', None).
Proof.
  intros Hid Hc HU Hcs Hpre (y & m & d & Hciv & Hy & Hfit & Hsec)%date_fields.
  destruct (amz_datetime_day t y m d Hciv Hy) as [_ Hday].
  pose proof (amz_datetime_fields t y m d Hciv Hy) as Hdt. set (datetime := amz_datetime t) in *.
  destruct (addHeaders_get cr datetime r) as (Hdate & Htok & Hpre'). rewrite Hpre in Hpre'.
  pose proof (addHeaders_can_sign sg region cr datetime r Hcs) as Hcs1.
  set (r1 := addHeaders cr datetime r) in *.
  destruct (sign_prepared U sg cr region datetime r1 c) as (a & c1 & Ha & Hc1 & He & Hv); [done..|].
  set (r2 := set_header (js "Authorization") (JStr a) r1) in *.
  assert (Hget : ∀ k, k ≠ js "Authorization" → obj_get k (hr_headers r2) = obj_get k (hr_headers r1))
    by (intros k Hk; by apply obj_get_set_other).
  assert (Hcs2 : can_sign sg region r2).
  { pose proof (cs_spelling _ _ _ Hcs1) as Hsp. decompose_Forall_hyps.
    apply can_sign_set_header; [done|done|done|js_decide]. }
  assert (Hdate2 : obj_get (js "X-Amz-Date") (hr_headers r2) = Some (JStr datetime))
    by (by rewrite Hget by js_decide).
  assert (Htok2 : truthy (session_token cr) = true →
    obj_get (js "x-amz-security-token") (hr_headers r2) = Some (session_token cr))
    by (intros; rewrite Hget by js_decide; by apply Htok).
  exists r2, c1. split; [|split; [done|split; [done|split; [|split; [|split]]]]].
  - unfold addAuthorization. rewrite Hpre. fold datetime r1. by rewrite Ha.
  - exists datetime, [y; m; d; hour_of t; minute_of t; second_of t].
    split; [by apply signed_list_In|]. rewrite Hdt. split; [by apply read_print|done].
  - intros Ht. apply signed_list_In; [by apply Htok2|done].
  - subst r2 r1. unfold addHeaders. by destruct (truthy _).
  - assert (Hpre2 : isPresigned r2 = false)
      by (unfold isPresigned, obj_prop; by rewrite Hget by js_decide).
    destruct (sign_prepared U sg cr region datetime r2 c1) as (a2 & c2 & Ha2 & _ & He2 & _); [done..|].
    exists c2. unfold addAuthorization. rewrite Hpre2. fold datetime.
    rewrite addHeaders_idempotent by done. rewrite Ha2.
    destruct Hv as (a' & Hauth & Hexp). rewrite He2 in Hexp. injection Hexp as <-.
    rewrite set_header_same; [done|]. unfold obj_prop in Hauth.
    destruct (obj_get (js "Authorization") (hr_headers r2)) as [w|] eqn:Hw; [|done]. simpl in Hauth. by subst w.
Qed.

End verify.

#[local] Instance verify_crypto : Crypto := concat_crypto.

Definition session_creds : credentials := Credentials (js "AKID") (js "secret") (Some (js "token")).

Lemma signed_request_verifies_witness :
  ∃ r' c', addAuthorization 0 one_param (new_V4 (js "ses") []) session_creds 1709209845678
      (demo_http demo_headers) emptyCache = (r', c', None) ∧
    verifies 0 one_param (new_V4 (js "ses") []) session_creds r' ∧
    obj_prop (hr_headers r') (js "X-Amz-Date") = JStr (js "20240229T123045Z").
Proof.
  destruct (signed_request_verifies 0 one_param (λ cr, cr = session_creds) (new_V4 (js "ses") [])
    session_creds (js "us-east-1") 1709209845678 (demo_http demo_headers) emptyCache)
    as (r' & c' & Hadd & _ & Hv & _).
  - intros a b -> -> _. reflexivity.
  - apply emptyCache_ok.
  - reflexivity.
  - split.
    + split; [reflexivity|js_decide].
    + apply demo_headers_ok.
    + repeat constructor; intros h Hin; repeat (apply elem_of_cons in Hin as [->|Hin]; [vm_compute; discriminate|]);
        by apply not_elem_of_nil in Hin.
    + vm_compute. reflexivity.
    + vm_compute. eexists. reflexivity.
  - vm_compute. reflexivity.
  - lia.
  - exists r', c'. split; [exact Hadd|]. split; [exact Hv|].
    assert (Hr : r' = (addAuthorization 0 one_param (new_V4 (js "ses") []) session_creds 1709209845678
      (demo_http demo_headers) emptyCache).1.1) by (rewrite Hadd; reflexivity).
    rewrite Hr. vm_compute. reflexivity.
Defined.
