(* ===== verification/SignersLegacy.v ===== *)
(** * The older signers

    [AWS.Signers.S3] (dist/index.js 25336-25513), [V2] (25518-25571), [V3]
    (25573-25655) and [V3Https] (25657-25686).  They share the date, header and
    query functions of version 4; HMAC-SHA1 of Node is one more digest. *)

From stdpp Require Import base sets strings list sorting.
From Stdlib Require Import ZArith Lia.
From S2P Require Import Prelude JsValue Json JsText UriUtil JsDate AwsError Http RequestListeners SignerV4 SigningKeys SignedRequest.

Local Open Scope Z_scope.

Class LegacyCrypto := { hmac_sha1 : list Z → list Z → list Z }.

(** The properties every object inherits from Object.prototype. *)
Definition object_prototype : list jsstr :=
  [js "constructor"; js "hasOwnProperty"; js "isPrototypeOf"; js "propertyIsEnumerable";
   js "toLocaleString"; js "toString"; js "valueOf"; js "__proto__"; js "__defineGetter__";
   js "__defineSetter__"; js "__lookupGetter__"; js "__lookupSetter__"].

Definition str_mem (s : jsstr) (l : list jsstr) : bool := existsb (str_eqb s) l.

(** The header of the session token, set by S3 and V3 alike. *)
Definition add_token (cr : credentials) (r : http_request) : http_request :=
  if truthy (session_token cr) then set_header (js "x-amz-security-token") (session_token cr) r else r.

(** [headers[name] || ''] in an array that is joined. *)
Definition header_or_empty (r : http_request) (name : jsstr) : jsstr :=
  join_item (js_or (obj_prop (hr_headers r) name) (JStr [])).

(** ** S3 *)

Module S3.

Definition subResources : list jsstr :=
  [js "acl"; js "accelerate"; js "analytics"; js "cors"; js "lifecycle"; js "delete"; js "inventory";
   js "location"; js "logging"; js "metrics"; js "notification"; js "partNumber"; js "policy";
   js "requestPayment"; js "replication"; js "restore"; js "tagging"; js "torrent"; js "uploadId";
   js "uploads"; js "versionId"; js "versioning"; js "versions"; js "website"].

Definition responseHeaders : list jsstr :=
  [js "response-content-type"; js "response-content-language"; js "response-expires";
   js "response-cache-control"; js "response-content-disposition"; js "response-content-encoding"].

(** [table[name]] is truthy for the table's own names and for the inherited ones. *)
Definition table_has (table : list jsstr) (name : jsstr) : bool :=
  str_mem name table || str_mem name object_prototype.

(** [name.match(/^x-amz-/i)]. *)
Definition is_amz_header (name : jsstr) : bool := starts_with (js "x-amz-") (to_lower name).

Definition amz_header_line (r : http_request) (name : jsstr) : jsstr :=
  to_lower name ++ js ":" ++ to_string (obj_prop (hr_headers r) name).

Definition canonicalizedAmzHeaders (r : http_request) : jsstr :=
  join [10] (amz_header_line r <$> sort_by to_lower (List.filter is_amz_header (own_keys (hr_headers r)))).

(** A query parameter that is part of the resource; the outer option is a thrown
    URIError, the inner one says whether it is collected. *)
Definition subresource (param : jsstr) : option (option (jsstr * option jsstr)) :=
  let parts := split_on 61 param in
  let name := default [] (parts !! 0%nat) in
  if table_has subResources name || table_has responseHeaders name then
    match parts !! 1%nat with
    | None => Some (Some (name, None))
    | Some value =>
      if table_has subResources name then Some (Some (name, Some value))
      else v ← decodeURIComponent value; Some (Some (name, Some v))
    end
  else Some None.

Definition resource_item (res : jsstr * option jsstr) : jsstr :=
  match res with (name, None) => name | (name, Some v) => name ++ js "=" ++ v end.

Definition canonicalizedResource (virtualHostedBucket : jsstr) (r : http_request) : option jsstr :=
  let parts := split_on 63 (hr_path r) in
  let path := default [] (parts !! 0%nat) in
  let resource := (match virtualHostedBucket with [] => [] | b => js "/" ++ b end) ++ path in
  match parts !! 1%nat with
  | Some ((_ :: _) as querystring) =>
    found ← mapM subresource (split_on 38 querystring);
    match sort_by fst (omap (λ x, x) found) with
    | [] => Some resource
    | resources => Some (resource ++ js "?" ++ join (js "&") (resource_item <$> resources))
    end
  | _ => Some resource
  end.

Definition stringToSign (virtualHostedBucket : jsstr) (r : http_request) : option jsstr :=
  let headers := canonicalizedAmzHeaders r in
  resource ← canonicalizedResource virtualHostedBucket r;
  Some (join [10] ([hr_method r; header_or_empty r (js "Content-MD5"); header_or_empty r (js "Content-Type");
                    header_or_empty r expiresHeader] ++
                   (match headers with [] => [] | _ => [headers] end) ++ [resource])).

Definition prepare (cr : credentials) (date : Z) (r : http_request) : http_request :=
  add_token cr (if truthy (obj_prop (hr_headers r) expiresHeader) then r
                else set_header (js "X-Amz-Date") (JStr (rfc822 date)) r).

Section sign.
Context `{LegacyCrypto}.

Definition sign (secret string : jsstr) : jsstr := base64_bytes (hmac_sha1 (utf8 secret) (utf8 string)).

(** [None]: a malformed escape in the query. *)
Definition addAuthorization (virtualHostedBucket : jsstr) (cr : credentials) (date : Z) (r : http_request) :
    option http_request :=
  let r := prepare cr date r in
  string ← stringToSign virtualHostedBucket r;
  Some (set_header (js "Authorization")
          (JStr (js "AWS " ++ cr_accessKeyId cr ++ js ":" ++ sign (cr_secretAccessKey cr) string)) r).

End sign.
End S3.

(** ** V2 *)

Module V2.

(** The request of a query service: its HTTP request and the parameters. *)
Record query_request := QueryRequest { http : http_request; params : jsobj }.

Definition stringToSign (r : query_request) : option jsstr :=
  query ← queryParamsToString (params r);
  Some (join [10] [hr_method (http r); to_lower (host (hr_endpoint (http r))); pathname (http r); query]).

Definition set_param (k : jsstr) (v : jsval) (r : query_request) : query_request :=
  QueryRequest (http r) (obj_set k v (params r)).

(** The parameters that are signed. *)
Definition prepare (cr : credentials) (date : Z) (r : query_request) : query_request :=
  let r := set_param (js "Timestamp") (JStr (iso8601 date)) r in
  let r := set_param (js "SignatureVersion") (JStr (js "2")) r in
  let r := set_param (js "SignatureMethod") (JStr (js "HmacSHA256")) r in
  let r := set_param (js "AWSAccessKeyId") (JStr (cr_accessKeyId cr)) r in
  let r := if truthy (session_token cr) then set_param (js "SecurityToken") (session_token cr) r else r in
  QueryRequest (http r) (obj_del (js "Signature") (params r)).

Definition set_body (body : jsstr) (r : http_request) : http_request :=
  HttpRequest (hr_method r) (hr_path r) (hr_headers r) body (hr_endpoint r) (hr_region r) (_userAgent r).

Section sign.
Context `{Crypto}.

Definition signature (cr : credentials) (r : query_request) : option jsstr :=
  string ← stringToSign r;
  Some (base64_bytes (hmac_sha256 (utf8 (cr_secretAccessKey cr)) (utf8 string))).

(** [None]: a parameter cannot be escaped. *)
Definition addAuthorization (cr : credentials) (date : Z) (r : query_request) : option query_request :=
  let r := prepare cr date r in
  sig ← signature cr r;
  let r := set_param (js "Signature") (JStr sig) r in
  body ← queryParamsToString (params r);
  Some (QueryRequest (set_header (js "Content-Length") (JNum (num_of_Z (Z.of_nat (length body))))
                        (set_body body (http r))) (params r)).

End sign.
End V2.

(** ** V3 and V3Https *)

Module V3.

(** [k === 'Host' || k === 'Content-Encoding' || k.match(/^X-Amz/i)]. *)
Definition is_signed (k : jsstr) : bool :=
  str_eqb k (js "Host") || str_eqb k (js "Content-Encoding") || starts_with (js "x-amz") (to_lower k).

Definition headersToSign (r : http_request) : list jsstr := List.filter is_signed (own_keys (hr_headers r)).

Definition signedHeaders (r : http_request) : jsstr :=
  join (js ";") (sort_strings (to_lower <$> headersToSign r)).

Definition header_text (r : http_request) (h : jsstr) : jsstr :=
  trim (to_lower h) ++ js ":" ++ trim (to_string (obj_prop (hr_headers r) h)).

Definition canonicalHeaders (r : http_request) : jsstr :=
  join [10] (sort_strings (header_text r <$> headersToSign r)) ++ [10].

Definition prepare (cr : credentials) (date : Z) (r : http_request) : http_request :=
  add_token cr (set_header (js "X-Amz-Date") (JStr (rfc822 date)) r).

Section sign.
Context `{Crypto}.

(** The binary digest is a string of one unit per byte. *)
Definition stringToSign (r : http_request) : jsstr :=
  sha256_bytes (utf8 (join [10] [hr_method r; js "/"; []; canonicalHeaders r; hr_body r])).

Definition signature (cr : credentials) (string : jsstr) : jsstr :=
  base64_bytes (hmac_sha256 (utf8 (cr_secretAccessKey cr)) (utf8 string)).

Definition authorization (cr : credentials) (r : http_request) : jsstr :=
  js "AWS3 AWSAccessKeyId=" ++ cr_accessKeyId cr ++ js ",Algorithm=HmacSHA256,SignedHeaders=" ++
  signedHeaders r ++ js ",Signature=" ++ signature cr (stringToSign r).

Definition addAuthorization (cr : credentials) (date : Z) (r : http_request) : http_request :=
  let r := prepare cr date r in
  set_header (js "X-Amzn-Authorization") (JStr (authorization cr r)) r.

(** V3Https signs the date alone; a date that is not a string is rejected by the
    digest. *)
Definition https_authorization (cr : credentials) (r : http_request) : jsstr :=
  js "AWS3-HTTPS AWSAccessKeyId=" ++ cr_accessKeyId cr ++ js ",Algorithm=HmacSHA256,Signature=" ++
  signature cr (to_string (obj_prop (hr_headers r) (js "X-Amz-Date"))).

Definition https_addAuthorization (cr : credentials) (date : Z) (r : http_request) : http_request :=
  let r := prepare cr date r in
  set_header (js "X-Amzn-Authorization") (JStr (https_authorization cr r)) r.

End sign.
End V3.

(** What the listener SIGN removes before it signs (15433-15435). *)
Definition unsign (r : http_request) : http_request :=
  delete_header (js "X-Amz-Date") (delete_header (js "Date") (delete_header (js "Authorization") r)).

(** ** Enumeration after setting a property *)

Lemma filter_keys_set {A} f k (v : A) o :
  array_index k = None → f k = false →
  List.filter f (own_keys (obj_set k v o)) = List.filter f (own_keys o).
Proof.
  intros Hi Hf. unfold own_keys. rewrite own_props_set by done. generalize (own_props o). intros l.
  induction l as [|[k' v'] l IH]; cbn [obj_set]; [cbn; by rewrite Hf|].
  destruct (str_eqb_spec k k') as [<-|]; [done|]. cbn [fmap list_fmap List.filter fst].
  destruct (f k'); [f_equal|]; exact IH.
Qed.

(** ** Signing again *)

Lemma add_token_same cr r :
  (truthy (session_token cr) = true →
   obj_get (js "x-amz-security-token") (hr_headers r) = Some (session_token cr)) → add_token cr r = r.
Proof. intros Ht. unfold add_token. destruct (truthy _); [|done]. by apply set_header_same, Ht. Qed.

(** After a header other than the token's is set, the token is as [add_token]
    left it. *)
Lemma add_token_get cr r k :
  (truthy (session_token cr) = true →
   obj_get (js "x-amz-security-token") (hr_headers (add_token cr r)) = Some (session_token cr)) ∧
  (k ≠ js "x-amz-security-token" → obj_get k (hr_headers (add_token cr r)) = obj_get k (hr_headers r)).
Proof.
  unfold add_token. destruct (truthy _); cbn [hr_headers set_header]; split; try done.
  - intros _. apply obj_get_set_eq.
  - intros Hk. by apply obj_get_set_other.
Qed.

Module V2_facts.
Import V2.

Ltac get_param :=
  cbn [set_param params];
  repeat first [rewrite obj_get_set_eq | rewrite obj_get_set_other by js_decide
               | rewrite obj_get_del_other by js_decide];
  reflexivity.

(** The parameters set by [prepare]. *)
Lemma v2_prepare_get cr t r :
  obj_get (js "Timestamp") (params (prepare cr t r)) = Some (JStr (iso8601 t)) ∧
  obj_get (js "SignatureVersion") (params (prepare cr t r)) = Some (JStr (js "2")) ∧
  obj_get (js "SignatureMethod") (params (prepare cr t r)) = Some (JStr (js "HmacSHA256")) ∧
  obj_get (js "AWSAccessKeyId") (params (prepare cr t r)) = Some (JStr (cr_accessKeyId cr)) ∧
  (truthy (session_token cr) = true →
   obj_get (js "SecurityToken") (params (prepare cr t r)) = Some (session_token cr)).
Proof.
  unfold prepare. generalize (iso8601 t) (truthy (session_token cr)). intros d b. destruct b.
  - split; [get_param|]. split; [get_param|]. split; [get_param|]. split; [get_param|]. intros _. get_param.
  - split; [get_param|]. split; [get_param|]. split; [get_param|]. split; [get_param|]. intros [=].
Qed.

(** Preparing parameters that only gained a signature gives them back. *)
Lemma v2_prepare_again cr t h r v :
  prepare cr t (QueryRequest h (obj_set (js "Signature") v (params (prepare cr t r)))) =
  QueryRequest h (params (prepare cr t r)).
Proof.
  destruct (v2_prepare_get cr t r) as (H1 & H2 & H3 & H4 & H5).
  assert (HP : obj_del (js "Signature") (params (prepare cr t r)) = params (prepare cr t r))
    by (unfold prepare; cbn [params]; apply obj_del_idem).
  revert H1 H2 H3 H4 H5 HP. generalize (params (prepare cr t r)). intros P H1 H2 H3 H4 H5 HP.
  assert (Hget : ∀ k w, obj_get k P = Some w → k ≠ js "Signature" →
    obj_set k w (obj_set (js "Signature") v P) = obj_set (js "Signature") v P).
  { intros k w Hg Hk. apply obj_set_same. by rewrite obj_get_set_other. }
  apply Hget in H1, H2, H3, H4; [|js_decide..].
  unfold prepare, set_param. cbn [http params]. rewrite H1, H2, H3, H4.
  destruct (truthy (session_token cr)); cbn [http params].
  - rewrite Hget; [by rewrite obj_del_set, HP|by apply H5|js_decide].
  - by rewrite obj_del_set, HP.
Qed.

Lemma v2_resign `{Crypto} cr t r r1 : addAuthorization cr t r = Some r1 → addAuthorization cr t r1 = Some r1.
Proof.
  unfold addAuthorization. set (p := prepare cr t r). destruct (signature cr p) as [sig|] eqn:Hsig; [|done].
  cbn [mbind option_bind]. destruct (queryParamsToString _) as [body|] eqn:Hb; [|done].
  cbn [mbind option_bind]. intros Hr. assert (r1 = QueryRequest
    (set_header (js "Content-Length") (JNum (num_of_Z (Z.of_nat (length body)))) (set_body body (http p)))
    (obj_set (js "Signature") (JStr sig) (params p))) as -> by (symmetry; by apply Some_inj).
  clear Hr. unfold p. rewrite v2_prepare_again. fold p.
  assert (Hs : ∀ h, hr_method h = hr_method (http p) → hr_endpoint h = hr_endpoint (http p) →
    pathname h = pathname (http p) → signature cr (QueryRequest h (params p)) = signature cr p).
  { intros h E1 E2 E3. unfold signature, stringToSign. cbn [http params]. by rewrite E1, E2, E3. }
  rewrite Hs, Hsig by done. cbn [mbind option_bind set_param params http] in Hb |- *. rewrite Hb.
  cbn [mbind option_bind]. do 2 f_equal.
  unfold set_header, set_body. cbn -[num_of_Z obj_set js]. f_equal.
  apply obj_set_same, obj_get_set_eq.
Qed.

End V2_facts.

Lemma str_eqb_sym s t : str_eqb s t = str_eqb t s.
Proof. unfold str_eqb. apply bool_decide_ext. naive_solver. Qed.

Module S3_facts.
Import S3.

(** The Authorization header is not part of the string to sign. *)
Lemma stringToSign_auth b v r :
  stringToSign b (set_header (js "Authorization") v r) = stringToSign b r.
Proof.
  assert (Hprop : ∀ k, k ≠ js "Authorization" →
    obj_prop (hr_headers (set_header (js "Authorization") v r)) k = obj_prop (hr_headers r) k)
    by (intros k Hk; unfold obj_prop; cbn [hr_headers set_header]; by rewrite obj_get_set_other).
  unfold stringToSign, canonicalizedAmzHeaders, header_or_empty. rewrite !Hprop by js_decide.
  cbn [hr_headers set_header]. rewrite filter_keys_set by reflexivity.
  assert (Hmap : ∀ l, Forall (λ n, is_amz_header n = true) l →
    amz_header_line (set_header (js "Authorization") v r) <$> l = amz_header_line r <$> l).
  { intros l Hl. apply list_fmap_ext. intros i n Hi. unfold amz_header_line. rewrite Hprop; [done|].
    intros ->. rewrite Forall_forall in Hl. apply list_elem_of_lookup_2, Hl in Hi. done. }
  rewrite Hmap; [done|]. rewrite (proj1 (sort_by_spec to_lower _)). apply Forall_forall. intros n Hn.
  by apply list_elem_of_In, filter_In in Hn as [_ Hn].
Qed.

Lemma s3_prepare_again cr t v r :
  prepare cr t (set_header (js "Authorization") v (prepare cr t r)) =
  set_header (js "Authorization") v (prepare cr t r).
Proof.
  unfold prepare. set (r0 := if truthy _ then r else _).
  destruct (add_token_get cr r0 expiresHeader) as [Htok Hexp]. specialize (Hexp ltac:(js_decide)).
  destruct (add_token_get cr r0 (js "X-Amz-Date")) as [_ Hdate]. specialize (Hdate ltac:(js_decide)).
  assert (He : obj_prop (hr_headers (set_header (js "Authorization") v (add_token cr r0))) expiresHeader =
    obj_prop (hr_headers r) expiresHeader).
  { unfold obj_prop. cbn [hr_headers set_header]. rewrite obj_get_set_other, Hexp by js_decide.
    unfold r0. destruct (truthy _); [done|]. cbn [hr_headers set_header].
    by rewrite obj_get_set_other by js_decide. }
  rewrite He. destruct (truthy (obj_prop (hr_headers r) expiresHeader)).
  - apply add_token_same. intros Ht. cbn [hr_headers set_header].
    rewrite obj_get_set_other by js_decide. by apply Htok.
  - rewrite set_header_same.
    + apply add_token_same. intros Ht. cbn [hr_headers set_header].
      rewrite obj_get_set_other by js_decide. by apply Htok.
    + cbn [hr_headers set_header]. rewrite obj_get_set_other, Hdate by js_decide.
      unfold r0. cbn [hr_headers set_header]. apply obj_get_set_eq.
Qed.

Lemma s3_resign `{LegacyCrypto} b cr t r r1 :
  addAuthorization b cr t r = Some r1 → addAuthorization b cr t r1 = Some r1.
Proof.
  unfold addAuthorization. destruct (stringToSign b (prepare cr t r)) as [s|] eqn:Hs; [|done].
  cbn [mbind option_bind]. intros Hr.
  assert (r1 = set_header (js "Authorization")
    (JStr (js "AWS " ++ cr_accessKeyId cr ++ js ":" ++ sign (cr_secretAccessKey cr) s)) (prepare cr t r)) as ->
    by (symmetry; by apply Some_inj).
  rewrite s3_prepare_again, stringToSign_auth, Hs. cbn [mbind option_bind]. f_equal.
  apply set_header_same. cbn [hr_headers set_header]. apply obj_get_set_eq.
Qed.

End S3_facts.

Module V3_facts.
Import V3.

(** Preparing a request that only gained the authorization header. *)
Lemma v3_prepare_again cr t v r :
  prepare cr t (set_header (js "X-Amzn-Authorization") v (prepare cr t r)) =
  set_header (js "X-Amzn-Authorization") v (prepare cr t r).
Proof.
  unfold prepare. set (r0 := set_header (js "X-Amz-Date") _ r).
  destruct (add_token_get cr r0 (js "X-Amz-Date")) as [Htok Hdate]. specialize (Hdate ltac:(js_decide)).
  rewrite (set_header_same (js "X-Amz-Date")).
  - apply add_token_same. intros Ht. cbn [hr_headers set_header].
    rewrite obj_get_set_other by js_decide. by apply Htok.
  - cbn [hr_headers set_header]. rewrite obj_get_set_other, Hdate by js_decide.
    unfold r0. cbn [hr_headers set_header]. apply obj_get_set_eq.
Qed.

Lemma https_resign `{Crypto} cr t r :
  https_addAuthorization cr t (https_addAuthorization cr t r) = https_addAuthorization cr t r.
Proof.
  unfold https_addAuthorization. rewrite v3_prepare_again. set (p := prepare cr t r).
  assert (Ha : ∀ v, https_authorization cr (set_header (js "X-Amzn-Authorization") v p) = https_authorization cr p).
  { intros v. unfold https_authorization, obj_prop. cbn [hr_headers set_header].
    by rewrite obj_get_set_other by js_decide. }
  rewrite Ha. apply set_header_same. cbn [hr_headers set_header]. apply obj_get_set_eq.
Qed.

End V3_facts.

(** Signing again at the same time changes nothing, for the signers V2, S3
    and V3Https: the signature they add is not part of what they sign, so a
    request that is signed twice is the request signed once. *)
Theorem resign_idempotent `{Crypto} `{LegacyCrypto} (cr : credentials) (t : Z) :
  (∀ r r1, V2.addAuthorization cr t r = Some r1 → V2.addAuthorization cr t r1 = Some r1) ∧
  (∀ bucket r r1, S3.addAuthorization bucket cr t r = Some r1 → S3.addAuthorization bucket cr t r1 = Some r1) ∧
  (∀ r, V3.https_addAuthorization cr t (V3.https_addAuthorization cr t r) = V3.https_addAuthorization cr t r).
Proof.
  split; [|split].
  - apply V2_facts.v2_resign.
  - intros bucket r r1. apply S3_facts.s3_resign.
  - apply V3_facts.https_resign.
Qed.

#[local] Instance legacy_sha256 : Crypto := concat_crypto.
#[local] Instance legacy_sha1 : LegacyCrypto := {| hmac_sha1 k d := k ++ d |}.

Lemma resign_idempotent_witness :
  ∃ r1, S3.addAuthorization (js "bucket") demo_creds 0 (demo_http demo_headers) = Some r1 ∧
    S3.addAuthorization (js "bucket") demo_creds 0 r1 = Some r1.
Proof.
  destruct (resign_idempotent demo_creds 0) as (_ & H & _).
  eexists. split; [vm_compute; reflexivity|]. apply (H (js "bucket") (demo_http demo_headers)).
  vm_compute. reflexivity.
Defined.

(** ** V3 signs its previous signature *)

Definition V3_header : jsstr := js "X-Amzn-Authorization".

(** The lines of [canonicalHeaders]. *)
Definition v3_lines (r : http_request) : list jsstr := V3.header_text r <$> V3.headersToSign r.

Lemma v3_lines_set r v :
  NoDup (hr_headers r).*1 → V3_header ∈ (hr_headers r).*1 →
  ∃ rest, v3_lines r ≡ₚ V3.header_text r V3_header :: rest ∧
    v3_lines (set_header V3_header v r) ≡ₚ V3.header_text (set_header V3_header v r) V3_header :: rest.
Proof.
  intros Hnd Hin. set (r' := set_header V3_header v r).
  assert (Hkeys : ∀ q, V3.headersToSign q ≡ₚ List.filter V3.is_signed (hr_headers q).*1).
  { intros q. unfold V3.headersToSign, own_keys. apply List_filter_perm. by rewrite own_props_perm. }
  assert (Hk : List.filter V3.is_signed (hr_headers r').*1 = List.filter V3.is_signed (hr_headers r).*1)
    by (unfold r'; cbn [hr_headers set_header]; by rewrite obj_set_keys).
  assert (Hin' : V3_header ∈ List.filter V3.is_signed (hr_headers r).*1)
    by (apply list_elem_of_In, filter_In; split; [by apply list_elem_of_In|reflexivity]).
  destruct (proj1 (elem_of_Permutation _ _) Hin') as [ks Hks].
  assert (Hnks : V3_header ∉ ks).
  { assert (Hn : NoDup (V3_header :: ks)); [|by apply NoDup_cons in Hn as [? _]].
    rewrite <- Hks. apply NoDup_ListNoDup, List.NoDup_filter. by apply NoDup_ListNoDup. }
  exists (V3.header_text r <$> ks). unfold v3_lines. split.
  - by rewrite Hkeys, Hks.
  - rewrite Hkeys, Hk, Hks, fmap_cons.
    replace (V3.header_text r' <$> ks) with (V3.header_text r <$> ks); [done|].
    apply list_fmap_ext. intros i k Hi.
    unfold V3.header_text, obj_prop, r'. cbn [hr_headers set_header]. rewrite obj_get_set_other; [done|].
    intros ->. by apply list_elem_of_lookup_2 in Hi.
Qed.

Lemma v3_prepare_NoDup cr t r : NoDup (hr_headers r).*1 → NoDup (hr_headers (V3.prepare cr t r)).*1.
Proof.
  intros Hnd. unfold V3.prepare, add_token. destruct (truthy _); cbn [hr_headers set_header];
    auto using obj_set_NoDup.
Qed.

Lemma unsign_NoDup r : NoDup (hr_headers r).*1 → NoDup (hr_headers (unsign r)).*1.
Proof. intros Hnd. unfold unsign. cbn [hr_headers delete_header]. auto using obj_del_NoDup. Qed.

(** Sorted lines without line breaks, compared through their text. *)
Lemma sorted_lines_eq l k :
  Forall (λ s, 10 ∉ s) l → Forall (λ s, 10 ∉ s) k → l ≠ [] → k ≠ [] →
  join [10] (sort_strings l) ++ [10] = join [10] (sort_strings k) ++ [10] ↔ l ≡ₚ k.
Proof.
  intros Hl Hk Nl Nk. split.
  - intros Heq. apply (inj (.++ [10])) in Heq. apply (f_equal (split_on 10)) in Heq.
    rewrite !split_join in Heq.
    + by rewrite <- (sort_strings_perm l), Heq, sort_strings_perm.
    + intros E. apply Nk. apply Permutation_nil. by rewrite <- (sort_strings_perm k), E.
    + by rewrite sort_strings_perm.
    + intros E. apply Nl. apply Permutation_nil. by rewrite <- (sort_strings_perm l), E.
    + by rewrite sort_strings_perm.
  - intros Hp. by rewrite (sort_strings_canonical l k).
Qed.

Lemma v3_stale_lines a1 a2 q :
  obj_get V3_header (hr_headers q) = Some (JStr a1) → NoDup (hr_headers q).*1 →
  V3_header ∈ (hr_headers q).*1 →
  Forall (λ l, 10 ∉ l) (v3_lines q) → Forall (λ l, 10 ∉ l) (v3_lines (set_header V3_header (JStr a2) q)) →
  V3.canonicalHeaders (set_header V3_header (JStr a2) q) = V3.canonicalHeaders q ↔ trim a2 = trim a1.
Proof.
  intros Hget Hnd Hin Hl1 Hl2. destruct (v3_lines_set q (JStr a2) Hnd Hin) as (rest & P1 & P2).
  unfold V3.canonicalHeaders. fold (v3_lines q) (v3_lines (set_header V3_header (JStr a2) q)).
  rewrite sorted_lines_eq; [|done|done|intros E; rewrite E in P2; by apply Permutation_nil_cons in P2
    |intros E; rewrite E in P1; by apply Permutation_nil_cons in P1].
  rewrite P1, P2. unfold V3.header_text, obj_prop. cbn [hr_headers set_header].
  rewrite obj_get_set_eq, Hget. cbn [default from_option id]. 
  change (to_string (JStr a1)) with a1. change (to_string (JStr a2)) with a2. split.
  - intros Hp. change (?x :: rest) with ([x] ++ rest) in Hp.
    apply (Permutation_app_inv_r rest [_] [_]), Permutation_length_1 in Hp. by do 2 apply (inj (app _)) in Hp.
  - by intros ->.
Qed.

(** A request signed again by V3 does not carry the signature of what it
    sends.  The listener SIGN removes the headers Authorization, Date and
    X-Amz-Date before a request is signed again, but V3 keeps its signature in
    X-Amzn-Authorization, and its rule for the headers to sign matches that
    name.  So the second signature signs the first one and then replaces it:
    what was signed and what is sent agree only if the two signatures are the
    same text. *)
Theorem v3_signs_stale_signature `{Crypto} (cr : credentials) (t t' : Z) (r : http_request) :
  NoDup (hr_headers r).*1 →
  let r1 := V3.addAuthorization cr t r in
  let signed := V3.prepare cr t' (unsign r1) in
  let r2 := V3.addAuthorization cr t' (unsign r1) in
  ∃ a1 a2, obj_prop (hr_headers r1) V3_header = JStr a1 ∧ obj_prop (hr_headers r2) V3_header = JStr a2 ∧
    r2 = set_header V3_header (JStr (V3.authorization cr signed)) signed ∧
    V3_header ∈ V3.headersToSign signed ∧
    (Forall (λ l, 10 ∉ l) (v3_lines signed) → Forall (λ l, 10 ∉ l) (v3_lines r2) →
     V3.canonicalHeaders r2 = V3.canonicalHeaders signed ↔ trim a2 = trim a1).
Proof.
  intros Hnd r1 signed r2.
  assert (Hr2 : r2 = set_header V3_header (JStr (V3.authorization cr signed)) signed) by reflexivity.
  set (a1 := V3.authorization cr (V3.prepare cr t r)).
  assert (Hget : obj_get V3_header (hr_headers signed) = Some (JStr a1)).
  { unfold signed, V3.prepare. rewrite (proj2 (add_token_get cr _ V3_header)) by js_decide.
    unfold unsign. cbn [hr_headers set_header delete_header].
    rewrite obj_get_set_other, !obj_get_del_other by js_decide. apply obj_get_set_eq. }
  assert (Hnd1 : NoDup (hr_headers signed).*1)
    by (apply v3_prepare_NoDup, unsign_NoDup, obj_set_NoDup, v3_prepare_NoDup, Hnd).
  assert (Hin : V3_header ∈ (hr_headers signed).*1) by (apply obj_get_elem; by eexists).
  exists a1, (V3.authorization cr signed). split; [|split; [|split; [done|split]]].
  - unfold obj_prop, r1, V3.addAuthorization. cbn [hr_headers set_header]. by rewrite obj_get_set_eq.
  - rewrite Hr2. unfold obj_prop. cbn [hr_headers set_header]. by rewrite obj_get_set_eq.
  - unfold V3.headersToSign, own_keys. apply list_elem_of_In, filter_In. split; [|reflexivity].
    apply list_elem_of_In. by rewrite own_props_perm.
  - rewrite Hr2. revert Hget Hnd1 Hin. generalize (V3.authorization cr signed) signed a1.
    intros a2 q b Hget Hnd1 Hin Hl1 Hl2. by apply v3_stale_lines.
Qed.

Lemma v3_signs_stale_signature_witness :
  let r1 := V3.addAuthorization demo_creds 0 (demo_http demo_headers) in
  V3.canonicalHeaders (V3.addAuthorization demo_creds 1000 (unsign r1)) ≠
  V3.canonicalHeaders (V3.prepare demo_creds 1000 (unsign r1)).
Proof.
  intros r1.
  destruct (v3_signs_stale_signature demo_creds 0 1000 (demo_http demo_headers)) as (a1 & a2 & H1 & H2 & _ & _ & Hiff).
  - js_decide.
  - intros Heq. apply Hiff in Heq; [|js_decide|js_decide].
    assert (E1 : JStr a1 = obj_prop (hr_headers r1) V3_header) by (symmetry; exact H1).
    assert (E2 : JStr a2 = obj_prop (hr_headers (V3.addAuthorization demo_creds 1000 (unsign r1))) V3_header)
      by (symmetry; exact H2).
    vm_compute in E1, E2. injection E1 as ->. injection E2 as ->. vm_compute in Heq. discriminate Heq.
Defined.
