(* ===== verification/ParamValidator.v ===== *)
(** * Parameter validation

    [AWS.ParamValidator] (dist/index.js 17519-17784): the check of an
    operation's parameters against its input shape.

    A shape refers to its members by what they are created from, and a table gives
    the shape of each; recursive shapes are cycles of the table.  The
    validator only ever appends to [this.errors], so a check is the list of the
    errors it appends and the exception that ends it, if any.  Parameters are
    the values of [jsval]; Date objects, buffers, streams and typed arrays are
    not among them. *)

From stdpp Require Import base sets strings list.
From Stdlib Require Import ZArith Lia.
From S2P Require Import Prelude JsValue Json JsDate AwsError SignersLegacy.

Local Open Scope Z_scope.

(** ** Shapes *)

(** A shape is known by the description it is created from and the name of the
    member it is created for, empty when it is not a member. *)
Abbreviation shape_id := (jsobj * jsstr)%type.
Definition no_shape : shape_id := ([], []).

(** What only the XML, JSON and REST protocols read of a shape; empty names are
    properties that are not set.  [xmlOrder] has the names of the members in
    document order. *)
Record xml_traits := XmlTraits {
  x_isXmlAttribute : bool;
  x_namespaceUri : jsstr;
  x_namespacePrefix : jsstr;
  x_resultWrapper : jsstr;
  x_memberNames : list jsstr;
  x_isLocationName : bool;
}.
Definition no_xml : xml_traits := XmlTraits false [] [] [] [] false.

Record shape := MkShape {
  s_type : option jsstr;
  s_required : list jsstr;
  s_members : list (jsstr * shape_id);
  s_member : shape_id;
  s_key : shape_id;
  s_value : shape_id;
  s_enum : option (list jsval);
  s_min : option jsnum;
  s_max : option jsnum;
  s_pattern : option jsstr;
  s_location : jsval;
  s_isJsonValue : bool;
  s_name : jsstr;
  s_isQueryName : bool;
  s_flattened : bool;
  s_timestampFormat : jsstr;
  s_hostLabel : bool;
  s_xml : xml_traits;
}.

(** A function or a prototype read as a shape: it has none of the properties. *)
Definition bare_shape : shape := MkShape None [] [] no_shape no_shape no_shape None None None None JUndef false [] false false [] false no_xml.

(** [shape.members[name]]: an own member, or what the name inherits from
    Object.prototype. *)
Definition member_shape (table : shape_id → shape) (s : shape) (name : jsstr) : option shape :=
  match obj_get name (s_members s) with
  | Some id => Some (table id)
  | None => if str_mem name object_prototype then Some bare_shape else None
  end.

(** ** Values *)

Definition js_typeof (v : jsval) : jsstr :=
  match v with
  | JUndef => js "undefined"
  | JNull | JArr _ | JObj _ => js "object"
  | JBool _ => js "boolean"
  | JNum _ => js "number"
  | JStr _ => js "string"
  end.

Definition nullish (v : jsval) : bool := match v with JUndef | JNull => true | _ => false end.

(** The own enumerable properties of a value. *)
Definition entries (v : jsval) : list (jsstr * jsval) :=
  match v with
  | JObj o => own_props o
  | JArr l => imap (λ i x, (Z_to_str (Z.of_nat i), x)) l
  | JStr s => imap (λ i c, (Z_to_str (Z.of_nat i), JStr [c])) s
  | _ => []
  end.

(** [v.length]. *)
Definition js_length (v : jsval) : jsval :=
  match v with
  | JStr s => JNum (num_of_Z (Z.of_nat (length s)))
  | JArr l => JNum (num_of_Z (Z.of_nat (length l)))
  | JObj o => obj_prop o (js "length")
  | _ => JUndef
  end.

(** [v[name]] of a value that is neither null nor undefined. *)
Definition js_prop (v : jsval) (name : jsstr) : jsval :=
  if str_eqb name (js "length") then js_length v else default JUndef (obj_get name (entries v)).

Fixpoint take_digits (s : jsstr) : jsstr * jsstr :=
  match s with
  | c :: s' => if is_digit c then let '(d, r) := take_digits s' in (c :: d, r) else ([], s)
  | [] => ([], [])
  end.

Definition parse_exponent (s : jsstr) : Z :=
  match s with
  | c :: s' =>
    if Z.eqb c 101 || Z.eqb c 69 then
      match s' with
      | 45 :: s'' => - dec_value 0 (take_digits s'').1
      | 43 :: s'' => dec_value 0 (take_digits s'').1
      | _ => dec_value 0 (take_digits s').1
      end
    else 0
  | [] => 0
  end.

(** [parseFloat(s)]: the longest prefix that is a decimal literal. *)
Definition parseFloat (s : jsstr) : jsnum :=
  let s := trim_start s in
  let '(sign, s) :=
    match s with 45 :: s' => (-1, s') | 43 :: s' => (1, s') | _ => (1, s) end in
  if starts_with (js "Infinity") s then NumInf (Z.ltb sign 0)
  else
    let '(whole, s) := take_digits s in
    let '(frac, s) := match s with 46 :: s' => take_digits s' | _ => ([], s) end in
    if Nat.eqb (length whole + length frac) 0 then NumNaN
    else num_dec (sign * dec_value 0 (whole ++ frac)) (parse_exponent s - Z.of_nat (length frac)).

(** [/^\d{4}-\d{2}-\d{2}T\d{2}:\d{2}:\d{2}(\.\d+)?Z$/]. *)
Definition iso_timestamp (s : jsstr) : bool :=
  let date := [Num 4; Lit (js "-"); Num 2; Lit (js "-"); Num 2; Lit (js "T"); Num 2; Lit (js ":"); Num 2;
               Lit (js ":"); Num 2] in
  (match read_pieces date (take 19 s) with Some _ => true | None => false end) &&
  match drop 19 s with
  | 46 :: rest =>
    let '(ds, rest) := take_digits rest in negb (Nat.eqb (length ds) 0) && str_eqb rest (js "Z")
  | rest => str_eqb rest (js "Z")
  end.

(** ** Checks *)

Definition checks : Type := list aws_error * option jserror.

Definition ok : checks := ([], None).

(** [c; d]. *)
Definition also (c d : checks) : checks :=
  match c with
  | (es, Some e) => (es, Some e)
  | (es, None) => (es ++ d.1, d.2)
  end.

Fixpoint each_check {A} (f : A → checks) (l : list A) : checks :=
  match l with [] => ok | x :: l' => also (f x) (each_check f l') end.

Section validator.
Context (now : Z).   (* the time of errors *)
Context (regex_test : jsstr → jsstr → bool).   (* [new RegExp(pattern).test(s)] *)
Context (table : shape_id → shape).

(** The features of the validator: [true] and [undefined] stand for [{min: true}]. *)
Record validation := Validation {
  v_min : bool;
  v_max : bool;
  v_pattern : bool;
  v_enum : bool;
}.

Definition new_ParamValidator (v : jsval) : validation :=
  match v with
  | JUndef | JBool true => Validation true false false false
  | JObj o =>
    Validation (truthy (obj_prop o (js "min"))) (truthy (obj_prop o (js "max")))
      (truthy (obj_prop o (js "pattern"))) (truthy (obj_prop o (js "enum")))
  | _ => Validation false false false false
  end.

Context (validation : validation).

Definition fail (code message : jsstr) : checks :=
  ([util_error now (new_Error message JUndef) (ObjectOptions [(js "code", JStr code)])], None).

(** [acceptedTypes.join(', ').replace(/,([^,]+)$/, ', or$1')]. *)
Definition or_list (types : list jsstr) : jsstr :=
  match reverse types with
  | last :: ((_ :: _) as front) => join (js ", ") (reverse front) ++ js ", or " ++ last
  | _ => join (js ", ") types
  end.

(** [a.match(/^[aeiou]/i) ? 'n' : '']. *)
Definition vowel (s : jsstr) : jsstr :=
  match to_lower s with
  | c :: _ => if existsb (Z.eqb c) (js "aeiou") then js "n" else []
  | [] => []
  end.

Definition type_error (context acceptedType : jsstr) : checks :=
  fail (js "InvalidParameterType")
    (js "Expected " ++ context ++ js " to be a" ++ vowel acceptedType ++ js " " ++ acceptedType).

(** The tests [validateType] is called with. *)
Inductive accepted :=
| TypeOf (t : jsstr)
| IsArray
| IsDate
| IsoString.

Definition accepts (v : jsval) (a : accepted) : bool :=
  match a with
  | TypeOf t => str_eqb (js_typeof v) t
  | IsArray => match v with JArr _ => true | _ => false end
  | IsDate => false
  | IsoString => iso_timestamp (to_string (js_or v (JStr [])))
  end.

Definition accepted_name (a : accepted) : jsstr :=
  match a with TypeOf t => t | IsArray => js "Array" | IsDate => js "Date" | IsoString => [] end.

(** [validateType(value, context, acceptedTypes, type)]: its answer, and the
    error it may append. *)
Definition validateType (value : jsval) (context : jsstr) (types : list accepted) (type : option jsstr) :
    bool * checks :=
  if nullish value then (false, ok)
  else if existsb (accepts value) types then (true, ok)
  else (false, type_error context (default (or_list (accepted_name <$> types)) type)).

Definition validateRange (s : shape) (value : jsval) (context descriptor : jsstr) : checks :=
  also
    (match s_min s with
     | Some m =>
       if v_min validation && num_ltb (cmp_num value) m
       then fail (js "MinRangeError") (js "Expected " ++ descriptor ++ js " >= " ++ num_to_str m ++
              js ", but found " ++ to_string value ++ js " for " ++ context) else ok
     | None => ok
     end)
    (match s_max s with
     | Some m =>
       if v_max validation && num_ltb m (cmp_num value)
       then fail (js "MaxRangeError") (js "Expected " ++ descriptor ++ js " <= " ++ num_to_str m ++
              js ", but found " ++ to_string value ++ js " for " ++ context) else ok
     | None => ok
     end).

Definition validateEnum (s : shape) (value : jsval) (context : jsstr) : checks :=
  match s_enum s with
  | Some l =>
    if v_enum validation && negb (bool_decide (value ∈ l))
    then fail (js "EnumError") (js "Found string value of " ++ to_string value ++ js ", but expected " ++
           join (js "|") (to_string <$> l) ++ js " for " ++ context) else ok
  | None => ok
  end.

Definition validatePattern (s : shape) (value : jsval) (context : jsstr) : checks :=
  match s_pattern s with
  | Some p =>
    if v_pattern validation && negb (regex_test p (to_string value))
    then fail (js "PatternMatchError") (js "Provided value " ++ [34] ++ to_string value ++ [34] ++
           js " does not match regex pattern /" ++ p ++ js "/ for " ++ context) else ok
  | None => ok
  end.

Definition validateUri (s : shape) (value : jsval) (context : jsstr) : checks :=
  if is_str (js "uri") (s_location s) && bool_decide (js_length value = JNum (num_of_Z 0))
  then fail (js "UriParameterError") (js "Expected uri parameter to have length >= 1, but found " ++ [34] ++
         to_string value ++ [34] ++ js " for " ++ context) else ok.

Definition validateString (s : shape) (value : jsval) (context : jsstr) : checks :=
  let validTypes :=
    TypeOf (js "string") ::
    (if s_isJsonValue s then [TypeOf (js "number"); TypeOf (js "object"); TypeOf (js "boolean")] else []) in
  match value with
  | JNull => ok
  | _ =>
    let '(valid, c) := validateType value context validTypes None in
    also c (if valid then
      also (validateEnum s value context)
        (also (validateRange s (js_length value) context (js "string length"))
          (also (validatePattern s value context) (validateUri s value context)))
      else ok)
  end.

Definition validateNumber (s : shape) (value : jsval) (context : jsstr) : checks :=
  if nullish value then ok
  else
    let value :=
      match value with
      | JStr t => if str_eqb (num_to_str (parseFloat t)) t then JNum (parseFloat t) else value
      | _ => value
      end in
    let '(valid, c) := validateType value context [TypeOf (js "number")] None in
    also c (if valid then validateRange s value context (js "numeric value") else ok).

(** [str.match(/^\s*function (.+)\(/)]: the text up to the last parenthesis of
    the line. *)
Definition is_line_end (c : Z) : bool := Z.eqb c 10 || Z.eqb c 13 || Z.eqb c 8232 || Z.eqb c 8233.
Fixpoint line_of (s : jsstr) : jsstr :=
  match s with [] => [] | c :: s' => if is_line_end c then [] else c :: line_of s' end.
Definition function_name (s : jsstr) : option jsstr :=
  let s := trim_start s in
  if starts_with (js "function ") s then
    match drop_while (λ c, negb (Z.eqb c 40)) (reverse (line_of (drop 9 s))) with
    | _ :: ((_ :: _) as name) => Some (reverse name)
    | _ => None
    end
  else None.

(** [AWS.util.typeName(v)] of a value that is not a function. *)
Definition typeName (v : jsval) : jsval :=
  match (match v with JObj o => obj_get (js "name") o | _ => None end) with
  | Some name => name
  | None => JStr (default (to_string v) (function_name (to_string v)))
  end.

Definition payload_types : list jsstr :=
  [js "Buffer"; js "Stream"; js "File"; js "Blob"; js "ArrayBuffer"; js "DataView"].

Definition payload_error (context : jsstr) : checks :=
  fail (js "InvalidParameterType")
    (js "Expected " ++ context ++ js " to be a string, Buffer, Stream, Blob, or typed array object").

(** The constructor of a value is a function of another name, unless the value
    has an own property [constructor]. *)
Definition validatePayload (value : jsval) (context : jsstr) : checks :=
  match value with
  | JUndef | JNull | JStr _ => ok
  | JObj o =>
    if str_eqb (js_typeof (obj_prop o (js "byteLength"))) (js "number") then ok
    else match obj_get (js "constructor") o with
    | Some c =>
      if nullish c
      then ([], Some (mk_error (js "TypeError") (js "Cannot convert undefined or null to object")))
      else if existsb (λ t, bool_decide (typeName c = JStr t)) payload_types then ok
      else payload_error context
    | None => payload_error context
    end
  | _ => payload_error context
  end.

Definition validateScalar (s : shape) (value : jsval) (context : jsstr) : checks :=
  match s_type s with
  | None => validateString s value context
  | Some t =>
    if str_eqb t (js "string") then validateString s value context
    else if str_eqb t (js "base64") || str_eqb t (js "binary") then validatePayload value context
    else if str_eqb t (js "integer") || str_eqb t (js "float") then validateNumber s value context
    else if str_eqb t (js "boolean") then (validateType value context [TypeOf (js "boolean")] None).2
    else if str_eqb t (js "timestamp") then
      (validateType value context [IsDate; IsoString; TypeOf (js "number")]
         (Some (js "Date object, ISO-8601 string, or a UNIX timestamp"))).2
    else fail (js "UnkownType") (js "Unhandled type " ++ t ++ js " for " ++ context)
  end.

(** The first loop of [validateStructure]: reading a property of null or
    undefined throws. *)
Definition validateRequired (s : shape) (params : jsval) (context : jsstr) : checks :=
  each_check (λ name,
    if nullish params
    then ([], Some (mk_error (js "TypeError") (js "Cannot read property '" ++ name ++ js "' of " ++ to_string params)))
    else if nullish (js_prop params name)
    then fail (js "MissingRequiredParameter") (js "Missing required key '" ++ name ++ js "' in " ++ context)
    else ok) (s_required s).

Definition has_type (s : shape) (t : jsstr) : bool := bool_decide (s_type s = Some t).

(** [validateMember] with the three composite cases.  The recursion follows the
    value; out of fuel is the exhaustion of the call stack. *)
Fixpoint validateMember (fuel : nat) (s : shape) (param : jsval) (context : jsstr) : checks :=
  match fuel with
  | O => ([], Some (mk_error (js "RangeError") (js "Maximum call stack size exceeded")))
  | S fuel =>
    if has_type s (js "structure") then
      also (validateType param context [TypeOf (js "object")] (Some (js "structure"))).2
        (also (validateRequired s param context)
          (each_check (λ kv : jsstr * jsval,
             match member_shape table s kv.1 with
             | Some m => validateMember fuel m kv.2 (context ++ js "." ++ kv.1)
             | None =>
               if nullish kv.2 then ok
               else fail (js "UnexpectedParameter") (js "Unexpected key '" ++ kv.1 ++ js "' found in " ++ context)
             end) (entries param)))
    else if has_type s (js "list") then
      let '(valid, c) := validateType param context [IsArray] None in
      also c (if valid then
        also (validateRange s (js_length param) context (js "list member count"))
          (each_check (λ kv : jsstr * jsval,
             validateMember fuel (table (s_member s)) kv.2 (context ++ js "[" ++ kv.1 ++ js "]")) (entries param))
        else ok)
    else if has_type s (js "map") then
      let '(valid, c) := validateType param context [TypeOf (js "object")] (Some (js "map")) in
      also c (if valid then
        also (each_check (λ kv : jsstr * jsval,
                also (validateMember fuel (table (s_key s)) (JStr kv.1) (context ++ js "[key='" ++ kv.1 ++ js "']"))
                  (validateMember fuel (table (s_value s)) kv.2 (context ++ js "['" ++ kv.1 ++ js "']")))
                (entries param))
          (validateRange s (JNum (num_of_Z (Z.of_nat (length (entries param))))) context (js "map member count"))
        else ok)
    else validateScalar s param context
  end.

Definition MultipleValidationErrors (es : list aws_error) : aws_error :=
  let line e := to_string (e_name e) ++ js ": " ++ to_string (e_message e) in
  let msg := js "There were " ++ Z_to_str (Z.of_nat (length es)) ++ js " validation errors:" ++ [10] ++ js "* " ++
             join ([10] ++ js "* ") (line <$> es) in
  util_error now (new_Error msg JUndef) (ObjectOptions [(js "code", JStr (js "MultipleValidationErrors"))]).

(** What [validate] throws: an exception of the check itself, or its errors. *)
Inductive verdict :=
| Valid
| Invalid (e : aws_error) (errors : list aws_error)
| Thrown (e : jserror).

Definition validate (fuel : nat) (s : shape) (params : jsval) (context : option jsstr) : verdict :=
  match validateMember fuel s (js_or params (JObj [])) (default (js "params") context) with
  | (_, Some e) => Thrown e
  | ([], None) => Valid
  | ([e], None) => Invalid e [e]
  | (es, None) => Invalid (MultipleValidationErrors es) es
  end.

End validator.

(** ** Checks that pass *)

Lemma also_ok c d : also c d = ok ↔ c = ok ∧ d = ok.
Proof.
  unfold also, ok. destruct c as [es [e|]]; [naive_solver|]. destruct d as [ds x]. simpl. split.
  - intros [= H ->]. apply app_nil in H as [-> ->]. done.
  - intros [[= ->] [= -> ->]]. done.
Qed.

Lemma each_check_ok {A} (f : A → checks) l : each_check f l = ok ↔ ∀ x, x ∈ l → f x = ok.
Proof.
  induction l as [|x l IH]; simpl; [split; [by intros _ ? ?%not_elem_of_nil|done]|].
  rewrite also_ok, IH. setoid_rewrite elem_of_cons. naive_solver.
Qed.

Lemma fail_not_ok now code msg : fail now code msg ≠ ok.
Proof. done. Qed.

Lemma if_fail_ok now (b : bool) code msg : (if b then fail now code msg else ok) = ok ↔ b = false.
Proof. destruct b; [|done]. split; [|done]. intros H. by apply fail_not_ok in H. Qed.

(** ** The typing relation of shapes *)

Section conformance.
Context (now : Z) (regex_test : jsstr → jsstr → bool) (table : shape_id → shape) (vd : validation).

(** A number within the bounds that are checked. *)
Definition in_range (s : shape) (v : jsval) : Prop :=
  (∀ m, s_min s = Some m → v_min vd = true → num_ltb (cmp_num v) m = false) ∧
  (∀ m, s_max s = Some m → v_max vd = true → num_ltb m (cmp_num v) = false).

Definition string_conforms (s : shape) (v : jsval) : Prop :=
  nullish v = true ∨
  ((is_Some (match v with JStr x => Some x | _ => None end) ∨ s_isJsonValue s = true) ∧
   (∀ l, s_enum s = Some l → v_enum vd = true → v ∈ l) ∧
   in_range s (js_length v) ∧
   (∀ p, s_pattern s = Some p → v_pattern vd = true → regex_test p (to_string v) = true) ∧
   (s_location s = JStr (js "uri") → js_length v ≠ JNum (num_of_Z 0))).

(** A number, or a string that is the text of one. *)
Definition number_of (v : jsval) : option jsnum :=
  match v with
  | JNum n => Some n
  | JStr t => if str_eqb (num_to_str (parseFloat t)) t then Some (parseFloat t) else None
  | _ => None
  end.

Definition number_conforms (s : shape) (v : jsval) : Prop :=
  nullish v = true ∨ ∃ n, number_of v = Some n ∧ in_range s (JNum n).

(** Text, or an object that looks like a buffer: of numeric byteLength, or with
    an own constructor of one of the names. *)
Definition payload_conforms (v : jsval) : Prop :=
  nullish v = true ∨ (∃ x, v = JStr x) ∨
  ∃ o, v = JObj o ∧
    ((∃ n, obj_prop o (js "byteLength") = JNum n) ∨
     ∃ c t, obj_get (js "constructor") o = Some c ∧ nullish c = false ∧ t ∈ payload_types ∧ typeName c = JStr t).

Definition scalar_conforms (s : shape) (v : jsval) : Prop :=
  match s_type s with
  | None => string_conforms s v
  | Some t =>
    if str_eqb t (js "string") then string_conforms s v
    else if str_eqb t (js "base64") || str_eqb t (js "binary") then payload_conforms v
    else if str_eqb t (js "integer") || str_eqb t (js "float") then number_conforms s v
    else if str_eqb t (js "boolean") then nullish v = true ∨ ∃ b, v = JBool b
    else if str_eqb t (js "timestamp")
    then nullish v = true ∨ (∃ n, v = JNum n) ∨ iso_timestamp (to_string (js_or v (JStr []))) = true
    else False
  end.

Definition is_object (v : jsval) : Prop := match v with JArr _ | JObj _ => True | _ => False end.
Definition is_array (v : jsval) : Prop := match v with JArr _ => True | _ => False end.

Inductive conforms : shape → jsval → Prop :=
| conforms_structure s v :
    s_type s = Some (js "structure") →
    is_object v ∨ (nullish v = true ∧ s_required s = []) →
    (∀ name, name ∈ s_required s → nullish (js_prop v name) = false) →
    (∀ k x m, (k, x) ∈ entries v → member_shape table s k = Some m → conforms m x) →
    (∀ k x, (k, x) ∈ entries v → member_shape table s k = None → nullish x = true) →
    conforms s v
| conforms_list s v :
    s_type s = Some (js "list") →
    nullish v = true ∨ (is_array v ∧ in_range s (js_length v)) →
    (∀ k x, (k, x) ∈ entries v → conforms (table (s_member s)) x) →
    conforms s v
| conforms_map s v :
    s_type s = Some (js "map") →
    nullish v = true ∨ (is_object v ∧ in_range s (JNum (num_of_Z (Z.of_nat (length (entries v)))))) →
    (∀ k x, (k, x) ∈ entries v → conforms (table (s_key s)) (JStr k)) →
    (∀ k x, (k, x) ∈ entries v → conforms (table (s_value s)) x) →
    conforms s v
| conforms_scalar s v :
    s_type s ≠ Some (js "structure") → s_type s ≠ Some (js "list") → s_type s ≠ Some (js "map") →
    scalar_conforms s v → conforms s v.

Lemma validateRange_ok s v ctx d : validateRange now vd s v ctx d = ok ↔ in_range s v.
Proof.
  unfold validateRange, in_range. rewrite also_ok. f_equiv.
  - destruct (s_min s) as [m|]; [|naive_solver]. rewrite if_fail_ok, andb_false_iff.
    destruct (v_min vd); naive_solver.
  - destruct (s_max s) as [m|]; [|naive_solver]. rewrite if_fail_ok, andb_false_iff.
    destruct (v_max vd); naive_solver.
Qed.

(** [validateType] appends nothing exactly when the value is absent or of one of
    the types. *)
Lemma validateType_spec v ctx types t :
  (validateType now v ctx types t).1 = negb (nullish v) && existsb (accepts v) types ∧
  ((validateType now v ctx types t).2 = ok ↔ nullish v = true ∨ existsb (accepts v) types = true).
Proof.
  unfold validateType, type_error. destruct (nullish v); [naive_solver|].
  destruct (existsb (accepts v) types); [naive_solver|]. split; [done|]. split; [|naive_solver].
  intros H. by apply fail_not_ok in H.
Qed.

Lemma string_types s v :
  nullish v = false →
  existsb (accepts v) (TypeOf (js "string") ::
    (if s_isJsonValue s then [TypeOf (js "number"); TypeOf (js "object"); TypeOf (js "boolean")] else [])) = true ↔
  is_Some (match v with JStr x => Some x | _ => None end) ∨ s_isJsonValue s = true.
Proof.
  intros Hn. destruct (s_isJsonValue s), v; try discriminate Hn; cbn; split; intros H; try (by right);
    try (left; by eexists); try done; by destruct H as [[? [=]]|[=]].
Qed.

Lemma validateString_ok s v ctx : validateString now regex_test vd s v ctx = ok ↔ string_conforms s v.
Proof.
  unfold string_conforms. destruct (nullish v) eqn:Hn.
  { split; [by left|]. intros _. by destruct v. }
  assert (Hv : validateString now regex_test vd s v ctx =
    let '(valid, c) := validateType now v ctx (TypeOf (js "string") ::
      (if s_isJsonValue s then [TypeOf (js "number"); TypeOf (js "object"); TypeOf (js "boolean")] else [])) None in
    also c (if valid then
      also (validateEnum now vd s v ctx)
        (also (validateRange now vd s (js_length v) ctx (js "string length"))
          (also (validatePattern now regex_test vd s v ctx) (validateUri now s v ctx))) else ok))
    by (by destruct v).
  rewrite Hv. set (types := _ :: _). destruct (validateType_spec v ctx types None) as [H1 H2].
  destruct (validateType now v ctx types None) as [valid c]. cbn [fst snd] in H1, H2. rewrite Hn in H1, H2. cbn [negb andb] in H1.
  rewrite also_ok, H2. subst valid types. rewrite (string_types s v Hn). split.
  - intros [[?|Ht] Hrest]; [done|]. right. pose proof Ht as Hb. rewrite <- string_types in Hb by done.
    rewrite Hb, !also_ok, validateRange_ok in Hrest. destruct Hrest as (He & Hr & Hp & Hu). split_and!; try done.
    + intros l Hl Hve. unfold validateEnum in He. rewrite Hl, if_fail_ok, Hve in He. simpl in He.
      apply negb_false_iff, bool_decide_eq_true in He. done.
    + intros q Hq Hvp. unfold validatePattern in Hp. rewrite Hq, if_fail_ok, Hvp in Hp. simpl in Hp.
      by apply negb_false_iff in Hp.
    + intros Hl Hz. unfold validateUri in Hu. rewrite if_fail_ok, Hl in Hu. cbn [is_str] in Hu.
      rewrite str_eqb_refl, bool_decide_true in Hu by done. discriminate Hu.
  - intros [?|(Ht & He & Hr & Hp & Hu)]; [done|]. split; [by right|]. rewrite <- string_types in Ht by done.
    rewrite Ht, !also_ok, validateRange_ok. split_and!; [|done| |].
    + unfold validateEnum. destruct (s_enum s) as [l|]; [|done]. apply if_fail_ok.
      destruct (v_enum vd); [|done]. simpl. rewrite bool_decide_true; [done|]. by apply He.
    + unfold validatePattern. destruct (s_pattern s) as [q|]; [|done]. apply if_fail_ok.
      destruct (v_pattern vd); [|done]. simpl. by rewrite (Hp q).
    + unfold validateUri. apply if_fail_ok. destruct (is_str (js "uri") (s_location s)) eqn:Hl; [|done].
      apply bool_decide_false, Hu. destruct (s_location s); try done. simpl in Hl.
      by apply str_eqb_eq in Hl as <-.
Qed.

Lemma validateNumber_ok s v ctx : validateNumber now vd s v ctx = ok ↔ number_conforms s v.
Proof.
  unfold validateNumber, number_conforms. destruct (nullish v) eqn:Hn; [naive_solver|].
  set (w := match v with JStr t => _ | _ => v end).
  assert (Hw : nullish w = false ∧ (existsb (accepts w) [TypeOf (js "number")] = true ↔ ∃ n, w = JNum n) ∧
    ∀ n, number_of v = Some n ↔ w = JNum n).
  { unfold w, number_of. destruct v; try discriminate Hn; cbn; repeat case_match; naive_solver. }
  clearbody w. destruct Hw as (Hnw & Hacc & Hnum).
  destruct (validateType_spec w ctx [TypeOf (js "number")] None) as [H1 H2].
  destruct (validateType now w ctx _ None) as [valid c]. cbn [fst snd] in H1, H2. rewrite Hnw in H1, H2.
  rewrite also_ok, H2. rewrite Hacc. cbn [negb andb] in H1. subst valid. split.
  - intros [[?|[n ->]] Hr]; [done|]. right. exists n. split; [by apply Hnum|].
    by rewrite (proj2 Hacc ltac:(eauto)), validateRange_ok in Hr.
  - intros [?|(n & ->%Hnum & Hr)]; [done|]. split; [right; eauto|].
    by rewrite (proj2 Hacc ltac:(eauto)), validateRange_ok.
Qed.

Lemma payload_error_ok ctx : payload_error now ctx = ok ↔ False.
Proof. split; [|done]. intros H. by apply fail_not_ok in H. Qed.

Lemma validatePayload_ok v ctx : validatePayload now v ctx = ok ↔ payload_conforms v.
Proof.
  unfold payload_conforms. destruct v as [| |b|n|x|l|o]; cbn [validatePayload nullish]; rewrite ?payload_error_ok;
    try (split; [by left|done]); try (split; [done|]; intros [[=]|[[? [=]]|(? & [=] & _)]]).
  { split; [right; left; by eexists|done]. }
  assert (Hnum : str_eqb (js_typeof (obj_prop o (js "byteLength"))) (js "number") = true ↔
    ∃ n, obj_prop o (js "byteLength") = JNum n).
  { destruct (obj_prop o (js "byteLength")); split; try done; try (by intros [? [=]]). by eexists. }
  assert (Hmem : ∀ c, existsb (λ t, bool_decide (typeName c = JStr t)) payload_types = true ↔
    ∃ t, t ∈ payload_types ∧ typeName c = JStr t).
  { intros c. rewrite existsb_exists. f_equiv. intros t. by rewrite list_elem_of_In, bool_decide_eq_true. }
  destruct (str_eqb _ (js "number")).
  { split; [|done]. intros _. right; right. exists o. split; [done|]. left. by apply Hnum. }
  destruct (obj_get (js "constructor") o) as [c|] eqn:Hg; [destruct (nullish c) eqn:Hn|].
  - split; [done|]. intros [[=]|[[? [=]]|(o' & [= <-] & [H%Hnum|(c' & t & Hc & H & _)])]]; [done|].
    rewrite Hg in Hc. congruence.
  - specialize (Hmem c). destruct (existsb _ _).
    + split; [|done]. intros _. right; right. exists o. split; [done|]. right.
      destruct (proj1 Hmem eq_refl) as (t & ? & ?). exists c, t. done.
    + rewrite payload_error_ok. split; [done|].
      intros [[=]|[[? [=]]|(o' & [= <-] & [H%Hnum|(c' & t & Hc & _ & Ht & Htn)])]]; [done|].
      rewrite Hg in Hc. injection Hc as <-. by discriminate (proj2 Hmem ltac:(eauto)).
  - rewrite payload_error_ok. split; [done|].
    intros [[=]|[[? [=]]|(o' & [= <-] & [H%Hnum|(c' & t & Hc & _)])]]; congruence.
Qed.

Lemma validateScalar_ok s v ctx : validateScalar now regex_test vd s v ctx = ok ↔ scalar_conforms s v.
Proof.
  unfold validateScalar, scalar_conforms. destruct (s_type s) as [t|]; [|apply validateString_ok].
  destruct (str_eqb t (js "string")); [apply validateString_ok|].
  destruct (str_eqb t (js "base64") || str_eqb t (js "binary")); [apply validatePayload_ok|].
  destruct (str_eqb t (js "integer") || str_eqb t (js "float")); [apply validateNumber_ok|].
  destruct (str_eqb t (js "boolean")).
  { rewrite (proj2 (validateType_spec _ _ _ _)). f_equiv. by destruct v; cbn; naive_solver. }
  destruct (str_eqb t (js "timestamp")).
  { rewrite (proj2 (validateType_spec _ _ _ _)). f_equiv. cbn [existsb accepts]. 
    rewrite orb_false_r, !orb_true_iff. destruct v; cbn -[iso_timestamp to_string js_or]; naive_solver. }
  split; [|done]. intros H. by apply fail_not_ok in H.
Qed.

(** ** Composite shapes *)

Lemma has_type_spec s t : has_type s t = true ↔ s_type s = Some t.
Proof. unfold has_type. by rewrite bool_decide_eq_true. Qed.

Lemma object_types v : existsb (accepts v) [TypeOf (js "object")] = true ∧ nullish v = false ↔ is_object v.
Proof. destruct v; cbn; naive_solver. Qed.

Lemma array_types v : existsb (accepts v) [IsArray] = true ∧ nullish v = false ↔ is_array v.
Proof. destruct v; cbn; naive_solver. Qed.

Lemma nullish_entries v : nullish v = true → entries v = [].
Proof. by destruct v. Qed.

Lemma validateRequired_ok s v ctx :
  validateRequired now s v ctx = ok ↔
  s_required s = [] ∨ (nullish v = false ∧ ∀ name, name ∈ s_required s → nullish (js_prop v name) = false).
Proof.
  unfold validateRequired. rewrite each_check_ok. destruct (nullish v).
  - split; [|intros [->|[[=] _]]; by intros ? ?%not_elem_of_nil].
    destruct (s_required s) as [|n l]; [by left|]. intros H. by specialize (H n (list_elem_of_here _ _)).
  - setoid_rewrite if_fail_ok. split; [by right|]. intros [Hr|[_ H]]; [|done].
    rewrite Hr. by intros ? ?%not_elem_of_nil.
Qed.

(** A branch guarded by [validateType]: absent values pass, other values have the
    type and pass the rest. *)
Lemma guarded_ok v ctx types t rest (P : Prop) :
  (existsb (accepts v) types = true ∧ nullish v = false ↔ P) →
  (let '(valid, c) := validateType now v ctx types t in also c (if valid then rest else ok)) = ok ↔
  nullish v = true ∨ (P ∧ rest = ok).
Proof.
  intros HP. destruct (validateType_spec v ctx types t) as [H1 H2].
  destruct (validateType now v ctx types t) as [valid c]. cbn [fst snd] in H1, H2. rewrite also_ok, H2. subst valid.
  destruct (nullish v); cbn [negb andb]; [naive_solver|]. destruct (existsb _ _); naive_solver.
Qed.

Lemma validateMember_sound fuel s v ctx :
  validateMember now regex_test table vd fuel s v ctx = ok → conforms s v.
Proof.
  revert s v ctx. induction fuel as [|fuel IH]; intros s v ctx; cbn [validateMember]; [done|].
  destruct (has_type s (js "structure")) eqn:Hs.
  { apply has_type_spec in Hs. rewrite !also_ok, (proj2 (validateType_spec _ _ _ _)), validateRequired_ok, each_check_ok.
    intros (Ht & Hreq & Hm). apply conforms_structure; [done| | | |].
    - destruct (nullish v) eqn:Hn; [destruct Hreq as [Hreq|[[=] _]]; by right|].
      left. apply object_types. destruct Ht; done.
    - intros name Hin. destruct Hreq as [Hreq|[_ Hreq]]; [|by apply Hreq].
      rewrite Hreq in Hin. by apply not_elem_of_nil in Hin.
    - intros k x m Hin Hmem. specialize (Hm (k, x) Hin). cbn [fst snd] in Hm. rewrite Hmem in Hm. by eapply IH.
    - intros k x Hin Hmem. specialize (Hm (k, x) Hin). cbn [fst snd] in Hm. rewrite Hmem in Hm.
      destruct (nullish x); [done|]. by apply fail_not_ok in Hm. }
  destruct (has_type s (js "list")) eqn:Hl.
  { apply has_type_spec in Hl. rewrite (guarded_ok _ _ _ _ _ _ (array_types v)), also_ok, validateRange_ok, each_check_ok.
    intros Hv. apply conforms_list; [done|naive_solver|]. intros k x Hin.
    destruct Hv as [Hn|(_ & _ & Hm)]; [by rewrite nullish_entries in Hin; [apply not_elem_of_nil in Hin|]|].
    exact (IH _ _ _ (Hm (k, x) Hin)). }
  destruct (has_type s (js "map")) eqn:Hmap.
  { apply has_type_spec in Hmap. rewrite (guarded_ok _ _ _ _ _ _ (object_types v)), also_ok, validateRange_ok, each_check_ok.
    setoid_rewrite also_ok. intros Hv.
    assert (Hin0 : ∀ kv, kv ∈ entries v → nullish v = false)
      by (intros kv Hin; destruct (nullish v) eqn:Hn; [rewrite nullish_entries in Hin by done; by apply not_elem_of_nil in Hin|done]).
    apply conforms_map; [done|naive_solver| |]; intros k x Hin; destruct Hv as [Hn|(_ & Hm & _)];
      try (by rewrite (Hin0 _ Hin) in Hn); destruct (Hm (k, x) Hin); by eapply IH. }
  rewrite validateScalar_ok. intros Hsc. apply conforms_scalar; [| | |done]; rewrite <- has_type_spec; congruence.
Qed.

(** The nesting of arrays and objects in a value. *)
Fixpoint depth (v : jsval) : nat :=
  match v with
  | JArr l => S (list_max (depth <$> l))
  | JObj o => S (list_max ((λ kv, depth kv.2) <$> o))
  | _ => 0
  end.

Lemma list_max_elem n l : n ∈ l → (n ≤ list_max l)%nat.
Proof.
  intros Hin. pose proof (proj1 (list_max_le l (list_max l)) (Nat.le_refl _)) as Hf.
  rewrite Forall_forall in Hf. by apply Hf.
Qed.

Lemma entries_depth v k x : is_object v → (k, x) ∈ entries v → (depth x < depth v)%nat.
Proof.
  destruct v as [| | | | |l|o]; try done; intros _; cbn [entries depth].
  - intros [i Hi]%list_elem_of_lookup. rewrite list_lookup_imap in Hi.
    destruct (l !! i) as [y|] eqn:Hy; [|done]. injection Hi as _ ->. apply Nat.lt_succ_r, list_max_elem.
    by apply list_elem_of_fmap_2, (list_elem_of_lookup_2 l i).
  - rewrite own_props_perm. intros Hin. apply Nat.lt_succ_r, list_max_elem.
    by apply (list_elem_of_fmap_2 (λ kv : jsstr * jsval, depth kv.2)) in Hin.
Qed.

Lemma validateMember_complete s v :
  conforms s v → ∀ fuel ctx, (depth v < fuel)%nat → validateMember now regex_test table vd fuel s v ctx = ok.
Proof.
  induction 1 as [s v Hs Hv Hreq Hm IH Hex|s v Hs Hv Hm IH|s v Hs Hv Hk IHk Hx IHx|s v N1 N2 N3 Hsc];
    intros [|fuel] ctx Hf; try lia; cbn [validateMember].
  - rewrite (proj2 (has_type_spec _ _) Hs). rewrite !also_ok, (proj2 (validateType_spec _ _ _ _)), validateRequired_ok, each_check_ok.
    split_and!.
    + destruct Hv as [Hv|[Hv _]]; [right; by apply object_types|by left].
    + destruct Hv as [Hv|[_ Hv]]; [right|by left]. split; [by apply object_types|done].
    + intros [k x] Hin. cbn [fst snd]. destruct Hv as [Hv|[Hn _]];
        [|rewrite nullish_entries in Hin by done; by apply not_elem_of_nil in Hin].
      pose proof (entries_depth v k x Hv Hin) as Hd. destruct (member_shape table s k) as [m|] eqn:Hmem.
      * eapply IH; [done|done|lia].
      * by rewrite (Hex k x).
  - assert (Hns : has_type s (js "structure") = false) by (unfold has_type; rewrite Hs; by apply bool_decide_false).
    rewrite Hns, (proj2 (has_type_spec _ _) Hs), (guarded_ok _ _ _ _ _ _ (array_types v)), also_ok, validateRange_ok, each_check_ok.
    destruct Hv as [Hn|[Ha Hr]]; [by left|]. right. split_and!; [done..|]. intros [k x] Hin.
    eapply IH; [done|]. assert (is_object v) by (by destruct v). pose proof (entries_depth v k x ltac:(done) Hin). simpl. lia.
  - assert (Hns : has_type s (js "structure") = false) by (unfold has_type; rewrite Hs; by apply bool_decide_false).
    assert (Hnl : has_type s (js "list") = false) by (unfold has_type; rewrite Hs; by apply bool_decide_false).
    rewrite Hns, Hnl, (proj2 (has_type_spec _ _) Hs), (guarded_ok _ _ _ _ _ _ (object_types v)), also_ok, validateRange_ok, each_check_ok.
    destruct Hv as [Hn|[Ha Hr]]; [by left|]. right. split_and!; [done| |done]. intros [k x] Hin.
    pose proof (entries_depth v k x Ha Hin). rewrite also_ok. cbn [fst snd]. split.
    + eapply IHk; [done|]. simpl. lia.
    + eapply IHx; [done|]. lia.
  - rewrite <- has_type_spec in N1, N2, N3. apply not_true_is_false in N1, N2, N3. rewrite N1, N2, N3.
    by apply validateScalar_ok.
Qed.

(** ** Termination *)

(** Member names do not start with a digit, as the indices of a string would. *)
Definition plain_members (s : shape) : Prop :=
  Forall (λ m, match m.1 with c :: _ => is_digit c = false | [] => True end) (s_members s).

Lemma also_thrown c d e : (also c d).2 = Some e → c.2 = Some e ∨ d.2 = Some e.
Proof. destruct c as [es [x|]]; simpl; naive_solver. Qed.

Lemma each_check_thrown {A} (f : A → checks) l e :
  (each_check f l).2 = Some e → ∃ x, x ∈ l ∧ (f x).2 = Some e.
Proof.
  induction l as [|x l IH]; [done|]. intros [H|H]%also_thrown; [exists x; split; [by left|done]|].
  destruct (IH H) as (y & Hy & He). exists y. split; [by right|done].
Qed.

Lemma if_fail_thrown (b : bool) code msg : (if b then fail now code msg else ok).2 = None.
Proof. by destruct b. Qed.

Lemma validateRange_thrown s v ctx d : (validateRange now vd s v ctx d).2 = None.
Proof.
  destruct ((validateRange now vd s v ctx d).2) as [e|] eqn:He; [|done].
  apply also_thrown in He as [He|He]; destruct (s_min s), (s_max s); try done; by rewrite if_fail_thrown in He.
Qed.

Lemma validateType_thrown v ctx types t : (validateType now v ctx types t).2.2 = None.
Proof. unfold validateType. by repeat case_match. Qed.

Lemma also_none c d : c.2 = None → d.2 = None → (also c d).2 = None.
Proof. destruct c as [es x]. simpl. by intros -> ->. Qed.

Lemma guarded_thrown v ctx types t rest e :
  (let '(valid, c) := validateType now v ctx types t in also c (if valid then rest else ok)).2 = Some e →
  nullish v = false ∧ existsb (accepts v) types = true ∧ rest.2 = Some e.
Proof.
  destruct (validateType_spec v ctx types t) as [H1 _]. pose proof (validateType_thrown v ctx types t) as H2.
  destruct (validateType now v ctx types t) as [valid c]. cbn [fst snd] in H1, H2.
  intros [H|H]%also_thrown; [congruence|]. destruct valid; [|done].
  symmetry in H1. apply andb_true_iff in H1 as [Hn Ht]. by apply negb_true_iff in Hn.
Qed.

Lemma validateString_thrown s v ctx : (validateString now regex_test vd s v ctx).2 = None.
Proof.
  unfold validateString. set (types := _ :: _). set (rest := also (validateEnum _ _ _ _ _) _).
  assert (Hrest : rest.2 = None).
  { unfold rest. apply also_none; [|apply also_none; [apply validateRange_thrown|apply also_none]].
    - unfold validateEnum. destruct (s_enum s); [apply if_fail_thrown|done].
    - unfold validatePattern. destruct (s_pattern s); [apply if_fail_thrown|done].
    - apply if_fail_thrown. }
  clearbody rest types. pose proof (validateType_thrown v ctx types None) as H2.
  destruct v; try done; destruct (validateType now _ ctx types None) as [[] c]; by apply also_none.
Qed.

Lemma validateScalar_thrown s v ctx e :
  (validateScalar now regex_test vd s v ctx).2 = Some e → err_name e = js "TypeError".
Proof.
  unfold validateScalar. destruct (s_type s) as [t|]; [|by rewrite validateString_thrown].
  destruct (str_eqb t (js "string")); [by rewrite validateString_thrown|].
  destruct (str_eqb t (js "base64") || str_eqb t (js "binary")).
  { unfold validatePayload. destruct v as [| | | | | |o]; try done.
    destruct (str_eqb _ _); [done|]. destruct (obj_get _ o) as [c|]; [|done].
    destruct (nullish c); [by intros [= <-]|]. by destruct (existsb _ _). }
  destruct (str_eqb t (js "integer") || str_eqb t (js "float")).
  { unfold validateNumber. destruct (nullish v); [done|].
    intros (_ & _ & H)%guarded_thrown. by rewrite validateRange_thrown in H. }
  destruct (str_eqb t (js "boolean")); [by rewrite validateType_thrown|].
  destruct (str_eqb t (js "timestamp")); [by rewrite validateType_thrown|done].
Qed.

(** The indices of a string name no member. *)
Lemma string_members s x k y : plain_members s → (k, y) ∈ entries (JStr x) → member_shape table s k = None.
Proof.
  intros Hp [i Hi]%list_elem_of_lookup. cbn [entries] in Hi. rewrite list_lookup_imap in Hi.
  destruct (x !! i) as [c|] eqn:Hc; [|done]. injection Hi as <- _. clear Hc.
  assert (Hd : ∃ d ds, Z_to_str (Z.of_nat i) = d :: ds ∧ is_digit d = true).
  { unfold Z_to_str. destruct (Z.ltb_spec (Z.of_nat i) 0); [lia|].
    pose proof (radix_str_digits (Z.of_nat i) ltac:(lia)) as Hf. pose proof (radix_str_ne 10 (Z.of_nat i)).
    destruct (radix_str 10 (Z.of_nat i)) as [|d ds]; [done|]. exists d, ds. split; [done|].
    by apply Forall_cons in Hf as [? _]. }
  destruct Hd as (d & ds & -> & Hd). unfold member_shape.
  assert (Hg : obj_get (d :: ds) (s_members s) = None).
  { apply eq_None_not_Some. intros Hs%obj_get_elem. apply list_elem_of_fmap in Hs as (m & Heq & Hin).
    unfold plain_members in Hp. rewrite Forall_forall in Hp. specialize (Hp m Hin). rewrite <- Heq in Hp. congruence. }
  rewrite Hg. assert (Hm : str_mem (d :: ds) object_prototype = false).
  { apply not_true_is_false. unfold str_mem. rewrite existsb_exists. intros (n & Hn & <-%str_eqb_eq).
    assert (Hall : Forall (λ n, match n with c :: _ => is_digit c = false | [] => True end) object_prototype)
      by (repeat constructor).
    rewrite Forall_forall in Hall. apply list_elem_of_In, Hall in Hn. congruence. }
  by rewrite Hm.
Qed.

Hypothesis table_plain : ∀ id, plain_members (table id).

Lemma member_shape_plain s k m : member_shape table s k = Some m → plain_members m.
Proof.
  unfold member_shape. destruct (obj_get k (s_members s)) as [id|]; [by intros [= <-]|].
  destruct (str_mem k object_prototype); [|done]. intros [= <-]. constructor.
Qed.

Lemma validateMember_terminates fuel s v ctx e :
  plain_members s → (depth v < fuel)%nat →
  (validateMember now regex_test table vd fuel s v ctx).2 = Some e → err_name e = js "TypeError".
Proof.
  revert s v ctx. induction fuel as [|fuel IH]; intros s v ctx Hp Hf; [lia|]. cbn [validateMember].
  destruct (has_type s (js "structure")).
  { intros [H|[H|H]%also_thrown]%also_thrown; [by rewrite validateType_thrown in H| |].
    - apply each_check_thrown in H as (name & _ & H). destruct (nullish v); [by injection H as <-|].
      by rewrite if_fail_thrown in H.
    - apply each_check_thrown in H as ([k x] & Hin & H). cbn [fst snd] in H.
      destruct (member_shape table s k) as [m|] eqn:Hm; [|by destruct (nullish x)].
      eapply IH; [by eapply member_shape_plain| |exact H].
      destruct v as [| | | |y|l|o]; try (by apply not_elem_of_nil in Hin).
      + by rewrite (string_members s y k x Hp Hin) in Hm.
      + pose proof (entries_depth (JArr l) k x I Hin). lia.
      + pose proof (entries_depth (JObj o) k x I Hin). lia. }
  destruct (has_type s (js "list")).
  { intros (Hn & Ht & H)%guarded_thrown. apply also_thrown in H as [H|H]; [by rewrite validateRange_thrown in H|].
    apply each_check_thrown in H as ([k x] & Hin & H). eapply IH; [apply table_plain| |exact H].
    assert (Ho : is_object v) by (destruct v; done). pose proof (entries_depth v k x Ho Hin). simpl. lia. }
  destruct (has_type s (js "map")).
  { intros (Hn & Ht & H)%guarded_thrown. apply also_thrown in H as [H|H]; [|by rewrite validateRange_thrown in H].
    assert (Ho : is_object v) by (by apply object_types).
    apply each_check_thrown in H as ([k x] & Hin & [H|H]%also_thrown); cbn [fst snd] in H;
      pose proof (entries_depth v k x Ho Hin); (eapply IH; [apply table_plain| |exact H]; simpl; lia). }
  apply validateScalar_thrown.
Qed.

End conformance.

(** C27. The validator is a type checker.  With fuel for the nesting of the
    parameters, [validate] accepts them exactly when they conform to the shape:
    required members present, no unknown member with a value, lists, maps and
    scalars of their types within the bounds that are checked.  A rejection
    lists at least one error, and the check itself ends: the only exception it
    lets escape is a TypeError, never the exhaustion of the stack (for member
    names that do not start with a digit).  That TypeError does occur: a null
    where a structure with a required member is expected makes [validate] throw
    it, although null is accepted for every list, map and scalar. *)
Theorem validate_types (now : Z) (regex_test : jsstr → jsstr → bool) (table : shape_id → shape)
    (vd : validation) (s : shape) (params : jsval) (fuel : nat) (context : option jsstr) :
  (∀ id, plain_members (table id)) → plain_members s → (depth (js_or params (JObj [])) < fuel)%nat →
  (validate now regex_test table vd fuel s params context = Valid ↔
     conforms regex_test table vd s (js_or params (JObj []))) ∧
  (∀ e es, validate now regex_test table vd fuel s params context = Invalid e es → es ≠ []) ∧
  (∀ e, validate now regex_test table vd fuel s params context = Thrown e → err_name e = js "TypeError") ∧
  (∀ fuel ctx, s_type s = Some (js "structure") → s_required s ≠ [] →
     ∃ e, validateMember now regex_test table vd (S fuel) s JNull ctx = ([], Some e) ∧
       err_name e = js "TypeError").
Proof.
  intros Ht Hs Hf. split; [|split; [|split]].
  - unfold validate. set (ctx := default (js "params") context). split.
    + intros H. apply (validateMember_sound now regex_test table vd fuel s _ ctx).
      destruct (validateMember _ _ _ _ _ _ _ _) as [[|e [|e' es]] [x|]]; done.
    + intros H. by rewrite (validateMember_complete now regex_test table vd s _ H fuel ctx Hf).
  - intros e es. unfold validate.
    destruct (validateMember _ _ _ _ _ _ _ _) as [[|a [|b l]] [x|]]; try done; by intros [= _ <-].
  - intros e. unfold validate. set (ctx := default (js "params") context).
    pose proof (validateMember_terminates now regex_test table vd Ht fuel s (js_or params (JObj [])) ctx) as Hterm.
    destruct (validateMember _ _ _ _ _ _ _ _) as [[|a [|b l]] [x|]]; try done;
      intros [= <-]; by eapply Hterm.
  - intros fuel' ctx Hst Hreq. cbn [validateMember]. rewrite (proj2 (has_type_spec _ _) Hst).
    unfold validateRequired. destruct (s_required s) as [|name l]; [done|]. cbn.
    eexists. split; reflexivity.
Qed.

(** A structure with a required string of at least one character. *)
Definition demo_table (id : shape_id) : shape :=
  if str_eqb id.2 (js "Name")
  then MkShape (Some (js "string")) [] [] no_shape no_shape no_shape None (Some (num_of_Z 1)) None None JUndef
         false [] false false [] false no_xml
  else MkShape (Some (js "structure")) [js "Name"] [(js "Name", ([], js "Name"))] no_shape no_shape no_shape
         None None None None JUndef false [] false false [] false no_xml.

Lemma validate_types_witness :
  let check v := validate 0 (λ _ _, true) demo_table (new_ParamValidator JUndef) 5 (demo_table no_shape) v None in
  check (JObj [(js "Name", JStr (js "x"))]) = Valid ∧
  conforms (λ _ _, true) demo_table (new_ParamValidator JUndef) (demo_table no_shape) (JObj [(js "Name", JStr (js "x"))]) ∧
  check (JObj [(js "Name", JStr [])]) ≠ Valid.
Proof.
  intros check. split; [vm_compute; reflexivity|]. split; [|vm_compute; discriminate].
  destruct (validate_types 0 (λ _ _, true) demo_table (new_ParamValidator JUndef) (demo_table no_shape)
    (JObj [(js "Name", JStr (js "x"))]) 5 None) as [H _].
  - intros id. unfold demo_table. destruct (str_eqb _ _); repeat constructor.
  - repeat constructor.
  - vm_compute. repeat constructor.
  - apply H. vm_compute. reflexivity.
Defined.
