(* ===== verification/HostPrefix.v ===== *)
(** * Host prefixes

    [populateHostPrefix] and its helpers (dist/index.js 17919-18003): the prefix
    an operation declares for its host, with the labels taken from parameters. *)

From stdpp Require Import base sets strings list.
From Stdlib Require Import ZArith Lia.
From S2P Require Import Prelude JsValue Json JsText UriUtil AwsError Http ParamValidator.

Local Open Scope Z_scope.

(** ** String.prototype.replace *)

(** The replacement text for a match between [pre] and [post]; the pattern has no
    groups. *)
Fixpoint expand_replacement (matched pre post repl : jsstr) : jsstr :=
  match repl with
  | [] => []
  | c :: r =>
    match r with
    | d :: r' =>
      if Z.eqb c 36 && Z.eqb d 36 then 36 :: expand_replacement matched pre post r'
      else if Z.eqb c 36 && Z.eqb d 38 then matched ++ expand_replacement matched pre post r'
      else if Z.eqb c 36 && Z.eqb d 96 then pre ++ expand_replacement matched pre post r'
      else if Z.eqb c 36 && Z.eqb d 39 then post ++ expand_replacement matched pre post r'
      else c :: expand_replacement matched pre post r
    | [] => [c]
    end
  end.

(** [s.replace(new RegExp(needle, 'g'), repl)] of literal text, from a position
    after [pre]; [skip] counts the rest of a match. *)
Fixpoint replace_text (needle repl pre s : jsstr) (skip : nat) : jsstr :=
  match s with
  | [] => []
  | c :: s' =>
    match skip with
    | S skip => replace_text needle repl (pre ++ [c]) s' skip
    | O =>
      if starts_with needle s
      then expand_replacement needle pre (drop (length needle) s) repl ++
           replace_text needle repl (pre ++ [c]) s' (length needle - 1)
      else c :: replace_text needle repl (pre ++ [c]) s' 0
    end
  end.

(** ** The code *)

(** The model of an operation: its name, the trait [endpointDiscoveryRequired]
    and the host prefix of its endpoint, empty when it has none. *)
Record operation := Operation {
  op_name : jsstr;
  op_endpointDiscoveryRequired : jsstr;
  op_hostPrefix : jsstr;
}.

Definition lowerFirst (s : jsstr) : option jsstr :=
  match s with c :: r => Some (to_lower_unit c :: r) | [] => None end.

(** [endpointOperation] of the API is empty when it has none. *)
Definition hasEndpointDiscover (endpointOperation : jsstr) (op : operation) : bool :=
  negb (str_eqb (op_endpointDiscoveryRequired op) (js "NULL")) ||
  (negb (str_eqb endpointOperation []) && bool_decide (lowerFirst (op_name op) = Some endpointOperation)).

Section host_prefix.
Context (now : Z).   (* the time of errors *)
Context (table : shape_id → shape).

(** Names of members are literal in the regular expression. *)
Fixpoint expand_labels (members : list (jsstr * shape_id)) (params : jsval) (notation : jsstr) : result aws_error jsstr :=
  match members with
  | [] => Ok notation
  | (name, id) :: members =>
    if s_hostLabel (table id) then
      match js_prop params name with
      | JStr ((_ :: _) as v) =>
        expand_labels members params (replace_text (js "{" ++ name ++ js "}") v [] notation 0)
      | _ =>
        Throw (util_error now (new_Error [] JUndef) (ObjectOptions
          [(js "message", JStr (js "Parameter " ++ name ++ js " should be a non-empty string."));
           (js "code", JStr (js "InvalidParameter"))]))
      end
    else expand_labels members params notation
  end.

Definition expandHostPrefix (notation : jsstr) (params : jsval) (s : shape) : result aws_error jsstr :=
  expand_labels (own_props (s_members s)) params notation.

Definition prependEndpointPrefix (e : endpoint) (prefix : jsstr) : endpoint :=
  let put s := match s with [] => [] | _ => prefix ++ s end in
  Endpoint (protocol e) (put (host e)) (put (hostname e)) (port e) (ep_path e).

(** [/^[a-zA-Z0-9]{1}$|^[a-zA-Z0-9][a-zA-Z0-9\-]*[a-zA-Z0-9]$/]. *)
Definition host_pattern (label : jsstr) : bool :=
  match label with
  | [] => false
  | c :: r =>
    is_alnum c &&
    match reverse r with
    | [] => true
    | d :: m => is_alnum d && forallb (λ x, is_alnum x || Z.eqb x 45) m
    end
  end.

Definition validation_error (message : jsstr) : aws_error :=
  util_error now (new_Error [] JUndef)
    (ObjectOptions [(js "code", JStr (js "ValidationError")); (js "message", JStr message)]).

Fixpoint validate_labels (labels : list jsstr) : result aws_error unit :=
  match labels with
  | [] => Ok tt
  | label :: labels =>
    if Nat.eqb (length label) 0 || Nat.ltb 63 (length label)
    then Throw (validation_error (js "Hostname label length should be between 1 to 63 characters, inclusive."))
    else if negb (host_pattern label)
    then Throw (validation_error (label ++ js " is not hostname compatible."))
    else validate_labels labels
  end.

Definition validateHostname (hostname : jsstr) : result aws_error unit := validate_labels (split_on 46 hostname).

(** The endpoint after [populateHostPrefix(request)]. *)
Definition populateHostPrefix (hostPrefixEnabled : bool) (endpointOperation : jsstr) (op : operation)
    (params : jsval) (input : shape) (e : endpoint) : result aws_error endpoint :=
  if negb hostPrefixEnabled then Ok e
  else if hasEndpointDiscover endpointOperation op then Ok e
  else if str_eqb (op_hostPrefix op) [] then Ok e
  else
    let* hostPrefix := expandHostPrefix (op_hostPrefix op) params input in
    let e := prependEndpointPrefix e hostPrefix in
    let* _ := validateHostname (hostname e) in
    Ok e.

End host_prefix.

(** ** Host names *)

(** A label of RFC 1123: letters, digits and inner hyphens, at most 63. *)
Definition host_label (l : jsstr) : Prop :=
  (1 ≤ length l ≤ 63)%nat ∧ Forall (λ c, is_alnum c = true ∨ c = 45) l ∧ head l ≠ Some 45 ∧ last l ≠ Some 45.

Lemma host_pattern_spec l : host_pattern l = true →
  Forall (λ c, is_alnum c = true ∨ c = 45) l ∧ head l ≠ Some 45 ∧ last l ≠ Some 45.
Proof.
  destruct l as [|c r]; [done|]. cbn [host_pattern]. intros [Hc Hr]%andb_true_iff.
  assert (Hne : c ≠ 45) by (intros ->; done).
  destruct (reverse r) as [|d m] eqn:Hrev.
  - apply (f_equal reverse) in Hrev. rewrite reverse_involutive in Hrev. subst r. cbn.
    split_and!; [by apply Forall_singleton; left|congruence|congruence].
  - apply (f_equal reverse) in Hrev. rewrite reverse_involutive, reverse_cons in Hrev. subst r.
    apply andb_true_iff in Hr as [Hd Hm]. assert (Hd' : d ≠ 45) by (intros ->; done).
    split_and!; [|cbn; congruence|].
    + apply Forall_cons. split; [by left|]. apply Forall_app. split; [|by apply Forall_singleton; left].
      apply Forall_reverse, Forall_forall. intros x Hx. rewrite forallb_forall in Hm.
      specialize (Hm x (proj1 (list_elem_of_In _ _) Hx)). apply orb_true_iff in Hm as [?|?%Z.eqb_eq]; auto.
    + change (c :: reverse m ++ [d]) with ((c :: reverse m) ++ [d]). rewrite last_snoc. congruence.
Qed.

Lemma validate_labels_ok now labels : validate_labels now labels = Ok tt → Forall host_label labels.
Proof.
  induction labels as [|l labels IH]; [constructor|]. cbn [validate_labels].
  destruct (_ || _) eqn:Hlen; [done|]. destruct (host_pattern l) eqn:Hp; [|done]. cbn [negb]. intros H.
  constructor; [|by apply IH]. apply orb_false_iff in Hlen as [?%Nat.eqb_neq ?%Nat.ltb_ge].
  split; [lia|]. by apply host_pattern_spec.
Qed.

Lemma expand_plain matched pre post v : 36 ∉ v → expand_replacement matched pre post v = v.
Proof.
  induction v as [|c v IH]; [done|]. intros [Hc Hv]%not_elem_of_cons. cbn [expand_replacement].
  destruct v as [|d v]; [done|]. rewrite (proj2 (Z.eqb_neq c 36)) by done. cbn [andb]. by rewrite IH.
Qed.

(** Text without an opening brace has no placeholder. *)
Lemma replace_text_none needle repl pre s :
  123 ∉ s → replace_text (123 :: needle) repl pre s 0 = s.
Proof.
  revert pre. induction s as [|c s IH]; [done|]. intros pre [Hc Hs]%not_elem_of_cons.
  cbn [replace_text starts_with]. rewrite (proj2 (Z.eqb_neq 123 c)) by done. cbn [andb]. by rewrite IH.
Qed.

Lemma replace_text_skip needle repl pre a s : replace_text needle repl pre (a ++ s) (length a) =
  replace_text needle repl (pre ++ a) s 0.
Proof.
  revert pre. induction a as [|c a IH]; intros pre; [by rewrite app_nil_r|]. cbn [app length replace_text].
  by rewrite IH, <- app_assoc.
Qed.

Lemma replace_placeholder name v tail : 36 ∉ v → 123 ∉ tail →
  replace_text (js "{" ++ name ++ js "}") v [] (js "{" ++ name ++ js "}" ++ tail) 0 = v ++ tail.
Proof.
  intros Hv Ht. rewrite (app_assoc name). change (js "{" ++ ?x) with (123 :: x). set (n := name ++ js "}").
  change (js "{" ++ n ++ tail) with (123 :: n ++ tail). cbn [replace_text].
  change (123 :: n ++ tail) with ((123 :: n) ++ tail). rewrite starts_with_app, expand_plain by done. f_equal.
  replace (length (123%Z :: n) - 1)%nat with (length n) by (cbn [length]; lia). rewrite replace_text_skip. by apply replace_text_none.
Qed.

(** Host prefixes stay inside the service's domain.  When [populateHostPrefix]
    returns, the scheme, port and path of the endpoint are untouched, and its
    host and host name are either unchanged or the old ones behind a common
    prefix, with every label of the result a host label of RFC 1123: whatever
    the parameters are, the request goes to a subdomain of the endpoint.  The
    prefix of an operation declared as "{name}" followed by constant text is the
    parameter (a non-empty string, without dollar signs) followed by that text;
    a parameter that is missing, empty or not a string is an error. *)
Theorem host_prefix_confined (now : Z) (table : shape_id → shape) (enabled : bool) (endpointOperation : jsstr)
    (op : operation) (params : jsval) (input : shape) (e : endpoint) :
  host e ≠ [] → hostname e ≠ [] →
  (∀ e', populateHostPrefix now table enabled endpointOperation op params input e = Ok e' →
    protocol e' = protocol e ∧ port e' = port e ∧ ep_path e' = ep_path e ∧
    (e' = e ∨
     ∃ p, host e' = p ++ host e ∧ hostname e' = p ++ hostname e ∧ Forall host_label (split_on 46 (hostname e')))) ∧
  (∀ name id tail, own_props (s_members input) = [(name, id)] → s_hostLabel (table id) = true →
    op_hostPrefix op = js "{" ++ name ++ js "}" ++ tail → 123 ∉ tail →
    match js_prop params name with
    | JStr ((_ :: _) as v) => 36 ∉ v → expandHostPrefix now table (op_hostPrefix op) params input = Ok (v ++ tail)
    | _ => is_ok (expandHostPrefix now table (op_hostPrefix op) params input) = false
    end).
Proof.
  intros Hh Hn. split.
  - intros e'. unfold populateHostPrefix. destruct enabled; cbn [negb]; [|intros [= <-]; auto].
    destruct (hasEndpointDiscover _ _); [intros [= <-]; auto|]. destruct (str_eqb _ []); [intros [= <-]; auto|].
    intros (p & _ & H)%rbind_ok. apply rbind_ok in H as ([] & Hv & [= <-]). cbn. split_and!; [done..|]. right. exists p.
    apply validate_labels_ok in Hv. cbn in Hv. destruct (host e), (hostname e); done.
  - intros name id tail Hm Hl Hp Ht. unfold expandHostPrefix. rewrite Hm, Hp. cbn [expand_labels]. rewrite Hl.
    destruct (js_prop params name) as [| | | |[|c v]| |]; try reflexivity.
    intros Hv. by rewrite replace_placeholder.
Qed.

Lemma host_prefix_confined_witness :
  let e := Endpoint (js "https:") (js "s3-control.amazonaws.com") (js "s3-control.amazonaws.com") 443 None in
  let input := MkShape (Some (js "structure")) [] [(js "AccountId", ([], js "AccountId"))] no_shape no_shape no_shape None None None None JUndef
                 false [] false false [] false no_xml in
  let label := MkShape (Some (js "string")) [] [] no_shape no_shape no_shape None None None None JUndef
                 false (js "AccountId") false false [] true no_xml in
  let op := Operation (js "ListJobs") (js "NULL") (js "{AccountId}.") in
  let run v := populateHostPrefix 0 (λ _, label) true [] op (JObj [(js "AccountId", JStr v)]) input e in
  run (js "1234") = Ok (Endpoint (js "https:") (js "1234.s3-control.amazonaws.com")
                          (js "1234.s3-control.amazonaws.com") 443 None) ∧
  is_ok (run (js "evil.com/")) = false ∧
  expandHostPrefix 0 (λ _, label) (js "{AccountId}.") (JObj [(js "AccountId", JStr (js "1234"))]) input = Ok (js "1234.").
Proof.
  intros e input label op run. split; [vm_compute; reflexivity|]. split; [vm_compute; reflexivity|].
  destruct (host_prefix_confined 0 (λ _, label) true [] op (JObj [(js "AccountId", JStr (js "1234"))]) input e)
    as [_ H]; [discriminate..|].
  apply (H (js "AccountId") ([], js "AccountId") (js ".")); [reflexivity|reflexivity|reflexivity|js_decide|js_decide].
Defined.
