(* ===== verification/QuerySerializer.v ===== *)
(** * The query protocol

    [QueryParamSerializer] (dist/index.js 18809-18886), which flattens the
    parameters of an operation into names and values, the wire formats of the
    scalar shapes it uses (17327-17393), and [buildRequest] of the query
    protocol (18097-18118). *)

From stdpp Require Import base sets strings list sorting.
From Stdlib Require Import ZArith Lia.
From S2P Require Import Prelude JsValue Json JsText UriUtil JsDate AwsError Http SignerV4 ParamValidator HostPrefix.

Local Open Scope Z_scope.

(** ** Wire formats *)

(** [parseInt(s, 10)]. *)
Definition parseInt (s : jsstr) : jsnum :=
  let s := trim_start s in
  let '(sign, s) := match s with 45 :: s' => (-1, s') | 43 :: s' => (1, s') | _ => (1, s) end in
  match (take_digits s).1 with
  | [] => NumNaN
  | ds => num_of_Z (sign * dec_value 0 ds)
  end.

(** The time value of [new Date(n * 1000)]; [None] is an invalid date. *)
Definition date_of_seconds (n : jsnum) : option Z :=
  match n with
  | NumDec m e =>
    let t := if Z.leb 0 (e + 3) then m * 10 ^ (e + 3) else Z.quot m (10 ^ (- (e + 3))) in
    if Z.leb (Z.abs t) 8640000000000000 then Some t else None
  | _ => None
  end.

Section serializer.
Context (Date_parse : jsval → option Z).   (* [new Date(v)] of a value that is not a number *)
Context (Buffer_from : jsval → option (list Z)).   (* [Buffer.from(v)] of a value that is not text *)
Context (protocol : jsstr).   (* [api.protocol] *)
Context (table : shape_id → shape).

(** [util.date.format(v, formatter)]; it throws for an invalid date in ISO
    format, and for a name that is no format. *)
Definition date_format (v : jsval) (formatter : jsstr) : option jsstr :=
  let date := match v with JNum n => date_of_seconds n | _ => Date_parse v end in
  if str_eqb formatter (js "unixTimestamp")
  then Some (num_to_str (match date with Some d => unixTimestamp d | None => NumNaN end))
  else if str_eqb formatter (js "rfc822")
  then Some (match date with Some d => rfc822 d | None => js "Invalid Date" end)
  else if str_eqb formatter (js "iso8601") || str_eqb formatter [] then iso8601 <$> date
  else None.

(** [util.base64.encode]. *)
Definition base64_encode (v : jsval) : option jsstr :=
  match v with
  | JNum _ => None
  | JStr x => Some (base64_bytes (utf8 x))
  | _ => base64_bytes <$> Buffer_from v
  end.

(** [toWireFormat] of the scalar shapes, as text; [None]: it throws. *)
Definition wire_timestamp (s : shape) (v : jsval) : option jsstr := date_format v (s_timestampFormat s).
Definition wire_float (v : jsval) : option jsstr := Some (num_to_str (parseFloat (to_string v))).
Definition wire_integer (v : jsval) : option jsstr := Some (num_to_str (parseInt (to_string v))).
Definition wire_string (s : shape) (v : jsval) : option jsstr :=
  if s_isJsonValue s then JSON_stringify v else Some (to_string v).

(** [rules.toWireFormat(value).toString()]; a shape of no other type keeps the
    value. *)
Definition wire (s : shape) (v : jsval) : option jsstr :=
  let t := default [] (s_type s) in
  if str_eqb t (js "timestamp") then wire_timestamp s v
  else if str_eqb t (js "float") then wire_float v
  else if str_eqb t (js "integer") then wire_integer v
  else if str_eqb t (js "base64") || str_eqb t (js "binary") then base64_encode v
  else if str_eqb t (js "string") then wire_string s v
  else Some (to_string v).

(** ** The serializer *)

Definition ucfirst (s : shape) : jsstr :=
  if s_isQueryName s || negb (str_eqb protocol (js "ec2")) then s_name s
  else match s_name s with c :: n => to_upper_unit c :: n | [] => [] end.

(** The name of a flattened list of named members. *)
Definition flat_name (member : shape) (name : jsstr) : jsstr :=
  join (js ".") (removelast (split_on 46 name) ++ [ucfirst member]).

(** The name of the [n]-th item of a list: the variable [name] is assigned in
    every round. *)
Definition item_name (s : shape) (name : jsstr) (n : nat) : jsstr :=
  let member := table (s_member s) in
  let suffix := js "." ++ Z_to_str (Z.of_nat n + 1) in
  if str_eqb protocol (js "ec2") then name ++ suffix
  else if s_flattened s then
    (if str_eqb (s_name member) [] then name else Nat.iter (S n) (flat_name member) name) ++ suffix
  else name ++ js "." ++ (if str_eqb (s_name member) [] then js "member" else s_name member) ++ suffix.

Definition entry_position (s : shape) (n : nat) : jsstr :=
  (if s_flattened s then js "." else js ".entry.") ++ Z_to_str (Z.of_nat n + 1) ++ js ".".

Definition key_name (s : shape) : jsstr :=
  let k := s_name (table (s_key s)) in if str_eqb k [] then js "key" else k.
Definition value_name (s : shape) : jsstr :=
  let k := s_name (table (s_value s)) in if str_eqb k [] then js "value" else k.

Definition member_name (prefix : jsstr) (member : shape) : jsstr :=
  match prefix with [] => ucfirst member | _ => prefix ++ js "." ++ ucfirst member end.

(** The calls of [fn] a sequence of serializations makes; [None] when one throws. *)
Definition calls {A} (f : A → option (list (jsstr * jsval))) (l : list A) : option (list (jsstr * jsval)) :=
  (λ ll, concat ll) <$> mapM f l.

(** [serializeMember] with the structure, list and map cases; it follows the
    nesting of the value, and out of fuel counts as an exception. *)
Fixpoint serializeMember (fuel : nat) (name : jsstr) (value : jsval) (s : shape) :
    option (list (jsstr * jsval)) :=
  match fuel with
  | O => None
  | S fuel =>
    if nullish value then Some []
    else if has_type s (js "structure") then
      calls (λ m : jsstr * shape_id,
        let v := js_prop value m.1 in
        if nullish v then Some []
        else serializeMember fuel (member_name name (table m.2)) v (table m.2)) (own_props (s_members s))
    else if has_type s (js "list") then
      if bool_decide (js_length value = JNum (num_of_Z 0)) then Some [(name, JNull)]
      else calls (λ nv : nat * (jsstr * jsval),
        serializeMember fuel (item_name s name nv.1) nv.2.2 (table (s_member s))) (imap pair (entries value))
    else if has_type s (js "map") then
      calls (λ nkv : nat * (jsstr * jsval),
        a ← serializeMember fuel (name ++ entry_position s nkv.1 ++ key_name s) (JStr nkv.2.1) (table (s_key s));
        b ← serializeMember fuel (name ++ entry_position s nkv.1 ++ value_name s) nkv.2.2 (table (s_value s));
        Some (a ++ b)) (imap pair (entries value))
    else t ← wire s value; Some [(name, JStr t)]
  end.

(** [serialize(params, shape, fn)] starts at the structure itself; reading a
    member of null or undefined throws. *)
Definition serialize (fuel : nat) (params : jsval) (s : shape) : option (list (jsstr * jsval)) :=
  if nullish params && negb (bool_decide (s_members s = [])) then None
  else calls (λ m : jsstr * shape_id,
    let v := js_prop params m.1 in
    if nullish v then Some []
    else serializeMember fuel (member_name [] (table m.2)) v (table m.2)) (own_props (s_members s)).

(** ** buildRequest *)

(** The parameters of the request and its body. *)
Definition build_params (apiVersion operation : jsstr) (emitted : list (jsstr * jsval)) : jsobj :=
  foldl (λ o nv, obj_set nv.1 nv.2 o)
    [(js "Version", JStr apiVersion); (js "Action", JStr operation)] emitted.

(** The parameters of the HTTP request and the request itself.  [Throw None] is an
    exception of the serializer or of [encodeURIComponent]. *)
Definition buildRequest (now : Z) (fuel : nat) (hostPrefixEnabled : bool) (endpointOperation apiVersion : jsstr)
    (op : operation) (params : jsval) (input : shape) (hr : http_request) :
    result (option aws_error) (jsobj * http_request) :=
  let headers := obj_set (js "Content-Type") (JStr (js "application/x-www-form-urlencoded; charset=utf-8")) (hr_headers hr) in
  match serialize fuel params input with
  | None => Throw None
  | Some emitted =>
    let o := build_params apiVersion (op_name op) emitted in
    match queryParamsToString o with
    | None => Throw None
    | Some body =>
      match populateHostPrefix now table hostPrefixEnabled endpointOperation op params input (hr_endpoint hr) with
      | Throw e => Throw (Some e)
      | Ok e => Ok (o, HttpRequest (hr_method hr) (hr_path hr) headers body e (hr_region hr) (_userAgent hr))
      end
    end
  end.

End serializer.

(** ** Names below a name *)

(** [x] is the name [n] or a name below it. *)
Definition under (n x : jsstr) : Prop := ∃ t, x = n ++ t ∧ (t = [] ∨ ∃ t', t = 46 :: t').

Lemma under_refl n : under n n.
Proof. exists []. rewrite app_nil_r. auto. Qed.

Lemma under_below n m x : under (n ++ 46 :: m) x → under n x.
Proof. intros (t & -> & _). exists (46 :: m ++ t). rewrite <- app_assoc. eauto. Qed.

(** The segment below a prefix is determined by the name. *)
Lemma under_inj p a b x : 46 ∉ a → 46 ∉ b → under (p ++ a) x → under (p ++ b) x → a = b.
Proof.
  intros Ha Hb (t & -> & Ht) (u & Hx & Hu). rewrite <- !app_assoc in Hx. apply app_inv_head in Hx.
  destruct Ht as [->|[t' ->]], Hu as [->|[u' ->]]; rewrite ?app_nil_r in Hx; subst; try done.
  - set_solver.
  - set_solver.
  - by apply cut_inj in Hx as [? _].
Qed.

Lemma take_digits_all s : Forall (λ c, is_digit c = true) s → take_digits s = (s, []).
Proof. induction 1 as [|c s Hc _ IH]; [done|]. cbn. by rewrite Hc, IH. Qed.

Lemma digit_cases c : is_digit c = true →
  c ∈ [48; 49; 50; 51; 52; 53; 54; 55; 56; 57].
Proof. unfold is_digit. intros [H1%Z.leb_le H2%Z.leb_le]%andb_true_iff. rewrite !elem_of_cons. lia. Qed.

Lemma parseInt_digits s : Forall (λ c, is_digit c = true) s → s ≠ [] →
  parseInt s = num_of_Z (dec_value 0 s) ∧ parseInt (45 :: s) = num_of_Z (- dec_value 0 s).
Proof.
  intros Hs Hne. destruct s as [|c s]; [done|]. pose proof (take_digits_all _ Hs) as Ht.
  assert (Hneg : parseInt (45 :: c :: s) = num_of_Z (- dec_value 0 (c :: s))).
  { unfold parseInt. change (trim_start (45 :: c :: s)) with (45 :: c :: s). cbv beta iota. rewrite Ht. done. }
  split; [|exact Hneg].
  assert (Hp : parseInt (c :: s) = match (take_digits (c :: s)).1 with [] => NumNaN | ds => num_of_Z (1 * dec_value 0 ds) end).
  { apply Forall_cons in Hs as [Hc _]. apply digit_cases in Hc.
    repeat (apply elem_of_cons in Hc as [->|Hc]; [reflexivity|]). by apply not_elem_of_nil in Hc. }
  rewrite Hp, Ht. cbn [fst]. by rewrite Z.mul_1_l.
Qed.

(** The text of an integer reads as it. *)
Lemma parseInt_Z k : parseInt (Z_to_str k) = num_of_Z k.
Proof.
  unfold Z_to_str. destruct (Z.ltb_spec k 0).
  - destruct (parseInt_digits (radix_str 10 (- k))) as [_ H']; [apply radix_str_digits; lia|apply radix_str_ne|].
    change (js "-" ++ radix_str 10 (- k)) with (45 :: radix_str 10 (- k)). rewrite H', radix_str_value by lia. f_equal. lia.
  - destruct (parseInt_digits (radix_str 10 k)) as [H' _]; [apply radix_str_digits; lia|apply radix_str_ne|].
    by rewrite H', radix_str_value.
Qed.

Lemma parseInt_num m e : int_ok m e → parseInt (num_to_str (NumDec m e)) = NumDec m e.
Proof.
  intros Hok. unfold num_to_str. destruct (Z.eqb_spec m 0) as [->|Hm0].
  { by destruct Hok as [[_ ->]|[? _]]. }
  pose proof (int_digits_str m e Hok) as Hstr. destruct Hok as [[? _]|(Hmod & He & _)]; [done|].
  assert (Hf : Forall (λ c, is_digit c = true) (radix_str 10 (Z.abs m) ++ replicate (Z.to_nat e) 48)).
  { apply Forall_app_2; [apply radix_str_digits; lia|by apply Forall_replicate]. }
  assert (Hv : dec_value 0 (radix_str 10 (Z.abs m) ++ replicate (Z.to_nat e) 48) = Z.abs m * 10 ^ e).
  { by rewrite dec_value_app, radix_str_value, dec_value_zeros, Z2Nat.id by lia. }
  pose proof (radix_str_ne 10 (Z.abs m)) as Hne.
  destruct (parseInt_digits _ Hf) as [Hp Hn]; [by destruct (radix_str 10 (Z.abs m))|]. rewrite Hv in Hp, Hn.
  destruct (Z.ltb_spec m 0).
  - replace (- m) with (Z.abs m) by lia. rewrite Hstr. change (js "-" ++ ?x) with (45 :: x). rewrite Hn.
    unfold num_of_Z. rewrite <-(num_dec_scaled m e) by done. f_equal. lia.
  - rewrite (Z.abs_eq m) in * by lia. rewrite Hstr, Hp. by apply num_dec_scaled.
Qed.

Lemma index_segment n : 46 ∉ Z_to_str (Z.of_nat n + 1) ∧ Z_to_str (Z.of_nat n + 1) ≠ [].
Proof.
  unfold Z_to_str. destruct (Z.ltb_spec (Z.of_nat n + 1) 0); [lia|]. split; [|apply radix_str_ne].
  intros Hin. pose proof (radix_str_digits (Z.of_nat n + 1) ltac:(lia)) as Hd.
  rewrite Forall_forall in Hd. by specialize (Hd _ Hin).
Qed.

Lemma index_inj n m : Z_to_str (Z.of_nat n + 1) = Z_to_str (Z.of_nat m + 1) → n = m.
Proof.
  unfold Z_to_str. destruct (Z.ltb_spec (Z.of_nat n + 1) 0), (Z.ltb_spec (Z.of_nat m + 1) 0); try lia.
  intros H1%(f_equal (dec_value 0)). rewrite !radix_str_value in H1 by lia. lia.
Qed.

(** ** Calls of distinct names *)

(** The names a serialization emits: distinct, and below [n]. *)
Definition emits (n : jsstr) (o : option (list (jsstr * jsval))) : Prop :=
  ∀ l, o = Some l → NoDup l.*1 ∧ Forall (under n) l.*1.

Lemma emits_nil n : emits n (Some []).
Proof. intros l [= <-]. split; constructor. Qed.

Lemma emits_one n v : emits n (Some [(n, v)]).
Proof.
  intros l [= <-]. split; [apply NoDup_singleton|]. constructor; [apply under_refl|constructor].
Qed.

Lemma emits_below n m o : emits (n ++ 46 :: m) o → emits n o.
Proof.
  intros H l Hl. destruct (H l Hl) as [? Hu]. split; [done|].
  eapply Forall_impl; [exact Hu|]. intros x. apply under_below.
Qed.

Lemma calls_cons {A} (f : A → option (list (jsstr * jsval))) x l r :
  calls f (x :: l) = Some r → ∃ a b, f x = Some a ∧ calls f l = Some b ∧ r = a ++ b.
Proof.
  unfold calls. intros (ll & Hm & ->)%fmap_Some. simpl in Hm.
  destruct (f x) as [a|]; [|done]. destruct (mapM f l) as [ls|] eqn:Hls; [|done]. injection Hm as <-.
  exists a, (concat ls). done.
Qed.

(** Calls below distinct segments of one prefix emit distinct names. *)
Lemma calls_distinct {A} (f : A → option (list (jsstr * jsval))) (p : jsstr) (tag : A → jsstr) l :
  NoDup (tag <$> l) → (∀ x, x ∈ l → 46 ∉ tag x ∧ emits (p ++ tag x) (f x)) →
  ∀ r, calls f l = Some r →
    NoDup r.*1 ∧ Forall (λ n, ∃ x, x ∈ l ∧ under (p ++ tag x) n) r.*1.
Proof.
  induction l as [|x l IH]; intros Hnd Hl r Hr.
  { injection Hr as <-. split; constructor. }
  apply calls_cons in Hr as (a & b & Ha & Hb & ->). apply NoDup_cons in Hnd as [Hx Hnd].
  destruct (IH Hnd (λ y Hy, Hl y (list_elem_of_further _ _ _ Hy)) b Hb) as [Hb1 Hb2].
  destruct (Hl x (list_elem_of_here _ _)) as [Hdx Hem]. destruct (Hem a Ha) as [Ha1 Ha2].
  rewrite fmap_app. split.
  - apply NoDup_app. split_and!; [done| |done]. intros n Hna Hnb.
    rewrite Forall_forall in Ha2, Hb2. destruct (Hb2 n Hnb) as (y & Hy & Hyn).
    destruct (Hl y (list_elem_of_further _ _ _ Hy)) as [Hdy _].
    assert (tag x = tag y) as Heq by (eapply under_inj; [done|done|by apply Ha2|done]).
    apply Hx. rewrite Heq. by apply list_elem_of_fmap_2.
  - apply Forall_app. split; [eapply Forall_impl; [exact Ha2|]|eapply Forall_impl; [exact Hb2|]].
    + intros n Hn. exists x. split; [left|done].
    + intros n (y & ? & ?). exists y. split; [by right|done].
Qed.

(** The same, when the prefix is itself below a name. *)
Lemma calls_emits {A} (f : A → option (list (jsstr * jsval))) (n q : jsstr) (tag : A → jsstr) l :
  NoDup (tag <$> l) → (∀ x, x ∈ l → 46 ∉ tag x ∧ emits (n ++ 46 :: q ++ tag x) (f x)) → emits n (calls f l).
Proof.
  intros Hnd Hl r Hr. destruct (calls_distinct f (n ++ 46 :: q) tag l Hnd) with (r := r) as [H1 H2].
  - intros x Hx. rewrite <- app_assoc. by apply Hl.
  - done.
  - split; [done|]. eapply Forall_impl; [exact H2|]. intros m (x & _ & Hm).
    rewrite <- app_assoc in Hm. by eapply under_below.
Qed.

(** ** Distinct names *)

Section naming.
Context (Date_parse : jsval → option Z) (Buffer_from : jsval → option (list Z)) (protocol : jsstr) (table : shape_id → shape).

Context (good : shape_id → Prop).   (* the shapes that matter *)

Local Abbreviation ucfirst := (ucfirst protocol).
Local Abbreviation serializeMember := (serializeMember Date_parse Buffer_from protocol table).

(** The flattened lists that take the name of their members. *)
Definition renames (s : shape) : bool :=
  has_type s (js "list") && negb (str_eqb protocol (js "ec2")) && s_flattened s &&
  negb (str_eqb (s_name (table (s_member s))) []).

(** The shapes a shape refers to. *)
Definition uses (s : shape) (id : shape_id) : Prop :=
  (∃ k, (k, id) ∈ s_members s) ∨ (has_type s (js "list") = true ∧ id = s_member s) ∨
  (has_type s (js "map") = true ∧ (id = s_key s ∨ id = s_value s)).

(** The names of the members of a shape: single segments, distinct in a
    structure, and a list that takes the name of its members only where it has
    that name itself; the shape refers to shapes that matter. *)
Record well_named (s : shape) : Prop := {
  wn_uses id : uses s id → good id;
  wn_segment k id : (k, id) ∈ s_members s → ucfirst (table id) ≠ [] ∧ 46 ∉ ucfirst (table id);
  wn_distinct : NoDup ((λ m : jsstr * shape_id, ucfirst (table m.2)) <$> s_members s);
  wn_flat k id : (k, id) ∈ s_members s → renames (table id) = true →
    ucfirst (table (s_member (table id))) = ucfirst (table id);
  wn_item : has_type s (js "list") = true → renames (table (s_member s)) = false;
  wn_key : has_type s (js "map") = true → 46 ∉ key_name table s ∧ renames (table (s_key s)) = false;
  wn_value : has_type s (js "map") = true → 46 ∉ value_name table s ∧ renames (table (s_value s)) = false;
  wn_entry : has_type s (js "map") = true → key_name table s ≠ value_name table s;
}.

Definition fixed_name (s : shape) (name : jsstr) : Prop :=
  renames s = true → flat_name protocol (table (s_member s)) name = name.

Lemma flat_name_fixed m name p : 46 ∉ ucfirst m → name = p ++ 46 :: ucfirst m ∨ name = ucfirst m →
  flat_name protocol m name = name.
Proof.
  intros Hd Hname. unfold flat_name.
  assert (H : removelast (split_on 46 name) ++ [ucfirst m] = split_on 46 name).
  { destruct Hname as [-> | ->].
    - rewrite split_on_middle, (split_on_absent 46 (ucfirst m)) by done. by rewrite removelast_last.
    - by rewrite split_on_absent. }
  rewrite H. apply join_split.
Qed.

Lemma member_fixed s k id prefix : well_named s → (k, id) ∈ s_members s →
  fixed_name (table id) (member_name protocol prefix (table id)).
Proof.
  intros Hs Hin Hr. pose proof (wn_flat s Hs k id Hin Hr) as Heq. destruct (wn_segment s Hs k id Hin) as [_ Hd].
  apply (flat_name_fixed _ _ prefix); rewrite Heq; [done|]. unfold member_name. destruct prefix; auto.
Qed.

Lemma not_renamed s name : renames s = false → fixed_name s name.
Proof. intros H1 H2. congruence. Qed.

(** The name of an item is below the name of its list. *)
Lemma item_name_below s name : has_type s (js "list") = true → fixed_name s name →
  ∃ q, ∀ n, item_name protocol table s name n = name ++ 46 :: q ++ Z_to_str (Z.of_nat n + 1).
Proof.
  intros Hl Hf. unfold item_name, fixed_name, renames in *. rewrite Hl in Hf.
  destruct (str_eqb protocol (js "ec2")); [exists []; reflexivity|]. destruct (s_flattened s).
  - exists []. intros k. destruct (str_eqb (s_name _) []); [reflexivity|]. specialize (Hf eq_refl).
    assert (Hi : ∀ j, Nat.iter j (flat_name protocol (table (s_member s))) name = name).
    { induction j as [|j IH]; [done|]. cbn [Nat.iter nat_rect]. unfold Nat.iter in IH. by rewrite IH. }
    rewrite Hi. reflexivity.
  - set (m := if str_eqb _ _ then _ else _). exists (m ++ [46]). intros k. by rewrite <- app_assoc.
Qed.

Lemma entry_position_below s n x : entry_position s n ++ x =
  46 :: (if s_flattened s then [] else js "entry.") ++ Z_to_str (Z.of_nat n + 1) ++ 46 :: x.
Proof. unfold entry_position. destruct (s_flattened s); rewrite <- !app_assoc; reflexivity. Qed.

Context (Htable : ∀ id, good id → well_named (table id)).

Lemma imap_pair_tags {A} (l : list A) :
  NoDup ((λ nv : nat * A, Z_to_str (Z.of_nat nv.1 + 1)) <$> imap pair l).
Proof.
  apply NoDup_alt. intros i j x. rewrite !list_lookup_fmap, !list_lookup_imap.
  destruct (l !! i), (l !! j); try done. simpl. intros [= <-] [= H]. by apply index_inj.
Qed.

Lemma imap_pair_elem {A} (l : list A) n x : (n, x) ∈ imap pair l → x ∈ l.
Proof.
  intros [i Hi]%list_elem_of_lookup. rewrite list_lookup_imap in Hi.
  destruct (l !! i) as [y|] eqn:Hy; [|done]. injection Hi as _ ->. by eapply list_elem_of_lookup_2.
Qed.

(** The two parts of an entry. *)
Lemma emits_pair n a b (x y : option (list (jsstr * jsval))) :
  46 ∉ a → 46 ∉ b → a ≠ b → emits (n ++ 46 :: a) x → emits (n ++ 46 :: b) y →
  emits n (l ← x; m ← y; Some (l ++ m)).
Proof.
  intros Ha Hb Hab Hx Hy r Hr. destruct x as [l|]; [|done]. destruct y as [m|]; [|done]. injection Hr as <-.
  destruct (Hx l eq_refl) as [Hl1 Hl2], (Hy m eq_refl) as [Hm1 Hm2]. rewrite fmap_app. split.
  - apply NoDup_app. split_and!; [done| |done]. intros k Hk1 Hk2. rewrite Forall_forall in Hl2, Hm2.
    apply Hab, (under_inj (n ++ [46]) a b k Ha Hb); rewrite <- app_assoc; auto.
  - apply Forall_app. split; (eapply Forall_impl; [eassumption|]); intros k; apply under_below.
Qed.

(** The members of a structure, below the segment of each of them. *)
Lemma structure_emits fuel s prefix v r :
  (∀ name w m, name ≠ [] → well_named m → fixed_name m name → emits name (serializeMember fuel name w m)) →
  well_named s →
  calls (λ m : jsstr * shape_id,
    let x := js_prop v m.1 in
    if nullish x then Some [] else serializeMember fuel (member_name protocol prefix (table m.2)) x (table m.2))
    (own_props (s_members s)) = Some r →
  NoDup r.*1 ∧
  Forall (λ n, ∃ m, m ∈ s_members s ∧ under (member_name protocol prefix (table m.2)) n) r.*1.
Proof.
  intros IH Hs Hr. set (p := match prefix with [] => [] | _ => prefix ++ [46] end).
  assert (Hp : ∀ m, member_name protocol prefix m = p ++ ucfirst m).
  { intros m. unfold member_name, p. destruct prefix; [done|]. by rewrite <- app_assoc. }
  pose proof (λ H1 H2, calls_distinct _ p (λ m : jsstr * shape_id, ucfirst (table m.2)) _ H1 H2 r Hr) as Hd.
  destruct Hd as [H1 H2].
  - rewrite own_props_perm. by apply wn_distinct.
  - intros [k id]. rewrite own_props_perm. intros Hin. destruct (wn_segment s Hs k id Hin) as [Hne Hd].
    split; [done|]. cbn [fst snd]. rewrite <- Hp. destruct (nullish _); [apply emits_nil|]. apply IH.
    + rewrite Hp. by destruct p.
    + apply Htable, (wn_uses s Hs). left. by exists k.
    + by eapply member_fixed.
  - split; [done|]. eapply Forall_impl; [exact H2|]. intros n (m & Hm & Hu). exists m.
    rewrite own_props_perm in Hm. by rewrite Hp.
Qed.

(** Every value is serialized to distinct names below its own. *)
Lemma serializeMember_emits fuel name v s :
  name ≠ [] → well_named s → fixed_name s name → emits name (serializeMember fuel name v s).
Proof.
  revert name v s. induction fuel as [|fuel IH]; intros name v s Hne Hs Hf; [by intros ?|].
  cbn [QuerySerializer.serializeMember]. destruct (nullish v); [apply emits_nil|].
  destruct (has_type s (js "structure")).
  { intros r Hr. destruct (structure_emits fuel s name v r IH Hs Hr) as [H1 H2]. split; [done|].
    eapply Forall_impl; [exact H2|]. intros n (m & _ & Hm). destruct name; [done|].
    exact (under_below _ (ucfirst (table m.2)) n Hm). }
  destruct (has_type s (js "list")) eqn:Hl.
  { case_bool_decide; [apply emits_one|]. destruct (item_name_below s name Hl Hf) as [q Hq].
    apply (calls_emits _ name q (λ nv, Z_to_str (Z.of_nat nv.1 + 1))); [apply imap_pair_tags|].
    intros [n [k x]] _. cbn [fst snd]. split; [apply index_segment|]. rewrite <- Hq. apply IH.
    - rewrite Hq. by destruct name.
    - apply Htable, (wn_uses s Hs). right; left. done.
    - apply not_renamed. by apply wn_item. }
  destruct (has_type s (js "map")) eqn:Hm; [|destruct (wire _ _ _ _) as [t|]; [apply emits_one|by intros ?]].
  destruct (wn_key s Hs Hm) as [Hk Hkr], (wn_value s Hs Hm) as [Hv Hvr].
  apply (calls_emits _ name (if s_flattened s then [] else js "entry.") (λ nv, Z_to_str (Z.of_nat nv.1 + 1)));
    [apply imap_pair_tags|].
  intros [n [k x]] _. cbn [fst snd]. split; [apply index_segment|]. rewrite !entry_position_below.
  apply (emits_pair _ (key_name table s) (value_name table s)); [done|done|by apply wn_entry| |].
  all: rewrite <- !app_assoc; cbn [app]; rewrite <- !app_assoc; apply IH;
    [by destruct name|apply Htable, (wn_uses s Hs); right; right; auto|by apply not_renamed].
Qed.

(** The names of a whole request. *)
Lemma serialize_distinct fuel params s l :
  well_named s → serialize Date_parse Buffer_from protocol table fuel params s = Some l →
  NoDup l.*1 ∧ Forall (λ n, ∃ m, m ∈ s_members s ∧ under (ucfirst (table m.2)) n) l.*1.
Proof.
  unfold serialize. intros Hs Hl. destruct (_ && _); [done|].
  by apply (structure_emits fuel s [] params l (serializeMember_emits fuel) Hs Hl).
Qed.
End naming.

(** ** Validated parameters are serialized *)

Section totality.
Context (Date_parse : jsval → option Z) (Buffer_from : jsval → option (list Z)) (protocol : jsstr).
Context (table : shape_id → shape) (regex_test : jsstr → jsstr → bool) (vd : validation) (good : shape_id → Prop).

(** A shape whose scalars are written for every value: no timestamp, no payload.
    Its members are distinct, and none is called [length]. *)
Record textual (s : shape) : Prop := {
  tx_type : default [] (s_type s) ∉ [js "timestamp"; js "base64"; js "binary"];
  tx_nodup : NoDup (s_members s).*1;
  tx_length : js "length" ∉ (s_members s).*1;
}.

Lemma wire_total s v : textual s → nullish v = false → is_Some (wire Date_parse Buffer_from s v).
Proof.
  intros [Ht _ _] Hv. unfold wire. set (t := default [] (s_type s)).
  fold t in Ht. rewrite !not_elem_of_cons in Ht. destruct Ht as (H1 & H2 & H3 & _).
  assert (Hn : ∀ x, t ≠ x → str_eqb t x = false) by (intros x Hx; apply not_true_is_false; by rewrite str_eqb_eq).
  rewrite (Hn _ H1), (Hn _ H2), (Hn _ H3). cbn [orb].
  destruct (str_eqb t (js "float")); [by eexists|]. destruct (str_eqb t (js "integer")); [by eexists|].
  destruct (str_eqb t (js "string")); [|by eexists]. unfold wire_string. destruct (s_isJsonValue s); [|by eexists].
  destruct v as [| | |[]| | |]; try discriminate Hv; by eexists.
Qed.

Lemma calls_total {A} (f : A → option (list (jsstr * jsval))) l :
  (∀ x, x ∈ l → is_Some (f x)) → is_Some (calls f l).
Proof. intros H. unfold calls. apply fmap_is_Some, mapM_is_Some_2, Forall_forall, H. Qed.

(** A member that has a value is a property of the value. *)
Lemma js_prop_entry v k : k ≠ js "length" → nullish (js_prop v k) = false → (k, js_prop v k) ∈ entries v.
Proof.
  intros Hk. unfold js_prop. destruct (str_eqb_spec k (js "length")); [done|].
  destruct (obj_get k (entries v)) as [x|] eqn:Hg; [|done]. intros _. by apply elem_of_obj_get.
Qed.

Lemma structure_total fuel s v prefix :
  textual s → is_object v →
  (∀ k x id name, (k, x) ∈ entries v → obj_get k (s_members s) = Some id →
     is_Some (serializeMember Date_parse Buffer_from protocol table fuel name x (table id))) →
  is_Some (calls (λ m : jsstr * shape_id,
    let x := js_prop v m.1 in
    if nullish x then Some []
    else serializeMember Date_parse Buffer_from protocol table fuel (member_name protocol prefix (table m.2)) x (table m.2))
    (own_props (s_members s))).
Proof.
  intros Hs Hv IH. apply calls_total. intros [k id]. rewrite own_props_perm. intros Hin. cbn [fst snd].
  destruct (nullish (js_prop v k)) eqn:Hn; [done|]. apply (IH k).
  - apply js_prop_entry; [|done]. intros ->. apply (tx_length s Hs). by apply (list_elem_of_fmap_2 fst) in Hin.
  - apply obj_get_elem_of; [by apply tx_nodup|done].
Qed.

Lemma serializeMember_total s v :
  (∀ id, good id → well_named protocol table good (table id) ∧ textual (table id)) →
  conforms regex_test table vd s v → well_named protocol table good s → textual s →
  ∀ fuel name, (depth v < fuel)%nat →
  is_Some (serializeMember Date_parse Buffer_from protocol table fuel name v s).
Proof.
  intros Ht. induction 1 as [s v Hs Hv Hreq Hm IH Hex|s v Hs Hv Hm IH|s v Hs Hv Hk IHk Hx IHx|s v N1 N2 N3 Hsc];
    intros Hw Htx [|fuel] name Hf; try lia; cbn [serializeMember];
    (destruct (nullish v) eqn:Hn; [by eexists|]).
  - rewrite (proj2 (has_type_spec _ _) Hs). destruct Hv as [Hv|[Hv _]]; [|congruence].
    apply structure_total; [done|done|]. intros k x id m Hin Hid.
    assert (Hg : good id) by (apply (wn_uses _ _ _ _ Hw); left; exists k; by apply elem_of_obj_get).
    apply (IH k x (table id) Hin); [unfold member_shape; by rewrite Hid|by apply Ht|by apply Ht|].
    pose proof (entries_depth v k x Hv Hin). lia.
  - destruct Hv as [Hv|[Ha _]]; [congruence|]. assert (Hv : is_object v) by (by destruct v).
    assert (Hg : good (s_member s)) by (apply (wn_uses _ _ _ _ Hw); right; left; by rewrite has_type_spec).
    unfold has_type. rewrite Hs, bool_decide_false, bool_decide_true by done.
    case_bool_decide; [by eexists|]. apply calls_total. intros [n [k x]] Hin. cbn [fst snd].
    apply imap_pair_elem in Hin. apply (IH k x Hin); [by apply Ht..|]. pose proof (entries_depth v k x Hv Hin). simpl. lia.
  - destruct Hv as [Hv|[Hv _]]; [congruence|].
    assert (Hg : good (s_key s) ∧ good (s_value s))
      by (split; apply (wn_uses _ _ _ _ Hw); right; right; rewrite has_type_spec; auto).
    destruct Hg as [Hgk Hgv].
    unfold has_type. rewrite Hs, !bool_decide_false, bool_decide_true by done.
    apply calls_total. intros [n [k x]] Hin. cbn [fst snd].
    apply imap_pair_elem in Hin. pose proof (entries_depth v k x Hv Hin).
    edestruct (IHk k x Hin) with (fuel := fuel) as [a ->]; [by apply Ht..|simpl; lia|].
    edestruct (IHx k x Hin) with (fuel := fuel) as [b ->]; [by apply Ht..|lia|]. by eexists.
  - unfold has_type. rewrite !bool_decide_false by done.
    destruct (wire_total s v Htx Hn) as [t ->]. by eexists.
Qed.
End totality.

(** ** What is written for what *)

(** The decimal digits of an integer. *)
Definition decimal (t : jsstr) (z : Z) : Prop :=
  ∃ ds, ds ≠ [] ∧ Forall (λ c, is_digit c = true) ds ∧
    (t = ds ∧ dec_value 0 ds = z ∨ t = 45 :: ds ∧ - dec_value 0 ds = z).

Lemma num_to_str_decimal m e : int_ok m e → decimal (num_to_str (NumDec m e)) (m * 10 ^ e).
Proof.
  intros Hok. unfold num_to_str. destruct (Z.eqb_spec m 0) as [->|Hm0].
  { exists [48]. split_and!; [done|by repeat constructor|]. by left. }
  pose proof (int_digits_str m e Hok) as Hstr. destruct Hok as [[? _]|(_ & He & _)]; [done|].
  exists (radix_str 10 (Z.abs m) ++ replicate (Z.to_nat e) 48). split_and!.
  - pose proof (radix_str_ne 10 (Z.abs m)). by destruct (radix_str 10 (Z.abs m)).
  - apply Forall_app_2; [apply radix_str_digits; lia|by apply Forall_replicate].
  - rewrite dec_value_app, radix_str_value, dec_value_zeros, Z2Nat.id by lia. destruct (Z.ltb_spec m 0).
    + right. replace (- m) with (Z.abs m) by lia. rewrite Hstr. split; [done|]. rewrite Z.abs_neq by lia. lia.
    + left. replace (Z.abs m) with m in * by lia. by rewrite Hstr.
Qed.

Lemma parseFloat_digits ds : Forall (λ c, is_digit c = true) ds → ds ≠ [] →
  parseFloat ds = num_of_Z (dec_value 0 ds) ∧ parseFloat (45 :: ds) = num_of_Z (- dec_value 0 ds).
Proof.
  intros Hs Hne. destruct ds as [|c ds]; [done|]. pose proof (take_digits_all _ Hs) as Ht.
  set (body := λ sign, let '(whole, s) := take_digits (c :: ds) in
    let '(frac, s) := match s with 46 :: s' => take_digits s' | _ => ([], s) end in
    if Nat.eqb (length whole + length frac) 0 then NumNaN
    else num_dec (sign * dec_value 0 (whole ++ frac)) (parse_exponent s - Z.of_nat (length frac))).
  assert (Hb : parseFloat (c :: ds) = body 1 ∧ parseFloat (45 :: c :: ds) = body (-1)).
  { clear Ht. apply Forall_cons in Hs as [Hc _]. apply digit_cases in Hc.
    repeat (apply elem_of_cons in Hc as [->|Hc]; [split; reflexivity|]). by apply not_elem_of_nil in Hc. }
  assert (Hv : ∀ sign, body sign = num_of_Z (sign * dec_value 0 (c :: ds))).
  { intros sign. unfold body. rewrite Ht. cbn [length]. by rewrite app_nil_r. }
  destruct Hb as [-> ->]. rewrite !Hv. split; f_equal; lia.
Qed.

Lemma decimal_num m e t : int_ok m e → decimal t (m * 10 ^ e) → parseFloat t = NumDec m e.
Proof.
  intros Hok (ds & Hne & Hds & Ht). destruct (parseFloat_digits ds Hds Hne) as [H1 H2].
  assert (Hn : num_of_Z (m * 10 ^ e) = NumDec m e).
  { destruct Hok as [[-> ->]|(Hm & He & _)]; [done|by apply num_dec_scaled]. }
  destruct Ht as [[-> Hv]|[-> Hv]]; rewrite ?H1, ?H2, Hv; exact Hn.
Qed.

(** The text of a scalar, told from its value: a string is written as it is, an
    integer below 10^21 in its decimal digits, a boolean as its name, and a JSON
    value as a text that parses to it. *)
Definition text_of (s : shape) (x : jsval) (t : jsstr) : Prop :=
  let type := default [] (s_type s) in
  if str_eqb type (js "string") && s_isJsonValue s then json_ok x → JSON_parse t = Some x
  else match x with
       | JStr u => type ∉ [js "integer"; js "float"] → t = u
       | JBool b => type ∉ [js "integer"; js "float"] → t = if b then js "true" else js "false"
       | JNum (NumDec m e) => int_ok m e → decimal t (m * 10 ^ e)
       | _ => True
       end.

Lemma wire_text Date_parse Buffer_from s x t :
  textual s → wire Date_parse Buffer_from s x = Some t → text_of s x t.
Proof.
  intros [Ht _ _]. unfold wire, text_of. set (type := default [] (s_type s)) in *.
  rewrite !not_elem_of_cons in Ht. destruct Ht as (H1 & H2 & H3 & _).
  rewrite (proj2 (str_eqb_neq _ _) H1), (proj2 (str_eqb_neq _ _) H2), (proj2 (str_eqb_neq _ _) H3). cbn [orb].
  destruct (str_eqb_spec type (js "float")) as [->|Hf]; [|destruct (str_eqb_spec type (js "integer")) as [->|Hi]].
  - intros [= <-]. cbn [andb str_eqb js]. change (str_eqb (js "float") (js "string")) with false. cbn [andb].
    destruct x as [| |b|[|neg|m e]|u| |]; try done; try set_solver. intros Hok. cbn [to_string].
    rewrite (decimal_num m e _ Hok (num_to_str_decimal m e Hok)). by apply num_to_str_decimal.
  - intros [= <-]. change (str_eqb (js "integer") (js "string")) with false. cbn [andb].
    destruct x as [| |b|[|neg|m e]|u| |]; try done; try set_solver. intros Hok. cbn [to_string].
    rewrite parseInt_num by done. by apply num_to_str_decimal.
  - unfold wire_string. destruct (str_eqb type (js "string")); [destruct (s_isJsonValue s)|]; cbn [andb].
    + intros Hj Hok. destruct (JSON_roundtrip x Hok) as (t' & Ht' & Hp). congruence.
    + intros [= <-]. destruct x as [| |b|[|neg|m e]|u| |]; try done. apply num_to_str_decimal.
    + intros [= <-]. destruct x as [| |b|[|neg|m e]|u| |]; try done. apply num_to_str_decimal.
Qed.

Section leaves.
Context (Date_parse : jsval → option Z) (Buffer_from : jsval → option (list Z)) (protocol : jsstr) (table : shape_id → shape).

(** The segments of a name between that of a list or a map and an index. *)
Definition list_segments (s : shape) : list jsstr :=
  if str_eqb protocol (js "ec2") || s_flattened s then []
  else [if str_eqb (s_name (table (s_member s))) [] then js "member" else s_name (table (s_member s))].
Definition map_segments (s : shape) : list jsstr := if s_flattened s then [] else [js "entry"].
Definition position_text (n : nat) : jsstr := Z_to_str (Z.of_nat n + 1).

(** The leaves of a value of a shape: the scalars and the empty lists in it, each
    with the segments of its name; null and undefined values have none. *)
Inductive leaf : shape → jsval → list jsstr → shape → jsval → Prop :=
| leaf_scalar s v :
    nullish v = false → has_type s (js "structure") = false → has_type s (js "list") = false →
    has_type s (js "map") = false → leaf s v [] s v
| leaf_empty s v :
    nullish v = false → has_type s (js "list") = true → js_length v = JNum (num_of_Z 0) → leaf s v [] s v
| leaf_member s v k id segs s' x :
    nullish v = false → has_type s (js "structure") = true → (k, id) ∈ s_members s →
    leaf (table id) (js_prop v k) segs s' x → leaf s v (ucfirst protocol (table id) :: segs) s' x
| leaf_item s v n k y segs s' x :
    nullish v = false → has_type s (js "list") = true → js_length v ≠ JNum (num_of_Z 0) →
    entries v !! n = Some (k, y) → leaf (table (s_member s)) y segs s' x →
    leaf s v (list_segments s ++ position_text n :: segs) s' x
| leaf_key s v n k y segs s' x :
    nullish v = false → has_type s (js "map") = true →
    entries v !! n = Some (k, y) → leaf (table (s_key s)) (JStr k) segs s' x →
    leaf s v (map_segments s ++ position_text n :: key_name table s :: segs) s' x
| leaf_value s v n k y segs s' x :
    nullish v = false → has_type s (js "map") = true →
    entries v !! n = Some (k, y) → leaf (table (s_value s)) y segs s' x →
    leaf s v (map_segments s ++ position_text n :: value_name table s :: segs) s' x.

(** What is written for a leaf: null for an empty list, the text of a scalar. *)
Definition written (s : shape) (x w : jsval) : Prop :=
  if has_type s (js "list") then w = JNull else ∃ t, w = JStr t ∧ text_of s x t.
Definition emitted_for (s : shape) (x w : jsval) : Prop :=
  if has_type s (js "list") then w = JNull else ∃ t, w = JStr t ∧ wire Date_parse Buffer_from s x = Some t.

(** A name continued by segments. *)
Definition name_below (name : jsstr) (segs : list jsstr) : jsstr := name ++ concat ((λ g, 46 :: g) <$> segs).

Lemma below_app name a b : name_below (name_below name a) b = name_below name (a ++ b).
Proof. unfold name_below. by rewrite fmap_app, concat_app, app_assoc. Qed.

Lemma below_join g segs : join (js ".") (g :: segs) = name_below g segs.
Proof.
  revert g. induction segs as [|h segs IH]; intros g; [by unfold name_below; rewrite app_nil_r|].
  change (join (js ".") (g :: h :: segs)) with (g ++ js "." ++ join (js ".") (h :: segs)). rewrite IH.
  unfold name_below. rewrite fmap_cons. reflexivity.
Qed.

Lemma item_name_segments s name n : has_type s (js "list") = true → fixed_name protocol table s name →
  item_name protocol table s name n = name_below name (list_segments s ++ [position_text n]).
Proof.
  intros Hl Hf. unfold item_name, fixed_name, renames, list_segments, name_below, position_text in *. rewrite Hl in Hf.
  destruct (str_eqb protocol (js "ec2")); cbn [orb]; [cbn; by rewrite app_nil_r|]. destruct (s_flattened s).
  - destruct (str_eqb (s_name _) []); cbn [app fmap list_fmap concat]; rewrite app_nil_r; [reflexivity|]. specialize (Hf eq_refl).
    assert (Hi : ∀ j, Nat.iter j (flat_name protocol (table (s_member s))) name = name).
    { induction j as [|j IH]; [done|]. cbn [Nat.iter nat_rect]. unfold Nat.iter in IH. by rewrite IH. }
    by rewrite Hi.
  - cbn [app fmap list_fmap concat]. rewrite app_nil_r. reflexivity.
Qed.

Lemma entry_name_segments s name n x : name ++ entry_position s n ++ x = name_below name (map_segments s ++ [position_text n; x]).
Proof.
  rewrite entry_position_below. unfold name_below, map_segments, position_text. f_equal.
  destruct (s_flattened s); cbn [app fmap list_fmap concat]; rewrite app_nil_r; reflexivity.
Qed.

Lemma calls_elem {A} (f : A → option (list (jsstr * jsval))) l r p :
  calls f l = Some r → p ∈ r ↔ ∃ y a, y ∈ l ∧ f y = Some a ∧ p ∈ a.
Proof.
  revert r. induction l as [|x l IH]; intros r Hr.
  { injection Hr as <-. split; [by intros ?%not_elem_of_nil|]. intros (y & a & Hy & _). by apply not_elem_of_nil in Hy. }
  apply calls_cons in Hr as (a & b & Ha & Hb & ->). rewrite elem_of_app, (IH b Hb). setoid_rewrite elem_of_cons. naive_solver.
Qed.

Lemma calls_some {A} (f : A → option (list (jsstr * jsval))) l r y :
  calls f l = Some r → y ∈ l → ∃ a, f y = Some a ∧ ∀ p, p ∈ a → p ∈ r.
Proof.
  revert r. induction l as [|x l IH]; intros r Hr; [by intros ?%not_elem_of_nil|].
  apply calls_cons in Hr as (a & b & Ha & Hb & ->). intros [->|Hy]%elem_of_cons.
  - exists a. split; [done|]. set_solver.
  - destruct (IH b Hb Hy) as (c & Hc & Hin). exists c. split; [done|]. set_solver.
Qed.

Lemma imap_pair_lookup {A} (l : list A) n x : (n, x) ∈ imap pair l ↔ l !! n = Some x.
Proof.
  rewrite list_elem_of_lookup. setoid_rewrite list_lookup_imap. split.
  - intros (i & Hi). destruct (l !! i) as [y|] eqn:E; [|done]. by injection Hi as <- <-.
  - intros Hn. exists n. by rewrite Hn.
Qed.

Context (good : shape_id → Prop) (Htable : ∀ id, good id → well_named protocol table good (table id)).
Local Abbreviation serializeMember := (serializeMember Date_parse Buffer_from protocol table).
Local Abbreviation well_named := (well_named protocol table good).
Local Abbreviation fixed_name := (fixed_name protocol table).

Lemma leaf_not_nullish s v segs s' x : leaf s v segs s' x → nullish v = false.
Proof. by destruct 1. Qed.

Lemma below_ne name segs : name ≠ [] → name_below name segs ≠ [].
Proof. by destruct name. Qed.

Lemma member_name_below prefix m : prefix ≠ [] → member_name protocol prefix m = name_below prefix [ucfirst protocol m].
Proof. destruct prefix; [done|]. intros _. unfold name_below. cbn [fmap list_fmap concat]. rewrite app_nil_r. reflexivity. Qed.

Lemma types_differ s a b : has_type s a = true → a ≠ b → has_type s b = false.
Proof. rewrite has_type_spec. intros Ha Hab. unfold has_type. rewrite Ha. apply bool_decide_eq_false. congruence. Qed.

(** The calls for the parts of a value. *)
Lemma member_calls fuel name v s l k id :
  name ≠ [] → has_type s (js "structure") = true → nullish v = false → well_named s → (k, id) ∈ s_members s →
  nullish (js_prop v k) = false → serializeMember (S fuel) name v s = Some l →
  let name' := name_below name [ucfirst protocol (table id)] in
  ∃ a, serializeMember fuel name' (js_prop v k) (table id) = Some a ∧ (∀ p, p ∈ a → p ∈ l) ∧
    well_named (table id) ∧ fixed_name (table id) name'.
Proof.
  intros Hne Hs Hv Hw Hin Hk Hser. cbn [QuerySerializer.serializeMember] in Hser. rewrite Hv, Hs in Hser.
  assert (Hin' := Hin). rewrite <- (own_props_perm (s_members s)) in Hin'.
  destruct (calls_some _ _ _ _ Hser Hin') as (a & Ha & Hsub). cbn [fst snd] in Ha. rewrite Hk in Ha.
  rewrite member_name_below in Ha by done. exists a. split_and!; [done|done| |].
  - apply Htable, (wn_uses _ _ _ _ Hw). left. by exists k.
  - rewrite <- member_name_below by done. by eapply member_fixed.
Qed.

Lemma item_calls fuel name v s l n k y :
  has_type s (js "list") = true → nullish v = false → js_length v ≠ JNum (num_of_Z 0) →
  well_named s → fixed_name s name → entries v !! n = Some (k, y) → serializeMember (S fuel) name v s = Some l →
  let name' := name_below name (list_segments s ++ [position_text n]) in
  ∃ a, serializeMember fuel name' y (table (s_member s)) = Some a ∧ (∀ p, p ∈ a → p ∈ l) ∧
    well_named (table (s_member s)) ∧ fixed_name (table (s_member s)) name'.
Proof.
  intros Hl Hv He Hw Hf Hn Hser. cbn [QuerySerializer.serializeMember] in Hser.
  rewrite Hv, (types_differ s (js "list") (js "structure")), Hl, bool_decide_false in Hser by done.
  destruct (calls_some _ _ _ (n, (k, y)) Hser) as (a & Ha & Hsub); [by apply imap_pair_lookup|]. cbn [fst snd] in Ha.
  rewrite (item_name_segments s name n Hl Hf) in Ha. exists a. split_and!; [done|done| |].
  - apply Htable, (wn_uses _ _ _ _ Hw). right; left. done.
  - apply not_renamed. by apply (wn_item _ _ _ _ Hw).
Qed.

Lemma entry_calls fuel name v s l n k y :
  has_type s (js "map") = true → nullish v = false → well_named s → entries v !! n = Some (k, y) →
  serializeMember (S fuel) name v s = Some l →
  let part x := name_below name (map_segments s ++ [position_text n; x]) in
  ∃ a b, (serializeMember fuel (part (key_name table s)) (JStr k) (table (s_key s)) = Some a ∧
      serializeMember fuel (part (value_name table s)) y (table (s_value s)) = Some b) ∧ (∀ p, p ∈ a ∨ p ∈ b → p ∈ l) ∧
    (well_named (table (s_key s)) ∧ fixed_name (table (s_key s)) (part (key_name table s))) ∧
    (well_named (table (s_value s)) ∧ fixed_name (table (s_value s)) (part (value_name table s))).
Proof.
  intros Hm Hv Hw Hn Hser. cbn [QuerySerializer.serializeMember] in Hser.
  rewrite Hv, (types_differ s (js "map") (js "structure")), (types_differ s (js "map") (js "list")), Hm in Hser by done.
  destruct (calls_some _ _ _ (n, (k, y)) Hser) as (c & Hc & Hsub); [by apply imap_pair_lookup|]. cbn [fst snd] in Hc.
  rewrite !entry_name_segments in Hc.
  destruct (serializeMember fuel _ (JStr k) _) as [a|] eqn:Ha; [|done].
  destruct (serializeMember fuel _ y _) as [b|] eqn:Hb; [|done]. injection Hc as <-.
  destruct (wn_key _ _ _ _ Hw Hm) as [_ Hkr], (wn_value _ _ _ _ Hw Hm) as [_ Hvr].
  exists a, b. split_and!; [done|done|intros p Hp; apply Hsub; set_solver|..];
    try (by apply not_renamed); apply Htable, (wn_uses _ _ _ _ Hw); right; right; auto.
Qed.

(** One call for every leaf. *)
Lemma leaf_serialized s v segs s' x : leaf s v segs s' x →
  ∀ fuel name l, name ≠ [] → well_named s → fixed_name s name → serializeMember fuel name v s = Some l →
  ∃ w, (name_below name segs, w) ∈ l ∧ emitted_for s' x w.
Proof.
  unfold emitted_for.
  induction 1 as [s v Hv H1 H2 H3|s v Hv Hl He|s v k id segs s' x Hv Hs Hin Hleaf IH|s v n k y segs s' x Hv Hl He Hn Hleaf IH|
    s v n k y segs s' x Hv Hm Hn Hleaf IH|s v n k y segs s' x Hv Hm Hn Hleaf IH];
    intros [|fuel] name l Hne Hw Hf Hser; try done.
  - cbn [QuerySerializer.serializeMember] in Hser. rewrite Hv, H1, H2, H3 in Hser.
    destruct (wire _ _ s v) as [t|] eqn:Ht; [|done]. injection Hser as <-.
    exists (JStr t). unfold name_below. cbn. rewrite app_nil_r, H2. split; [by left|by exists t].
  - cbn [QuerySerializer.serializeMember] in Hser. 
    rewrite Hv, (types_differ s (js "list") (js "structure")), Hl, bool_decide_true in Hser by done. injection Hser as <-.
    exists JNull. unfold name_below. cbn. rewrite app_nil_r, Hl. split; [by left|done].
  - pose proof (leaf_not_nullish _ _ _ _ _ Hleaf) as Hk.
    destruct (member_calls fuel name v s l k id Hne Hs Hv Hw Hin Hk Hser) as (a & Ha & Hsub & Hw' & Hf').
    destruct (IH fuel _ a (below_ne _ _ Hne) Hw' Hf' Ha) as (w & Hw2 & Hem). rewrite below_app in Hw2. exists w. auto.
  - destruct (item_calls fuel name v s l n k y Hl Hv He Hw Hf Hn Hser) as (a & Ha & Hsub & Hw' & Hf').
    destruct (IH fuel _ a (below_ne _ _ Hne) Hw' Hf' Ha) as (w & Hw2 & Hem).
    rewrite below_app, <- app_assoc in Hw2. exists w. auto.
  - destruct (entry_calls fuel name v s l n k y Hm Hv Hw Hn Hser) as (a & b & [Ha _] & Hsub & [Hw' Hf'] & _).
    destruct (IH fuel _ a (below_ne _ _ Hne) Hw' Hf' Ha) as (w & Hw2 & Hem).
    rewrite below_app, <- app_assoc in Hw2. exists w. auto.
  - destruct (entry_calls fuel name v s l n k y Hm Hv Hw Hn Hser) as (a & b & [_ Hb] & Hsub & _ & [Hw' Hf']).
    destruct (IH fuel _ b (below_ne _ _ Hne) Hw' Hf' Hb) as (w & Hw2 & Hem).
    rewrite below_app, <- app_assoc in Hw2. exists w. auto.
Qed.

(** Every call is one for a leaf. *)
Lemma serialized_leaf fuel name v s l n w :
  name ≠ [] → well_named s → fixed_name s name → serializeMember fuel name v s = Some l → (n, w) ∈ l →
  ∃ segs s' x, leaf s v segs s' x ∧ n = name_below name segs ∧ emitted_for s' x w.
Proof.
  revert name v s l n w. induction fuel as [|fuel IH]; intros name v s l n w Hne Hw Hf Hser Hin; [done|].
  cbn [QuerySerializer.serializeMember] in Hser. destruct (nullish v) eqn:Hv; [injection Hser as <-; by apply not_elem_of_nil in Hin|].
  destruct (has_type s (js "structure")) eqn:Hs; [|destruct (has_type s (js "list")) eqn:Hl; [|destruct (has_type s (js "map")) eqn:Hm]].
  - apply (calls_elem _ _ _ _ Hser) in Hin as ([k id] & a & Hk & Ha & Hin). cbn [fst snd] in Ha. rewrite own_props_perm in Hk.
    destruct (nullish (js_prop v k)) eqn:Hx; [injection Ha as <-; by apply not_elem_of_nil in Hin|].
    assert (Hfix := member_fixed protocol table good s k id name Hw Hk). rewrite member_name_below in Ha, Hfix by done.
    destruct (IH _ _ _ a n w (below_ne _ _ Hne) (Htable _ (wn_uses _ _ _ _ Hw id (or_introl (ex_intro _ k Hk)))) Hfix Ha Hin)
      as (segs & s' & x & Hleaf & -> & Hem).
    exists (ucfirst protocol (table id) :: segs), s', x. rewrite below_app. split_and!; [by eapply leaf_member|done|done].
  - case_bool_decide as He.
    { injection Hser as <-. apply list_elem_of_singleton in Hin as [= -> ->]. exists [], s, v. unfold name_below, emitted_for.
      rewrite app_nil_r, Hl. split_and!; [by apply leaf_empty|done|done]. }
    apply (calls_elem _ _ _ _ Hser) in Hin as ([i [k y]] & a & Hi%imap_pair_lookup & Ha & Hin). cbn [fst snd] in Ha.
    rewrite (item_name_segments s name i Hl Hf) in Ha.
    assert (Hg : good (s_member s)) by (apply (wn_uses _ _ _ _ Hw); right; left; done).
    destruct (IH _ _ _ a n w (below_ne _ _ Hne) (Htable _ Hg) (not_renamed _ _ _ _ (wn_item _ _ _ _ Hw Hl)) Ha Hin)
      as (segs & s' & x & Hleaf & -> & Hem).
    exists (list_segments s ++ position_text i :: segs), s', x. rewrite below_app, <- app_assoc.
    split_and!; [by eapply leaf_item|done|done].
  - apply (calls_elem _ _ _ _ Hser) in Hin as ([i [k y]] & c & Hi%imap_pair_lookup & Hc & Hin). cbn [fst snd] in Hc.
    rewrite !entry_name_segments in Hc.
    destruct (serializeMember fuel _ (JStr k) _) as [a|] eqn:Ha; [|done].
    destruct (serializeMember fuel _ y _) as [b|] eqn:Hb; [|done]. injection Hc as <-.
    destruct (wn_key _ _ _ _ Hw Hm) as [_ Hkr], (wn_value _ _ _ _ Hw Hm) as [_ Hvr].
    assert (Hgk : good (s_key s)) by (apply (wn_uses _ _ _ _ Hw); right; right; auto).
    assert (Hgv : good (s_value s)) by (apply (wn_uses _ _ _ _ Hw); right; right; auto).
    apply elem_of_app in Hin as [Hin|Hin].
    + destruct (IH _ _ _ a n w (below_ne _ _ Hne) (Htable _ Hgk) (not_renamed _ _ _ _ Hkr) Ha Hin) as (segs & s' & x & Hleaf & -> & Hem).
      do 3 eexists. split_and!; [by eapply leaf_key|by rewrite below_app, <- app_assoc|done].
    + destruct (IH _ _ _ b n w (below_ne _ _ Hne) (Htable _ Hgv) (not_renamed _ _ _ _ Hvr) Hb Hin) as (segs & s' & x & Hleaf & -> & Hem).
      do 3 eexists. split_and!; [by eapply leaf_value|by rewrite below_app, <- app_assoc|done].
  - destruct (wire _ _ s v) as [t|] eqn:Ht; [|done]. injection Hser as <-. apply list_elem_of_singleton in Hin as [= -> ->].
    exists [], s, v. unfold name_below, emitted_for. rewrite app_nil_r, Hl. split_and!; [by apply leaf_scalar|done|by exists t].
Qed.

Lemma leaf_structure s v segs s' x : leaf s v segs s' x → has_type s (js "structure") = true →
  ∃ k id segs', (k, id) ∈ s_members s ∧ segs = ucfirst protocol (table id) :: segs' ∧
    leaf (table id) (js_prop v k) segs' s' x.
Proof.
  assert (Hno : ∀ s t, has_type s (js "structure") = true → has_type s t = true → t = js "structure").
  { intros s0 t. rewrite !has_type_spec. congruence. }
  destruct 1 as [| |s v k id segs s' x|s v ? ? ? ? ? ? ? Hl|s v ? ? ? ? ? ? ? Hl|s v ? ? ? ? ? ? ? Hl]; intros Hs;
    try (by pose proof (Hno _ _ Hs Hl)); [congruence| |by exists k, id, segs].
  by match goal with H : has_type _ (js "list") = true |- _ => pose proof (Hno _ _ Hs H) end.
Qed.

(** The calls for the parameters of a request. *)
Lemma serialize_leaves fuel params s l :
  nullish params = false → has_type s (js "structure") = true → well_named s →
  serialize Date_parse Buffer_from protocol table fuel params s = Some l →
  (∀ segs s' x, leaf s params segs s' x → ∃ w, (join (js ".") segs, w) ∈ l ∧ emitted_for s' x w) ∧
  (∀ n w, (n, w) ∈ l → ∃ segs s' x, leaf s params segs s' x ∧ n = join (js ".") segs ∧ emitted_for s' x w).
Proof.
  intros Hp Hs Hw Hser. unfold serialize in Hser. rewrite Hp in Hser. cbn [andb] in Hser.
  assert (Hmem : ∀ k id, (k, id) ∈ s_members s →
    well_named (table id) ∧ fixed_name (table id) (ucfirst protocol (table id)) ∧ ucfirst protocol (table id) ≠ []).
  { intros k id Hin. split_and!; [apply Htable, (wn_uses _ _ _ _ Hw); left; by exists k| |by eapply wn_segment].
    exact (member_fixed protocol table good s k id [] Hw Hin). }
  split.
  - intros segs s' x Hleaf. destruct (leaf_structure _ _ _ _ _ Hleaf Hs) as (k & id & segs' & Hin & -> & Hsub).
    destruct (Hmem k id Hin) as (Hw' & Hf' & Hne). rewrite <- (own_props_perm (s_members s)) in Hin.
    destruct (calls_some _ _ _ _ Hser Hin) as (a & Ha & Hall). cbn [fst snd] in Ha.
    rewrite (leaf_not_nullish _ _ _ _ _ Hsub) in Ha.
    destruct (leaf_serialized _ _ _ _ _ Hsub fuel _ a Hne Hw' Hf' Ha) as (w & Hin' & Hem).
    exists w. rewrite below_join. auto.
  - intros n w Hin. apply (calls_elem _ _ _ _ Hser) in Hin as ([k id] & a & Hk & Ha & Hin). cbn [fst snd] in Ha.
    rewrite own_props_perm in Hk. destruct (nullish (js_prop params k)) eqn:Hx; [injection Ha as <-; by apply not_elem_of_nil in Hin|].
    destruct (Hmem k id Hk) as (Hw' & Hf' & Hne).
    destruct (serialized_leaf fuel _ _ _ a n w Hne Hw' Hf' Ha Hin) as (segs & s' & x & Hleaf & -> & Hem).
    exists (ucfirst protocol (table id) :: segs), s', x. rewrite below_join. split_and!; [by eapply leaf_member|done|done].
Qed.

(** The shape of a leaf is one of those that matter. *)
Lemma leaf_good s v segs s' x : leaf s v segs s' x → well_named s → s' = s ∨ ∃ id, good id ∧ s' = table id.
Proof.
  induction 1 as [| |s v k id segs s' x _ _ Hin _ IH|s v n k y segs s' x _ Hl _ _ _ IH|
    s v n k y segs s' x _ Hm _ _ IH|s v n k y segs s' x _ Hm _ _ IH]; intros Hw; [by left|by left|..]; right.
  all: match type of IH with well_named (table ?id) → _ =>
    assert (Hg : good id) by (apply (wn_uses _ _ _ _ Hw); unfold uses; naive_solver);
    destruct (IH (Htable id Hg)) as [->|?]; [by exists id|done] end.
Qed.
End leaves.

(** ** The request *)

(** Setting fresh names appends them. *)
Lemma set_fresh (o : jsobj) l :
  NoDup (o.*1 ++ l.*1) → foldl (λ o nv, obj_set nv.1 nv.2 o) o l = o ++ l.
Proof.
  revert o. induction l as [|[k v] l IH]; intros o Hnd; simpl; [by rewrite app_nil_r|].
  rewrite <- (app_nil_r o) at 1.
  rewrite obj_set_app. 2: { apply NoDup_app in Hnd as (_ & H & _). intros Hin. apply (H k Hin). by left. }
  cbn [obj_set]. rewrite IH; [by rewrite <- app_assoc|]. rewrite fmap_app, <- app_assoc. done.
Qed.

(** A name below a segment other than [n] is not [n]. *)
Lemma under_other n a x : 46 ∉ n → 46 ∉ a → a ≠ n → under a x → x ≠ n.
Proof. intros Hn Ha Hne Hu ->. by apply Hne, (under_inj [] a n n Ha Hn Hu), under_refl. Qed.

(** What is written for a parameter: text, or null for an empty list. *)
Definition text_or_null (v : jsval) : Prop :=
  match v with JStr x => well_formed x | JNull => True | _ => False end.

(** A request that is validated, serialized and built. *)
Lemma query_request_built (Date_parse : jsval → option Z) (Buffer_from : jsval → option (list Z))
    (protocol : jsstr) (table : shape_id → shape) (regex_test : jsstr → jsstr → bool) (vd : validation)
    (good : shape_id → Prop) (input : shape) (now : Z) (enabled : bool) (endpointOperation apiVersion : jsstr) (op : operation)
    (params : jsval) (fuel : nat) (hr : http_request) (ep : endpoint) :
  (∀ id, good id → well_named protocol table good (table id) ∧ textual (table id)) →
  well_named protocol table good input → textual input → s_type input = Some (js "structure") →
  (∀ k id, (k, id) ∈ s_members input → ucfirst protocol (table id) ∉ [js "Version"; js "Action"]) →
  nullish params = false → conforms regex_test table vd input params → (depth params ≤ fuel)%nat →
  ∃ l, serialize Date_parse Buffer_from protocol table fuel params input = Some l ∧ NoDup l.*1 ∧
    (well_formed apiVersion → well_formed (op_name op) →
     Forall (λ nv, well_formed nv.1 ∧ text_or_null nv.2) l →
     populateHostPrefix now table enabled endpointOperation op params input (hr_endpoint hr) = Ok ep →
     let o := (js "Version", JStr apiVersion) :: (js "Action", JStr (op_name op)) :: l in
     ∃ built,
       buildRequest Date_parse Buffer_from protocol table now fuel enabled endpointOperation apiVersion op params input hr =
         Ok (o, built) ∧
       hr_endpoint built = ep ∧ hr_method built = hr_method hr ∧ hr_path built = hr_path hr ∧
       obj_get (js "Content-Type") (hr_headers built) = Some (JStr (js "application/x-www-form-urlencoded; charset=utf-8")) ∧
       parse_query (hr_body built) = Some ((λ n, (utf8 n, utf8 (string_value o n))) <$> sort_strings o.*1)).
Proof.
  intros Ht Hn Htx Hst Hva Hp Hc Hf.
  assert (Hs : is_Some (serialize Date_parse Buffer_from protocol table fuel params input)).
  { unfold serialize. rewrite Hp. cbn [andb].
    inversion Hc as [s v _ [Ho|[? _]] _ Hm _ |s v Hx|s v Hx|s v Hx]; subst;
      [|congruence|rewrite Hst in Hx; discriminate Hx..|done].
    apply structure_total; [done|done|]. intros k x id name Hin Hid.
    assert (Hg : good id) by (apply (wn_uses _ _ _ _ Hn); left; exists k; by apply elem_of_obj_get).
    eapply (serializeMember_total Date_parse Buffer_from protocol table regex_test vd good).
    - apply Ht.
    - apply (Hm k x); [done|]. unfold member_shape. by rewrite Hid.
    - by apply Ht.
    - by apply Ht.
    - pose proof (entries_depth params k x Ho Hin). lia. }
  destruct Hs as [l Hl]. exists l. split; [done|].
  destruct (serialize_distinct Date_parse Buffer_from protocol table good (λ id Hg, proj1 (Ht id Hg)) fuel params input l Hn Hl)
    as [Hnd Hu].
  split; [done|]. intros Hv Ha Hw Hep o.
  assert (Hnot : ∀ n, n ∈ [js "Version"; js "Action"] → n ∉ l.*1).
  { intros n Hin Hnl. rewrite Forall_forall in Hu. destruct (Hu n Hnl) as ([k id] & Hm & Hun).
    refine (under_other n _ n _ _ _ Hun eq_refl).
    - rewrite elem_of_cons, list_elem_of_singleton in Hin. by destruct Hin as [-> | ->]; js_decide.
    - by destruct (wn_segment _ _ _ _ Hn k id Hm).
    - intros Heq. apply (Hva k id Hm). cbn [snd] in Heq. by rewrite Heq. }
  assert (Hndo : NoDup o.*1).
  { cbn [o fmap list_fmap fst]. apply NoDup_cons. rewrite not_elem_of_cons.
    split; [split; [js_decide|apply Hnot; left]|]. apply NoDup_cons. split; [apply Hnot; right; left|done]. }
  destruct (query_string_reads o) as (body & Hb & Hr).
  { split; [done|]. apply Forall_cons. split; [split; [cbn [fst]; js_decide|done]|].
    apply Forall_cons. split; [split; [cbn [fst]; js_decide|done]|]. exact Hw. }
  eexists. unfold buildRequest, build_params. rewrite Hl.
  rewrite set_fresh by done. change ([(js "Version", JStr apiVersion); (js "Action", JStr (op_name op))] ++ l) with o.
  rewrite Hb, Hep. split; [reflexivity|]. cbn [hr_endpoint hr_method hr_path hr_headers hr_body].
  split_and!; [done..|apply obj_get_set_eq|done].
Qed.


(** The destination and source of an e-mail, in the shapes of SendEmail. *)
Definition string_shape (name : jsstr) : shape :=
  MkShape (Some (js "string")) [] [] no_shape no_shape no_shape None None None None JUndef false name false false [] false no_xml.
Definition list_shape (name : jsstr) : shape :=
  MkShape (Some (js "list")) [] [] no_shape no_shape no_shape None None None None JUndef false name false false [] false no_xml.
Definition structure_shape (name : jsstr) (required members : list jsstr) : shape :=
  MkShape (Some (js "structure")) required ((λ m, (m, ([], m))) <$> members) no_shape no_shape no_shape
    None None None None JUndef false name false false [] false no_xml.

Definition email_table (id : shape_id) : shape :=
  if str_eqb id.2 (js "ToAddresses") then list_shape (js "ToAddresses")
  else if str_eqb id.2 (js "CcAddresses") then list_shape (js "CcAddresses")
  else if str_eqb id.2 (js "Destination")
  then structure_shape (js "Destination") [] [js "ToAddresses"; js "CcAddresses"]
  else if str_eqb id.2 (js "Source") then string_shape (js "Source")
  else string_shape [].
Definition email_input : shape :=
  structure_shape [] [js "Source"; js "Destination"] [js "Source"; js "Destination"].
Definition demo_op : operation := Operation (js "SendEmail") (js "NULL") [].
Definition demo_email : jsval :=
  JObj [(js "Source", JStr (js "a@b.c"));
        (js "Destination", JObj [(js "ToAddresses", JArr [JStr (js "x@y.z"); JStr (js "u@v.w")]);
                                 (js "CcAddresses", JArr [])])].

(** A shape other than a map, of plainly named members, is well named and
    textual. *)
Lemma plain_shape table s :
  s_members s ⊆ (λ m, (m, ([], m))) <$> [js "Source"; js "Destination"; js "ToAddresses"; js "CcAddresses"] →
  table = email_table → NoDup (s_members s).*1 → has_type s (js "map") = false → s_member s = no_shape →
  default [] (s_type s) ∉ [js "timestamp"; js "base64"; js "binary"] →
  well_named (js "query") table (λ _, True) s ∧ textual s.
Proof.
  intros Hm -> Hnd Hmap Hi Ht.
  assert (Hname : ∀ k id, (k, id) ∈ s_members s → ucfirst (js "query") (email_table id) = k ∧ k ≠ [] ∧ 46 ∉ k ∧ k ≠ js "length" ∧
    renames (js "query") email_table (email_table id) = false).
  { intros k id Hin%Hm. cbn [fmap list_fmap] in Hin. rewrite !elem_of_cons in Hin.
    destruct Hin as [[= -> ->]|[[= -> ->]|[[= -> ->]|[[= -> ->]|Hin%not_elem_of_nil]]]]; [..|done];
      (split_and!; [reflexivity|done|js_decide|done|reflexivity]). }
  split; split; try congruence; try done.
  - intros k id Hin. destruct (Hname k id Hin) as (Hk & ? & ? & _). by rewrite Hk.
  - replace ((λ m : jsstr * shape_id, ucfirst (js "query") (email_table m.2)) <$> s_members s) with (s_members s).*1; [done|].
    apply list_fmap_ext. intros i [k id] Hin%list_elem_of_lookup_2. by destruct (Hname k id Hin) as [<- _].
  - intros k id Hin Hr. destruct (Hname k id Hin) as (_ & _ & _ & _ & ?). congruence.
  - intros _. by rewrite Hi.
  - intros ([k id] & Heq & Hin)%list_elem_of_fmap. by destruct (Hname k id Hin) as (_ & _ & _ & ? & _).
Qed.

