(* ===== verification/ApiShapes.v ===== *)
(** * API descriptions

    The constructors [Api], [Operation], [Collection] (dist/index.js 16687-16920)
    and [Shape] with its subclasses (16991-17289), which turn the JSON
    description of a service into shapes and operations, and the description of
    the one operation the e-mail action calls (36772).

    A shape that refers to another one is an object with that shape as its
    prototype: a property it does not define itself is the property of the
    shape it refers to.  Members are created when they are first read; here
    [create] is applied to their description. *)

From stdpp Require Import base sets strings list.
From Stdlib Require Import ZArith Lia.
From S2P Require Import Prelude JsValue AwsError ParamValidator HostPrefix.

Local Open Scope Z_scope.

(** ** Reading a description *)

Definition field (json : jsobj) (k : string) : jsval := obj_prop json (js k).
Definition text (v : jsval) : jsstr := match v with JStr s => s | _ => [] end.
Definition object (v : jsval) : jsobj := match v with JObj o => o | _ => [] end.
Definition texts (v : jsval) : list jsstr := match v with JArr l => text <$> l | _ => [] end.

(** [a || b] on texts, the empty text standing for an absent one. *)
Definition first_text (l : list jsstr) : jsstr :=
  match base.filter (λ s, s ≠ []) l with s :: _ => s | [] => [] end.

(** ** Shape *)

Definition normalizedTypes : list (jsstr * jsstr) :=
  [(js "character", js "string"); (js "double", js "float"); (js "long", js "integer");
   (js "short", js "integer"); (js "biginteger", js "integer"); (js "bigdecimal", js "float");
   (js "blob", js "binary")].

Definition shape_types : list jsstr :=
  [js "structure"; js "list"; js "map"; js "boolean"; js "timestamp"; js "float"; js "integer";
   js "string"; js "base64"; js "binary"].

(** The type of a description that does not say. *)
Definition given_type (json : jsobj) : jsstr :=
  first_text [text (field json "type");
    if truthy (field json "members") then js "structure"
    else if truthy (field json "member") then js "list"
    else if truthy (field json "key") then js "map"
    else js "string"].

Definition normalize_type (t : jsstr) : jsstr := default t (obj_get t normalizedTypes).

(** A created shape: its constructor, and whether its timestamp format is set. *)
Record created := Created {
  c_shape : shape;
  c_constructor : jsstr;
  c_isTimestampFormatSet : bool;
}.

(** A property that is set when the description has it, and inherited otherwise. *)
Definition or_inherited {A} (own : option A) (inherited : option A) : option A :=
  match own with Some a => Some a | None => inherited end.

Section create.
Context (protocol : jsstr).   (* [options.api.protocol] *)
Context (shapes : jsobj).   (* the descriptions [options.api.shapes] is made from *)

(** [TimestampShape]: the format. *)
Definition timestamp_format (json : jsobj) (isSet : bool) (inherited : jsstr) (location : jsval) : jsstr :=
  if truthy (field json "timestampFormat") then text (field json "timestampFormat")
  else if isSet && negb (str_eqb inherited []) then inherited
  else if is_str (js "header") location then js "rfc822"
  else if is_str (js "querystring") location then js "iso8601"
  else if bool_decide (protocol ∈ [js "json"; js "rest-json"]) then js "unixTimestamp"
  else if bool_decide (protocol ∈ [js "rest-xml"; js "query"; js "ec2"]) then js "iso8601"
  else inherited.

(** [StructureShape]: the collection of the members, each known by its
    description and its name. *)
Definition Collection (members : jsobj) : list (jsstr * shape_id) :=
  (λ m, (m.1, (object m.2, m.1))) <$> own_props members.

(** What [Shape] and [StructureShape] set for the other protocols, on what the
    prototype has; [structure] says that the shape is one. *)
Definition xml_of (structure : bool) (json : jsobj) (b : xml_traits) : xml_traits :=
  let namespace := field json "xmlNamespace" in
  let '(uri, prefix) :=
    match namespace with
    | JStr u => (u, x_namespacePrefix b)
    | JObj n => (first_text [text (field n "uri"); x_namespaceUri b], first_text [text (field n "prefix"); x_namespacePrefix b])
    | _ => (x_namespaceUri b, x_namespacePrefix b)
    end in
  XmlTraits
    (truthy (field json "xmlAttribute") || x_isXmlAttribute b)
    (if structure then uri else x_namespaceUri b)
    (if structure then prefix else x_namespacePrefix b)
    (if structure then first_text [text (field json "resultWrapper"); x_resultWrapper b] else x_resultWrapper b)
    (if structure && truthy (field json "members")
     then match field json "xmlOrder" with JArr _ => texts (field json "xmlOrder") | _ => own_keys (object (field json "members")) end
     else x_memberNames b)
    (truthy (field json "locationName")).

(** The constructors of shapes, on the prototype [base]; [memberShape] is the
    name of a flattened list's member. *)
Definition new_Shape (base : option created) (constructor : jsstr) (json : jsobj) (memberName memberShape : jsstr) : created :=
  let b := match base with Some c => c_shape c | None => bare_shape end in
  let kind t := str_eqb constructor (js t) in
  let location := js_or (js_or (field json "location") (s_location b)) (JStr (js "body")) in
  let name := first_text [s_name b; text (field json "xmlName"); text (field json "queryName");
                          text (field json "locationName"); memberName] in
  let composite := kind "structure" || kind "list" || kind "map" in
  let flattened := composite && (truthy (field json "flattened") || s_flattened b) in
  let isSet := truthy (field json "timestampFormat") ||
               match base with Some c => c_isTimestampFormatSet c | None => false end in
  let string_id : shape_id := ([(js "type", JStr (js "string"))], []) in
  let child k inherited first : shape_id :=
    if truthy (field json k) then (object (field json k), [])
    else match base with Some _ => inherited | None => first end in
  Created
    (MkShape
       (match base with
        | None => Some constructor
        | Some _ => match field json "type" with JStr t => Some t | _ => s_type b end
        end)
       (if kind "structure" && truthy (field json "required") then texts (field json "required") else s_required b)
       (if kind "structure" && truthy (field json "members") then Collection (object (field json "members"))
        else s_members b)
       (if kind "list" then child "member" (s_member b) no_shape else no_shape)
       (if kind "map" then child "key" (s_key b) string_id else no_shape)
       (if kind "map" then child "value" (s_value b) string_id else no_shape)
       (or_inherited (match field json "enum" with JArr l => Some l | _ => None end) (s_enum b))
       (or_inherited (match field json "min" with JNum n => Some n | _ => None end) (s_min b))
       (or_inherited (match field json "max" with JNum n => Some n | _ => None end) (s_max b))
       (or_inherited (match field json "pattern" with JStr t => Some t | _ => None end) (s_pattern b))
       location
       (bool_decide (field json "jsonvalue" = JBool true))
       (if kind "list" && flattened then first_text [memberShape; name] else name)
       (truthy (field json "queryName"))
       flattened
       (if kind "timestamp" then timestamp_format json isSet (s_timestampFormat b) location else [])
       (truthy (field json "hostLabel"))
       (xml_of (kind "structure") json (s_xml b)))
    constructor isSet.

(** [Shape.create(shape, options, memberName)].  The fuel bounds the chain of
    references; a cycle of them exhausts the stack.  The name of a flattened
    list, read when it is used, is computed here. *)
Fixpoint create (fuel : nat) (json : jsobj) (memberName : jsstr) : result jserror created :=
  match fuel with
  | O => Throw (mk_error (js "RangeError") (js "Maximum call stack size exceeded"))
  | S fuel =>
    let* base :=
      (if truthy (field json "shape") then
         match obj_get (text (field json "shape")) shapes with
         | Some j => let* c := create fuel (object j) [] in Ok (Some c)
         | None => Throw (js_error (js "Cannot find shape reference: " ++ text (field json "shape")))
         end
       else Ok None) in
    let* constructor :=
      (match base with
       | Some c => Ok (c_constructor c)
       | None =>
         let t := normalize_type (given_type json) in
         if bool_decide (t ∈ shape_types) then Ok t
         else Throw (js_error (js "Unrecognized shape type: " ++ given_type json))
       end) in
    let c := new_Shape base constructor json memberName [] in
    if str_eqb constructor (js "list") && s_flattened (c_shape c) then
      let* m := create fuel (s_member (c_shape c)).1 [] in
      Ok (new_Shape base constructor json memberName (s_name (c_shape m)))
    else Ok c
  end.

(** The shapes of an API, as the table the validator and the serializer read;
    a description that cannot be created has the bare shape. *)
Definition shape_table (fuel : nat) (id : shape_id) : shape :=
  match create fuel id.1 id.2 with Ok c => c_shape c | Throw _ => bare_shape end.

End create.

(** ** Operation and Api *)

Definition new_Operation (name : jsstr) (json : jsobj) : operation :=
  Operation
    (first_text [text (field json "name"); name])
    (if truthy (field json "endpointdiscovery")
     then if truthy (field (object (field json "endpointdiscovery")) "required") then js "REQUIRED" else js "OPTIONAL"
     else js "NULL")
    (text (field (object (field json "endpoint")) "hostPrefix")).

(** The description [operation.input] is created from. *)
Definition operation_input (json : jsobj) : shape_id :=
  if truthy (field json "input") then (object (field json "input"), [])
  else ([(js "type", JStr (js "structure"))], []).

(** The description [operation.output] is created from. *)
Definition operation_output (json : jsobj) : shape_id :=
  if truthy (field json "output") then (object (field json "output"), [])
  else ([(js "type", JStr (js "structure"))], []).

(** [hasEventStream(topLevelShape)]: the members are the own properties of their
    collection. *)
Definition hasEventStream (isEventStream : shape_id → bool) (members : list (jsstr * shape_id)) (payload : jsstr) : bool :=
  if negb (str_eqb payload []) then match obj_get payload members with Some id => isEventStream id | None => false end
  else existsb (λ m, negb (bool_decide (is_Some (obj_get m.1 members))) && isEventStream m.2) members.

Record api := Api {
  api_apiVersion : jsstr;
  api_endpointPrefix : jsstr;
  api_signingName : jsstr;
  api_signatureVersion : jsstr;
  api_protocol : jsstr;
  api_endpointOperation : jsstr;
  api_hasRequiredEndpointDiscovery : bool;
  api_operations : list (jsstr * (jsstr * jsobj));
  api_shapes : jsobj;
}.

Definition lower_first (s : jsstr) : jsstr := default [] (lowerFirst s).

(** [addEndpointOperation], called for every operation. *)
Definition addEndpointOperation (st : jsstr * bool) (op : jsstr * jsobj) : jsstr * bool :=
  let discovery := field op.2 "endpointdiscovery" in
  (if bool_decide (field op.2 "endpointoperation" = JBool true) then lower_first op.1 else st.1,
   if truthy discovery && negb st.2
   then bool_decide (field (object discovery) "required" = JBool true) else st.2).

(** [new Api(api)]; an operation is found under its name with a lower-case
    initial. *)
Definition new_Api (json : jsobj) : api :=
  let metadata := object (field json "metadata") in
  let ops := (λ o, (o.1, object o.2)) <$> own_props (object (field json "operations")) in
  let '(endpointOperation, required) := foldl addEndpointOperation ([], false) ops in
  Api (text (field metadata "apiVersion")) (text (field metadata "endpointPrefix"))
    (text (field metadata "signingName")) (text (field metadata "signatureVersion"))
    (text (field metadata "protocol")) endpointOperation required
    ((λ o, (lower_first o.1, o)) <$> ops) (object (field json "shapes")).
