(* ===== verification/EmailRequest.v ===== *)
(** * The e-mail on the wire

    The parts composed for the request the action makes: the parameters of
    SesAction, the shapes ApiShapes creates from the description of
    SendTemplatedEmail (dist/index.js 36772), the check of ParamValidator and the
    request of QuerySerializer. *)

From stdpp Require Import base sets strings list.
From Stdlib Require Import ZArith Lia.
From S2P Require Import Prelude JsValue Json JsText UriUtil WellFormed AwsError Http ActionsCore SesAction SignerV4 ParamValidator HostPrefix QuerySerializer ApiShapes.

Local Open Scope Z_scope.

(** The description of the service, with the operation the action calls and the
    shapes it refers to. *)
Definition ses_description : jsobj :=
  [(js "metadata", JObj [(js "apiVersion", JStr (js "2010-12-01"));
   (js "endpointPrefix", JStr (js "email")); (js "protocol", JStr (js "query"));
   (js "serviceAbbreviation", JStr (js "Amazon SES"));
   (js "serviceFullName", JStr (js "Amazon Simple Email Service")); (js "serviceId", JStr (js "SES"));
   (js "signatureVersion", JStr (js "v4")); (js "signingName", JStr (js "ses"));
   (js "uid", JStr (js "email-2010-12-01"));
   (js "xmlNamespace", JStr (js "http://ses.amazonaws.com/doc/2010-12-01/"))]);
   (js "operations", JObj [(js "SendTemplatedEmail", JObj [(js "input", JObj [(js "type", JStr (js "structure"));
   (js "required", JArr [JStr (js "Source"); JStr (js "Destination"); JStr (js "Template");
   JStr (js "TemplateData")]); (js "members", JObj [(js "Source", JObj []);
   (js "Destination", JObj [(js "shape", JStr (js "S64"))]);
   (js "ReplyToAddresses", JObj [(js "shape", JStr (js "S54"))]); (js "ReturnPath", JObj []);
   (js "SourceArn", JObj []); (js "ReturnPathArn", JObj []);
   (js "Tags", JObj [(js "shape", JStr (js "S5x"))]); (js "ConfigurationSetName", JObj []);
   (js "Template", JObj []); (js "TemplateArn", JObj []); (js "TemplateData", JObj [])])]);
   (js "output", JObj [(js "resultWrapper", JStr (js "SendTemplatedEmailResult"));
   (js "type", JStr (js "structure")); (js "required", JArr [JStr (js "MessageId")]);
   (js "members", JObj [(js "MessageId", JObj [])])])])]);
   (js "shapes", JObj [(js "S54", JObj [(js "type", JStr (js "list")); (js "member", JObj [])]);
   (js "S5x", JObj [(js "type", JStr (js "list")); (js "member", JObj [(js "type", JStr (js "structure"));
   (js "required", JArr [JStr (js "Name"); JStr (js "Value")]); (js "members", JObj [(js "Name", JObj []);
   (js "Value", JObj [])])])]); (js "S64", JObj [(js "type", JStr (js "structure"));
   (js "members", JObj [(js "ToAddresses", JObj [(js "shape", JStr (js "S54"))]);
   (js "CcAddresses", JObj [(js "shape", JStr (js "S54"))]);
   (js "BccAddresses", JObj [(js "shape", JStr (js "S54"))])])])])].

Definition ses_api : api := new_Api ses_description.

(** [service.api.operations.sendTemplatedEmail]. *)
Definition sendTemplatedEmail_json : jsobj :=
  match obj_get (js "sendTemplatedEmail") (api_operations ses_api) with Some o => o.2 | None => [] end.
Definition sendTemplatedEmail : operation := new_Operation (js "SendTemplatedEmail") sendTemplatedEmail_json.

Definition ses_table : shape_id → shape := shape_table (api_protocol ses_api) (api_shapes ses_api) 4.
Definition send_input : shape := ses_table (operation_input sendTemplatedEmail_json).

(** The shapes reached from the input. *)
Definition ses_ids : list shape_id :=
  (s_members send_input).*2 ++ (s_members send_input).*2 ≫= λ id,
    let s := ses_table id in
    (s_members s).*2 ++ [s_member s] ++ (s_members (ses_table (s_member s))).*2.

(** ** Checking the shapes of a description *)

Section check.
Context (protocol : jsstr) (table : shape_id → shape) (ids : list shape_id).

Definition known (id : shape_id) : bool := bool_decide (id ∈ ids).

(** The conditions of the serializer on a shape that is no map, decided. *)
Definition shape_check (s : shape) : bool :=
  forallb (λ m : jsstr * shape_id,
    known m.2 && negb (bool_decide (ucfirst protocol (table m.2) = [])) &&
    negb (bool_decide (46 ∈ ucfirst protocol (table m.2))) &&
    (negb (renames protocol table (table m.2)) ||
     bool_decide (ucfirst protocol (table (s_member (table m.2))) = ucfirst protocol (table m.2)))) (s_members s) &&
  bool_decide (NoDup ((λ m : jsstr * shape_id, ucfirst protocol (table m.2)) <$> s_members s)) &&
  negb (has_type s (js "map")) &&
  (negb (has_type s (js "list")) || (known (s_member s) && negb (renames protocol table (table (s_member s))))) &&
  bool_decide (default [] (s_type s) ∉ [js "timestamp"; js "base64"; js "binary"]) &&
  bool_decide (NoDup (s_members s).*1) && bool_decide (js "length" ∉ (s_members s).*1).

Lemma shape_check_sound s :
  shape_check s = true → well_named protocol table (λ id, id ∈ ids) s ∧ textual s.
Proof.
  unfold shape_check. rewrite !andb_true_iff, !bool_decide_eq_true, negb_true_iff, orb_true_iff, andb_true_iff,
    !negb_true_iff, forallb_forall.
  intros ((((((Hm & Hd) & Hmap) & Hl) & Ht) & Hn) & Hlen).
  assert (Hmem : ∀ k id, (k, id) ∈ s_members s → id ∈ ids ∧ ucfirst protocol (table id) ≠ [] ∧
    46 ∉ ucfirst protocol (table id) ∧ (renames protocol table (table id) = true →
      ucfirst protocol (table (s_member (table id))) = ucfirst protocol (table id))).
  { intros k id Hin%list_elem_of_In. specialize (Hm (k, id) Hin). cbn [snd] in Hm. unfold known in Hm.
    rewrite !andb_true_iff, orb_true_iff, !negb_true_iff, !bool_decide_eq_true, !bool_decide_eq_false in Hm.
    destruct Hm as (((H1 & H2) & H3) & H4). split_and!; [done..|]. intros Hr. destruct H4; [congruence|done]. }
  split; split; try done.
  - intros id [[k Hin]|[[Ht' ->]|[? _]]]; [by destruct (Hmem k id Hin)| |congruence].
    destruct Hl as [?|[Hk _]]; [congruence|]. by apply bool_decide_eq_true in Hk.
  - intros k id Hin. by destruct (Hmem k id Hin) as (_ & ? & ? & _).
  - intros k id Hin. by destruct (Hmem k id Hin) as (_ & _ & _ & ?).
  - intros Hl'. destruct Hl as [?|[_ ?]]; [congruence|done].
  - intros ?. congruence.
  - intros ?. congruence.
  - intros ?. congruence.
Qed.
End check.

Lemma ses_shapes id :
  id ∈ ses_ids → well_named (js "query") ses_table (λ id, id ∈ ses_ids) (ses_table id) ∧ textual (ses_table id).
Proof.
  intros Hin. apply shape_check_sound.
  assert (H : forallb (λ id, shape_check (js "query") ses_table ses_ids (ses_table id)) ses_ids = true)
    by (vm_compute; reflexivity).
  rewrite forallb_forall in H. by apply H, list_elem_of_In.
Qed.

Lemma send_input_ok :
  well_named (js "query") ses_table (λ id, id ∈ ses_ids) send_input ∧ textual send_input.
Proof. apply shape_check_sound. vm_compute. reflexivity. Qed.

(** ** The parameters conform *)

(** A string without constraints. *)
Definition plain_string (s : shape) : bool :=
  bool_decide (s_type s = Some (js "string")) && bool_decide (s_enum s = None) && bool_decide (s_min s = None) &&
  bool_decide (s_max s = None) && bool_decide (s_pattern s = None) && bool_decide (s_location s = JStr (js "body")) &&
  negb (s_isJsonValue s).

(** A list of such strings, written with the default names. *)
Definition plain_list (table : shape_id → shape) (s : shape) : bool :=
  bool_decide (s_type s = Some (js "list")) && bool_decide (s_min s = None) && bool_decide (s_max s = None) &&
  plain_string (table (s_member s)) && negb (s_flattened s) && bool_decide (s_name (table (s_member s)) = []).

Lemma plain_string_spec s : plain_string s = true →
  s_type s = Some (js "string") ∧ s_enum s = None ∧ s_min s = None ∧ s_max s = None ∧ s_pattern s = None ∧
  s_location s = JStr (js "body") ∧ s_isJsonValue s = false.
Proof. unfold plain_string. rewrite !andb_true_iff, !bool_decide_eq_true, negb_true_iff. tauto. Qed.

Lemma plain_list_spec table s : plain_list table s = true →
  s_type s = Some (js "list") ∧ s_min s = None ∧ s_max s = None ∧ plain_string (table (s_member s)) = true ∧
  s_flattened s = false ∧ s_name (table (s_member s)) = [].
Proof. unfold plain_list. rewrite !andb_true_iff, !bool_decide_eq_true, negb_true_iff. tauto. Qed.

Section conformance.
Context (regex_test : jsstr → jsstr → bool) (table : shape_id → shape) (vd : validation).

Lemma in_range_none s v : s_min s = None → s_max s = None → in_range vd s v.
Proof. intros H1 H2. split; intros m Hm; congruence. Qed.

Lemma plain_string_conforms s x : plain_string s = true → conforms regex_test table vd s (JStr x).
Proof.
  intros (Ht & He & Hmin & Hmax & Hp & Hl & Hj)%plain_string_spec. apply conforms_scalar; rewrite ?Ht; try discriminate.
  unfold scalar_conforms. rewrite Ht, str_eqb_refl. right. split_and!; try congruence.
  - left. by eexists.
  - by apply in_range_none.
  - rewrite Hl. intros Hu. discriminate Hu.
Qed.

Lemma plain_list_conforms s l : plain_list table s = true → conforms regex_test table vd s (address_list l).
Proof.
  intros (Ht & Hmin & Hmax & Hm & _ & _)%plain_list_spec. apply conforms_list; [done| |].
  - right. split; [exact I|by apply in_range_none].
  - intros k x [i Hi]%list_elem_of_lookup. unfold address_list in Hi. cbn [entries] in Hi.
    rewrite list_lookup_imap, list_lookup_fmap in Hi. destruct (l !! i) as [a|]; [|done].
    injection Hi as _ <-. by apply plain_string_conforms.
Qed.

(** A structure of members that conform; the members are given in full. *)
Lemma structure_conforms s o :
  s_type s = Some (js "structure") →
  Forall (λ name, nullish (js_prop (JObj o) name) = false) (s_required s) →
  Forall (λ kv, match obj_get kv.1 (s_members s) with
                | Some id => conforms regex_test table vd (table id) kv.2
                | None => False
                end) o →
  conforms regex_test table vd s (JObj o).
Proof.
  intros Ht Hreq Ho. rewrite Forall_forall in Hreq. rewrite Forall_forall in Ho.
  apply conforms_structure; [done|by left|done| |]; cbn [entries].
  - intros k x m. rewrite own_props_perm. intros Hin Hm. specialize (Ho (k, x) Hin). cbn [fst snd] in Ho.
    unfold member_shape in Hm. destruct (obj_get k (s_members s)); [by injection Hm as <-|done].
  - intros k x. rewrite own_props_perm. intros Hin Hm. specialize (Ho (k, x) Hin). cbn [fst snd] in Ho.
    unfold member_shape in Hm. destruct (obj_get k (s_members s)); [done|]. done.
Qed.
End conformance.

(** The ids of the members of the input that the action sets. *)
Definition text_id (name : jsstr) : shape_id := ([], name).
Definition ref_id (shape : string) (name : jsstr) : shape_id := ([(js "shape", JStr (js shape))], name).

Lemma email_conforms regex_test vd i data cc to reply :
  CcAddresses i = address_list cc → ToAddresses i = address_list to → ReplyToAddresses i = address_list reply →
  conforms regex_test ses_table vd send_input (JObj (email_params i data)).
Proof.
  intros Hcc Hto Hreply. unfold email_params. rewrite Hcc, Hto, Hreply.
  assert (Hd : ∃ t, JSON_stringify (templated i data) = Some t) by (by eexists). destruct Hd as [t ->].
  apply structure_conforms; [vm_compute; reflexivity| |].
  - change (s_required send_input) with [js "Source"; js "Destination"; js "Template"; js "TemplateData"].
    repeat (apply Forall_cons; split; [reflexivity|]). constructor.
  - rewrite !Forall_cons. cbn [fst snd]. split_and!; [..|constructor].
    + change (obj_get (js "Destination") (s_members send_input)) with (Some (ref_id "S64" (js "Destination"))).
      apply structure_conforms; [vm_compute; reflexivity| |].
      * change (s_required (ses_table (ref_id "S64" (js "Destination")))) with (@nil jsstr). constructor.
      * rewrite !Forall_cons. cbn [fst snd]. split_and!; [..|constructor].
        -- change (obj_get (js "CcAddresses") (s_members (ses_table (ref_id "S64" (js "Destination")))))
             with (Some (ref_id "S54" (js "CcAddresses"))). apply plain_list_conforms. vm_compute. reflexivity.
        -- change (obj_get (js "ToAddresses") (s_members (ses_table (ref_id "S64" (js "Destination")))))
             with (Some (ref_id "S54" (js "ToAddresses"))). apply plain_list_conforms. vm_compute. reflexivity.
    + change (obj_get (js "Source") (s_members send_input)) with (Some (text_id (js "Source"))).
      apply plain_string_conforms. vm_compute. reflexivity.
    + change (obj_get (js "Template") (s_members send_input)) with (Some (text_id (js "Template"))).
      apply plain_string_conforms. vm_compute. reflexivity.
    + change (obj_get (js "TemplateData") (s_members send_input)) with (Some (text_id (js "TemplateData"))).
      apply plain_string_conforms. vm_compute. reflexivity.
    + change (obj_get (js "ReplyToAddresses") (s_members send_input)) with (Some (ref_id "S54" (js "ReplyToAddresses"))).
      apply plain_list_conforms. vm_compute. reflexivity.
Qed.

(** ** The pairs that are sent *)

(** A list of addresses: one pair each, or a null for an empty list. *)
Definition address_pairs (name : jsstr) (l : list jsstr) : list (jsstr * jsval) :=
  match l with
  | [] => [(name, JNull)]
  | _ => imap (λ n a, (name ++ js ".member." ++ Z_to_str (Z.of_nat n + 1), JStr a)) l
  end.

Definition email_pairs (source template text : jsstr) (cc to reply : list jsstr) : list (jsstr * jsval) :=
  [(js "Source", JStr source)] ++ address_pairs (js "Destination.ToAddresses") to ++
  address_pairs (js "Destination.CcAddresses") cc ++ address_pairs (js "ReplyToAddresses") reply ++
  [(js "Template", JStr template); (js "TemplateData", JStr text)].

Section pairs.
Context (Date_parse : jsval → option Z) (Buffer_from : jsval → option (list Z)) (table : shape_id → shape).
Local Abbreviation serializeMember := (serializeMember Date_parse Buffer_from (js "query") table).

Lemma serialize_text fuel name x s :
  plain_string s = true → serializeMember (S fuel) name (JStr x) s = Some [(name, JStr x)].
Proof.
  intros (Ht & _ & _ & _ & _ & _ & Hj)%plain_string_spec. cbn [QuerySerializer.serializeMember nullish].
  unfold has_type. rewrite Ht, !bool_decide_false by discriminate.
  unfold wire, wire_string. rewrite Ht, Hj. reflexivity.
Qed.

Lemma calls_texts {A} (f : A → option (list (jsstr * jsval))) (g : A → jsstr * jsval) l :
  (∀ x, x ∈ l → f x = Some [g x]) → calls f l = Some (g <$> l).
Proof.
  induction l as [|x l IH]; intros Hl; [done|]. unfold calls in *. cbn [mapM]. rewrite (Hl x) by left.
  cbn [mbind option_bind]. specialize (IH (λ y Hy, Hl y (list_elem_of_further _ _ _ Hy))).
  destruct (mapM f l) as [ls|]; [|done]. apply Some_inj in IH. cbn in IH |- *. by rewrite IH.
Qed.

Lemma serialize_addresses fuel name l s :
  plain_list table s = true → serializeMember (S (S fuel)) name (address_list l) s = Some (address_pairs name l).
Proof.
  intros (Ht & _ & _ & Hm & Hf & Hn)%plain_list_spec. remember (S fuel) as fuel' eqn:Hfuel.
  cbn [QuerySerializer.serializeMember nullish]. unfold address_list at 1. cbn [nullish].
  unfold has_type. rewrite Ht, bool_decide_false, bool_decide_true by (done || discriminate).
  destruct l as [|a l]; [done|].
  rewrite bool_decide_false. 2: { unfold address_list. cbn [js_length]. intros [= Hl%num_of_Z_inj]. discriminate Hl. }
  rewrite (calls_texts _ (λ nv : nat * (jsstr * jsval), (name ++ js ".member." ++ Z_to_str (Z.of_nat nv.1 + 1), nv.2.2))).
  - f_equal. unfold address_pairs, address_list. cbn [entries]. set (l' := a :: l). clearbody l'.
    apply list_eq. intros i. rewrite list_lookup_fmap, !list_lookup_imap, list_lookup_fmap. by destruct (l' !! i).
  - intros [n [k x]] Hin%imap_pair_elem. cbn [fst snd]. unfold address_list in Hin. cbn [entries] in Hin.
    apply list_elem_of_lookup in Hin as [i Hi]. rewrite list_lookup_imap, list_lookup_fmap in Hi.
    destruct ((a :: l) !! i) as [y|]; [|done]. injection Hi as _ <-.
    rewrite Hfuel, serialize_text by done. do 3 f_equal. unfold item_name. rewrite Hf, Hn. reflexivity.
Qed.
End pairs.

Lemma calls_step {A} (f : A → option (list (jsstr * jsval))) x l a b :
  f x = Some a → calls f l = Some b → calls f (x :: l) = Some (a ++ b).
Proof.
  unfold calls. intros Hx Hl. cbn [mapM]. rewrite Hx. cbn [mbind option_bind].
  destruct (mapM f l); [|done]. apply Some_inj in Hl. by rewrite <- Hl.
Qed.

Lemma send_members :
  own_props (s_members send_input) =
  [(js "Source", text_id (js "Source")); (js "Destination", ref_id "S64" (js "Destination"));
   (js "ReplyToAddresses", ref_id "S54" (js "ReplyToAddresses")); (js "ReturnPath", text_id (js "ReturnPath"));
   (js "SourceArn", text_id (js "SourceArn")); (js "ReturnPathArn", text_id (js "ReturnPathArn"));
   (js "Tags", ref_id "S5x" (js "Tags")); (js "ConfigurationSetName", text_id (js "ConfigurationSetName"));
   (js "Template", text_id (js "Template")); (js "TemplateArn", text_id (js "TemplateArn"));
   (js "TemplateData", text_id (js "TemplateData"))].
Proof. vm_compute. reflexivity. Qed.

Lemma destination_members :
  own_props (s_members (ses_table (ref_id "S64" (js "Destination")))) =
  [(js "ToAddresses", ref_id "S54" (js "ToAddresses")); (js "CcAddresses", ref_id "S54" (js "CcAddresses"));
   (js "BccAddresses", ref_id "S54" (js "BccAddresses"))].
Proof. vm_compute. reflexivity. Qed.

(** The names of the shapes the action's parameters reach. *)
Lemma ses_names :
  s_name (ses_table (ref_id "S64" (js "Destination"))) = js "Destination" ∧
  Forall (λ n, ucfirst (js "query") (ses_table (ref_id "S54" n)) = n ∧ plain_list ses_table (ses_table (ref_id "S54" n)) = true)
    [js "ToAddresses"; js "CcAddresses"; js "ReplyToAddresses"] ∧
  Forall (λ n, ucfirst (js "query") (ses_table (text_id n)) = n ∧ plain_string (ses_table (text_id n)) = true)
    [js "Source"; js "Template"; js "TemplateData"] ∧
  ucfirst (js "query") (ses_table (ref_id "S64" (js "Destination"))) = js "Destination" ∧
  has_type (ses_table (ref_id "S64" (js "Destination"))) (js "structure") = true.
Proof. split_and!; [vm_compute; reflexivity|js_decide|js_decide|vm_compute; reflexivity|vm_compute; reflexivity]. Qed.

Section email.
Context (Date_parse : jsval → option Z) (Buffer_from : jsval → option (list Z)).
Local Abbreviation serializeMember := (serializeMember Date_parse Buffer_from (js "query") ses_table).
Local Abbreviation serialize := (serialize Date_parse Buffer_from (js "query") ses_table).

(** The call for one member of a structure. *)
Definition member_call (fuel : nat) (prefix : jsstr) (params : jsval) (m : jsstr * shape_id) :
    option (list (jsstr * jsval)) :=
  let v := js_prop params m.1 in
  if nullish v then Some []
  else serializeMember fuel (member_name (js "query") prefix (ses_table m.2)) v (ses_table m.2).

Lemma absent_call fuel prefix params k id : js_prop params k = JUndef → member_call fuel prefix params (k, id) = Some [].
Proof. intros H. unfold member_call. cbn [fst]. by rewrite H. Qed.

Lemma text_call fuel params k x :
  k ∈ [js "Source"; js "Template"; js "TemplateData"] → js_prop params k = JStr x →
  member_call (S fuel) [] params (k, text_id k) = Some [(k, JStr x)].
Proof.
  intros Hk H. destruct ses_names as (_ & _ & Hn & _). rewrite Forall_forall in Hn. destruct (Hn k Hk) as [Hu Hp].
  unfold member_call. cbn [fst snd]. rewrite H. unfold member_name. cbn [nullish]. rewrite Hu. by apply serialize_text.
Qed.

Lemma addresses_call fuel prefix params k l :
  k ∈ [js "ToAddresses"; js "CcAddresses"; js "ReplyToAddresses"] → js_prop params k = address_list l →
  member_call (S (S fuel)) prefix params (k, ref_id "S54" k) =
  Some (address_pairs (match prefix with [] => k | _ => prefix ++ js "." ++ k end) l).
Proof.
  intros Hk H. destruct ses_names as (_ & Hn & _). rewrite Forall_forall in Hn. destruct (Hn k Hk) as [Hu Hp].
  unfold member_call. cbn [fst snd]. rewrite H. unfold member_name. change (nullish (address_list l)) with false.
  cbv iota. rewrite Hu. by apply serialize_addresses.
Qed.

Lemma structure_calls fuel name v s :
  nullish v = false → has_type s (js "structure") = true →
  serializeMember (S fuel) name v s = calls (member_call fuel name v) (own_props (s_members s)).
Proof. intros Hv Hs. cbn [QuerySerializer.serializeMember]. by rewrite Hv, Hs. Qed.

Lemma destination_call fuel params cc to :
  js_prop params (js "Destination") =
    JObj [(js "CcAddresses", address_list cc); (js "ToAddresses", address_list to)] →
  member_call (S (S (S fuel))) [] params (js "Destination", ref_id "S64" (js "Destination")) =
  Some (address_pairs (js "Destination.ToAddresses") to ++ address_pairs (js "Destination.CcAddresses") cc).
Proof.
  intros H. destruct ses_names as (_ & _ & _ & Hu & Ht).
  unfold member_call. cbn [fst snd]. rewrite H. unfold member_name. cbn [nullish]. rewrite Hu.
  rewrite structure_calls, destination_members by done. set (d := JObj _).
  apply calls_step; [apply (addresses_call fuel (js "Destination") d (js "ToAddresses")); [left|reflexivity]|].
  rewrite <- (app_nil_r (address_pairs _ cc)).
  apply calls_step; [apply (addresses_call fuel (js "Destination") d (js "CcAddresses")); [right; left|reflexivity]|].
  apply (calls_step _ _ _ []); [by apply absent_call|done].
Qed.

Lemma email_serialized fuel i data text cc to reply :
  CcAddresses i = address_list cc → ToAddresses i = address_list to → ReplyToAddresses i = address_list reply →
  JSON_stringify (templated i data) = Some text →
  serialize (S (S (S fuel))) (JObj (email_params i data)) send_input =
  Some (email_pairs (js "github-actions-bot@corp.ld-corp.com") (Template i) text cc to reply).
Proof.
  intros Hcc Hto Hreply Htext. unfold QuerySerializer.serialize, email_params. rewrite Hcc, Hto, Hreply, Htext.
  cbn [nullish andb]. rewrite send_members. set (p := JObj _). remember (S (S (S fuel))) as f eqn:Hf.
  match goal with |- calls _ ?l = _ => change (calls (member_call f [] p) l = Some (email_pairs (js "github-actions-bot@corp.ld-corp.com") (Template i) text cc to reply)) end.
  unfold email_pairs. subst f.
  apply calls_step; [apply text_call; [left|reflexivity]|]. rewrite (app_assoc (address_pairs _ to)).
  apply calls_step; [by apply destination_call|].
  apply calls_step; [apply (addresses_call (S fuel) []); [by right; right; left|reflexivity]|].
  do 5 (apply (calls_step _ _ _ []); [by apply absent_call|]).
  apply (calls_step _ _ _ [_] [_]); [apply text_call; [right; left|reflexivity]|].
  apply (calls_step _ _ _ []); [by apply absent_call|].
  apply (calls_step _ _ _ [_] []); [apply text_call; [right; right; left|reflexivity]|done].
Qed.
End email.

(** ** The pairs are texts *)

Lemma templated_well_formed i data text :
  Forall (Forall unit_ok) [version i; format i; data; workflowURL i] →
  JSON_stringify (templated i data) = Some text → well_formed text.
Proof.
  rewrite !Forall_cons. intros (Hv & Hf & Hd & Hw & _) Ht.
  assert (Hok : json_ok (templated i data)) by (by apply templated_ok).
  rewrite json_ok_stringify in Ht by done. injection Ht as <-. unfold templated. rewrite text_obj.
  2: { inversion Hok; subst. done. }
  apply well_formed_app; [js_decide|]. apply well_formed_app; [|js_decide].
  apply well_formed_join; [js_decide|]. apply Forall_fmap. unfold compose, member_text. cbn [fst snd].
  repeat (apply Forall_cons; split); [..|constructor]; cbn [fst snd];
    (apply well_formed_app; [js_decide|]; apply well_formed_app; [js_decide|by apply quote_well_formed]).
Qed.

(** The pairs of an e-mail are texts the query string can carry. *)
Lemma address_pairs_texts name l :
  well_formed name → Forall well_formed l → Forall (λ nv, well_formed nv.1 ∧ text_or_null nv.2) (address_pairs name l).
Proof.
  intros Hn Hl. unfold address_pairs. destruct l as [|a l]; [by apply Forall_singleton|].
  apply Forall_lookup. intros k x. rewrite list_lookup_imap. destruct ((a :: l) !! k) as [y|] eqn:Hy; [|done].
  intros <-%Some_inj. cbn [fst snd]. split; [|rewrite Forall_lookup in Hl; by apply (Hl k)].
  apply well_formed_app; [done|]. apply well_formed_app; [js_decide|apply index_well_formed].
Qed.

Lemma email_pairs_texts source template text cc to reply :
  Forall well_formed (source :: template :: text :: cc ++ to ++ reply) →
  Forall (λ nv, well_formed nv.1 ∧ text_or_null nv.2) (email_pairs source template text cc to reply).
Proof.
  rewrite !Forall_cons, !Forall_app. intros (Hs & Ht & Hx & Hcc & Hto & Hr). unfold email_pairs.
  apply Forall_cons. split; [split; [cbn [fst]; js_decide|exact Hs]|].
  repeat (apply Forall_app; split); [apply address_pairs_texts; [js_decide|assumption]..|].
  apply Forall_cons. split; [split; [cbn [fst]; js_decide|exact Ht]|].
  apply Forall_singleton. split; [cbn [fst]; js_decide|exact Hx].
Qed.

Lemma address_list_depth l : (depth (address_list l) ≤ 1)%nat.
Proof.
  unfold address_list. cbn [depth]. enough (list_max (depth <$> (JStr <$> l)) ≤ 0)%nat by lia.
  apply list_max_le. rewrite <- list_fmap_compose. apply Forall_fmap, Forall_true. intros x. cbn. lia.
Qed.

Lemma email_depth i data cc to reply :
  CcAddresses i = address_list cc → ToAddresses i = address_list to → ReplyToAddresses i = address_list reply →
  (depth (JObj (email_params i data)) ≤ 3)%nat.
Proof.
  intros Hcc Hto Hreply. unfold email_params. rewrite Hcc, Hto, Hreply.
  pose proof (address_list_depth cc). pose proof (address_list_depth to). pose proof (address_list_depth reply).
  assert (Hd : ∃ t, JSON_stringify (templated i data) = Some t) by (by eexists). destruct Hd as [t ->].
  cbn [depth fmap list_fmap snd list_max foldr]. lia.
Qed.

(** What the synchronous part of the script computes, when it ends normally. *)
Lemma prepare_params p region params :
  strings_ok p → prepare p = (p, Ok (region, params)) →
  ∃ i data, read_inputs p = (p, Ok i) ∧ params = email_params i data ∧ Forall unit_ok data.
Proof.
  intros Hp. unfold prepare. pose proof (read_inputs_spec p) as Hr.
  destruct (read_inputs p) as [p' [i|e]] eqn:Hi; [|unfold st_bind at 1; rewrite Hi; done].
  injection Hr as -> _. rewrite (st_bind_run _ _ _ _ _ Hi). destruct (str_eqb (dataFilePath i) []).
  - unfold st_bind, st_ret. intros [= _ <-]. exists i, []. split_and!; [done..|constructor].
  - unfold st_bind, st_ret, readFileSync. destruct (files p !! dataFilePath i) as [f|] eqn:Hf; [|done].
    intros [= _ <-]. exists i, (file_text f). split_and!; [done..|]. by eapply (proj2 Hp).
Qed.

(** What the request of an e-mail consists of. *)
Definition email_request (template text : jsstr) (cc to reply : list jsstr) : jsobj :=
  (js "Version", JStr (js "2010-12-01")) :: (js "Action", JStr (js "SendTemplatedEmail")) ::
  email_pairs (js "github-actions-bot@corp.ld-corp.com") template text cc to reply.

Lemma ses_facts :
  api_protocol ses_api = js "query" ∧ api_apiVersion ses_api = js "2010-12-01" ∧
  op_name sendTemplatedEmail = js "SendTemplatedEmail" ∧ op_hostPrefix sendTemplatedEmail = [] ∧
  s_type send_input = Some (js "structure") ∧
  Forall (λ m, ucfirst (js "query") (ses_table m.2) ∉ [js "Version"; js "Action"]) (s_members send_input).
Proof. split_and!; [vm_compute; reflexivity..|]. apply (bool_decide_unpack _). vm_compute. exact I. Qed.

Lemma no_host_prefix now table enabled endpointOperation op params input e :
  op_hostPrefix op = [] → populateHostPrefix now table enabled endpointOperation op params input e = Ok e.
Proof. intros H. unfold populateHostPrefix. rewrite H. by destruct enabled, (hasEndpointDiscover _ _). Qed.

(** C8. The e-mail the workflow describes is the e-mail on the wire.  When the
    synchronous part of the script ends normally and its address inputs are JSON
    lists of strings, the parameters it hands to the client pass the client's own
    validation against the shapes created from the description of the service,
    whatever the validation options; the query request built from them consists
    of the version, the action, the fixed sender, one numbered pair per address,
    the template and the template data, in the order of the description; the
    endpoint is left alone; and the form body reads back to these pairs.  The
    template data needs no condition: a text [JSON.stringify] made is always
    encodable. *)
Theorem email_reaches_wire (Date_parse : jsval → option Z) (Buffer_from : jsval → option (list Z))
    (regex_test : jsstr → jsstr → bool) (vd : validation) (now : Z) (enabled : bool) (hr : http_request)
    (p : process) (region : jsstr) (params : jsobj) (cc to reply : list jsstr) :
  strings_ok p → prepare p = (p, Ok (region, params)) →
  JSON_parse (input p (js "ccAddresses")) = Some (address_list cc) →
  JSON_parse (input p (js "toAddresses")) = Some (address_list to) →
  JSON_parse (input p (js "replyToAddresses")) = Some (address_list reply) →
  Forall well_formed (input p (js "template") :: cc ++ to ++ reply) →
  validate now regex_test ses_table vd 4 send_input (JObj params) None = Valid ∧
  ∃ text built,
    obj_prop params (js "TemplateData") = JStr text ∧
    let o := email_request (input p (js "template")) text cc to reply in
    buildRequest Date_parse Buffer_from (api_protocol ses_api) ses_table now 3 enabled
      (api_endpointOperation ses_api) (api_apiVersion ses_api) sendTemplatedEmail (JObj params) send_input hr = Ok (o, built) ∧
    hr_endpoint built = hr_endpoint hr ∧ hr_method built = hr_method hr ∧ hr_path built = hr_path hr ∧
    parse_query (hr_body built) = Some ((λ n, (utf8 n, utf8 (string_value o n))) <$> sort_strings o.*1).
Proof.
  intros Hp Hprep Hcc Hto Hreply Hw.
  destruct (prepare_params p region params Hp Hprep) as (i & data & Hi & -> & Hdata).
  rewrite read_inputs_spec, Hcc, Hto, Hreply in Hi. injection Hi as <-. set (i := mk_inputs _ _ _ _ _ _ _ _ _).
  pose proof (email_depth i data cc to reply eq_refl eq_refl eq_refl) as Hdepth.
  pose proof (email_conforms regex_test vd i data cc to reply eq_refl eq_refl eq_refl) as Hc.
  destruct (JSON_stringify (templated i data)) as [text|] eqn:Htext; [|done].
  destruct ses_facts as (Hproto & Hver & Hname & Hhost & Hst & Hva). rewrite Hproto, Hver. split.
  { unfold validate. change (js_or (JObj (email_params i data)) (JObj [])) with (JObj (email_params i data)).
    by rewrite (validateMember_complete _ _ _ _ _ _ Hc) by lia. }
  destruct (query_request_built Date_parse Buffer_from (js "query") ses_table regex_test vd (λ id, id ∈ ses_ids)
    send_input now enabled (api_endpointOperation ses_api) (js "2010-12-01") sendTemplatedEmail
    (JObj (email_params i data)) 3 hr (hr_endpoint hr)) as (l & Hl & _ & Hb);
    [exact ses_shapes|apply send_input_ok|apply send_input_ok|done| |done|done|done|].
  { intros k id Hin. rewrite Forall_forall in Hva. exact (Hva (k, id) Hin). }
  rewrite (email_serialized Date_parse Buffer_from 0 i data text cc to reply eq_refl eq_refl eq_refl Htext) in Hl.
  apply Some_inj in Hl. subst l. rewrite Hname in Hb. destruct Hb as (built & Hok & Hend & Hmet & Hpath & _ & Hbody).
  - js_decide.
  - js_decide.
  - apply email_pairs_texts. apply Forall_cons. split; [js_decide|]. rewrite Forall_cons in Hw |- *.
    destruct Hw as [Hwt Hwa]. split; [done|]. apply Forall_cons. split; [|done].
    eapply templated_well_formed; [|exact Htext]. rewrite !Forall_cons.
    split_and!; [by apply input_units|by apply input_units|done|by apply input_units|constructor].
  - by apply no_host_prefix.
  - exists text, built. split; [unfold email_params; by rewrite Htext|].
    exact (conj Hok (conj Hend (conj Hmet (conj Hpath Hbody)))).
Qed.

(** What the action sends with the example's inputs. *)
Definition example_params : jsobj :=
  match prepare example_inputs with (_, Ok (_, params)) => params | _ => [] end.

Lemma email_reaches_wire_witness :
  validate 0 (λ _ _, true) ses_table (new_ParamValidator (JBool true)) 4 send_input (JObj example_params) None = Valid ∧
  ∃ text built,
    obj_prop example_params (js "TemplateData") = JStr text ∧
    let o := email_request [] text [] [js "a@b.c"] [] in
    buildRequest (λ _, None) (λ _, None) (api_protocol ses_api) ses_table 0 3 true
      (api_endpointOperation ses_api) (api_apiVersion ses_api) sendTemplatedEmail (JObj example_params) send_input
      (demo_http []) = Ok (o, built) ∧
    hr_endpoint built = hr_endpoint (demo_http []) ∧ hr_method built = hr_method (demo_http []) ∧
    hr_path built = hr_path (demo_http []) ∧
    parse_query (hr_body built) = Some ((λ n, (utf8 n, utf8 (string_value o n))) <$> sort_strings o.*1).
Proof.
  apply (email_reaches_wire (λ _, None) (λ _, None) (λ _ _, true) (new_ParamValidator (JBool true)) 0 true (demo_http [])
    example_inputs (js "us-west-2") example_params [] [js "a@b.c"] []).
  - split; apply (bool_decide_unpack _); vm_compute; exact I.
  - vm_compute. reflexivity.
  - vm_compute. reflexivity.
  - vm_compute. reflexivity.
  - vm_compute. reflexivity.
  - apply (bool_decide_unpack _). vm_compute. exact I.
Defined.
