(* ===== verification/JmesLexer.v ===== *)
(** * jmespath: values and the lexer

    The value predicates of jmespath and its lexer (dist/index.js 27727-28188).
    Values are plain data: an object has only its own properties, and two
    references to one object are two equal values. *)

From stdpp Require Import base strings list.
From Stdlib Require Import ZArith Lia.
From S2P Require Import Prelude JsValue Json JsText UriUtil ParamValidator QuerySerializer.

Local Open Scope Z_scope.

(** ** Values *)

Definition isArray (v : jsval) : bool := match v with JArr _ => true | _ => false end.
Definition isObject (v : jsval) : bool := match v with JObj _ => true | _ => false end.

(** [first === second] of values that are not objects. *)
Definition strict_eq (a b : jsval) : bool :=
  match a, b with
  | JUndef, JUndef | JNull, JNull => true
  | JBool x, JBool y => Bool.eqb x y
  | JNum x, JNum y => num_leb x y && num_leb y x
  | JStr x, JStr y => str_eqb x y
  | _, _ => false
  end.

(** [strictDeepEqual(first, second)]; the recursion follows [first].  An absent
    property of [second] reads as undefined. *)
Fixpoint strictDeepEqual (first second : jsval) : bool :=
  match first, second with
  | JArr l, JArr k =>
    (fix arrays l k := match l, k with
      | [], [] => true
      | x :: l', y :: k' => strictDeepEqual x y && arrays l' k'
      | _, _ => false end) l k
  | JObj o, JObj p =>
    (fix objects (o : jsobj) := match o with
      | [] => true
      | kv :: o' => strictDeepEqual kv.2 (obj_prop p kv.1) && objects o' end) o &&
    forallb (λ k, bool_decide (k ∈ o.*1)) p.*1
  | _, _ => strict_eq first second
  end.

Definition isFalse (v : jsval) : bool :=
  match v with
  | JStr s => str_eqb s []
  | JBool b => negb b
  | JNull => true
  | JArr l => Nat.eqb (length l) 0
  | JObj o => Nat.eqb (length o) 0
  | _ => false
  end.

Definition objValues (o : jsobj) : list jsval := (own_props o).*2.

(** ** Tokens *)

Inductive tok :=
| TOK_EOF | TOK_UNQUOTEDIDENTIFIER | TOK_QUOTEDIDENTIFIER | TOK_RBRACKET | TOK_RPAREN | TOK_COMMA | TOK_COLON
| TOK_RBRACE | TOK_NUMBER | TOK_CURRENT | TOK_EXPREF | TOK_PIPE | TOK_OR | TOK_AND | TOK_EQ | TOK_GT | TOK_LT
| TOK_GTE | TOK_LTE | TOK_NE | TOK_FLATTEN | TOK_STAR | TOK_FILTER | TOK_DOT | TOK_NOT | TOK_LBRACE | TOK_LBRACKET
| TOK_LPAREN | TOK_LITERAL.

#[global] Instance tok_eq_dec : EqDecision tok.
Proof. solve_decision. Defined.

Definition tok_name (t : tok) : jsstr :=
  match t with
  | TOK_EOF => js "EOF" | TOK_UNQUOTEDIDENTIFIER => js "UnquotedIdentifier"
  | TOK_QUOTEDIDENTIFIER => js "QuotedIdentifier" | TOK_RBRACKET => js "Rbracket" | TOK_RPAREN => js "Rparen"
  | TOK_COMMA => js "Comma" | TOK_COLON => js "Colon" | TOK_RBRACE => js "Rbrace" | TOK_NUMBER => js "Number"
  | TOK_CURRENT => js "Current" | TOK_EXPREF => js "Expref" | TOK_PIPE => js "Pipe" | TOK_OR => js "Or"
  | TOK_AND => js "And" | TOK_EQ => js "EQ" | TOK_GT => js "GT" | TOK_LT => js "LT" | TOK_GTE => js "GTE"
  | TOK_LTE => js "LTE" | TOK_NE => js "NE" | TOK_FLATTEN => js "Flatten" | TOK_STAR => js "Star"
  | TOK_FILTER => js "Filter" | TOK_DOT => js "Dot" | TOK_NOT => js "Not" | TOK_LBRACE => js "Lbrace"
  | TOK_LBRACKET => js "Lbracket" | TOK_LPAREN => js "Lparen" | TOK_LITERAL => js "Literal"
  end.

Record token := Token { tok_type : tok; tok_value : jsval; tok_start : Z }.

Definition basicTokens (c : Z) : option tok :=
  if Z.eqb c 46 then Some TOK_DOT else if Z.eqb c 42 then Some TOK_STAR else if Z.eqb c 44 then Some TOK_COMMA
  else if Z.eqb c 58 then Some TOK_COLON else if Z.eqb c 123 then Some TOK_LBRACE
  else if Z.eqb c 125 then Some TOK_RBRACE else if Z.eqb c 93 then Some TOK_RBRACKET
  else if Z.eqb c 40 then Some TOK_LPAREN else if Z.eqb c 41 then Some TOK_RPAREN
  else if Z.eqb c 64 then Some TOK_CURRENT else None.

Definition operatorStartToken (c : Z) : bool := Z.eqb c 60 || Z.eqb c 62 || Z.eqb c 61 || Z.eqb c 33.
Definition skipChars (c : Z) : bool := Z.eqb c 32 || Z.eqb c 9 || Z.eqb c 10.

Definition isAlpha (c : Z) : bool := (Z.leb 97 c && Z.leb c 122) || (Z.leb 65 c && Z.leb c 90) || Z.eqb c 95.
Definition isNum (c : Z) : bool := is_digit c || Z.eqb c 45.
Definition isAlphaNum (c : Z) : bool :=
  (Z.leb 97 c && Z.leb c 122) || (Z.leb 65 c && Z.leb c 90) || is_digit c || Z.eqb c 95.

(** ** The lexer *)

(** The longest prefix of units that satisfy [P], and the rest. *)
Fixpoint span (P : Z → bool) (s : jsstr) : jsstr * jsstr :=
  match s with
  | [] => ([], [])
  | c :: s' => if P c then let '(a, r) := span P s' in (c :: a, r) else ([], s)
  end.

(** The text up to an unescaped [quote], and the rest from there; an escaped quote
    and an escaped backslash are skipped in pairs. *)
Fixpoint scan (quote : Z) (s : jsstr) : jsstr * jsstr :=
  match s with
  | [] => ([], [])
  | c :: s' =>
    if Z.eqb c quote then ([], s)
    else
      match s' with
      | d :: s'' =>
        if Z.eqb c 92 && (Z.eqb d 92 || Z.eqb d quote)
        then let '(a, r) := scan quote s'' in (c :: d :: a, r)
        else let '(a, r) := scan quote s' in (c :: a, r)
      | [] => ([c], [])
      end
  end.

(** [s.replace(pattern, replacement)] of a text: the first occurrence only. *)
Fixpoint replace_first (pattern replacement s : jsstr) : jsstr :=
  if starts_with pattern s then replacement ++ drop (length pattern) s
  else match s with [] => [] | c :: s' => c :: replace_first pattern replacement s' end.

Definition json_parse (s : jsstr) : result jserror jsval :=
  match JSON_parse s with
  | Some v => Ok v
  | None => Throw (mk_error (js "SyntaxError") (js "Unexpected token in JSON"))
  end.

(** The consumers take the text from the current position on and return the rest
    of it; behind an opening quote that is not closed nothing is left. *)
Definition consumeQuotedIdentifier (s : jsstr) : result jserror (jsval * jsstr) :=
  let '(body, r) := scan 34 (tail s) in
  let* v := json_parse (34 :: body ++ take 1 r) in Ok (v, drop 1 r).

Definition consumeRawStringLiteral (s : jsstr) : jsval * jsstr :=
  let '(body, r) := scan 39 (tail s) in
  (JStr (replace_first (js "\'") (js "'") body), drop 1 r).

Definition looksLikeJSON (literalString : jsstr) : bool :=
  match literalString with
  | [] => false
  | c :: _ =>
    if Z.eqb c 91 || Z.eqb c 123 || Z.eqb c 34 then true
    else if bool_decide (literalString ∈ [js "true"; js "false"; js "null"]) then true
    else if isNum c then match JSON_parse literalString with Some _ => true | None => false end
    else false
  end.

Definition consumeLiteral (s : jsstr) : result jserror (jsval * jsstr) :=
  let '(body, r) := scan 96 (tail s) in
  let literalString := replace_first [92; 96] [96] (trim_start body) in
  let* literal := json_parse (if looksLikeJSON literalString then literalString
                              else [34] ++ literalString ++ [34]) in
  Ok (literal, drop 1 r).

(** Tokens of one or two units; [None] is the [undefined] a single [=] yields. *)
Definition consumeLBracket (start : Z) (s : jsstr) : option token * jsstr :=
  let bracket := Some (Token TOK_LBRACKET (JStr (js "[")) start) in
  match tail s with
  | d :: r =>
    if Z.eqb d 63 then (Some (Token TOK_FILTER (JStr (js "[?")) start), r)
    else if Z.eqb d 93 then (Some (Token TOK_FLATTEN (JStr (js "[]")) start), r)
    else (bracket, d :: r)
  | [] => (bracket, [])
  end.

Definition consumeOperator (start c : Z) (s : jsstr) : option token * jsstr :=
  let r := tail s in
  let '(eq, r') := match r with d :: r' => if Z.eqb d 61 then (true, r') else (false, r) | [] => (false, r) end in
  if Z.eqb c 33 then
    (Some (if eq then Token TOK_NE (JStr (js "!=")) start else Token TOK_NOT (JStr (js "!")) start), r')
  else if Z.eqb c 60 then
    (Some (if eq then Token TOK_LTE (JStr (js "<=")) start else Token TOK_LT (JStr (js "<")) start), r')
  else if Z.eqb c 62 then
    (Some (if eq then Token TOK_GTE (JStr (js ">=")) start else Token TOK_GT (JStr (js ">")) start), r')
  else (if eq then Some (Token TOK_EQ (JStr (js "==")) start) else None, r').

(** [&] and [|], alone or doubled. *)
Definition consumePair (start c : Z) (s : jsstr) (one two : tok) : token * jsstr :=
  match tail s with
  | d :: r => if Z.eqb d c then (Token two (JStr [c; c]) start, r) else (Token one (JStr [c]) start, d :: r)
  | [] => (Token one (JStr [c]) start, [])
  end.

(** One round of [tokenize] at the unit [c]. *)
Definition lex_one (start c : Z) (s : jsstr) : result jserror (list (option token) * jsstr) :=
  if isAlpha c then
    let '(a, r) := span isAlphaNum (tail s) in
    Ok ([Some (Token TOK_UNQUOTEDIDENTIFIER (JStr (c :: a)) start)], r)
  else
    match basicTokens c with
    | Some t => Ok ([Some (Token t (JStr [c]) start)], tail s)
    | None =>
      if isNum c then
        let '(a, r) := span isNum (tail s) in
        Ok ([Some (Token TOK_NUMBER (JNum (parseInt (c :: a))) start)], r)
      else if Z.eqb c 91 then let '(t, r) := consumeLBracket start s in Ok ([t], r)
      else if Z.eqb c 34 then
        let* vr := consumeQuotedIdentifier s in Ok ([Some (Token TOK_QUOTEDIDENTIFIER vr.1 start)], vr.2)
      else if Z.eqb c 39 then
        let '(v, r) := consumeRawStringLiteral s in Ok ([Some (Token TOK_LITERAL v start)], r)
      else if Z.eqb c 96 then
        let* vr := consumeLiteral s in Ok ([Some (Token TOK_LITERAL vr.1 start)], vr.2)
      else if operatorStartToken c then let '(t, r) := consumeOperator start c s in Ok ([t], r)
      else if skipChars c then Ok ([], tail s)
      else if Z.eqb c 38 then let '(t, r) := consumePair start c s TOK_EXPREF TOK_AND in Ok ([Some t], r)
      else if Z.eqb c 124 then let '(t, r) := consumePair start c s TOK_PIPE TOK_OR in Ok ([Some t], r)
      else Throw (mk_error (js "LexerError") (js "Unknown character:" ++ [c]))
    end.

(** Every round consumes a unit: the length of the stream is enough fuel. *)
Fixpoint tokenize_loop (fuel : nat) (start : Z) (s : jsstr) : result jserror (list (option token)) :=
  match s with
  | [] => Ok []
  | c :: _ =>
    match fuel with
    | O => Throw (js_error (js "out of fuel"))
    | S fuel =>
      let* r := lex_one start c s in
      let* ts := tokenize_loop fuel (start + Z.of_nat (length s - length r.2)) r.2 in
      Ok (r.1 ++ ts)
    end
  end.

Definition tokenize (stream : jsstr) : result jserror (list (option token)) :=
  tokenize_loop (length stream) 0 stream.

(** ** The lexer ends *)

Lemma span_length P s : (length (span P s).2 ≤ length s)%nat.
Proof.
  induction s as [|c s IH]; [done|]. cbn [span]. destruct (P c); [|done]. destruct (span P s). cbn [snd length] in *. lia.
Qed.

Lemma scan_pair q c d s :
  scan q (c :: d :: s) =
  if Z.eqb c q then ([], c :: d :: s)
  else if Z.eqb c 92 && (Z.eqb d 92 || Z.eqb d q) then (c :: d :: (scan q s).1, (scan q s).2)
  else (c :: (scan q (d :: s)).1, (scan q (d :: s)).2).
Proof.
  change (scan q (c :: d :: s)) with (if Z.eqb c q then ([], c :: d :: s)
    else if Z.eqb c 92 && (Z.eqb d 92 || Z.eqb d q) then let '(a, r) := scan q s in (c :: d :: a, r)
    else let '(a, r) := scan q (d :: s) in (c :: a, r)).
  destruct (scan q s), (scan q (d :: s)). done.
Qed.

Lemma scan_length q s : (length (scan q s).2 ≤ length s)%nat.
Proof.
  induction s as [s IH] using (induction_ltof1 _ (@length Z)). unfold ltof in IH.
  destruct s as [|c [|d s]]; [done|cbn; destruct (Z.eqb c q); cbn; lia|]. rewrite scan_pair.
  pose proof (IH s ltac:(cbn; lia)). pose proof (IH (d :: s) ltac:(cbn; lia)).
  destruct (Z.eqb c q); [done|]. destruct (_ && _); cbn [snd length] in *; lia.
Qed.

(** A round consumes at least one unit and makes at most one token. *)
Lemma lex_one_moves start c s ts r :
  lex_one start c (c :: s) = Ok (ts, r) → (length r ≤ length s)%nat ∧ (length ts ≤ 1)%nat.
Proof.
  unfold lex_one, consumeQuotedIdentifier, consumeRawStringLiteral, consumeLiteral, consumeLBracket, consumeOperator, consumePair.
  cbn [tail].
  pose proof (span_length isAlphaNum s). pose proof (span_length isNum s).
  pose proof (scan_length 34 s). pose proof (scan_length 39 s). pose proof (scan_length 96 s).
  destruct (span isAlphaNum s), (span isNum s), (scan 34 s), (scan 39 s), (scan 96 s). cbn [snd] in *.
  intros Hl. repeat case_match; simplify_eq; try done; cbn [length] in *; try lia;
    try (apply rbind_ok in Hl as ([v r'] & Hv & Hl); apply rbind_ok in Hv as (w & _ & Hv); simplify_eq;
         cbn [fst snd length] in *; rewrite ?length_drop; lia);
    rewrite ?length_drop; split; lia.
Qed.

Lemma tokenize_loop_fuel f g start s :
  (length s ≤ f)%nat → (length s ≤ g)%nat → tokenize_loop f start s = tokenize_loop g start s.
Proof.
  revert g start s. induction f as [|f IH]; intros g start [|c s] Hf Hg; try (by destruct g); cbn [length] in *; [lia|].
  destruct g as [|g]; [lia|]. cbn [tokenize_loop]. destruct (lex_one start c (c :: s)) as [[ts r]|e] eqn:Hl; [|done].
  cbn [rbind fst snd]. apply lex_one_moves in Hl as [Hr _]. rewrite (IH g); [done|lia..].
Qed.

(** There are at most as many tokens as units. *)
Lemma tokenize_loop_length f start s ts :
  tokenize_loop f start s = Ok ts → (length s ≤ f)%nat → (length ts ≤ length s)%nat.
Proof.
  revert start s ts. induction f as [|f IH]; intros start [|c s] ts; cbn [tokenize_loop length];
    try (intros [= <-]; cbn; lia); try lia.
  intros (r & Hl & Ht)%rbind_ok Hf. apply rbind_ok in Ht as (ts' & Ht & Hts). injection Hts as <-.
  destruct r as [l r]. cbn [fst snd] in *. apply lex_one_moves in Hl as [Hr Hlen].
  apply IH in Ht; [|lia]. rewrite length_app. lia.
Qed.
