(* ===== verification/JmesParser.v ===== *)
(** * jmespath: the parser

    The operator-precedence parser of jmespath (dist/index.js 28189-28588).  A node
    of the syntax tree is the object the source builds, so that a tree can also be
    a value; the parser consumes the list of the tokens that are left. *)

From stdpp Require Import base strings list.
From Stdlib Require Import ZArith Lia.
From S2P Require Import Prelude JsValue Json JsText UriUtil ParamValidator QuerySerializer JmesLexer.

Local Open Scope Z_scope.

(** ** Nodes *)

Definition node (type : string) (fields : jsobj) : jsval := JObj ((js "type", JStr (js type)) :: fields).
Definition parent (type : string) (children : list jsval) : jsval := node type [(js "children", JArr children)].
Definition Identity : jsval := node "Identity" [].
Definition Field (name : jsval) : jsval := node "Field" [(js "name", name)].

Definition bindingPower (t : tok) : option Z :=
  match t with
  | TOK_EOF | TOK_UNQUOTEDIDENTIFIER | TOK_QUOTEDIDENTIFIER | TOK_RBRACKET | TOK_RPAREN | TOK_COMMA | TOK_RBRACE
  | TOK_NUMBER | TOK_CURRENT | TOK_EXPREF => Some 0
  | TOK_PIPE => Some 1
  | TOK_OR => Some 2
  | TOK_AND => Some 3
  | TOK_EQ | TOK_GT | TOK_LT | TOK_GTE | TOK_LTE | TOK_NE => Some 5
  | TOK_FLATTEN => Some 9
  | TOK_STAR => Some 20
  | TOK_FILTER => Some 21
  | TOK_DOT => Some 40
  | TOK_NOT => Some 45
  | TOK_LBRACE => Some 50
  | TOK_LBRACKET => Some 55
  | TOK_LPAREN => Some 60
  | TOK_COLON | TOK_LITERAL => None
  end.

(** A comparison with the absent power of a token is false. *)
Definition binds (rbp : Z) (t : tok) : bool := match bindingPower t with Some p => Z.ltb rbp p | None => false end.
Definition binds_below (t : tok) (p : Z) : bool := match bindingPower t with Some q => Z.ltb q p | None => false end.

(** ** The parser's effects *)

(** A parser takes the tokens from the current index on; [None] is a run out of
    fuel. *)
Definition P (A : Type) : Type := list (option token) → option (result jserror (A * list (option token))).

Definition p_ret {A} (a : A) : P A := λ ts, Some (Ok (a, ts)).
Definition p_throw {A} (e : jserror) : P A := λ ts, Some (Throw e).
Definition p_bind {A B} (m : P A) (k : A → P B) : P B := λ ts,
  match m ts with
  | Some (Ok (a, ts')) => k a ts'
  | Some (Throw e) => Some (Throw e)
  | None => None
  end.
Notation "x <-- m ;; k" := (p_bind m (λ x, k)) (at level 100, m at next level, right associativity) : js_scope.
Notation "m ;;> k" := (p_bind m (λ _, k)) (at level 100, right associativity) : js_scope.

Definition parser_error (msg : jsstr) : jserror := mk_error (js "ParserError") msg.
Definition no_token : jserror := mk_error (js "TypeError") (js "Cannot read properties of undefined (reading 'type')").

(** [_lookaheadToken(number)], read for its type. *)
Definition lookaheadToken (number : nat) : P token := λ ts,
  match ts !! number with
  | Some (Some t) => Some (Ok (t, ts))
  | _ => Some (Throw no_token)
  end.
Definition lookahead (number : nat) : P tok := t <-- lookaheadToken number;; p_ret (tok_type t).
Definition advance : P () := λ ts, Some (Ok (tt, tail ts)).

Definition match_ (t : tok) : P () :=
  l <-- lookahead 0;;
  if bool_decide (l = t) then advance
  else p_throw (parser_error (js "Expected " ++ tok_name t ++ js ", got: " ++ tok_name l)).

Definition errorToken {A} (t : token) : P A :=
  p_throw (parser_error (js "Invalid token (" ++ tok_name (tok_type t) ++ js "): " ++ [34] ++
                         to_string (tok_value t) ++ [34])).

(** ** The grammar *)

Section grammar.
(** [this.expression], and a bound on the rounds of the loops. *)
Context (expression : Z → P jsval) (fuel : nat).

Definition out_of_fuel {A} : P A := λ _, None.

(** The arguments of a function or a parenthesis, up to [Rparen]. *)
Fixpoint arguments (n : nat) (commas : bool) (args : list jsval) : P (list jsval) :=
  match n with
  | O => out_of_fuel
  | S n =>
    l <-- lookahead 0;;
    if bool_decide (l = TOK_RPAREN) then p_ret args
    else
      e <-- (if bool_decide (l = TOK_CURRENT) then advance ;;> p_ret (node "Current" []) else expression 0);;
      (if commas then
         l <-- lookahead 0;;
         if bool_decide (l = TOK_COMMA) then match_ TOK_COMMA else p_ret tt
       else p_ret tt) ;;>
      arguments n commas (args ++ [e])
  end.

Fixpoint multiselect_items (n : nat) (expressions : list jsval) : P (list jsval) :=
  match n with
  | O => out_of_fuel
  | S n =>
    l <-- lookahead 0;;
    if bool_decide (l = TOK_RBRACKET) then p_ret expressions
    else
      e <-- expression 0;;
      l <-- lookahead 0;;
      (if bool_decide (l = TOK_COMMA) then
         match_ TOK_COMMA ;;>
         (l <-- lookahead 0;;
          if bool_decide (l = TOK_RBRACKET) then p_throw (js_error (js "Unexpected token Rbracket")) else p_ret tt)
       else p_ret tt) ;;>
      multiselect_items n (expressions ++ [e])
  end.

Definition parseMultiselectList : P jsval :=
  expressions <-- multiselect_items fuel [];;
  match_ TOK_RBRACKET ;;>
  p_ret (parent "MultiSelectList" expressions).

Fixpoint multiselect_pairs (n : nat) (pairs : list jsval) : P (list jsval) :=
  match n with
  | O => out_of_fuel
  | S n =>
    keyToken <-- lookaheadToken 0;;
    if negb (bool_decide (tok_type keyToken ∈ [TOK_UNQUOTEDIDENTIFIER; TOK_QUOTEDIDENTIFIER])) then
      p_throw (js_error (js "Expecting an identifier token, got: " ++ tok_name (tok_type keyToken)))
    else
      advance ;;>
      (match_ TOK_COLON ;;>
       (value <-- expression 0;;
        let pairs := pairs ++ [node "KeyValuePair" [(js "name", tok_value keyToken); (js "value", value)]] in
        l <-- lookahead 0;;
        if bool_decide (l = TOK_COMMA) then match_ TOK_COMMA ;;> multiselect_pairs n pairs
        else if bool_decide (l = TOK_RBRACE) then match_ TOK_RBRACE ;;> p_ret pairs
        else multiselect_pairs n pairs))
  end.

Definition parseMultiselectHash : P jsval :=
  pairs <-- multiselect_pairs fuel [];; p_ret (parent "MultiSelectHash" pairs).

(** [None] of the source's [_parseDotRHS] is [undefined]. *)
Definition parseDotRHS (rbp : Z) : P jsval :=
  l <-- lookahead 0;;
  if bool_decide (l ∈ [TOK_UNQUOTEDIDENTIFIER; TOK_QUOTEDIDENTIFIER; TOK_STAR]) then expression rbp
  else if bool_decide (l = TOK_LBRACKET) then match_ TOK_LBRACKET ;;> parseMultiselectList
  else if bool_decide (l = TOK_LBRACE) then match_ TOK_LBRACE ;;> parseMultiselectHash
  else p_ret JUndef.

Definition parseProjectionRHS (rbp : Z) : P jsval :=
  t <-- lookaheadToken 0;;
  let l := tok_type t in
  if binds_below l 10 then p_ret Identity
  else if bool_decide (l = TOK_LBRACKET) then expression rbp
  else if bool_decide (l = TOK_FILTER) then expression rbp
  else if bool_decide (l = TOK_DOT) then match_ TOK_DOT ;;> parseDotRHS rbp
  else p_throw (parser_error (js "Sytanx error, unexpected token: " ++ to_string (tok_value t) ++ js "(" ++
                              tok_name l ++ js ")")).

(** The three parts of a slice; every round consumes a token. *)
Fixpoint slice_parts (n : nat) (index : nat) (parts : list jsval) : P (list jsval) :=
  match n with
  | O => out_of_fuel
  | S n =>
    t <-- lookaheadToken 0;;
    let currentToken := tok_type t in
    if bool_decide (currentToken ≠ TOK_RBRACKET) && bool_decide (index < 3)%nat then
      if bool_decide (currentToken = TOK_COLON) then advance ;;> slice_parts n (S index) parts
      else if bool_decide (currentToken = TOK_NUMBER)
      then advance ;;> slice_parts n index (<[index := tok_value t]> parts)
      else p_throw (mk_error (js "Parsererror") (js "Syntax error, unexpected token: undefined(undefined)"))
    else p_ret parts
  end.

Definition parseSliceExpression : P jsval :=
  parts <-- slice_parts fuel 0 [JNull; JNull; JNull];;
  match_ TOK_RBRACKET ;;>
  p_ret (parent "Slice" parts).

Definition parseIndexExpression : P jsval :=
  t <-- lookaheadToken 0;;
  if bool_decide (tok_type t = TOK_COLON) then parseSliceExpression
  else
    l <-- lookahead 1;;
    if bool_decide (l = TOK_COLON) then parseSliceExpression
    else
      advance ;;>
      (match_ TOK_RBRACKET ;;>
       p_ret (node "Index" [(js "value", tok_value t)])).

Definition is_slice (n : jsval) : bool :=
  match n with JObj o => is_str (js "Slice") (obj_prop o (js "type")) | _ => false end.

Definition projectIfSlice (left right : jsval) : P jsval :=
  let indexExpr := parent "IndexExpression" [left; right] in
  if is_slice right then rhs <-- parseProjectionRHS 20;; p_ret (parent "Projection" [indexExpr; rhs])
  else p_ret indexExpr.

Definition parseComparator (left : jsval) (comparator : tok) : P jsval :=
  right <-- expression (default 0 (bindingPower comparator));;
  p_ret (node "Comparator" [(js "name", JStr (tok_name comparator)); (js "children", JArr [left; right])]).

(** [left.name]: [left] is undefined behind an empty parenthesis. *)
Definition node_name (left : jsval) : P jsval :=
  match left with
  | JObj o => p_ret (obj_prop o (js "name"))
  | _ => p_throw (mk_error (js "TypeError") (js "Cannot read properties of undefined (reading 'name')"))
  end.

Definition led (t : tok) (left : jsval) : P jsval :=
  match t with
  | TOK_DOT =>
    l <-- lookahead 0;;
    if bool_decide (l ≠ TOK_STAR) then
      right <-- parseDotRHS 40;; p_ret (parent "Subexpression" [left; right])
    else
      advance ;;>
      (right <-- parseProjectionRHS 40;; p_ret (parent "ValueProjection" [left; right]))
  | TOK_PIPE => right <-- expression 1;; p_ret (parent "Pipe" [left; right])
  | TOK_OR => right <-- expression 2;; p_ret (parent "OrExpression" [left; right])
  | TOK_AND => right <-- expression 3;; p_ret (parent "AndExpression" [left; right])
  | TOK_LPAREN =>
    name <-- node_name left;;
    args <-- arguments fuel true [];;
    match_ TOK_RPAREN ;;>
    p_ret (node "Function" [(js "name", name); (js "children", JArr args)])
  | TOK_FILTER =>
    condition <-- expression 0;;
    match_ TOK_RBRACKET ;;>
    (l <-- lookahead 0;;
     right <-- (if bool_decide (l = TOK_FLATTEN) then p_ret Identity else parseProjectionRHS 21);;
     p_ret (parent "FilterProjection" [left; right; condition]))
  | TOK_FLATTEN =>
    rightNode <-- parseProjectionRHS 9;;
    p_ret (parent "Projection" [parent "Flatten" [left]; rightNode])
  | TOK_EQ | TOK_NE | TOK_GT | TOK_GTE | TOK_LT | TOK_LTE => parseComparator left t
  | TOK_LBRACKET =>
    l <-- lookahead 0;;
    if bool_decide (l = TOK_NUMBER) || bool_decide (l = TOK_COLON) then
      right <-- parseIndexExpression;; projectIfSlice left right
    else
      match_ TOK_STAR ;;>
      (match_ TOK_RBRACKET ;;>
       (right <-- parseProjectionRHS 20;; p_ret (parent "Projection" [left; right])))
  | _ => t <-- lookaheadToken 0;; errorToken t
  end.

Definition nud (t : token) : P jsval :=
  match tok_type t with
  | TOK_LITERAL => p_ret (node "Literal" [(js "value", tok_value t)])
  | TOK_UNQUOTEDIDENTIFIER => p_ret (Field (tok_value t))
  | TOK_QUOTEDIDENTIFIER =>
    l <-- lookahead 0;;
    if bool_decide (l = TOK_LPAREN)
    then p_throw (js_error (js "Quoted identifier not allowed for function names."))
    else p_ret (Field (tok_value t))
  | TOK_NOT => right <-- expression 45;; p_ret (parent "NotExpression" [right])
  | TOK_STAR =>
    l <-- lookahead 0;;
    right <-- (if bool_decide (l = TOK_RBRACKET) then p_ret Identity else parseProjectionRHS 20);;
    p_ret (parent "ValueProjection" [Identity; right])
  | TOK_FILTER => led TOK_FILTER Identity
  | TOK_LBRACE => parseMultiselectHash
  | TOK_FLATTEN =>
    right <-- parseProjectionRHS 9;;
    p_ret (parent "Projection" [parent "Flatten" [Identity]; right])
  | TOK_LBRACKET =>
    l <-- lookahead 0;;
    if bool_decide (l = TOK_NUMBER) || bool_decide (l = TOK_COLON) then
      right <-- parseIndexExpression;; projectIfSlice Identity right
    else if bool_decide (l = TOK_STAR) then
      l <-- lookahead 1;;
      if bool_decide (l = TOK_RBRACKET) then
        advance ;;>
        (advance ;;>
         (right <-- parseProjectionRHS 20;; p_ret (parent "Projection" [Identity; right])))
      else parseMultiselectList
    else parseMultiselectList
  | TOK_CURRENT => p_ret (node "Current" [])
  | TOK_EXPREF => e <-- expression 0;; p_ret (parent "ExpressionReference" [e])
  | TOK_LPAREN =>
    args <-- arguments fuel false [];;
    match_ TOK_RPAREN ;;>
    p_ret (default JUndef (args !! 0%nat))
  | _ => errorToken t
  end.

(** The loop of [expression]. *)
Fixpoint led_loop (n : nat) (rbp : Z) (left : jsval) : P jsval :=
  match n with
  | O => out_of_fuel
  | S n =>
    currentToken <-- lookahead 0;;
    if binds rbp currentToken then
      advance ;;> (left <-- led currentToken left;; led_loop n rbp left)
    else p_ret left
  end.

Definition expression_body (rbp : Z) : P jsval :=
  leftToken <-- lookaheadToken 0;;
  advance ;;>
  (left <-- nud leftToken;; led_loop fuel rbp left).
End grammar.

Fixpoint expression (fuel : nat) (rbp : Z) : P jsval :=
  match fuel with
  | O => out_of_fuel
  | S fuel => expression_body (expression fuel) (S fuel) rbp
  end.

Definition loadTokens (s : jsstr) : result jserror (list (option token)) :=
  let* ts := tokenize s in
  Ok (ts ++ [Some (Token TOK_EOF (JStr []) (Z.of_nat (length s)))]).

(** [parse(expression)], which is also [compile]. *)
Definition parse (fuel : nat) (s : jsstr) : option (result jserror jsval) :=
  match loadTokens s with
  | Throw e => Some (Throw e)
  | Ok ts =>
    match expression fuel 0 ts with
    | Some (Ok (ast, rest)) =>
      match rest !! 0%nat with
      | Some (Some t) =>
        if bool_decide (tok_type t = TOK_EOF) then Some (Ok ast)
        else Some (Throw (parser_error (js "Unexpected token type: " ++ tok_name (tok_type t) ++ js ", value: " ++
                                        to_string (tok_value t))))
      | _ => Some (Throw no_token)
      end
    | Some (Throw e) => Some (Throw e)
    | None => None
    end
  end.

(** ** The parser ends *)

(** On at most [n] tokens (at least one, where [ne]) the parser returns or throws,
    it never adds tokens, and where [strict] it consumes one. *)
Definition runs (ne : bool) (n : nat) (strict : bool) {A} (m : P A) : Prop :=
  ∀ ts, (ne = true → ts ≠ []) → (length ts ≤ n)%nat →
    match m ts with
    | Some (Ok (_, ts')) => (length ts' + (if strict then 1 else 0) ≤ length ts)%nat
    | Some (Throw _) => True
    | None => False
    end.

Section runs_lemmas.
Context {A B : Type}.
Implicit Types (m : P A) (k : A → P B) (ne s : bool) (n : nat).

Lemma runs_weaken ne n s m : runs ne n s m → runs ne n false m.
Proof. intros H ts H1 H2. specialize (H ts H1 H2). destruct (m ts) as [[[a ts']|]|]; [|done..]. destruct s; lia. Qed.

Lemma runs_any ne n s m : runs false n s m → runs ne n s m.
Proof. intros H ts _ H2. by apply H. Qed.

Lemma runs_mono ne n n' s m : (n' ≤ n)%nat → runs ne n s m → runs ne n' s m.
Proof. intros Hn H ts H1 H2. apply H; [done|lia]. Qed.

Lemma runs_ret ne n a : runs ne n false (p_ret a : P A).
Proof. intros ts _ _. cbn. lia. Qed.

Lemma runs_throw ne n s e : runs ne n s (p_throw e : P A).
Proof. done. Qed.

Lemma runs_bind ne n s m k : runs ne n false m → (∀ a, runs false n s (k a)) → runs ne n s (p_bind m k).
Proof.
  intros Hm Hk ts H1 H2. specialize (Hm ts H1 H2). unfold p_bind. destruct (m ts) as [[[a ts']|]|]; [|done..].
  specialize (Hk a ts' ltac:(done) ltac:(lia)). destruct (k a ts') as [[[b ts'']|]|]; [|done..]. lia.
Qed.

(** Behind a parser that consumes a token there is one token less. *)
Lemma runs_bind_strict ne n s m k : runs ne n true m → (∀ a, (0 < n)%nat → runs false (n - 1) false (k a)) → runs ne n s (p_bind m k).
Proof.
  intros Hm Hk ts H1 H2. specialize (Hm ts H1 H2). unfold p_bind. destruct (m ts) as [[[a ts']|]|]; [|done..].
  specialize (Hk a ltac:(lia) ts' ltac:(done) ltac:(lia)). destruct (k a ts') as [[[b ts'']|]|]; [|done..]. destruct s; lia.
Qed.

Lemma runs_if ne n s (b : bool) m1 m2 : (b = true → runs ne n s m1) → (b = false → runs ne n s m2) → runs ne n s (if b then m1 else m2).
Proof. destruct b; auto. Qed.
End runs_lemmas.

Lemma runs_peek {B} ne n s i (k : token → P B) : (∀ t, runs true n s (k t)) → runs ne n s (p_bind (lookaheadToken i) k).
Proof.
  intros Hk ts H1 H2. unfold p_bind, lookaheadToken. destruct (ts !! i) as [[t|]|] eqn:Hi; [|done..].
  apply Hk; [|done]. intros _ ->. done.
Qed.

Lemma runs_look {B} ne n s i (k : tok → P B) : (∀ t, runs true n s (k t)) → runs ne n s (p_bind (lookahead i) k).
Proof.
  intros Hk ts H1 H2. unfold p_bind, lookahead, p_bind, lookaheadToken. destruct (ts !! i) as [[t|]|] eqn:Hi; [|done..].
  cbn. apply Hk; [|done]. intros _ ->. done.
Qed.

Lemma runs_advance n : runs true n true advance.
Proof. intros [|t ts] H1 H2; [by destruct (H1 eq_refl)|]. cbn. lia. Qed.

Lemma runs_advance_any ne n : runs ne n false advance.
Proof. intros [|t ts] _ _; cbn; lia. Qed.

Lemma runs_match ne n t : runs ne n true (match_ t).
Proof.
  apply runs_look. intros l. apply runs_if; intros _; [apply runs_advance|apply runs_throw].
Qed.

Lemma runs_errorToken {A} ne n s t : runs ne n s (errorToken t : P A).
Proof. apply runs_throw. Qed.

(** One rule after the other; what is known of the sub-parsers is in the
    database. *)
Create HintDb runs.
#[export] Hint Resolve runs_ret runs_throw runs_advance runs_advance_any runs_match runs_errorToken : runs.
Ltac runs_step :=
  match goal with
  | |- runs _ _ _ (p_bind (lookaheadToken _) _) => apply runs_peek; intros ?
  | |- runs _ _ _ (p_bind (lookahead _) _) => apply runs_look; intros ?
  | |- runs _ _ _ (if _ then _ else _) => apply runs_if; intros ?
  | |- runs _ _ _ (p_bind _ _) => apply runs_bind_strict; [solve [eauto with runs]|intros ? ?]
  | |- runs _ _ _ (p_bind _ _) => apply runs_bind; [|intros ?]
  | |- runs _ _ _ _ => solve [eauto with runs]
  | |- runs _ _ false _ => eapply runs_weaken; solve [eauto with runs]
  end.

Section ends.
Context (expression : Z → P jsval) (N : nat).
Context (Hexpr : ∀ ne n rbp, (n ≤ N)%nat → runs ne n true (expression rbp)).
Local Hint Extern 1 (runs _ _ _ (expression _)) => (apply Hexpr; lia) : runs.

Lemma runs_arguments c n commas args : (n < c)%nat → (n ≤ N)%nat → runs false n false (arguments expression c commas args).
Proof.
  revert n args. induction c as [|c IH]; intros n args Hc Hn; [lia|]. cbn [arguments]. runs_step. runs_step; [runs_step|].
  apply runs_bind_strict.
  { runs_step; [|runs_step]. apply (runs_bind_strict _ _ true); [runs_step|]. intros _ _. runs_step. }
  intros e Hpos. runs_step; [runs_step; repeat runs_step|]. apply IH; lia.
Qed.

Lemma runs_items c n es : (n < c)%nat → (n ≤ N)%nat → runs false n false (multiselect_items expression c es).
Proof.
  revert n es. induction c as [|c IH]; intros n es Hc Hn; [lia|]. cbn [multiselect_items]. do 2 runs_step; [runs_step|].
  runs_step. runs_step. apply runs_bind; [repeat runs_step|]. intros ?. apply IH; lia.
Qed.

Lemma runs_pairs c n ps : (n < c)%nat → (n ≤ N)%nat → runs false n false (multiselect_pairs expression c ps).
Proof.
  revert n ps. induction c as [|c IH]; intros n ps Hc Hn; [lia|]. cbn [multiselect_pairs]. do 2 runs_step; [runs_step|].
  do 5 runs_step.
  - runs_step. apply IH; lia.
  - runs_step; [repeat runs_step|]. apply (runs_any _ _ false), IH; lia.
Qed.

Lemma runs_parts c n i ps : (n < c)%nat → runs false n false (slice_parts c i ps).
Proof.
  revert n i ps. induction c as [|c IH]; intros n i ps Hc; [lia|]. cbn [slice_parts]. do 2 runs_step; [|runs_step].
  runs_step; [runs_step; apply IH; lia|]. runs_step; [runs_step; apply IH; lia|]. runs_step.
Qed.

Context (F : nat).
Local Hint Extern 1 (runs _ _ _ (multiselect_items _ _ _)) => (apply runs_any, runs_items; lia) : runs.
Local Hint Extern 1 (runs _ _ _ (multiselect_pairs _ _ _)) => (apply runs_any, runs_pairs; lia) : runs.
Local Hint Extern 1 (runs _ _ _ (slice_parts _ _ _)) => (apply runs_any, runs_parts; lia) : runs.
Local Hint Extern 1 (runs _ _ _ (arguments _ _ _ _)) => (apply runs_any, runs_arguments; lia) : runs.

Lemma runs_list ne n : (n < F)%nat → (n ≤ N)%nat → runs ne n false (parseMultiselectList expression F).
Proof. intros. unfold parseMultiselectList. repeat runs_step. Qed.
Lemma runs_hash ne n : (n < F)%nat → (n ≤ N)%nat → runs ne n false (parseMultiselectHash expression F).
Proof. intros. unfold parseMultiselectHash. repeat runs_step. Qed.
Lemma runs_slice ne n : (n < F)%nat → runs ne n false (parseSliceExpression F).
Proof. intros. unfold parseSliceExpression. repeat runs_step. Qed.
Local Hint Extern 1 (runs _ _ _ (parseMultiselectList _ _)) => (apply runs_list; lia) : runs.
Local Hint Extern 1 (runs _ _ _ (parseMultiselectHash _ _)) => (apply runs_hash; lia) : runs.
Local Hint Extern 1 (runs _ _ _ (parseSliceExpression _)) => (apply runs_slice; lia) : runs.

Lemma runs_dot ne n rbp : (n < F)%nat → (n ≤ N)%nat → runs ne n false (parseDotRHS expression F rbp).
Proof. intros. unfold parseDotRHS. repeat runs_step. Qed.
Local Hint Extern 1 (runs _ _ _ (parseDotRHS _ _ _)) => (apply runs_dot; lia) : runs.
Lemma runs_projection ne n rbp : (n < F)%nat → (n ≤ N)%nat → runs ne n false (parseProjectionRHS expression F rbp).
Proof. intros. unfold parseProjectionRHS. repeat runs_step. Qed.
Local Hint Extern 1 (runs _ _ _ (parseProjectionRHS _ _ _)) => (apply runs_projection; lia) : runs.
Lemma runs_index ne n : (n < F)%nat → (n ≤ N)%nat → runs ne n false (parseIndexExpression F).
Proof. intros. unfold parseIndexExpression. repeat runs_step. Qed.
Local Hint Extern 1 (runs _ _ _ (parseIndexExpression _)) => (apply runs_index; lia) : runs.
Lemma runs_project ne n l r : (n < F)%nat → (n ≤ N)%nat → runs ne n false (projectIfSlice expression F l r).
Proof. intros. unfold projectIfSlice. repeat runs_step. Qed.
Local Hint Extern 1 (runs _ _ _ (projectIfSlice _ _ _ _)) => (apply runs_project; lia) : runs.
Lemma runs_name ne n l : runs ne n false (node_name l).
Proof. unfold node_name. destruct l; repeat runs_step. Qed.
Local Hint Resolve runs_name : runs.

Lemma runs_led ne n t l : (n < F)%nat → (n ≤ N)%nat → runs ne n false (led expression F t l).
Proof. intros. destruct t; cbn [led]; unfold parseComparator; repeat runs_step. Qed.
Local Hint Extern 1 (runs _ _ _ (led _ _ _ _)) => (apply runs_led; lia) : runs.

Lemma runs_nud ne n t : (n < F)%nat → (n ≤ N)%nat → runs ne n false (nud expression F t).
Proof. intros. unfold nud. destruct (tok_type t); repeat runs_step. Qed.
Local Hint Extern 1 (runs _ _ _ (nud _ _ _)) => (apply runs_nud; lia) : runs.

Lemma runs_led_loop c n rbp left : (n < c)%nat → (n < F)%nat → (n ≤ N)%nat → runs false n false (led_loop expression F c rbp left).
Proof.
  revert n left. induction c as [|c IH]; intros n left Hc Hf Hn; [lia|]. cbn [led_loop]. do 2 runs_step; [|runs_step].
  runs_step. runs_step; [runs_step|]. apply IH; lia.
Qed.
Local Hint Extern 1 (runs _ _ _ (led_loop _ _ _ _ _)) => (apply runs_led_loop; lia) : runs.

Lemma runs_body ne n rbp : (n ≤ F)%nat → (n ≤ S N)%nat → runs ne n true (expression_body expression F rbp).
Proof. intros. unfold expression_body. repeat runs_step. Qed.
End ends.

Lemma expression_runs fuel ne n rbp : (n < fuel)%nat → runs ne n true (expression fuel rbp).
Proof.
  revert ne n rbp. induction fuel as [|fuel IH]; intros ne n rbp Hn; [lia|]. cbn [expression].
  destruct n as [|n]; [intros [|t ts] _ H2; [done|cbn in H2; lia]|].
  apply (runs_body (expression fuel) n); [|lia|lia]. intros ne' n' rbp' Hn'. apply IH. lia.
Qed.

(** C36. Every expression compiles or is rejected.  The lexer consumes a character
    in every round, and every nested call of the parser has a token less to read,
    so with as much fuel as the text is long the parser returns a tree or throws;
    what the lexer returns does not depend on the fuel. *)
Theorem compile_terminates (s : jsstr) (fuel : nat) :
  (length s + 2 ≤ fuel)%nat →
  (∃ r, parse fuel s = Some r) ∧ (∀ k, tokenize_loop (length s + k) 0 s = tokenize s).
Proof.
  intros Hf. split; [|intros k; apply tokenize_loop_fuel; lia].
  unfold parse, loadTokens, tokenize. destruct (tokenize_loop (length s) 0 s) as [ts|e] eqn:Ht; cbn [rbind]; [|by eexists].
  apply tokenize_loop_length in Ht; [|done]. set (ts' := ts ++ _).
  assert (Hlen : (length ts' ≤ length s + 1)%nat) by (unfold ts'; rewrite length_app; cbn; lia).
  pose proof (expression_runs fuel false (length s + 1) 0 ltac:(lia) ts' ltac:(done) Hlen) as Hr.
  destruct (expression fuel 0 ts') as [[[ast rest]|e]|]; [|by eexists|done].
  destruct (rest !! 0%nat) as [[t|]|]; [destruct (bool_decide _)|..]; by eexists.
Qed.

Lemma compile_terminates_witness : ∃ r, parse 7 (js "a.[b,") = Some r.
Proof. apply (compile_terminates (js "a.[b,")). vm_compute. lia. Defined.
