(* ===== verification/JmesInterp.v ===== *)
(** * jmespath: the interpreter

    The tree interpreter and the function runtime of jmespath (dist/index.js
    28590-29391) on the nodes of JmesParser.  An expression reference is the node
    itself, tagged; a call that reaches one visits it, so the depth of the
    recursion is not the depth of the tree and is bounded by fuel. *)

From stdpp Require Import base strings list.
From Stdlib Require Import ZArith Lia.
From S2P Require Import Prelude JsValue Json JsText UriUtil ParamValidator QuerySerializer JmesLexer JmesParser.

Local Open Scope Z_scope.

(** ** Effects *)

(** A result, an exception, or a run out of fuel. *)
Definition R (A : Type) : Type := option (result jserror A).
Definition r_ret {A} (a : A) : R A := Some (Ok a).
Definition r_throw {A} (e : jserror) : R A := Some (Throw e).
Definition r_bind {A B} (m : R A) (k : A → R B) : R B :=
  match m with
  | Some (Ok a) => k a
  | Some (Throw e) => Some (Throw e)
  | None => None
  end.
Notation "x <~ m ;; k" := (r_bind m (λ x, k)) (at level 100, m at next level, right associativity) : js_scope.

(** The results of [f] on a list, in order. *)
Fixpoint r_map {A B} (f : A → R B) (l : list A) : R (list B) :=
  match l with
  | [] => r_ret []
  | x :: l => y <~ f x;; ys <~ r_map f l;; r_ret (y :: ys)
  end.

Definition type_error (name : string) : jserror :=
  mk_error (js "TypeError") (js "Cannot read properties of undefined (reading '" ++ js name ++ js "')").

(** ** Numbers and comparisons *)

Definition num_add (a b : jsnum) : jsnum :=
  match a, b with
  | NumNaN, _ | _, NumNaN => NumNaN
  | NumInf x, NumInf y => if Bool.eqb x y then NumInf x else NumNaN
  | NumInf x, _ | _, NumInf x => NumInf x
  | NumDec m e, NumDec m' e' => let low := Z.min e e' in num_dec (m * 10 ^ (e - low) + m' * 10 ^ (e' - low)) low
  end.

(** The integer below or equal, and above or equal. *)
Definition num_floor (a : jsnum) : jsnum :=
  match a with NumDec m e => if Z.leb 0 e then a else num_of_Z (m / 10 ^ (- e)) | _ => a end.
Definition num_ceil (a : jsnum) : jsnum :=
  match a with NumDec m e => if Z.leb 0 e then a else num_of_Z (- ((- m) / 10 ^ (- e))) | _ => a end.
Definition num_abs (a : jsnum) : jsnum :=
  match a with NumDec m e => NumDec (Z.abs m) e | NumInf _ => NumInf false | NumNaN => NumNaN end.

(** [Math.max] and [Math.min]: one NaN makes the result NaN. *)
Definition num_max (a b : jsnum) : jsnum :=
  match a, b with NumNaN, _ | _, NumNaN => NumNaN | _, _ => if num_leb a b then b else a end.
Definition num_min (a b : jsnum) : jsnum :=
  match a, b with NumNaN, _ | _, NumNaN => NumNaN | _, _ => if num_leb a b then a else b end.

(** The integer an index denotes. *)
Definition num_int (a : jsnum) : option Z :=
  match a with NumDec m e => if Z.leb 0 e then Some (m * 10 ^ e) else None | _ => None end.

Fixpoint radix_value (digit : Z → option Z) (radix acc : Z) (s : jsstr) : option Z :=
  match s with [] => Some acc | c :: s => d ← digit c; radix_value digit radix (acc * radix + d) s end.
Definition digit_below (n : Z) (c : Z) : option Z := d ← hex_digit c; if Z.ltb d n then Some d else None.

(** A decimal literal that ends with the text. *)
Definition decimal_literal (s : jsstr) : jsnum :=
  let '(sign, s) := match s with c :: s' => if Z.eqb c 45 then (-1, s') else if Z.eqb c 43 then (1, s') else (1, s) | [] => (1, s) end in
  if str_eqb s (js "Infinity") then NumInf (Z.ltb sign 0)
  else
    let '(whole, s) := take_digits s in
    let '(frac, s) := match s with c :: s' => if Z.eqb c 46 then take_digits s' else ([], s) | [] => ([], s) end in
    if Nat.eqb (length whole + length frac) 0 then NumNaN
    else
      match parse_exp s with
      | Some (e, []) => num_dec (sign * dec_value 0 (whole ++ frac)) (e - Z.of_nat (length frac))
      | _ => NumNaN
      end.

(** [+s]. *)
Definition string_to_number (s : jsstr) : jsnum :=
  let s := trim s in
  let radix n digits := match digits with
    | [] => NumNaN
    | _ => match radix_value (digit_below n) n 0 digits with Some z => num_of_Z z | None => NumNaN end end in
  match s with
  | [] => num_of_Z 0
  | c :: d :: r =>
    if Z.eqb c 48 && (Z.eqb d 120 || Z.eqb d 88) then radix 16 r
    else if Z.eqb c 48 && (Z.eqb d 111 || Z.eqb d 79) then radix 8 r
    else if Z.eqb c 48 && (Z.eqb d 98 || Z.eqb d 66) then radix 2 r
    else decimal_literal s
  | _ => decimal_literal s
  end.

Definition to_primitive (v : jsval) : jsval := match v with JArr _ | JObj _ => JStr (to_string v) | _ => v end.
Definition prim_number (v : jsval) : jsnum :=
  match v with
  | JUndef => NumNaN
  | JNull => num_of_Z 0
  | JBool b => num_of_Z (if b then 1 else 0)
  | JNum n => n
  | JStr s => string_to_number s
  | JArr _ | JObj _ => NumNaN
  end.

(** [a < b] and [a <= b]: two texts compare by their units, anything else as
    numbers. *)
Definition js_lt (a b : jsval) : bool :=
  match to_primitive a, to_primitive b with
  | JStr s, JStr t => negb (str_leb t s)
  | x, y => num_ltb (prim_number x) (prim_number y)
  end.
Definition js_le (a b : jsval) : bool :=
  match to_primitive a, to_primitive b with
  | JStr s, JStr t => str_leb s t
  | x, y => num_leb (prim_number x) (prim_number y)
  end.

(** ** Slices *)

(** A number of a slice: an integer, or NaN ([None]); a comparison with NaN is
    false. *)
Definition oz_lt (a b : option Z) : bool := match a, b with Some x, Some y => Z.ltb x y | _, _ => false end.
Definition oz_le (a b : option Z) : bool := match a, b with Some x, Some y => Z.leb x y | _, _ => false end.
Definition oz_add (a b : option Z) : option Z := match a, b with Some x, Some y => Some (x + y) | _, _ => None end.

Definition capSliceRange (arrayLength : Z) (actualValue step : option Z) : option Z :=
  if oz_lt actualValue (Some 0) then
    let actualValue := oz_add actualValue (Some arrayLength) in
    if oz_lt actualValue (Some 0) then Some (if oz_lt step (Some 0) then -1 else 0) else actualValue
  else if oz_le (Some arrayLength) actualValue then Some (if oz_lt step (Some 0) then arrayLength - 1 else arrayLength)
  else actualValue.

(** The parts of a slice: absent ([None]) or a number. *)
Definition computeSliceParams (arrayLength : Z) (start stop step : option (option Z)) :
    result jserror (option Z * option Z * option Z) :=
  let step := default (Some 1) step in
  if bool_decide (step = Some 0) then Throw (mk_error (js "RuntimeError") (js "Invalid slice, step cannot be 0"))
  else
    let stepValueNegative := oz_lt step (Some 0) in
    let start := match start with
                 | None => Some (if stepValueNegative then arrayLength - 1 else 0)
                 | Some x => capSliceRange arrayLength x step end in
    let stop := match stop with
                | None => Some (if stepValueNegative then -1 else arrayLength)
                | Some x => capSliceRange arrayLength x step end in
    Ok (start, stop, step).

(** The loop over the indices; it visits every index of the array at most once. *)
Fixpoint slice_loop (fuel : nat) (up : bool) (l : list jsval) (i stop step : option Z) : R (list jsval) :=
  if (if up then oz_lt i stop else oz_lt stop i) then
    match fuel with
    | O => None
    | S fuel =>
      let x := match i with Some z => if Z.ltb z 0 then JUndef else default JUndef (l !! Z.to_nat z) | None => JUndef end in
      r <~ slice_loop fuel up l (oz_add i step) stop step;; r_ret (x :: r)
    end
  else r_ret [].

Definition slice_part (v : jsval) : option (option Z) :=
  match v with JNum n => Some (num_int n) | _ => None end.

Definition slice_array (l : list jsval) (parts : list jsval) : R (list jsval) :=
  let part i := slice_part (default JNull (parts !! i)) in
  match computeSliceParams (Z.of_nat (length l)) (part 0%nat) (part 1%nat) (part 2%nat) with
  | Throw e => r_throw e
  | Ok (start, stop, step) => slice_loop (S (length l)) (oz_lt (Some 0) step) l start stop step
  end.

(** ** The type checker of functions *)

Inductive ty := TYPE_NUMBER | TYPE_ANY | TYPE_STRING | TYPE_ARRAY | TYPE_OBJECT | TYPE_BOOLEAN | TYPE_EXPREF | TYPE_NULL
| TYPE_ARRAY_NUMBER | TYPE_ARRAY_STRING.

#[global] Instance ty_eq_dec : EqDecision ty.
Proof. solve_decision. Defined.

Definition ty_code (t : ty) : Z :=
  match t with
  | TYPE_NUMBER => 0 | TYPE_ANY => 1 | TYPE_STRING => 2 | TYPE_ARRAY => 3 | TYPE_OBJECT => 4 | TYPE_BOOLEAN => 5
  | TYPE_EXPREF => 6 | TYPE_NULL => 7 | TYPE_ARRAY_NUMBER => 8 | TYPE_ARRAY_STRING => 9
  end.

Definition getTypeName (v : jsval) : option ty :=
  match v with
  | JStr _ => Some TYPE_STRING
  | JNum _ => Some TYPE_NUMBER
  | JArr _ => Some TYPE_ARRAY
  | JBool _ => Some TYPE_BOOLEAN
  | JNull => Some TYPE_NULL
  | JObj o => Some (if is_str (js "Expref") (obj_prop o (js "jmespathType")) then TYPE_EXPREF else TYPE_OBJECT)
  | JUndef => None
  end.

Definition ty_text (t : option ty) : jsstr := match t with Some t => Z_to_str (ty_code t) | None => js "undefined" end.

Definition typeMatches (expected : ty) (v : jsval) : bool :=
  match expected with
  | TYPE_ANY => true
  | TYPE_ARRAY_NUMBER => match v with JArr l => forallb (λ x, bool_decide (getTypeName x = Some TYPE_NUMBER)) l | _ => false end
  | TYPE_ARRAY_STRING => match v with JArr l => forallb (λ x, bool_decide (getTypeName x = Some TYPE_STRING)) l | _ => false end
  | _ => bool_decide (getTypeName v = Some expected)
  end.

(** A signature: the types of every argument, and whether the last one repeats. *)
Definition signature : Type := list (list ty) * bool.

Definition functionTable (name : jsstr) : option signature :=
  let t (n : string) := str_eqb name (js n) in
  if t "abs" || t "ceil" || t "floor" then Some ([[TYPE_NUMBER]], false)
  else if t "avg" || t "sum" then Some ([[TYPE_ARRAY_NUMBER]], false)
  else if t "contains" then Some ([[TYPE_STRING; TYPE_ARRAY]; [TYPE_ANY]], false)
  else if t "ends_with" || t "starts_with" then Some ([[TYPE_STRING]; [TYPE_STRING]], false)
  else if t "length" then Some ([[TYPE_STRING; TYPE_ARRAY; TYPE_OBJECT]], false)
  else if t "map" then Some ([[TYPE_EXPREF]; [TYPE_ARRAY]], false)
  else if t "max" || t "min" then Some ([[TYPE_ARRAY_NUMBER; TYPE_ARRAY_STRING]], false)
  else if t "merge" then Some ([[TYPE_OBJECT]], true)
  else if t "max_by" || t "min_by" || t "sort_by" then Some ([[TYPE_ARRAY]; [TYPE_EXPREF]], false)
  else if t "type" || t "to_array" || t "to_string" || t "to_number" then Some ([[TYPE_ANY]], false)
  else if t "keys" || t "values" then Some ([[TYPE_OBJECT]], false)
  else if t "sort" then Some ([[TYPE_ARRAY_STRING; TYPE_ARRAY_NUMBER]], false)
  else if t "join" then Some ([[TYPE_STRING]; [TYPE_ARRAY_STRING]], false)
  else if t "reverse" then Some ([[TYPE_STRING; TYPE_ARRAY]], false)
  else if t "not_null" then Some ([[TYPE_ANY]], true)
  else None.

(** The names the table inherits from [Object.prototype]. *)
Definition inherited_names : list jsstr :=
  [js "constructor"; js "toString"; js "valueOf"; js "hasOwnProperty"; js "isPrototypeOf"; js "propertyIsEnumerable";
   js "toLocaleString"; js "__proto__"; js "__defineGetter__"; js "__defineSetter__"; js "__lookupGetter__";
   js "__lookupSetter__"].

(** The types, one argument after the other. *)
Fixpoint check_types (name : jsstr) (i : Z) (args : list jsval) (specs : list (list ty)) : result jserror () :=
  match specs with
  | [] => Ok tt
  | spec :: specs =>
    let v := default JUndef (head args) in
    if existsb (λ t, typeMatches t v) spec then check_types name (i + 1) (tail args) specs
    else Throw (js_error (js "TypeError: " ++ name ++ js "() expected argument " ++ Z_to_str i ++ js " to be type " ++
           join (js ",") ((λ t, Z_to_str (ty_code t)) <$> spec) ++ js " but received type " ++ ty_text (getTypeName v) ++
           js " instead."))
  end.

Definition validateArgs (name : jsstr) (args : list jsval) (sig : signature) : result jserror () :=
  let n := length sig.1 in
  let count := Z_to_str (Z.of_nat n) ++ (if Nat.eqb n 1 then js " argument" else js " arguments") ++
               js " but received " ++ Z_to_str (Z.of_nat (length args)) in
  if sig.2 && bool_decide (length args < n)%nat then
    Throw (js_error (js "ArgumentError: " ++ name ++ js "() takes at least" ++ count))
  else if negb sig.2 && negb (Nat.eqb (length args) n) then
    Throw (js_error (js "ArgumentError: " ++ name ++ js "() takes " ++ count))
  else check_types name 1 args sig.1.

(** ** Functions *)

(** [s.indexOf(pattern, from)] and [s.lastIndexOf(pattern)]. *)
Definition indexOf (s pattern : jsstr) (from : Z) : Z :=
  let from := Z.max 0 (Z.min from (Z.of_nat (length s))) in
  index_of_from from pattern (drop (Z.to_nat from) s).
Fixpoint find_last (pattern s : jsstr) (i : Z) : Z :=
  let here := if starts_with pattern s then i else -1 in
  match s with
  | [] => here
  | _ :: s' => let later := find_last pattern s' (i + 1) in if Z.leb 0 later then later else here
  end.
Definition lastIndexOf (s pattern : jsstr) : Z := find_last pattern s 0.

(** Insertion behind the elements whose key is not greater: a stable sort. *)
Fixpoint insert_key (x : jsval * jsval) (l : list (jsval * jsval)) : list (jsval * jsval) :=
  match l with
  | [] => [x]
  | y :: l' => if js_lt x.1 y.1 then x :: l else y :: insert_key x l'
  end.
Definition sort_keys (l : list (jsval * jsval)) : list (jsval * jsval) := foldl (λ acc x, insert_key x acc) [] l.

Section runtime.
Context (localeCompare : jsstr → jsstr → Z).   (* the runtime's collation *)
Context (num_div : jsnum → jsnum → jsnum).   (* the division of doubles *)
Context (visit : jsval → jsval → R jsval).   (* [this._interpreter.visit] *)

Definition text_of (v : jsval) : jsstr := match v with JStr s => s | _ => [] end.
Definition number_of (v : jsval) : jsnum := match v with JNum n => n | _ => NumNaN end.
Definition elements (v : jsval) : list jsval := match v with JArr l => l | _ => [] end.
Definition properties (v : jsval) : jsobj := match v with JObj o => o | _ => [] end.

(** The greatest and the least text of a list, by [better]. *)
Definition best_text (better : jsstr → jsstr → bool) (l : list jsval) (x : jsval) : jsval :=
  foldl (λ best y, if better (text_of best) (text_of y) then y else best) x l.

Definition functionMax (l : list jsval) : jsval :=
  match l with
  | [] => JNull
  | JNum x :: l' => JNum (foldl (λ a y, num_max a (number_of y)) x l')
  | x :: l' => best_text (λ best y, Z.ltb (localeCompare best y) 0) l' x
  end.
Definition functionMin (l : list jsval) : jsval :=
  match l with
  | [] => JNull
  | JNum x :: l' => JNum (foldl (λ a y, num_min a (number_of y)) x l')
  | x :: l' => best_text (λ best y, Z.ltb (localeCompare y best) 0) l' x
  end.

Definition functionMerge (args : list jsval) : jsobj :=
  foldl (λ merged current, foldl (λ o kv, obj_set kv.1 kv.2 o) merged (entries current)) [] args.

Definition functionType (v : jsval) : jsval :=
  match getTypeName v with
  | Some TYPE_NUMBER => JStr (js "number")
  | Some TYPE_STRING => JStr (js "string")
  | Some TYPE_ARRAY => JStr (js "array")
  | Some TYPE_OBJECT => JStr (js "object")
  | Some TYPE_BOOLEAN => JStr (js "boolean")
  | Some TYPE_EXPREF => JStr (js "expref")
  | Some TYPE_NULL => JStr (js "null")
  | _ => JUndef
  end.

Definition functionToNumber (v : jsval) : jsval :=
  match v with
  | JNum n => v
  | JStr s => match string_to_number s with NumNaN => JNull | n => JNum n end
  | _ => JNull
  end.

Definition functionNotNull (args : list jsval) : jsval :=
  default JNull (head (base.filter (λ v, v ≠ JNull) args)).

Definition functionContains (subject search : jsval) : bool :=
  match subject with
  | JStr s => Z.leb 0 (indexOf s (to_string search) 0)
  | JArr l => existsb (λ x, strict_eq x search) l
  | _ => false
  end.

Definition key_type (t : option ty) : bool := bool_decide (t = Some TYPE_NUMBER) || bool_decide (t = Some TYPE_STRING).

(** The keys of the elements, all of the type of the first.  Sorting two or more
    elements compares every one of them; which of several errors is reported is
    the choice of the engine's algorithm, here the first. *)
Definition functionSortBy (l : list jsval) (expref : jsval) : R (list jsval) :=
  match l with
  | [] => r_ret []
  | x :: l' =>
    k <~ visit expref x;;
    let requiredType := getTypeName k in
    if negb (key_type requiredType) then r_throw (js_error (js "TypeError"))
    else
      ks <~ r_map (λ y, k <~ visit expref y;;
                        if bool_decide (getTypeName k = requiredType) then r_ret (k, y)
                        else r_throw (js_error (js "TypeError: expected " ++ ty_text requiredType ++ js ", received " ++
                                                ty_text (getTypeName k)))) l;;
      r_ret (sort_keys ks).*2
  end.

(** [max_by] and [min_by]: [better] compares a key with the best so far, which is
    an infinity at first. *)
Fixpoint best_by (better : jsval → jsval → bool) (expref : jsval) (l : list jsval) (best record : jsval) : R jsval :=
  match l with
  | [] => r_ret record
  | x :: l =>
    current <~ visit expref x;;
    if negb (key_type (getTypeName current)) then
      r_throw (js_error (js "TypeError: expected one of 0,2, received " ++ ty_text (getTypeName current)))
    else if better current best then best_by better expref l current x
    else best_by better expref l best record
  end.

Definition arg (args : list jsval) (i : nat) : jsval := default JUndef (args !! i).

Definition run_function (name : jsstr) (args : list jsval) : R jsval :=
  let t (n : string) := str_eqb name (js n) in
  let a := arg args 0 in
  let b := arg args 1 in
  if t "abs" then r_ret (JNum (num_abs (number_of a)))
  else if t "avg" then
    r_ret (JNum (num_div (foldl (λ s x, num_add s (number_of x)) (num_of_Z 0) (elements a))
                   (num_of_Z (Z.of_nat (length (elements a))))))
  else if t "ceil" then r_ret (JNum (num_ceil (number_of a)))
  else if t "contains" then r_ret (JBool (functionContains a b))
  else if t "ends_with" then
    r_ret (JBool (negb (Z.eqb (indexOf (text_of a) (text_of b)
                          (Z.of_nat (length (text_of a)) - Z.of_nat (length (text_of b)))) (-1))))
  else if t "floor" then r_ret (JNum (num_floor (number_of a)))
  else if t "length" then
    r_ret (match a with JObj o => JNum (num_of_Z (Z.of_nat (length o))) | _ => js_length a end)
  else if t "map" then ys <~ r_map (visit a) (elements b);; r_ret (JArr ys)
  else if t "max" then r_ret (functionMax (elements a))
  else if t "merge" then r_ret (JObj (functionMerge args))
  else if t "max_by" then best_by (λ current best, js_lt best current) b (elements a) (JNum (NumInf true)) JUndef
  else if t "sum" then r_ret (JNum (foldl (λ s x, num_add s (number_of x)) (num_of_Z 0) (elements a)))
  else if t "starts_with" then r_ret (JBool (Z.eqb (lastIndexOf (text_of a) (text_of b)) 0))
  else if t "min" then r_ret (functionMin (elements a))
  else if t "min_by" then best_by (λ current best, js_lt current best) b (elements a) (JNum (NumInf false)) JUndef
  else if t "type" then r_ret (functionType a)
  else if t "keys" then r_ret (JArr (JStr <$> own_keys (properties a)))
  else if t "values" then r_ret (JArr (objValues (properties a)))
  else if t "sort" then r_ret (JArr (sort_by to_string (elements a)))
  else if t "sort_by" then ys <~ functionSortBy (elements a) b;; r_ret (JArr ys)
  else if t "join" then r_ret (JStr (join (text_of a) (text_of <$> elements b)))
  else if t "reverse" then r_ret (match a with JStr s => JStr (reverse s) | _ => JArr (reverse (elements a)) end)
  else if t "to_array" then r_ret (match a with JArr _ => a | _ => JArr [a] end)
  else if t "to_string" then
    r_ret (match a with JStr _ => a | _ => match JSON_stringify a with Some s => JStr s | None => JUndef end end)
  else if t "to_number" then r_ret (functionToNumber a)
  else r_ret (functionNotNull args).

Definition callFunction (name : jsval) (args : list jsval) : R jsval :=
  let n := to_string name in
  match functionTable n with
  | None =>
    if bool_decide (n ∈ inherited_names) then r_throw (type_error "length")
    else r_throw (js_error (js "Unknown function: " ++ n ++ js "()"))
  | Some sig =>
    match validateArgs n args sig with
    | Throw e => r_throw e
    | Ok _ => run_function n args
    end
  end.

(** ** visit *)

(** The properties of a node; [node.children] is a list. *)
Definition node_type (n : jsval) : result jserror jsval :=
  match n with JObj o => Ok (obj_prop o (js "type")) | JUndef | JNull => Throw (type_error "type") | _ => Ok JUndef end.
Definition node_field (n : jsval) (name : string) : jsval := match n with JObj o => obj_prop o (js name) | _ => JUndef end.
Definition node_children (n : jsval) : R (list jsval) :=
  match node_field n "children" with JArr l => r_ret l | _ => r_throw (type_error "children") end.
Definition child (l : list jsval) (i : nat) : jsval := default JUndef (l !! i).

Definition not_null (l : list jsval) : list jsval := base.filter (λ v, v ≠ JNull) l.
Definition undefined_to_null (v : jsval) : jsval := match v with JUndef => JNull | _ => v end.

(** [children[1]] applied once for every child behind the first, until null. *)
Fixpoint subexpression (n : nat) (right result : jsval) : R jsval :=
  match n with
  | O => r_ret result
  | S n =>
    result <~ visit right result;;
    match result with JNull => r_ret JNull | _ => subexpression n right result end
  end.

Definition index_array (l : list jsval) (index : jsval) : jsval :=
  match index with
  | JNum n =>
    match num_int n with
    | Some i =>
      let i := if Z.ltb i 0 then Z.of_nat (length l) + i else i in
      if Z.ltb i 0 then JNull else undefined_to_null (default JUndef (l !! Z.to_nat i))
    | None => JNull
    end
  | _ => JNull
  end.

Definition compare (name : jsval) (first second : jsval) : R jsval :=
  if is_str (js "EQ") name then r_ret (JBool (strictDeepEqual first second))
  else if is_str (js "NE") name then r_ret (JBool (negb (strictDeepEqual first second)))
  else if is_str (js "GT") name then r_ret (JBool (js_lt second first))
  else if is_str (js "GTE") name then r_ret (JBool (js_le second first))
  else if is_str (js "LT") name then r_ret (JBool (js_lt first second))
  else if is_str (js "LTE") name then r_ret (JBool (js_le first second))
  else r_throw (js_error (js "Unknown comparator: " ++ to_string name)).

Definition flatten (l : list jsval) : list jsval := flat_map (λ x, match x with JArr k => k | _ => [x] end) l.

Fixpoint select_hash (pairs : list jsval) (value : jsval) (collected : jsobj) : R jsval :=
  match pairs with
  | [] => r_ret (JObj collected)
  | p :: pairs =>
    v <~ visit (node_field p "value") value;;
    select_hash pairs value (obj_set (to_string (node_field p "name")) v collected)
  end.

Definition visit_body (n value : jsval) : R jsval :=
  match node_type n with
  | Throw e => r_throw e
  | Ok type =>
    let t (s : string) := is_str (js s) type in
    if t "Field" then
      r_ret (match value with JObj o => undefined_to_null (obj_prop o (to_string (node_field n "name"))) | _ => JNull end)
    else if t "Subexpression" then
      cs <~ node_children n;;
      result <~ visit (child cs 0) value;;
      subexpression (length cs - 1) (child cs 1) result
    else if t "IndexExpression" then
      cs <~ node_children n;;
      left <~ visit (child cs 0) value;;
      visit (child cs 1) left
    else if t "Index" then
      r_ret (match value with JArr l => index_array l (node_field n "value") | _ => JNull end)
    else if t "Slice" then
      match value with
      | JArr l => cs <~ node_children n;; r <~ slice_array l cs;; r_ret (JArr r)
      | _ => r_ret JNull
      end
    else if t "Projection" then
      cs <~ node_children n;;
      base <~ visit (child cs 0) value;;
      match base with
      | JArr l => r <~ r_map (visit (child cs 1)) l;; r_ret (JArr (not_null r))
      | _ => r_ret JNull
      end
    else if t "ValueProjection" then
      cs <~ node_children n;;
      base <~ visit (child cs 0) value;;
      match base with
      | JObj o => r <~ r_map (visit (child cs 1)) (objValues o);; r_ret (JArr (not_null r))
      | _ => r_ret JNull
      end
    else if t "FilterProjection" then
      cs <~ node_children n;;
      base <~ visit (child cs 0) value;;
      match base with
      | JArr l =>
        matched <~ r_map (visit (child cs 2)) l;;
        let filtered := (base.filter (λ p : jsval * jsval, isFalse p.2 = false) (zip l matched)).*1 in
        r <~ r_map (visit (child cs 1)) filtered;;
        r_ret (JArr (not_null r))
      | _ => r_ret JNull
      end
    else if t "Comparator" then
      cs <~ node_children n;;
      first <~ visit (child cs 0) value;;
      second <~ visit (child cs 1) value;;
      compare (node_field n "name") first second
    else if t "Flatten" then
      cs <~ node_children n;;
      original <~ visit (child cs 0) value;;
      r_ret (match original with JArr l => JArr (flatten l) | _ => JNull end)
    else if t "Identity" then r_ret value
    else if t "MultiSelectList" then
      match value with
      | JNull => r_ret JNull
      | _ => cs <~ node_children n;; r <~ r_map (λ c, visit c value) cs;; r_ret (JArr r)
      end
    else if t "MultiSelectHash" then
      match value with
      | JNull => r_ret JNull
      | _ => cs <~ node_children n;; select_hash cs value []
      end
    else if t "OrExpression" then
      cs <~ node_children n;;
      matched <~ visit (child cs 0) value;;
      if isFalse matched then visit (child cs 1) value else r_ret matched
    else if t "AndExpression" then
      cs <~ node_children n;;
      first <~ visit (child cs 0) value;;
      if isFalse first then r_ret first else visit (child cs 1) value
    else if t "NotExpression" then
      cs <~ node_children n;;
      first <~ visit (child cs 0) value;;
      r_ret (JBool (isFalse first))
    else if t "Literal" then r_ret (node_field n "value")
    else if t "Pipe" then
      cs <~ node_children n;;
      left <~ visit (child cs 0) value;;
      visit (child cs 1) left
    else if t "Current" then r_ret value
    else if t "Function" then
      cs <~ node_children n;;
      args <~ r_map (λ c, visit c value) cs;;
      callFunction (node_field n "name") args
    else if t "ExpressionReference" then
      cs <~ node_children n;;
      match child cs 0 with
      | JObj o => r_ret (JObj (obj_set (js "jmespathType") (JStr (js "Expref")) o))
      | _ => r_throw (mk_error (js "TypeError") (js "Cannot set properties of undefined (setting 'jmespathType')"))
      end
    else r_throw (js_error (js "Unknown node type: " ++ to_string type))
  end.
End runtime.

Section search.
Context (localeCompare : jsstr → jsstr → Z) (num_div : jsnum → jsnum → jsnum).

Fixpoint visit (fuel : nat) (n value : jsval) : R jsval :=
  match fuel with
  | O => None
  | S fuel => visit_body localeCompare num_div (visit fuel) n value
  end.

(** [search(data, expression)]. *)
Definition search (fuel : nat) (data : jsval) (s : jsstr) : R jsval :=
  ast <~ parse fuel s;; visit fuel ast data.
End search.

(** ** Slices are Python's *)

(** The first and the last bound of a slice of [n] elements, as in
    [slice.indices]. *)
Definition py_clip (n step : Z) (x : Z) : Z :=
  let lower := if Z.ltb 0 step then 0 else -1 in
  let upper := if Z.ltb 0 step then n else n - 1 in
  if Z.ltb x 0 then Z.max (x + n) lower else Z.min x upper.
Definition py_start (n step : Z) (x : option Z) : Z :=
  match x with Some x => py_clip n step x | None => if Z.ltb 0 step then 0 else n - 1 end.
Definition py_stop (n step : Z) (x : option Z) : Z :=
  match x with Some x => py_clip n step x | None => if Z.ltb 0 step then n else -1 end.
Definition py_count (start stop step : Z) : Z :=
  if Z.ltb 0 step then Z.max 0 ((stop - start + step - 1) / step) else Z.max 0 ((start - stop - step - 1) / - step).

(** A slice as the parser writes it. *)
Definition part_value (x : option Z) : jsval := match x with Some z => JNum (num_of_Z z) | None => JNull end.

Lemma num_int_of_Z z : num_int (num_of_Z z) = Some z.
Proof.
  destruct (num_of_Z_value z) as (m & e & -> & <- & He). unfold num_int. by destruct (Z.leb_spec 0 e); [|lia].
Qed.

Lemma computeSliceParams_py n start stop step :
  0 ≤ n → step ≠ 0 →
  computeSliceParams n (Some <$> start) (Some <$> stop) (Some (Some step)) =
  Ok (Some (py_start n step start), Some (py_stop n step stop), Some step).
Proof.
  intros Hn Hs. unfold computeSliceParams. cbn [default from_option id]. rewrite bool_decide_false by congruence.
  assert (Hcap : ∀ x, capSliceRange n (Some x) (Some step) = Some (py_clip n step x)).
  { intros x. unfold capSliceRange, py_clip, oz_lt, oz_le, oz_add.
    destruct (Z.ltb_spec x 0), (Z.ltb_spec step 0), (Z.ltb_spec 0 step), (Z.ltb_spec (x + n) 0), (Z.leb_spec n x); f_equal; lia. }
  destruct start as [a|], stop as [b|]; cbn [fmap option_fmap option_map]; rewrite ?Hcap; unfold py_start, py_stop, oz_lt;
    destruct (Z.ltb_spec step 0), (Z.ltb_spec 0 step); try lia; done.
Qed.

Lemma py_count_step (start stop step : Z) :
  step ≠ 0 → (if Z.ltb 0 step then start < stop else stop < start) →
  py_count start stop step = 1 + py_count (start + step) stop step.
Proof.
  unfold py_count. intros Hs. destruct (Z.ltb_spec 0 step) as [Hp|Hp]; intros Hlt.
  - replace (stop - start + step - 1) with (stop - (start + step) + step - 1 + 1 * step) by lia. rewrite Z.div_add by lia.
    assert (0 ≤ (stop - (start + step) + step - 1) / step) by (apply Z.div_pos; lia). lia.
  - replace (start - stop - step - 1) with (start + step - stop - step - 1 + 1 * (- step)) by lia. rewrite Z.div_add by lia.
    assert (0 ≤ (start + step - stop - step - 1) / - step) by (apply Z.div_pos; lia). lia.
Qed.

Lemma py_count_end (start stop step : Z) :
  step ≠ 0 → ¬ (if Z.ltb 0 step then start < stop else stop < start) → py_count start stop step = 0.
Proof.
  unfold py_count. intros Hs. destruct (Z.ltb_spec 0 step) as [Hp|Hp]; intros Hlt; apply Z.max_l.
  - apply Z.lt_succ_r. apply Z.div_lt_upper_bound; lia.
  - apply Z.lt_succ_r. apply Z.div_lt_upper_bound; lia.
Qed.

(** The loop collects every element from [i] on, [step] apart. *)
Lemma slice_loop_py fuel l i stop step :
  step ≠ 0 → (if Z.ltb 0 step then 0 ≤ i ∧ stop ≤ Z.of_nat (length l) else i < Z.of_nat (length l) ∧ -1 ≤ stop) →
  (if Z.ltb 0 step then stop - i else i - stop) ≤ Z.of_nat fuel →
  ∃ r, slice_loop fuel (Z.ltb 0 step) l (Some i) (Some stop) (Some step) = Some (Ok r) ∧
    Z.of_nat (length r) = py_count i stop step ∧
    ∀ k, (k < length r)%nat → is_Some (r !! k) ∧ r !! k = l !! Z.to_nat (i + Z.of_nat k * step).
Proof.
  intros Hs. revert i. induction fuel as [|fuel IH]; intros i Hi Hf; cbn [slice_loop]; unfold oz_lt at 1 2.
  all: destruct (if Z.ltb 0 step then Z.ltb i stop else Z.ltb stop i) eqn:Hc.
  2, 4: exists []; split; [done|]; (split; [|intros k Hk; cbn in Hk; lia]); cbn [length Z.of_nat]; symmetry; apply py_count_end; [done|];
    destruct (Z.ltb 0 step); lia.
  1: destruct (Z.ltb_spec 0 step); lia.
  destruct (IH (i + step)) as (r & Hr & Hlen & Hel); [destruct (Z.ltb_spec 0 step); lia..|].
  unfold oz_add. rewrite Hr. cbn [r_bind]. eexists. split; [reflexivity|].
  assert (Hrange : 0 ≤ i < Z.of_nat (length l)) by (destruct (Z.ltb_spec 0 step); lia).
  split.
  - cbn [length]. rewrite py_count_step; [lia|done|]. destruct (Z.ltb 0 step); lia.
  - destruct (Z.ltb_spec i 0); [lia|]. destruct (lookup_lt_is_Some_2 l (Z.to_nat i)) as [x Hx]; [lia|].
    intros [|k] Hk; cbn [lookup list_lookup].
    + rewrite Z.mul_0_l, Z.add_0_r, Hx. split; [by eexists|done].
    + cbn [length] in Hk. destruct (Hel k) as [H1 H2]; [lia|]. split; [exact H1|]. etrans; [exact H2|]. do 2 f_equal. lia.
Qed.

(** Slices are Python's.  For every list and every start, stop and step, each
    possibly absent and the step not zero, the slice expression returns exactly the
    elements at start, start + step, ... before the stop, with the bounds clipped
    and the length of Python's [slice.indices]; a step of zero throws. *)
Theorem slice_is_pythons (l : list jsval) (start stop : option Z) (step : Z) :
  let n := Z.of_nat (length l) in
  let first := py_start n step start in
  let last := py_stop n step stop in
  (step ≠ 0 →
   ∃ r, slice_array l [part_value start; part_value stop; part_value (Some step)] = Some (Ok r) ∧
     Z.of_nat (length r) = py_count first last step ∧
     ∀ k, (k < length r)%nat → is_Some (r !! k) ∧ r !! k = l !! Z.to_nat (first + Z.of_nat k * step)) ∧
  (∃ e, slice_array l [part_value start; part_value stop; part_value (Some 0)] = Some (Throw e) ∧ err_name e = js "RuntimeError") ∧
  slice_array l [part_value start; part_value stop; JNull] = slice_array l [part_value start; part_value stop; part_value (Some 1)].
Proof.
  intros n first last. assert (Hp : ∀ x, slice_part (part_value x) = Some <$> x).
  { intros [x|]; [|done]. cbn [part_value slice_part fmap option_fmap option_map]. by rewrite num_int_of_Z. }
  split_and!.
  - intros Hs. unfold slice_array. cbn [lookup list_lookup default from_option id]. rewrite !Hp.
    change (Some <$> Some step) with (Some (Some step)). rewrite computeSliceParams_py by (done || lia).
    apply slice_loop_py; [done|..]; unfold first, last, py_start, py_stop, py_clip, n;
      destruct (Z.ltb_spec 0 step), start as [a|], stop as [b|];
      repeat match goal with |- context [Z.ltb ?x 0] => destruct (Z.ltb_spec x 0) end; lia.
  - unfold slice_array. cbn [lookup list_lookup default from_option id]. rewrite !Hp.
    unfold computeSliceParams. cbn [fmap option_fmap option_map default from_option id]. rewrite bool_decide_true by done.
    eexists. split; reflexivity.
  - unfold slice_array. cbn [lookup list_lookup default from_option id]. rewrite !Hp. done.
Qed.

Lemma slice_is_pythons_witness :
  let l := (λ z, JNum (num_of_Z z)) <$> [10; 20; 30; 40] in
  ∃ r, slice_array l [part_value (Some (-1)); part_value None; part_value (Some (-2))] = Some (Ok r) ∧ length r = 2%nat ∧
    r !! 1%nat = Some (JNum (num_of_Z 20)).
Proof.
  intros l. destruct (slice_is_pythons l (Some (-1)) None (-2)) as [H _]. destruct H as (r & Hr & Hlen & Hel); [lia|].
  exists r. split; [exact Hr|]. assert (Hl : length r = 2%nat) by (apply Nat2Z.inj; rewrite Hlen; vm_compute; reflexivity).
  split; [exact Hl|].
  destruct (Hel 1%nat) as [_ H1]; [lia|]. rewrite H1. vm_compute. reflexivity.
Defined.
