(* ===== verification/JmesFunctions.v ===== *)
(** * jmespath: equality and sorting

    What [strictDeepEqual], [sort_by] and the other functions of jmespath compute:
    deep equality is an equivalence on plain data, [sort_by] is a stable sort, and
    three functions do not do what their signatures admit. *)

From stdpp Require Import base strings list sorting.
From Stdlib Require Import ZArith Lia.
From S2P Require Import Prelude JsValue Json JsText UriUtil ParamValidator QuerySerializer JmesLexer JmesParser JmesInterp.

Local Open Scope Z_scope.

(** ** Numbers *)

Definition is_number (n : jsnum) : Prop := n ≠ NumNaN.

(** Decimals compare like integers at a common scale. *)
Lemma num_leb_scale m e m' e' k :
  0 ≤ e + k → 0 ≤ e' + k → num_leb (NumDec m e) (NumDec m' e') = Z.leb (m * 10 ^ (e + k)) (m' * 10 ^ (e' + k)).
Proof.
  intros H1 H2. cbn [num_leb]. set (low := Z.min e e').
  replace (e + k) with (e - low + (low + k)) by lia. replace (e' + k) with (e' - low + (low + k)) by lia.
  rewrite (Z.pow_add_r 10 (e - low)), (Z.pow_add_r 10 (e' - low)), !Z.mul_assoc by lia.
  assert (Hp : 0 < 10 ^ (low + k)) by (apply Z.pow_pos_nonneg; lia).
  apply Bool.eq_iff_eq_true. rewrite !Z.leb_le. apply (Z.mul_le_mono_pos_r _ _ (10 ^ (low + k))). lia.
Qed.

Lemma num_leb_refl a : is_number a → num_leb a a = true.
Proof. destruct a as [|[]|m e]; try done. intros _. apply Z.leb_refl. Qed.

Lemma num_leb_total a b : is_number a → is_number b → num_leb a b = true ∨ num_leb b a = true.
Proof.
  destruct a as [|[]|m e], b as [|[]|m' e']; try (done || (intros; by auto)). intros _ _.
  rewrite !(num_leb_scale _ _ _ _ (Z.abs e + Z.abs e')), !Z.leb_le by lia. lia.
Qed.

Lemma num_leb_trans a b c : num_leb a b = true → num_leb b c = true → num_leb a c = true.
Proof.
  destruct a as [|[]|m e], b as [|[]|m' e'], c as [|[]|m'' e'']; try done.
  set (k := Z.abs e + Z.abs e' + Z.abs e''). rewrite !(num_leb_scale _ _ _ _ k), !Z.leb_le by lia. lia.
Qed.

(** ** Deep equality *)

(** Plain data: no undefined, no NaN, distinct property names. *)
Inductive plain : jsval → Prop :=
| plain_null : plain JNull
| plain_bool b : plain (JBool b)
| plain_num n : is_number n → plain (JNum n)
| plain_str s : plain (JStr s)
| plain_arr l : Forall plain l → plain (JArr l)
| plain_obj o : NoDup o.*1 → Forall (λ kv, plain kv.2) o → plain (JObj o).

(** Equality up to the order of properties. *)
Inductive deep_eq : jsval → jsval → Prop :=
| deep_scalar a b : strict_eq a b = true → deep_eq a b
| deep_arr l k : Forall2 deep_eq l k → deep_eq (JArr l) (JArr k)
| deep_obj o p : (∀ k, k ∈ o.*1 ↔ k ∈ p.*1) →
    Forall (λ kv, ∀ y, obj_get kv.1 p = Some y → deep_eq kv.2 y) o → deep_eq (JObj o) (JObj p).

Lemma arrays_eq (l k : list jsval) :
  ((fix arrays l k := match l, k with
      | [], [] => true
      | x :: l', y :: k' => strictDeepEqual x y && arrays l' k'
      | _, _ => false end) l k = true) ↔ Forall2 (λ x y, strictDeepEqual x y = true) l k.
Proof.
  revert k. induction l as [|x l IH]; intros [|y k].
  - split; [constructor|done].
  - split; [done|inversion 1].
  - split; [done|inversion 1].
  - rewrite andb_true_iff, IH. split; [intros [? ?]; by constructor|by inversion 1].
Qed.

Lemma objects_eq (o p : jsobj) :
  ((fix objects (o : jsobj) := match o with
      | [] => true
      | kv :: o' => strictDeepEqual kv.2 (obj_prop p kv.1) && objects o' end) o = true) ↔
  Forall (λ kv, strictDeepEqual kv.2 (obj_prop p kv.1) = true) o.
Proof.
  induction o as [|kv o IH]; [split; [constructor|done]|]. rewrite andb_true_iff, IH, Forall_cons. done.
Qed.

Lemma strictDeepEqual_undef v : plain v → strictDeepEqual v JUndef = false.
Proof. by destruct 1. Qed.

Lemma strictDeepEqual_spec a b : plain a → plain b → strictDeepEqual a b = true ↔ deep_eq a b.
Proof.
  intros Ha. revert b. induction a as [| |x|x|x|l IH|o IH] using jsval_rect'; intros b Hb.
  1-5: destruct b; (split; [intros H; by apply deep_scalar|by inversion 1]).
  - destruct b as [| | | | |k|p]; try (split; [done|by inversion 1]). cbn [strictDeepEqual]. rewrite arrays_eq.
    inversion Ha as [| | | |? Hl|]; inversion Hb as [| | | |? Hk|]; subst.
    assert (Heq : Forall2 (λ x y, strictDeepEqual x y = true) l k ↔ Forall2 deep_eq l k).
    { clear Ha Hb. revert k Hk. induction IH as [|x l Hx _ IHl]; intros [|y k] Hk; try (split; by inversion 1).
      apply Forall_cons in Hl as [Hpx Hl], Hk as [Hpy Hk]. rewrite !Forall2_cons, (Hx Hpx y Hpy), (IHl Hl k Hk). done. }
    rewrite Heq. split; [by constructor|]. inversion 1; subst; done.
  - destruct b as [| | | | |k|p]; try (split; [done|by inversion 1]). cbn [strictDeepEqual].
    rewrite andb_true_iff, objects_eq, forallb_forall. setoid_rewrite bool_decide_eq_true. setoid_rewrite <- list_elem_of_In.
    inversion Ha as [| | | | |? Hd Hl]; inversion Hb as [| | | | |? Hd' Hk]; subst.
    rewrite Forall_forall in IH, Hl, Hk. split.
    + intros [H1 H2]. rewrite Forall_forall in H1. apply deep_obj.
      * intros x. split; [|apply H2]. intros ([k v] & -> & Hin)%list_elem_of_fmap. specialize (H1 _ Hin). cbn [fst snd] in *.
        unfold obj_prop in H1. destruct (obj_get k p) as [y|] eqn:Hy; [apply obj_get_elem; by rewrite Hy|].
        by rewrite strictDeepEqual_undef in H1 by (apply (Hl _ Hin)).
      * apply Forall_forall. intros [k v] Hin y Hy. cbn [fst snd] in *. specialize (H1 _ Hin). cbn [fst snd] in H1.
        unfold obj_prop in H1. rewrite Hy in H1. cbn in H1. apply (IH _ Hin (Hl _ Hin)); [|done].
        apply (Hk (k, y)). by apply elem_of_obj_get.
    + inversion 1 as [? ? Hs| |? ? Hkeys Hv]; subst; [done|]. rewrite Forall_forall in Hv. split; [|intros x; apply Hkeys].
      apply Forall_forall. intros [k v] Hin. cbn [fst snd]. assert (Hkp : k ∈ p.*1) by (apply Hkeys; apply (list_elem_of_fmap_2 fst _ (k, v)); done).
      apply obj_get_elem in Hkp as [y Hy]. unfold obj_prop. rewrite Hy. cbn.
      apply (IH _ Hin (Hl _ Hin)); [apply (Hk (k, y)); by apply elem_of_obj_get|]. by apply (Hv _ Hin).
Qed.

Lemma strict_eq_sym a b : strict_eq a b = true → strict_eq b a = true.
Proof.
  destruct a, b; cbn [strict_eq]; try done; rewrite ?eqb_true_iff, ?andb_true_iff, ?str_eqb_eq; try (by intros ->); tauto.
Qed.

Lemma strict_eq_trans a b c : strict_eq a b = true → strict_eq b c = true → strict_eq a c = true.
Proof.
  destruct a, b; cbn [strict_eq]; try done; destruct c; cbn [strict_eq]; try done;
    rewrite ?eqb_true_iff, ?andb_true_iff, ?str_eqb_eq; try (by intros -> ->).
  intros [? ?] [? ?]. split; by eapply num_leb_trans.
Qed.

Lemma deep_eq_refl a : plain a → deep_eq a a.
Proof.
  induction a as [| |x|x|x|l IH|o IH] using jsval_rect'; intros Ha; inversion Ha as [| |? Hn| |? Hl|? Hd Ho]; subst.
  - by apply deep_scalar.
  - apply deep_scalar. cbn. by destruct x.
  - apply deep_scalar. cbn. by rewrite num_leb_refl.
  - apply deep_scalar. cbn. apply str_eqb_refl.
  - apply deep_arr. clear Ha. induction IH as [|x l Hx _ IHl]; [constructor|]. apply Forall_cons in Hl as [? ?]. constructor; auto.
  - apply deep_obj; [done|]. rewrite Forall_forall in *. intros [k v] Hin y Hy. cbn [fst snd] in *.
    apply (proj2 (obj_get_elem_of k v o Hd)) in Hin as Hv. rewrite Hv in Hy. injection Hy as <-. apply (IH _ Hin), (Ho _ Hin).
Qed.

(** The values of equal objects under one name are equal. *)
Lemma deep_obj_values o p k x y :
  NoDup o.*1 → deep_eq (JObj o) (JObj p) → obj_get k o = Some x → obj_get k p = Some y → deep_eq x y.
Proof.
  intros Hd Heq Hx Hy. inversion Heq as [? ? Hs| |? ? _ Hv]; subst; [done|]. rewrite Forall_forall in Hv.
  apply elem_of_obj_get in Hx. exact (Hv _ Hx y Hy).
Qed.

Lemma deep_obj_keys o p : deep_eq (JObj o) (JObj p) → ∀ k, is_Some (obj_get k o) ↔ is_Some (obj_get k p).
Proof. intros Heq k. rewrite !obj_get_elem. inversion Heq as [? ? Hs| |? ? Hk _]; subst; [done|apply Hk]. Qed.

Lemma deep_eq_sym a b : plain a → plain b → deep_eq a b → deep_eq b a.
Proof.
  revert b. induction a as [| |x|x|x|l IH|o IH] using jsval_rect'; intros b Ha Hb Heq;
    inversion Heq as [? ? Hs|? k Hlk|? p Hk Hv]; subst; try (apply deep_scalar; by apply strict_eq_sym).
  - inversion Ha as [| | | |? Hl|]; inversion Hb as [| | | |? Hk|]; subst. apply deep_arr.
    clear Ha Hb Heq. induction Hlk as [|x y l k Hxy _ IHl]; [constructor|].
    apply Forall_cons in Hl as [? ?], Hk as [? ?], IH as [Hx ?]. constructor; auto.
  - inversion Ha as [| | | | |? Hd Ho]; inversion Hb as [| | | | |? Hd' Hp]; subst. apply deep_obj; [intros k; by rewrite Hk|].
    rewrite Forall_forall in *. intros [k y] Hin x Hx. cbn [fst snd] in *. apply elem_of_obj_get in Hx as Hxin.
    apply (IH _ Hxin); [apply (Ho _ Hxin)|apply (Hp _ Hin)|]. cbn [snd].
    apply (Hv _ Hxin y). by apply obj_get_elem_of.
Qed.

Lemma deep_eq_scalar a b c : strict_eq a b = true → deep_eq b c → strict_eq b c = true.
Proof. intros Hs H. inversion H; subst; [done|by destruct a..]. Qed.

Lemma deep_eq_trans a b c : plain a → plain b → plain c → deep_eq a b → deep_eq b c → deep_eq a c.
Proof.
  revert b c. induction a as [| |x|x|x|l IH|o IH] using jsval_rect'; intros b c Ha Hb Hc H1 H2;
    inversion H1 as [? ? Hs|? k Hlk|? p Hk Hv]; subst.
  all: try (apply deep_scalar; eapply strict_eq_trans; [exact Hs|]; by eapply deep_eq_scalar).
  - inversion H2 as [? ? Hs'|? k' Hlk'|]; subst; [done|].
    inversion Ha as [| | | |? Hl|]; inversion Hb as [| | | |? Hk|]; inversion Hc as [| | | |? Hk'|]; subst. apply deep_arr.
    clear Ha Hb Hc H1 H2. revert k' Hlk' Hk'. induction Hlk as [|x y l k Hxy _ IHl]; intros k' Hlk' Hk'; [by inversion Hlk'; constructor|].
    inversion Hlk' as [|? z ? k'' Hyz Hrest]; subst. apply Forall_cons in Hl as [? ?], Hk as [? ?], Hk' as [? ?], IH as [Hx ?].
    constructor; [by apply (Hx y z)|]. by apply IHl.
  - inversion H2 as [? ? Hs'| |? q Hk' Hv']; subst; [done|].
    inversion Ha as [| | | | |? Hd Ho]; inversion Hb as [| | | | |? Hd' Hp]; inversion Hc as [| | | | |? Hd'' Hq]; subst.
    apply deep_obj; [intros k; by rewrite Hk|]. rewrite Forall_forall in *. intros [k x] Hin z Hz. cbn [fst snd] in *.
    destruct (proj2 (deep_obj_keys p q H2 k)) as [y Hy]; [by rewrite Hz|]. apply elem_of_obj_get in Hy as Hyin.
    apply elem_of_obj_get in Hz as Hzin.
    apply (IH _ Hin y z); [apply (Ho _ Hin)|apply (Hp _ Hyin)|apply (Hq _ Hzin)|by apply (Hv _ Hin)|by apply (Hv' _ Hyin)].
Qed.

(** Deep equality is an equivalence of plain data.  On values without
    undefined and NaN whose objects have distinct names, [strictDeepEqual] is
    reflexive, symmetric and transitive, and does not see the order of properties.
    A property that is undefined breaks the symmetry: an object that has one equals
    the empty object, which does not equal it. *)
Theorem deep_equal_equivalence (a b c : jsval) (o p : jsobj) :
  plain a → plain b → plain c → plain (JObj o) → o ≡ₚ p →
  strictDeepEqual a a = true ∧
  (strictDeepEqual a b = true → strictDeepEqual b a = true) ∧
  (strictDeepEqual a b = true → strictDeepEqual b c = true → strictDeepEqual a c = true) ∧
  strictDeepEqual (JObj o) (JObj p) = true ∧
  strictDeepEqual (JObj [(js "a", JUndef)]) (JObj []) = true ∧ strictDeepEqual (JObj []) (JObj [(js "a", JUndef)]) = false.
Proof.
  intros Ha Hb Hc Ho Hp. rewrite !strictDeepEqual_spec by done. split_and!.
  - by apply deep_eq_refl.
  - by apply deep_eq_sym.
  - intros H1 H2. by apply (deep_eq_trans a b c).
  - pose proof (deep_eq_refl _ Ho) as Hr. inversion Ho as [| | | | |? Hd Hv]; subst.
    assert (Hpp : plain (JObj p)) by (constructor; by rewrite <- Hp). apply strictDeepEqual_spec; [done..|].
    apply deep_obj; [intros k; by rewrite Hp|]. apply Forall_forall. intros [k x] Hin y Hy. cbn [fst snd] in *.
    rewrite <- (obj_get_perm k o p Hd Hp) in Hy. apply (deep_obj_values o o k x y Hd Hr); [by apply obj_get_elem_of|done].
  - vm_compute. reflexivity.
  - vm_compute. reflexivity.
Qed.

Lemma deep_equal_equivalence_witness :
  strictDeepEqual (JObj [(js "a", JNull); (js "b", JBool true)]) (JObj [(js "b", JBool true); (js "a", JNull)]) = true.
Proof.
  destruct (deep_equal_equivalence JNull JNull JNull [(js "a", JNull); (js "b", JBool true)] [(js "b", JBool true); (js "a", JNull)])
    as (_ & _ & _ & H & _); [constructor..| | |exact H].
  - constructor; [js_decide|]. repeat constructor.
  - apply Permutation_swap.
Defined.

(** ** Sorting *)

(** The keys one call of [sort_by] accepts: texts, or numbers. *)
Definition key_of (t : ty) (k : jsval) : Prop :=
  match t, k with
  | TYPE_STRING, JStr _ => True
  | TYPE_NUMBER, JNum n => is_number n
  | _, _ => False
  end.

Definition key_le (a b : jsval) : Prop := js_lt b a = false.

Lemma filter_none {A} (P : A → Prop) `{∀ x, Decision (P x)} (l : list A) :
  Forall (λ x, ¬ P x) l → base.filter P l = [].
Proof. induction 1 as [|x l Hx _ IH]; [done|]. by rewrite filter_cons_False. Qed.

Section keys.
Context (t : ty).

Lemma key_le_num x y : is_number x → is_number y → key_le (JNum x) (JNum y) ↔ num_leb x y = true.
Proof.
  intros Hx Hy. unfold key_le, js_lt. cbn. unfold num_ltb. destruct (num_leb_total x y Hx Hy) as [H|H]; rewrite H; cbn.
  - by rewrite andb_false_r.
  - by destruct (num_leb x y).
Qed.

Lemma key_le_str x y : key_le (JStr x) (JStr y) ↔ str_le x y.
Proof. unfold key_le, js_lt, str_le. cbn. by destruct (str_leb x y). Qed.

Lemma key_le_refl a : key_of t a → key_le a a.
Proof.
  destruct t, a; try done; cbn [key_of]; intros Ha.
  - rewrite key_le_num by done. by apply num_leb_refl.
  - rewrite key_le_str. by destruct (total str_le s s).
Qed.

Lemma key_le_trans a b c : key_of t a → key_of t b → key_of t c → key_le a b → key_le b c → key_le a c.
Proof.
  destruct t, a, b, c; try done; cbn [key_of]; intros Ha Hb Hc.
  - rewrite !key_le_num by done. apply num_leb_trans.
  - rewrite !key_le_str. intros ? ?. by etrans.
Qed.

Lemma key_lt_le a b : key_of t a → key_of t b → js_lt a b = true → key_le a b.
Proof.
  destruct t, a, b; try done; cbn [key_of]; intros Ha Hb.
  - unfold key_le, js_lt. cbn. unfold num_ltb. by destruct (num_leb _ _), (num_leb _ _).
  - rewrite key_le_str. unfold js_lt, str_le. cbn. intros H%negb_true_iff. destruct (total str_le s s0); unfold str_le in *; congruence.
Qed.

Definition keyed (p : jsval * jsval) : Prop := key_of t p.1.
Local Abbreviation sorted := (StronglySorted (λ p q : jsval * jsval, key_le p.1 q.1)).

Lemma insert_key_perm x l : insert_key x l ≡ₚ x :: l.
Proof.
  induction l as [|y l IH]; [done|]. cbn [insert_key]. destruct (js_lt _ _); [done|]. rewrite IH. apply Permutation_swap.
Qed.

Lemma insert_key_sorted x l : keyed x → Forall keyed l → sorted l → sorted (insert_key x l).
Proof.
  intros Hx Hl Hs. induction Hs as [|y l Hs IH Hy]; [by repeat constructor|]. apply Forall_cons in Hl as [Hky Hl].
  cbn [insert_key]. destruct (js_lt x.1 y.1) eqn:Hlt.
  - constructor; [by constructor|]. assert (key_le x.1 y.1) by (by apply key_lt_le). constructor; [done|].
    rewrite Forall_forall in *. intros z Hz. apply (key_le_trans _ y.1); [done|done|by apply Hl|done|by apply Hy].
  - constructor; [by apply IH|]. rewrite insert_key_perm. by constructor.
Qed.

(** The elements whose key is equivalent to [k]. *)
Definition same_key (k : jsval) (p : jsval * jsval) : Prop := key_le k p.1 ∧ key_le p.1 k.
#[global] Instance same_key_dec k p : Decision (same_key k p) := and_dec (bool_eq_dec _ _) (bool_eq_dec _ _).

Lemma insert_key_stable k x l : key_of t k → keyed x → Forall keyed l → sorted l →
  base.filter (same_key k) (insert_key x l) = base.filter (same_key k) (l ++ [x]).
Proof.
  intros Hk Hx Hl Hs. induction Hs as [|y l Hs IH Hy]; [done|]. apply Forall_cons in Hl as [Hky Hl].
  cbn [insert_key]. destruct (js_lt x.1 y.1) eqn:Hlt; [|cbn [app]; rewrite !filter_cons, IH by done; done].
  rewrite filter_cons, filter_app, (filter_cons _ x []), filter_nil. case_decide as Hxk; [|by rewrite (right_id_L [] (++))].
  assert (Hnone : Forall (λ z, ¬ same_key k z) (y :: l)).
  { apply Forall_forall. intros z Hz [Hkz Hzk]. destruct Hxk as [Hkx Hxk].
    assert (Hkz' : keyed z) by (rewrite elem_of_cons, Forall_forall in *; destruct Hz as [->|Hz]; [done|by apply Hl]).
    assert (Hyz : key_le y.1 z.1).
    { rewrite elem_of_cons in Hz. destruct Hz as [->|Hz]; [|rewrite Forall_forall in Hy; by apply Hy].
      by apply key_le_refl. }
    assert (Hyx : key_le y.1 x.1).
    { eapply (key_le_trans _ z.1); [done..|]. eapply (key_le_trans _ k); done. }
    unfold key_le in Hyx. congruence. }
  by rewrite (filter_none (same_key k) (y :: l) Hnone).
Qed.

Lemma sort_keys_spec l acc : Forall keyed l → Forall keyed acc → sorted acc →
  let r := foldl (λ acc x, insert_key x acc) acc l in
  r ≡ₚ acc ++ l ∧ sorted r ∧
  ∀ k, key_of t k → base.filter (same_key k) r = base.filter (same_key k) (acc ++ l).
Proof.
  revert acc. induction l as [|x l IH]; intros acc Hl Hacc Hs; [by rewrite (right_id_L [] (++))|].
  apply Forall_cons in Hl as [Hx Hl]. cbn [foldl].
  destruct (IH (insert_key x acc)) as (Hp & Hs' & Hst); [done| |by apply insert_key_sorted|].
  { rewrite insert_key_perm. by constructor. }
  split_and!; [|done|].
  - rewrite Hp, insert_key_perm. apply Permutation_middle.
  - intros k Hk. rewrite Hst, !filter_app, (insert_key_stable k x acc), filter_app by done.
    by rewrite <-(app_assoc _ _ (base.filter _ l)), <-filter_app.
Qed.
End keys.

(** The keys of the elements, as the decorated list carries them. *)
Lemma keys_computed visit (expref : jsval) (kf : jsval → jsval) t l :
  (∀ x, x ∈ l → visit expref x = r_ret (kf x) ∧ key_of t (kf x)) →
  r_map (λ y, k <~ visit expref y;;
              if bool_decide (getTypeName k = Some t) then r_ret (k, y)
              else r_throw (js_error (js "TypeError: expected " ++ ty_text (Some t) ++ js ", received " ++
                                      ty_text (getTypeName k)))) l = r_ret ((λ y, (kf y, y)) <$> l).
Proof.
  induction l as [|x l IH]; intros H; [done|]. destruct (H x) as [Hv Hk]; [by constructor|]. cbn [r_map].
  rewrite Hv, IH by (intros; apply H; by constructor). cbn. rewrite bool_decide_true; [done|].
  by destruct t, (kf x).
Qed.

Lemma key_of_type t k : key_of t k → getTypeName k = Some t ∧ key_type (Some t) = true.
Proof. by destruct t, k. Qed.

Section sorting.
Context (kf : jsval → jsval).

Definition same_rank (z x : jsval) : Prop := key_le (kf z) (kf x) ∧ key_le (kf x) (kf z).
#[global] Instance same_rank_dec z x : Decision (same_rank z x) := and_dec (bool_eq_dec _ _) (bool_eq_dec _ _).

Lemma undecorate_filter z (ps : list (jsval * jsval)) : Forall (λ p, p.1 = kf p.2) ps →
  (base.filter (same_key (kf z)) ps).*2 = base.filter (same_rank z) ps.*2.
Proof.
  induction 1 as [|[k x] ps Hk _ IH]; [done|]. cbn in Hk. subst k. cbn [fmap list_fmap fst snd].
  rewrite !filter_cons. unfold same_key at 1. cbn [fst]. fold (same_rank z x). fold (fmap (M:=list) (@snd jsval jsval)).
  do 2 case_decide; cbn [fmap list_fmap snd]; try done; by f_equal.
Qed.

(** [sort_by] is a stable sort by the expression: when the key of every
    element is a text (or every key is a number), the call returns, its result
    is a rearrangement of the array whose keys never decrease, and elements with
    equivalent keys keep their order. *)
Theorem sort_by_stable visit expref t l :
  (∀ x, x ∈ l → visit expref x = r_ret (kf x) ∧ key_of t (kf x)) →
  ∃ r, functionSortBy visit l expref = r_ret r ∧ r ≡ₚ l ∧
       StronglySorted (λ x y, key_le (kf x) (kf y)) r ∧
       ∀ z, z ∈ l → base.filter (same_rank z) r = base.filter (same_rank z) l.
Proof.
  intros H. pose (ps := (λ y, (kf y, y)) <$> l).
  assert (Hkeyed : Forall (keyed t) ps).
  { apply Forall_fmap, Forall_forall. intros x Hx. apply (H x Hx). }
  assert (Hkf : Forall (λ p : jsval * jsval, p.1 = kf p.2) ps) by (by apply Forall_fmap, Forall_forall).
  assert (Hps : ps.*2 = l) by (unfold ps; rewrite <-list_fmap_compose; apply list_fmap_id).
  destruct (sort_keys_spec t ps [] Hkeyed (Forall_nil_2 _) (SSorted_nil _)) as (Hp & Hs & Hst). cbn [app] in *.
  fold (sort_keys ps) in Hp, Hs, Hst.
  assert (Hkf' : Forall (λ p : jsval * jsval, p.1 = kf p.2) (sort_keys ps)) by (by rewrite Hp).
  exists (sort_keys ps).*2. split_and!.
  - destruct l as [|x l]; [done|]. destruct (H x) as [Hv Hk]; [by constructor|].
    destruct (key_of_type t _ Hk) as [Ht Hkt]. unfold functionSortBy. rewrite Hv. cbn [r_bind r_ret].
    rewrite Ht, Hkt. cbn [negb]. by rewrite (keys_computed visit expref kf t (x :: l)).
  - by rewrite Hp, Hps.
  - clear - Hs Hkf'. induction Hs as [|p r Hs IH Hle]; [constructor|]. apply Forall_cons in Hkf' as [Hp Hr].
    constructor; [by apply IH|]. apply Forall_fmap. rewrite Forall_forall in *. intros q Hq. cbn.
    rewrite <-Hp, <-(Hr q Hq). by apply Hle.
  - intros z Hz. rewrite <-undecorate_filter by done. rewrite Hst by apply (H z Hz).
    rewrite undecorate_filter by done. by rewrite Hps.
Qed.
End sorting.

(** Three people by age, with the interpreter itself computing the keys: the two
    of the same age keep their order. *)
Lemma sort_by_stable_witness :
  let ada := JObj [(js "n", JStr (js "ada")); (js "age", JNum (num_of_Z 40))] in
  let bob := JObj [(js "n", JStr (js "bob")); (js "age", JNum (num_of_Z 9))] in
  let cyd := JObj [(js "n", JStr (js "cyd")); (js "age", JNum (num_of_Z 40))] in
  let visit := visit (λ _ _, 0) (λ x _, x) 5 in
  let kf := (λ x, default JUndef (obj_get (js "age") (match x with JObj ps => ps | _ => [] end))) in
  ∃ r, functionSortBy visit [ada; cyd; bob] (Field (JStr (js "age"))) = r_ret r ∧ r ≡ₚ [ada; cyd; bob] ∧
       StronglySorted (λ x y, key_le (kf x) (kf y)) r ∧
       ∀ z, z ∈ [ada; cyd; bob] → base.filter (same_rank kf z) r = base.filter (same_rank kf z) [ada; cyd; bob].
Proof.
  cbv zeta. eapply (sort_by_stable _ _ _ TYPE_NUMBER). intros x Hx.
  repeat (apply elem_of_cons in Hx as [->|Hx]; [split; [vm_compute; reflexivity|discriminate]|]).
  by apply not_elem_of_nil in Hx.
Defined.

(** ** Functions that fall short of their signatures *)

Lemma find_last_spec p s i : 0 ≤ i →
  (find_last p s i = -1 ∧ ∀ j : nat, (j ≤ length s)%nat → starts_with p (drop j s) = false) ∨
  ∃ j : nat, (j ≤ length s)%nat ∧ find_last p s i = i + Z.of_nat j ∧ starts_with p (drop j s) = true ∧
    ∀ k : nat, (j < k ≤ length s)%nat → starts_with p (drop k s) = false.
Proof.
  revert i. induction s as [|c s IH]; intros i Hi; cbn [find_last].
  - destruct (starts_with p []) eqn:E; [right; exists O|left]; cbn; split_and!; try lia; try done; intros [|k]; cbn; (done || lia).
  - destruct (IH (i + 1)) as [[-> Hno]|(j & Hj & -> & Hyes & Hno)]; [lia|..]; cbn [Z.leb].
    + cbn. destruct (starts_with p (c :: s)) eqn:E; [right; exists O|left].
      * cbn. split_and!; try lia; [done|]. intros [|k]; [lia|]. cbn. intros ?. apply Hno. lia.
      * split; [done|]. intros [|k]; cbn; [done|]. intros ?. apply Hno. lia.
    + right. exists (S j). cbn [length drop]. split_and!; [lia| |done|].
      * rewrite (proj2 (Z.leb_le _ _)) by lia. lia.
      * intros [|k]; [lia|]. cbn. intros ?. apply Hno. lia.
Qed.

(** A text that does not read as a number is on neither side of an infinity. *)
Lemma best_by_texts visit better expref l best record (kf : jsval → jsstr) :
  (∀ s, string_to_number s = NumNaN → better (JStr s) best = false) →
  (∀ x, x ∈ l → visit expref x = r_ret (JStr (kf x)) ∧ string_to_number (kf x) = NumNaN) →
  best_by visit better expref l best record = r_ret record.
Proof.
  intros Hb. induction l as [|x l IH]; intros H; [done|]. destruct (H x) as [Hv Hn]; [by constructor|].
  cbn [best_by]. rewrite Hv. cbn. rewrite Hb by done. apply IH. intros y Hy. apply H. by constructor.
Qed.

(** Three functions do less than their signatures admit.  [starts_with] asks
    for the last occurrence of the prefix, so it is true exactly when the text
    begins with it and contains it nowhere else; [max_by] and [min_by] accept
    keys that are texts, and find no record among texts that do not read as
    numbers; [sort] accepts numbers and orders their decimal texts. *)
Theorem functions_fall_short lc div visit :
  (∀ s p, run_function lc div visit (js "starts_with") [JStr s; JStr p] = r_ret (JBool true) ↔
     p `prefix_of` s ∧ ∀ k : nat, (0 < k ≤ length s)%nat → ¬ p `prefix_of` drop k s) ∧
  (∀ name l expref (kf : jsval → jsstr), name = js "max_by" ∨ name = js "min_by" →
     (∀ x, x ∈ l → visit expref x = r_ret (JStr (kf x)) ∧ string_to_number (kf x) = NumNaN) →
     run_function lc div visit name [JArr l; expref] = r_ret JUndef) ∧
  (∀ a b : Z, run_function lc div visit (js "sort") [JArr [JNum (num_of_Z a); JNum (num_of_Z b)]] =
     r_ret (JArr (if str_leb (to_string (JNum (num_of_Z a))) (to_string (JNum (num_of_Z b)))
                  then [JNum (num_of_Z a); JNum (num_of_Z b)] else [JNum (num_of_Z b); JNum (num_of_Z a)]))).
Proof.
  split_and!.
  - intros s p. change (run_function _ _ _ _ _) with (r_ret (JBool (Z.eqb (find_last p s 0) 0))).
    assert (Hpre : ∀ t, starts_with p t = false ↔ ¬ p `prefix_of` t).
    { intros t. rewrite <-starts_with_prefix. by destruct (starts_with p t). }
    split.
    + intros [= H%Z.eqb_eq]. destruct (find_last_spec p s 0) as [[E _]|(j & _ & E & Hyes & Hno)]; [lia..|].
      assert (j = O) as -> by lia. split; [by apply starts_with_prefix|]. intros k Hk. by apply Hpre, Hno.
    + intros [Hp Hno]. do 3 f_equal. apply Z.eqb_eq.
      destruct (find_last_spec p s 0) as [[_ H]|(j & Hj & -> & Hyes & _)]; [lia|..].
      * exfalso. apply (proj1 (Hpre s)); [|done]. apply (H O). lia.
      * destruct j as [|j]; [done|]. apply starts_with_prefix in Hyes. exfalso. apply (Hno (S j)); [lia|done].
  - intros name l expref kf [->| ->] H.
    + change (best_by visit (λ current best, js_lt best current) expref l (JNum (NumInf true)) JUndef = r_ret JUndef).
      apply (best_by_texts visit _ _ _ _ _ kf); [|done]. intros s Hs. unfold js_lt. cbn. by rewrite Hs.
    + change (best_by visit (λ current best, js_lt current best) expref l (JNum (NumInf false)) JUndef = r_ret JUndef).
      apply (best_by_texts visit _ _ _ _ _ kf); [|done]. intros s Hs. unfold js_lt. cbn. by rewrite Hs.
  - intros a b. change (run_function _ _ _ _ _) with (r_ret (JArr (sort_by to_string [JNum (num_of_Z a); JNum (num_of_Z b)]))).
    do 3 f_equal. unfold sort_by. cbn [foldl insert_by]. by destruct (str_leb _ _).
Qed.
