(* ===== verification/JmesPath.v ===== *)
(** * jmespath: what a path means

    The paths of the paginators and waiters of the service descriptions, such as
    [Reservations[].Instances[].State.Name], [StreamDescription.Shards[-1].ShardId]
    or [VerificationAttributes.*.VerificationStatus]: their grammar, a direct
    definition of their value, and that [search] (tokens, syntax tree,
    interpretation) computes it. *)

From stdpp Require Import base strings list.
From Stdlib Require Import ZArith Lia.
From S2P Require Import Prelude JsValue Json JsText UriUtil ParamValidator QuerySerializer JmesLexer JmesParser JmesInterp.

Local Open Scope Z_scope.

(** ** Paths *)

(** A name with its indices; a member, or that member of every property; the
    members behind a name; and chains separated by flattening projections. *)
Definition segment : Type := jsstr * list Z.
Inductive part := Member (s : segment) | Every (s : segment).
Definition chain : Type := segment * list part.
Definition path : Type := chain * list (option chain).

Definition texts {A} (text : A → jsstr) (l : list A) : jsstr := concat (text <$> l).

Definition index_text (k : Z) : jsstr := 91 :: Z_to_str k ++ [93].
Definition segment_text (s : segment) : jsstr := s.1 ++ texts index_text s.2.
Definition part_text (p : part) : jsstr :=
  match p with Member s => 46 :: segment_text s | Every s => 46 :: 42 :: 46 :: segment_text s end.
Definition chain_text (c : chain) : jsstr := segment_text c.1 ++ texts part_text c.2.
Definition flatten_text (c : option chain) : jsstr :=
  91 :: 93 :: match c with Some c => 46 :: chain_text c | None => [] end.
Definition path_text (p : path) : jsstr := chain_text p.1 ++ texts flatten_text p.2.

(** *** Values *)

Definition field (n : jsstr) (v : jsval) : jsval :=
  match v with JObj o => undefined_to_null (obj_prop o n) | _ => JNull end.
Definition item (k : Z) (v : jsval) : jsval :=
  match v with
  | JArr l =>
    let i := if Z.ltb k 0 then Z.of_nat (length l) + k else k in
    if Z.ltb i 0 then JNull else undefined_to_null (default JUndef (l !! Z.to_nat i))
  | _ => JNull
  end.
Definition of_every (f : jsval → jsval) (v : jsval) : jsval :=
  match v with JObj o => JArr (not_null (f <$> objValues o)) | _ => JNull end.
Definition of_each (f : jsval → jsval) (v : jsval) : jsval :=
  match v with JArr l => JArr (not_null (f <$> flatten l)) | _ => JNull end.

Definition segment_value (s : segment) (v : jsval) : jsval := foldl (λ v k, item k v) (field s.1 v) s.2.
Definition part_value_of (p : part) (v : jsval) : jsval :=
  match p with Member s => segment_value s v | Every s => of_every (segment_value s) v end.
Definition chain_value (c : chain) (v : jsval) : jsval :=
  foldl (λ v p, part_value_of p v) (segment_value c.1 v) c.2.
Definition flatten_value (c : option chain) (v : jsval) : jsval :=
  of_each (match c with Some c => chain_value c | None => id end) v.
Definition path_value (p : path) (v : jsval) : jsval := foldl (λ v c, flatten_value c v) (chain_value p.1 v) p.2.

(** *** Names *)

Definition name_ok (n : jsstr) : Prop :=
  match n with c :: s => isAlpha c = true ∧ Forall (λ d, isAlphaNum d = true) s | [] => False end.
Definition part_ok (p : part) : Prop := match p with Member s | Every s => name_ok s.1 end.
Definition chain_ok (c : chain) : Prop := name_ok c.1.1 ∧ Forall part_ok c.2.
Definition path_ok (p : path) : Prop :=
  chain_ok p.1 ∧ Forall (λ c : option chain, match c with Some c => chain_ok c | None => True end) p.2.

(** ** Tokens *)

Definition place {A} (text : A → jsstr) (toks : Z → A → list token) : Z → list A → list token :=
  fix go st l := match l with [] => [] | x :: l => toks st x ++ go (st + Z.of_nat (length (text x))) l end.

Definition index_tokens (st k : Z) : list token :=
  [Token TOK_LBRACKET (JStr (js "[")) st; Token TOK_NUMBER (JNum (num_of_Z k)) (st + 1);
   Token TOK_RBRACKET (JStr (js "]")) (st + 1 + Z.of_nat (length (Z_to_str k)))].
Definition segment_tokens (st : Z) (s : segment) : list token :=
  Token TOK_UNQUOTEDIDENTIFIER (JStr s.1) st :: place index_text index_tokens (st + Z.of_nat (length s.1)) s.2.
Definition dot (st : Z) : token := Token TOK_DOT (JStr (js ".")) st.
Definition part_tokens (st : Z) (p : part) : list token :=
  match p with
  | Member s => dot st :: segment_tokens (st + 1) s
  | Every s => dot st :: Token TOK_STAR (JStr (js "*")) (st + 1) :: dot (st + 2) :: segment_tokens (st + 3) s
  end.
Definition chain_tokens (st : Z) (c : chain) : list token :=
  segment_tokens st c.1 ++ place part_text part_tokens (st + Z.of_nat (length (segment_text c.1))) c.2.
Definition flatten_tokens (st : Z) (c : option chain) : list token :=
  Token TOK_FLATTEN (JStr (js "[]")) st ::
  match c with Some c => dot (st + 2) :: chain_tokens (st + 3) c | None => [] end.
Definition path_tokens (p : path) : list token :=
  chain_tokens 0 p.1 ++ place flatten_text flatten_tokens (Z.of_nat (length (chain_text p.1))) p.2.

(** What may follow a name: the end, a dot or a bracket. *)
Definition stops (r : jsstr) : Prop := match r with [] => True | c :: _ => c = 46 ∨ c = 91 end.

Definition lex (st : Z) (s : jsstr) : result jserror (list (option token)) := tokenize_loop (length s) st s.

(** The text [s] in front of anything that may follow makes the tokens [f]. *)
Definition lexes (s : jsstr) (f : Z → list token) : Prop :=
  ∀ st r, stops r → lex st (s ++ r) = let* ts := lex (st + Z.of_nat (length s)) r in Ok ((Some <$> f st) ++ ts).

Lemma lex_step st c s ts r :
  lex_one st c (c :: s) = Ok (ts, r) →
  lex st (c :: s) = let* ts' := lex (st + Z.of_nat (length (c :: s) - length r)) r in Ok (ts ++ ts').
Proof.
  intros H. unfold lex. cbn [length tokenize_loop]. rewrite H. cbn [rbind fst snd].
  apply lex_one_moves in H as [H _]. by rewrite (tokenize_loop_fuel (length s) (length r)).
Qed.

Lemma lexes_app s f s' f' :
  (∀ r, stops r → stops (s' ++ r)) → lexes s f → lexes s' f' →
  lexes (s ++ s') (λ st, f st ++ f' (st + Z.of_nat (length s))).
Proof.
  intros Hs Hf Hf' st r Hr. rewrite <-app_assoc, Hf, Hf' by auto.
  rewrite length_app, Nat2Z.inj_add, Z.add_assoc. destruct (lex _ r) as [ts|e]; [|done]. cbn [rbind].
  by rewrite fmap_app, <-app_assoc.
Qed.

Lemma lexes_place {A} (text : A → jsstr) toks (l : list A) :
  Forall (λ x, lexes (text x) (λ st, toks st x) ∧ ∀ r, stops (text x ++ r)) l →
  lexes (texts text l) (λ st, place text toks st l).
Proof.
  induction 1 as [|x l [Hx Hs] Hl IH].
  - intros st r _. change (lex st r = let* ts := lex (st + 0) r in Ok ts). rewrite Z.add_0_r. by destruct (lex st r).
  - change (texts text (x :: l)) with (text x ++ texts text l).
    apply (lexes_app (text x) (λ st, toks st x) (texts text l) (λ st, place text toks st l)); [|done..].
    intros r Hr. destruct Hl as [|y l [_ Hy] _]; [done|]. change (texts text (y :: l)) with (text y ++ texts text l).
    rewrite <-app_assoc. apply Hy.
Qed.

(** A token of one unit, such as the dot and the star. *)
Lemma lexes_basic c t s f :
  isAlpha c = false → basicTokens c = Some t → lexes s f → lexes (c :: s) (λ st, Token t (JStr [c]) st :: f (st + 1)).
Proof.
  intros Ha Hb Hf st r Hr. cbn [app]. rewrite (lex_step st c (s ++ r) [Some (Token t (JStr [c]) st)] (s ++ r)).
  2: { unfold lex_one. by rewrite Ha, Hb. }
  replace (Z.of_nat (length (c :: s ++ r) - length (s ++ r))) with 1 by (cbn [length]; lia).
  rewrite Hf by done. replace (st + 1 + Z.of_nat (length s)) with (st + Z.of_nat (length (c :: s))) by (cbn [length]; lia).
  by destruct (lex _ r).
Qed.

Lemma span_stop Q s r : Forall (λ d, Q d = true) s → match r with [] => True | c :: _ => Q c = false end →
  span Q (s ++ r) = (s, r).
Proof.
  induction 1 as [|d s Hd _ IH]; intros Hr; cbn [app span].
  - destruct r as [|c r]; [done|]. cbn. by rewrite Hr.
  - by rewrite Hd, IH.
Qed.

Lemma lexes_name n : name_ok n → lexes n (λ st, [Token TOK_UNQUOTEDIDENTIFIER (JStr n) st]).
Proof.
  destruct n as [|c s]; [done|]. intros [Hc Hs] st r Hr. cbn [app].
  rewrite (lex_step st c (s ++ r) [Some (Token TOK_UNQUOTEDIDENTIFIER (JStr (c :: s)) st)] r).
  2: { unfold lex_one. rewrite Hc. cbn [tail]. rewrite span_stop; [done..|].
       destruct r as [|d r]; [done|]. by destruct Hr as [->| ->]. }
  replace (length (c :: s ++ r) - length r)%nat with (length (c :: s)) by (cbn [length]; rewrite length_app; lia).
  by destruct (lex _ r).
Qed.

(** It consists of units that continue a number, of which the first is no
    question mark and no bracket. *)
Lemma Z_to_str_units k : ∃ c s, Z_to_str k = c :: s ∧ isNum c = true ∧ Forall (λ d, isNum d = true) s.
Proof.
  assert (Hd : ∀ n, 0 ≤ n → Forall (λ d, isNum d = true) (radix_str 10 n)).
  { intros n Hn. eapply Forall_impl; [by apply radix_str_digits|]. intros d Hd'. unfold isNum. by rewrite Hd'. }
  unfold Z_to_str. destruct (Z.ltb_spec k 0).
  - exists 45, (radix_str 10 (- k)). split_and!; [done..|]. apply Hd. lia.
  - specialize (Hd k ltac:(lia)). pose proof (radix_str_ne 10 k). destruct (radix_str 10 k) as [|c s]; [done|].
    apply Forall_cons in Hd as [??]. by exists c, s.
Qed.

Lemma isNum_cases c : isNum c = true → isAlpha c = false ∧ basicTokens c = None ∧ Z.eqb c 63 = false ∧ Z.eqb c 93 = false.
Proof.
  unfold isNum. rewrite orb_true_iff, Z.eqb_eq. intros [Hc%digit_cases| ->]; [|done].
  repeat (apply elem_of_cons in Hc as [->|Hc]; [done|]). by apply not_elem_of_nil in Hc.
Qed.

Lemma lexes_number k st r :
  lex st (Z_to_str k ++ 93 :: r) =
  let* ts := lex (st + Z.of_nat (length (Z_to_str k))) (93 :: r) in
  Ok (Some (Token TOK_NUMBER (JNum (num_of_Z k)) st) :: ts).
Proof.
  rewrite <-(parseInt_Z k). destruct (Z_to_str_units k) as (c & s & -> & Hc & Hs). cbn [app].
  destruct (isNum_cases c Hc) as (Ha & Hb & _).
  rewrite (lex_step st c (s ++ 93 :: r) [Some (Token TOK_NUMBER (JNum (parseInt (c :: s))) st)] (93 :: r)).
  2: { unfold lex_one. rewrite Ha, Hb, Hc. cbn [tail]. by rewrite span_stop. }
  replace (length (c :: s ++ 93%Z :: r) - length (93%Z :: r))%nat with (length (c :: s)) by (cbn [length]; rewrite length_app; cbn [length]; lia).
  by destruct (lex _ (93 :: r)).
Qed.

Lemma lexes_index k : lexes (index_text k) (λ st, index_tokens st k).
Proof.
  intros st r Hr. unfold index_text. cbn [app]. rewrite <-app_assoc. cbn [app].
  rewrite (lex_step st 91 (Z_to_str k ++ 93 :: r) [Some (Token TOK_LBRACKET (JStr (js "[")) st)] (Z_to_str k ++ 93 :: r)).
  2: { destruct (Z_to_str_units k) as (c & s & -> & Hc & _). destruct (isNum_cases c Hc) as (_ & _ & H1 & H2).
       unfold lex_one, consumeLBracket. cbn [tail app]. by rewrite H1, H2. }
  replace (Z.of_nat (length (91 :: Z_to_str k ++ 93 :: r) - length (Z_to_str k ++ 93 :: r))) with 1 by (cbn [length]; lia).
  rewrite lexes_number, (lex_step _ 93 r [Some (Token TOK_RBRACKET (JStr (js "]")) (st + 1 + Z.of_nat (length (Z_to_str k))))] r eq_refl).
  replace (st + 1 + Z.of_nat (length (Z_to_str k)) + Z.of_nat (length (93 :: r) - length r))
    with (st + Z.of_nat (length (91 :: Z_to_str k ++ [93]))) by (cbn [length]; rewrite length_app; cbn [length]; lia).
  by destruct (lex _ r).
Qed.

Lemma lexes_segment s : name_ok s.1 → lexes (segment_text s) (λ st, segment_tokens st s).
Proof.
  intros Hn. apply (lexes_app s.1 (λ st, [Token TOK_UNQUOTEDIDENTIFIER (JStr s.1) st]) (texts index_text s.2)
    (λ st, place index_text index_tokens st s.2)).
  - intros r Hr. destruct s.2 as [|k ks]; [done|by right].
  - by apply lexes_name.
  - apply lexes_place, Forall_forall. intros k _. split; [apply lexes_index|by right].
Qed.

Lemma lexes_part p : part_ok p → lexes (part_text p) (λ st, part_tokens st p).
Proof.
  destruct p as [s|s]; intros Hs; unfold part_text, part_tokens.
  - by apply (lexes_basic 46 TOK_DOT _ (λ st, segment_tokens st s)), lexes_segment.
  - pose proof (lexes_segment s Hs) as H. apply (lexes_basic 46 TOK_DOT) in H; [|done..].
    apply (lexes_basic 42 TOK_STAR) in H; [|done..]. apply (lexes_basic 46 TOK_DOT) in H; [|done..].
    intros st r Hr. rewrite (H st r Hr). by rewrite <-!Z.add_assoc.
Qed.

Lemma lexes_chain c : chain_ok c → lexes (chain_text c) (λ st, chain_tokens st c).
Proof.
  intros [Hn Hp]. apply (lexes_app (segment_text c.1) (λ st, segment_tokens st c.1) (texts part_text c.2)
    (λ st, place part_text part_tokens st c.2)).
  - intros r Hr. destruct c.2 as [|[s|s] ps]; [done|by left..].
  - by apply lexes_segment.
  - apply lexes_place. eapply Forall_impl; [exact Hp|]. intros p Hok. split; [by apply lexes_part|].
    intros r. destruct p; by left.
Qed.

Lemma lexes_flatten c : match c with Some c => chain_ok c | None => True end →
  lexes (flatten_text c) (λ st, flatten_tokens st c).
Proof.
  intros Hc st r Hr.
  set (rest := match c with Some c => 46 :: chain_text c | None => [] end).
  change (flatten_text c) with (91 :: 93 :: rest). cbn [app].
  rewrite (lex_step st 91 (93 :: rest ++ r) [Some (Token TOK_FLATTEN (JStr (js "[]")) st)] (rest ++ r) eq_refl).
  replace (Z.of_nat (length (91 :: 93 :: rest ++ r) - length (rest ++ r))) with 2 by (cbn [length]; lia).
  replace (st + Z.of_nat (length (91 :: 93 :: rest))) with (st + 2 + Z.of_nat (length rest)) by (cbn [length]; lia).
  subst rest. destruct c as [c|].
  - pose proof (lexes_basic 46 TOK_DOT _ _ eq_refl eq_refl (lexes_chain c Hc)) as H. rewrite (H (st + 2) r Hr).
    replace (st + 2 + 1) with (st + 3) by lia. by destruct (lex _ r).
  - cbn [app length]. rewrite Z.add_0_r. by destruct (lex _ r).
Qed.

Lemma tokenize_path p : path_ok p → tokenize (path_text p) = Ok (Some <$> path_tokens p).
Proof.
  intros [Hc Hl].
  assert (H : lexes (path_text p) (λ st, chain_tokens st p.1 ++
    place flatten_text flatten_tokens (st + Z.of_nat (length (chain_text p.1))) p.2)).
  { apply (lexes_app (chain_text p.1) (λ st, chain_tokens st p.1) (texts flatten_text p.2)
      (λ st, place flatten_text flatten_tokens st p.2)).
    - intros r Hr. destruct p.2 as [|c l]; [done|by right].
    - by apply lexes_chain.
    - apply lexes_place. eapply Forall_impl; [exact Hl|]. intros c Hok. split; [by apply lexes_flatten|by right]. }
  specialize (H 0 [] I). rewrite app_nil_r in H. unfold tokenize. fold (lex 0 (path_text p)). rewrite H.
  cbn [lex length tokenize_loop rbind]. by rewrite app_nil_r.
Qed.

(** ** The syntax tree *)

Definition index_node (left : jsval) (k : Z) : jsval :=
  parent "IndexExpression" [left; node "Index" [(js "value", JNum (num_of_Z k))]].
Definition segment_node (s : segment) : jsval := foldl index_node (Field (JStr s.1)) s.2.
Definition part_node (left : jsval) (p : part) : jsval :=
  match p with
  | Member s => parent "Subexpression" [left; segment_node s]
  | Every s => parent "ValueProjection" [left; segment_node s]
  end.
Definition chain_node (c : chain) : jsval := foldl part_node (segment_node c.1) c.2.
Definition flatten_node (left : jsval) (c : option chain) : jsval :=
  parent "Projection" [parent "Flatten" [left]; match c with Some c => chain_node c | None => Identity end].
Definition path_node (p : path) : jsval := foldl flatten_node (chain_node p.1) p.2.

(** The next token does not bind at [rbp]; it ends a chain. *)
Definition quiet (rbp : Z) (ts : list (option token)) : Prop :=
  match ts with Some t :: _ => binds rbp (tok_type t) = false | _ => False end.
Definition chain_end (ts : list (option token)) : Prop :=
  match ts with Some t :: _ => tok_type t = TOK_FLATTEN ∨ tok_type t = TOK_EOF | _ => False end.

Lemma chain_end_quiet rbp ts : 9 ≤ rbp → chain_end ts → quiet rbp ts.
Proof.
  destruct ts as [|[t|] ts]; try done. cbn. intros Hr [->| ->]; unfold binds; cbn; lia.
Qed.

Lemma led_loop_quiet E F n rbp left ts : quiet rbp ts → led_loop E F (S n) rbp left ts = Some (Ok (left, ts)).
Proof.
  destruct ts as [|[t|] ts]; try done. cbn [quiet]. intros H. cbn. by rewrite H.
Qed.

Lemma led_index E F n rbp left st k rest : rbp < 55 →
  led_loop E F (S n) rbp left ((Some <$> index_tokens st k) ++ rest) = led_loop E F n rbp (index_node left k) rest.
Proof.
  intros H. assert (Hb : binds rbp TOK_LBRACKET = true) by (unfold binds; cbn; lia).
  cbn [led_loop]. unfold p_bind at 1. cbn -[binds led led_loop]. rewrite Hb. reflexivity.
Qed.

Lemma led_indices E F n rbp left st ks rest : rbp < 55 →
  led_loop E F (length ks + n) rbp left ((Some <$> place index_text index_tokens st ks) ++ rest) =
  led_loop E F n rbp (foldl index_node left ks) rest.
Proof.
  intros H. revert left st. induction ks as [|k ks IH]; intros left st; [done|].
  change (place index_text index_tokens st (k :: ks)) with
    (index_tokens st k ++ place index_text index_tokens (st + Z.of_nat (length (index_text k))) ks).
  rewrite fmap_app, <-app_assoc. change (length (k :: ks) + n)%nat with (S (length ks + n)).
  rewrite led_index by done. apply IH.
Qed.

Lemma parse_segment f n rbp st s rest : rbp < 55 → S f = (length s.2 + n)%nat →
  expression (S f) rbp ((Some <$> segment_tokens st s) ++ rest) =
  led_loop (expression f) (S f) n rbp (segment_node s) rest.
Proof.
  intros H Hf. etrans; [|apply (led_indices _ _ n _ _ (st + Z.of_nat (length s.1)) s.2 _ H)]. by rewrite <-Hf.
Qed.

(** A segment on its own, as the right-hand side of a dot. *)
Lemma parse_segment_dot f F st s rest : quiet 40 rest → (length s.2 ≤ f)%nat →
  parseDotRHS (expression (S f)) F 40 ((Some <$> segment_tokens st s) ++ rest) = Some (Ok (segment_node s, rest)).
Proof.
  intros Hq Hf. change (parseDotRHS ?E ?F 40 ?ts) with (E 40 ts).
  rewrite (parse_segment f (S (f - length s.2))) by lia. by apply led_loop_quiet.
Qed.

Lemma led_loop_step E F n rbp left t ts left' ts' :
  binds rbp (tok_type t) = true → led E F (tok_type t) left ts = Some (Ok (left', ts')) →
  led_loop E F (S n) rbp left (Some t :: ts) = led_loop E F n rbp left' ts'.
Proof. intros Hb Hl. cbn. rewrite Hb. unfold p_bind at 1. cbn. unfold p_bind at 1. by rewrite Hl. Qed.

Definition part_size (p : part) : nat := match p with Member s | Every s => length s.2 end.

Lemma led_part f F n rbp left st p rest : rbp < 40 → quiet 40 rest → (part_size p ≤ f)%nat →
  led_loop (expression (S f)) F (S n) rbp left ((Some <$> part_tokens st p) ++ rest) =
  led_loop (expression (S f)) F n rbp (part_node left p) rest.
Proof.
  intros H Hq Hf. assert (Hb : binds rbp TOK_DOT = true) by (unfold binds; cbn; lia).
  destruct p as [s|s]; cbn [part_size] in Hf.
  - apply led_loop_step; [done|]. pose proof (parse_segment_dot f F (st + 1) s rest Hq Hf) as Hs.
    change (p_bind (parseDotRHS (expression (S f)) F 40) (λ right, p_ret (parent "Subexpression" [left; right]))
      ((Some <$> segment_tokens (st + 1) s) ++ rest) = Some (Ok (part_node left (Member s), rest))).
    unfold p_bind. by rewrite Hs.
  - apply led_loop_step; [done|]. pose proof (parse_segment_dot f F (st + 3) s rest Hq Hf) as Hs.
    change (p_bind (parseDotRHS (expression (S f)) F 40) (λ right, p_ret (parent "ValueProjection" [left; right]))
      ((Some <$> segment_tokens (st + 3) s) ++ rest) = Some (Ok (part_node left (Every s), rest))).
    unfold p_bind. by rewrite Hs.
Qed.

Lemma led_parts f F n rbp left st ps rest : rbp < 40 → quiet 40 rest → Forall (λ p, part_size p ≤ f)%nat ps →
  led_loop (expression (S f)) F (length ps + n) rbp left ((Some <$> place part_text part_tokens st ps) ++ rest) =
  led_loop (expression (S f)) F n rbp (foldl part_node left ps) rest.
Proof.
  intros H Hq Hf. revert left st. induction Hf as [|p ps Hp Hf IH]; intros left st; [done|].
  change (place part_text part_tokens st (p :: ps)) with
    (part_tokens st p ++ place part_text part_tokens (st + Z.of_nat (length (part_text p))) ps).
  rewrite fmap_app, <-app_assoc. change (length (p :: ps) + n)%nat with (S (length ps + n)).
  rewrite led_part; [apply IH|done| |done]. destruct ps as [|[s|s] ps]; done.
Qed.

(** The number of tokens that bind, and of levels of the tree. *)
Definition chain_size (c : chain) : nat := length c.1.2 + sum_list_with (λ p, S (part_size p)) c.2.

Lemma chain_size_parts c n : (chain_size c ≤ n)%nat →
  (length c.1.2 + length c.2 ≤ n)%nat ∧ Forall (λ p, part_size p < n)%nat c.2.
Proof.
  unfold chain_size. generalize (length c.1.2). intros m. revert n.
  induction c.2 as [|p ps IH]; intros n; cbn [sum_list_with length].
  - split; [lia|constructor].
  - intros H. destruct (IH (n - 1 - part_size p)%nat) as [H1 H2]; [lia|]. split; [lia|].
    constructor; [lia|]. eapply Forall_impl; [exact H2|]. cbn. intros; lia.
Qed.

Lemma parse_chain f rbp st c rest : rbp < 40 → quiet 40 rest → (chain_size c ≤ f)%nat →
  ∃ n, expression (S (S f)) rbp ((Some <$> chain_tokens st c) ++ rest) =
       led_loop (expression (S f)) (S (S f)) (S n) rbp (chain_node c) rest ∧ (S f ≤ chain_size c + n)%nat.
Proof.
  intros H Hq Hf. destruct (chain_size_parts c f Hf) as [Hlen Hp].
  exists (S f - length c.1.2 - length c.2)%nat. split; [|unfold chain_size in *; clear - Hlen].
  - unfold chain_tokens. rewrite fmap_app, <-app_assoc.
    rewrite (parse_segment (S f) (length c.2 + S (S f - length c.1.2 - length c.2))) by lia.
    rewrite led_parts; [done..|]. eapply Forall_impl; [exact Hp|]. cbn. intros; lia.
  - assert (Hs : ∀ ps, (length ps ≤ sum_list_with (λ p, S (part_size p)) ps)%nat) by (induction ps; cbn; lia).
    specialize (Hs c.2). lia.
Qed.

Lemma led_flatten f F n rbp left st c rest : rbp < 9 → chain_end rest →
  match c with Some c => (chain_size c ≤ f)%nat | None => True end →
  led_loop (expression (S (S f))) F (S n) rbp left ((Some <$> flatten_tokens st c) ++ rest) =
  led_loop (expression (S (S f))) F n rbp (flatten_node left c) rest.
Proof.
  intros H He Hf. assert (Hb : binds rbp TOK_FLATTEN = true) by (unfold binds; cbn; lia).
  destruct c as [c|]; (apply led_loop_step; [done|]).
  - destruct (parse_chain f 9 (st + 3) c rest) as (m & Hm & _); [lia|apply chain_end_quiet; [lia|done]|done|].
    rewrite led_loop_quiet in Hm by (apply chain_end_quiet; [lia|done]).
    change (p_bind (expression (S (S f)) 9) (λ right, p_ret (parent "Projection" [parent "Flatten" [left]; right]))
      ((Some <$> chain_tokens (st + 3) c) ++ rest) = Some (Ok (flatten_node left (Some c), rest))).
    unfold p_bind. by rewrite Hm.
  - destruct rest as [|[t|] rest]; try done. cbn in He. destruct t as [k v s]. cbn in He. by destruct He as [->| ->].
Qed.

Definition path_size (p : path) : nat :=
  chain_size p.1 + sum_list_with (λ c : option chain, 2 + match c with Some c => chain_size c | None => 0 end)%nat p.2.

Lemma led_flattens f F n left st l t : tok_type t = TOK_EOF →
  Forall (λ c : option chain, match c with Some c => (chain_size c ≤ f)%nat | None => True end) l →
  led_loop (expression (S (S f))) F (length l + S n) 0 left ((Some <$> place flatten_text flatten_tokens st l) ++ [Some t]) =
  Some (Ok (foldl flatten_node left l, [Some t])).
Proof.
  intros Ht Hf. revert left st. induction Hf as [|c l Hc Hf IH]; intros left st.
  - apply led_loop_quiet. cbn. by rewrite Ht.
  - change (place flatten_text flatten_tokens st (c :: l)) with
      (flatten_tokens st c ++ place flatten_text flatten_tokens (st + Z.of_nat (length (flatten_text c))) l).
    rewrite fmap_app, <-app_assoc. change (length (c :: l) + S n)%nat with (S (length l + S n)).
    rewrite led_flatten; [apply IH|lia| |done]. destruct l as [|[c'|] l]; cbn; [by right|by left..].
Qed.

Lemma path_size_chains p n : (path_size p ≤ n)%nat →
  (chain_size p.1 + length p.2 ≤ n)%nat ∧
  Forall (λ c : option chain, match c with Some c => (chain_size c ≤ n)%nat | None => True end) p.2.
Proof.
  unfold path_size. generalize (chain_size p.1). intros m. revert n.
  induction p.2 as [|c l IH]; intros n; cbn [sum_list_with length].
  - split; [lia|constructor].
  - intros H. destruct (IH (n - 2)%nat) as [H1 H2]; [lia|]. split; [lia|].
    constructor; [destruct c; [lia|done]|]. eapply Forall_impl; [exact H2|]. intros [c'|]; [|done]. intros; lia.
Qed.

Lemma parse_path f p : path_ok p → (path_size p ≤ f)%nat → parse (S (S (S f))) (path_text p) = r_ret (path_node p).
Proof.
  intros Hok Hf. destruct (path_size_chains p f Hf) as [Hlen Hc].
  unfold parse, loadTokens. rewrite tokenize_path by done. cbn [rbind]. set (eof := Token TOK_EOF _ _).
  unfold path_tokens. rewrite fmap_app, <-app_assoc.
  destruct (parse_chain (S f) 0 0 p.1 ((Some <$> place flatten_text flatten_tokens (Z.of_nat (length (chain_text p.1))) p.2) ++ [Some eof]))
    as (n & -> & Hn); [lia| |lia|].
  { destruct p.2 as [|[c|] l]; done. }
  replace (S n) with (length p.2 + S (n - length p.2))%nat by lia. by rewrite led_flattens.
Qed.

(** ** The value *)

Section value.
Context (localeCompare : jsstr → jsstr → Z) (num_div : jsnum → jsnum → jsnum).
Local Abbreviation visit := (visit localeCompare num_div).

(** With [d] levels of fuel the node [n] is the function [f] of the data. *)
Definition denotes (d : nat) (n : jsval) (f : jsval → jsval) : Prop :=
  ∀ fuel v, (d ≤ fuel)%nat → visit fuel n v = r_ret (f v).

Lemma denotes_mono d d' n f : (d ≤ d')%nat → denotes d n f → denotes d' n f.
Proof. intros Hd H fuel v Hf. apply H. lia. Qed.

Lemma r_map_denotes d n f fuel l : (d ≤ fuel)%nat → denotes d n f → r_map (visit fuel n) l = r_ret (f <$> l).
Proof. intros Hd H. induction l as [|x l IH]; [done|]. cbn [r_map]. by rewrite (H fuel x Hd), IH. Qed.

Lemma denotes_field n : denotes 1 (Field (JStr n)) (field n).
Proof. intros [|fuel] v Hf; [lia|]. reflexivity. Qed.

Lemma denotes_identity : denotes 1 Identity id.
Proof. intros [|fuel] v Hf; [lia|]. reflexivity. Qed.

Lemma denotes_index d left f k : denotes d left f → (1 ≤ d)%nat → denotes (S d) (index_node left k) (λ v, item k (f v)).
Proof.
  intros H Hd [|[|fuel]] v Hf; [lia..|].
  change (visit (S (S fuel)) (index_node left k) v) with
    (x <~ visit (S fuel) left v;; r_ret (match x with JArr l => index_array l (JNum (num_of_Z k)) | _ => JNull end)).
  rewrite H by lia. cbn [r_bind r_ret]. destruct (f v) as [| | | | |l|]; try done.
  unfold index_array. by rewrite num_int_of_Z.
Qed.

Lemma denotes_member d left right f g : denotes d left f → denotes d right g →
  denotes (S d) (parent "Subexpression" [left; right]) (λ v, g (f v)).
Proof.
  intros Hl Hr [|fuel] v Hf; [lia|].
  change (visit (S fuel) (parent "Subexpression" [left; right]) v) with
    (x <~ visit fuel left v;; subexpression (visit fuel) 1 right x).
  rewrite Hl by lia. cbn [r_bind r_ret subexpression]. rewrite Hr by lia. cbn [r_bind r_ret]. by destruct (g (f v)).
Qed.

Lemma denotes_every d left right f g : denotes d left f → denotes d right g →
  denotes (S d) (parent "ValueProjection" [left; right]) (λ v, of_every g (f v)).
Proof.
  intros Hl Hr [|fuel] v Hf; [lia|].
  change (visit (S fuel) (parent "ValueProjection" [left; right]) v) with
    (b <~ visit fuel left v;;
     match b with JObj o => r <~ r_map (visit fuel right) (objValues o);; r_ret (JArr (not_null r)) | _ => r_ret JNull end).
  rewrite Hl by lia. cbn [r_bind r_ret]. destruct (f v) as [| | | | | |o]; try done.
  by rewrite (r_map_denotes d right g) by (done || lia).
Qed.

Lemma denotes_flatten d left right f g : denotes d left f → denotes (S d) right g →
  denotes (S (S d)) (parent "Projection" [parent "Flatten" [left]; right]) (λ v, of_each g (f v)).
Proof.
  intros Hl Hr [|[|fuel]] v Hf; [lia..|].
  change (visit (S (S fuel)) (parent "Projection" [parent "Flatten" [left]; right]) v) with
    (b <~ (o <~ visit fuel left v;; r_ret (match o with JArr l => JArr (flatten l) | _ => JNull end));;
     match b with JArr l => r <~ r_map (visit (S fuel) right) l;; r_ret (JArr (not_null r)) | _ => r_ret JNull end).
  rewrite Hl by lia. cbn [r_bind r_ret]. destruct (f v) as [| | | | |l|]; try done.
  by rewrite (r_map_denotes (S d) right g) by (done || lia).
Qed.

Lemma denotes_segment s : denotes (S (length s.2)) (segment_node s) (segment_value s).
Proof.
  destruct s as [n ks]. unfold segment_node, segment_value. cbn [fst snd].
  assert (H : ∀ d left f, denotes (S d) left f →
    denotes (S (d + length ks)) (foldl index_node left ks) (λ v, foldl (λ v k, item k v) (f v) ks)).
  { induction ks as [|k ks IH]; intros d left f Hd; [by rewrite Nat.add_0_r|]. cbn [foldl length].
    rewrite <-plus_n_Sm. apply (IH (S d) (index_node left k) (λ v, item k (f v))). apply denotes_index; [done|lia]. }
  apply (H O), denotes_field.
Qed.

Lemma denotes_part d left f p : denotes d left f → (1 ≤ d)%nat →
  denotes (d + S (part_size p)) (part_node left p) (λ v, part_value_of p (f v)).
Proof.
  intros H Hd. rewrite <-plus_n_Sm. destruct p as [s|s]; cbn [part_size part_node part_value_of].
  - apply denotes_member; [eapply denotes_mono; [|done]; lia|eapply denotes_mono; [|apply denotes_segment]; lia].
  - apply denotes_every; [eapply denotes_mono; [|done]; lia|eapply denotes_mono; [|apply denotes_segment]; lia].
Qed.

Lemma denotes_chain c : denotes (S (chain_size c)) (chain_node c) (chain_value c).
Proof.
  destruct c as [s ps]. unfold chain_node, chain_value, chain_size. cbn [fst snd].
  assert (H : ∀ d left f, denotes (S d) left f →
    denotes (S (d + sum_list_with (λ p, S (part_size p)) ps)) (foldl part_node left ps)
      (λ v, foldl (λ v p, part_value_of p v) (f v) ps)).
  { induction ps as [|p ps IH]; intros d left f Hd; [by rewrite Nat.add_0_r|]. cbn [foldl sum_list_with].
    rewrite Nat.add_assoc. apply (IH _ (part_node left p) (λ v, part_value_of p (f v))).
    apply (denotes_part (S d)); [done|lia]. }
  apply H, denotes_segment.
Qed.

Lemma denotes_path p : denotes (S (path_size p)) (path_node p) (path_value p).
Proof.
  destruct p as [c l]. unfold path_node, path_value, path_size. cbn [fst snd].
  assert (H : ∀ d left f, denotes (S d) left f →
    denotes (S (d + sum_list_with (λ c : option chain, 2 + match c with Some c => chain_size c | None => 0 end)%nat l))
      (foldl flatten_node left l) (λ v, foldl (λ v c, flatten_value c v) (f v) l)).
  { induction l as [|o l IH]; intros d left f Hd; [by rewrite Nat.add_0_r|]. cbn [foldl sum_list_with].
    rewrite Nat.add_assoc. apply (IH _ (flatten_node left o) (λ v, flatten_value o (f v))).
    set (k := match o with Some c => chain_size c | None => O end).
    apply (denotes_mono (S (S (S (d + k))))); [lia|].
    apply (denotes_flatten _ _ _ f (match o with Some c => chain_value c | None => id end)).
    - eapply denotes_mono; [|done]. lia.
    - destruct o as [c'|]; subst k; [eapply denotes_mono; [|apply denotes_chain]; lia|].
      eapply denotes_mono; [|apply denotes_identity]. lia. }
  apply H, denotes_chain.
Qed.

(** The text is at least as long as the tree is deep. *)
Lemma texts_length {A} (text : A → jsstr) (size : A → nat) l :
  (∀ x, size x ≤ length (text x))%nat → (sum_list_with size l ≤ length (texts text l))%nat.
Proof.
  intros H. induction l as [|x l IH]; [done|]. change (texts text (x :: l)) with (text x ++ texts text l).
  rewrite length_app. cbn. specialize (H x). lia.
Qed.

Lemma sum_ones {A} (l : list A) : sum_list_with (λ _, 1%nat) l = length l.
Proof. induction l; cbn; lia. Qed.

Lemma path_size_text p : (path_size p ≤ length (path_text p))%nat.
Proof.
  assert (Hs : ∀ s : segment, (length s.2 ≤ length (segment_text s))%nat).
  { intros s. rewrite <-sum_ones. unfold segment_text. rewrite length_app.
    pose proof (texts_length index_text (λ _, 1%nat) s.2 ltac:(intros; cbn; lia)). lia. }
  assert (Hc : ∀ c, (chain_size c ≤ length (chain_text c))%nat).
  { intros c. unfold chain_size, chain_text. rewrite length_app. pose proof (Hs c.1).
    pose proof (texts_length part_text (λ p, S (part_size p)) c.2) as Hp. apply Nat.add_le_mono; [done|]. apply Hp.
    intros [s|s]; cbn; specialize (Hs s); lia. }
  unfold path_size, path_text. rewrite length_app. apply Nat.add_le_mono; [apply Hc|]. apply texts_length.
  intros [c|]; cbn; [specialize (Hc c)|]; lia.
Qed.

Lemma search_path_value fuel p data : path_ok p → (length (path_text p) + 3 ≤ fuel)%nat →
  search localeCompare num_div fuel data (path_text p) = r_ret (path_value p data).
Proof.
  intros Hok Hf. pose proof (path_size_text p).
  destruct fuel as [|[|[|f]]]; [lia..|]. unfold search. rewrite parse_path by (done || lia). cbn [r_bind r_ret].
  apply denotes_path. lia.
Qed.

(** C35. A path means what it says: for names that are identifiers, [search] finds
    exactly the value of walking the data, name by name and index by index,
    through every property at a star and through every element of the flattened
    array at [[]]; a step that does not fit gives null, and nulls are left out of
    the arrays. *)
Theorem search_path (fuel : nat) (p : path) (data : jsval) :
  path_ok p → (length (path_text p) + 3 ≤ fuel)%nat →
  search localeCompare num_div fuel data (path_text p) = r_ret (path_value p data).
Proof. apply search_path_value. Qed.

(** A star projects one member only: behind [a.*.b] any further member is
    read of the array of results, which has none, so [a.*.b.c] is null for every
    data. *)
Theorem star_projects_one (fuel : nat) (a b c : segment) (data : jsval) :
  name_ok a.1 → name_ok b.1 → name_ok c.1 →
  let p := ((a, [Every b; Member c]), []) in
  (length (path_text p) + 3 ≤ fuel)%nat →
  search localeCompare num_div fuel data (path_text p) = r_ret JNull.
Proof.
  intros Ha Hb Hc p Hf. rewrite search_path_value; [|by repeat split; repeat constructor|done].
  unfold p, path_value, chain_value. cbn [fst snd foldl part_value_of]. unfold segment_value at 1.
  replace (field c.1 _) with JNull by (unfold of_every; by case_match).
  assert (H : foldl (λ v k, item k v) JNull c.2 = JNull) by (by induction c.2). by rewrite H.
Qed.
End value.

(** The path of the waiter for a verified identity, on a response that names two. *)
Lemma search_path_witness :
  search (λ _ _, 0) (λ x _, x) 100
    (JObj [(js "VerificationAttributes", JObj [
       (js "a@x.org", JObj [(js "VerificationStatus", JStr (js "Success"))]);
       (js "b@x.org", JObj [(js "VerificationStatus", JStr (js "Pending"))])])])
    (js "VerificationAttributes.*.VerificationStatus") = r_ret (JArr [JStr (js "Success"); JStr (js "Pending")]).
Proof.
  pose (p := (((js "VerificationAttributes", []), [Every (js "VerificationStatus", [])]), []) : path).
  refine (search_path (λ _ _, 0) (λ x _, x) 100 p _ _ _).
  - split; [split; [|apply Forall_singleton]|constructor]; (split; [reflexivity|]); cbn [fst snd];
      repeat (apply Forall_cons; split; [reflexivity|]); apply Forall_nil_2.
  - vm_compute. lia.
Defined.

Lemma star_projects_one_witness :
  search (λ _ _, 0) (λ x _, x) 100
    (JObj [(js "a", JObj [(js "x", JObj [(js "b", JObj [(js "c", JBool true)])])])]) (js "a.*.b.c") = r_ret JNull.
Proof.
  refine (star_projects_one (λ _ _, 0) (λ x _, x) 100 (js "a", []) (js "b", []) (js "c", []) _ _ _ _ _);
    [split; [reflexivity|constructor]..|vm_compute; lia].
Defined.
