(* ===== verification/ResourceWaiter.v ===== *)
(** * Waiters

    [AWS.ResourceWaiter] (dist/index.js 20078-20262), the description of a waiter
    (16945-16976) and [service.waitFor]: a waiter is a request with three more
    listeners, which judge every response by the acceptors of the description and
    turn it into a success or into a retryable error.  The matchers search the
    data with jmespath (JmesInterp), and the request runs on the machine of
    RequestMachine with the listeners of RequestListeners. *)

From stdpp Require Import base gmap strings list.
From Stdlib Require Import ZArith Lia.
From coqutil Require Import Datatypes.RecordSetters.
From S2P Require Import Prelude JsValue Json JsText SequentialExecutor AwsError RequestMachine Http RequestListeners RequestFrame RequestLiveness HostPrefix ApiShapes JmesLexer JmesParser JmesInterp JmesPath.

Import DoubleBraceUpdate.
Local Open Scope Z_scope.

(** ** Descriptions *)

(** [new ResourceWaiter(name, waiter)] of the API model: the enumerable
    properties. *)
Definition new_ResourceWaiter (name : jsstr) (waiter : jsobj) : jsobj :=
  let operation := obj_prop waiter (js "operation") in
  [(js "name", JStr name)] ++
  (if truthy operation then [(js "operation", JStr (lower_first (to_string operation)))] else []) ++
  base.filter (λ p, truthy p.2 = true)
    ((λ key, (js key, obj_prop waiter (js key))) <$> ["type"; "description"; "delay"; "maxAttempts"; "acceptors"]%string).

(** [api.waiters], by the names with a small first letter. *)
Definition api_waiters (waiters : jsobj) : list (jsstr * jsobj) :=
  (λ p, (lower_first p.1, new_ResourceWaiter p.1 (object p.2))) <$> own_props waiters.

Record waiter := Waiter { wt_state : jsstr; wt_config : jsobj }.

(** [new AWS.ResourceWaiter(service, state)]: the configuration is a copy. *)
Definition loadWaiterConfig (now : Z) (waiters : list (jsstr * jsobj)) (state : jsstr) : result aws_error waiter :=
  match obj_get state waiters with
  | Some config => Ok (Waiter state config)
  | None => Throw (util_error now (new_Error [] JUndef) (ObjectOptions
      [(js "code", JStr (js "StateNotFoundError")); (js "message", JStr (js "State " ++ state ++ js " not found."))]))
  end.

(** ** Matchers *)

Section waiter.
Context (localeCompare : jsstr → jsstr → Z) (num_div : jsnum → jsnum → jsnum) (fuel : nat).

(** [jmespath.search(resp.data, argument)] of a text; [None]: it throws. *)
Definition searched (data argument : jsval) : option jsval :=
  match argument with
  | JStr s => match search localeCompare num_div fuel data s with Some (Ok v) => Some v | _ => None end
  | _ => None
  end.

Definition results_list (v : jsval) : list jsval := match v with JArr l => l | _ => [v] end.

Definition path_matcher (r : request) (expected argument : jsval) : bool :=
  match searched (data (resp r)) argument with Some result => strictDeepEqual result expected | None => false end.
Definition pathAll_matcher (r : request) (expected argument : jsval) : bool :=
  match searched (data (resp r)) argument with
  | Some v =>
    let results := results_list v in
    if Nat.eqb (length results) 0 then false else forallb (λ x, strictDeepEqual x expected) results
  | None => false
  end.
Definition pathAny_matcher (r : request) (expected argument : jsval) : bool :=
  match searched (data (resp r)) argument with
  | Some v => existsb (λ x, strictDeepEqual x expected) (results_list v)
  | None => false
  end.
Definition status_matcher (r : request) (expected : jsval) : bool :=
  match hs_statusCode (httpResponse (resp r)) with
  | Some code => strict_eq (JNum (num_of_Z code)) expected
  | None => false
  end.
Definition error_matcher (r : request) (expected : jsval) : bool :=
  match expected, get_error r with
  | JStr _, Some e => strict_eq expected (err_get e (js "code"))
  | _, e => strict_eq expected (JBool (match e with Some _ => true | None => false end))
  end.

(** [matcher && matcher(resp, acceptor.expected, acceptor.argument)]. *)
Definition accepts (r : request) (acceptor : jsobj) : bool :=
  let expected := obj_prop acceptor (js "expected") in
  let argument := obj_prop acceptor (js "argument") in
  match obj_prop acceptor (js "matcher") with
  | JStr m =>
    if str_eqb m (js "path") then path_matcher r expected argument
    else if str_eqb m (js "pathAll") then pathAll_matcher r expected argument
    else if str_eqb m (js "pathAny") then pathAny_matcher r expected argument
    else if str_eqb m (js "status") then status_matcher r expected
    else if str_eqb m (js "error") then error_matcher r expected
    else false
  | _ => false
  end.

(** ** Judging a response *)

Definition setSuccess (r : request) : request :=
  r {{ resp -> error := None; resp -> data ::= λ d, js_or d (JObj []);
       exec ::= removeAllListeners (Some (js "extractData")) }}.
Definition setError (w : waiter) (retryable : bool) (r : request) : request :=
  set_error (Some (util_error (clock r) (default (new_Error [] JUndef) (get_error r)) (ObjectOptions
    [(js "code", JStr (js "ResourceNotReady"));
     (js "message", JStr (js "Resource is not in the state " ++ wt_state w));
     (js "retryable", JBool retryable)]))) (r {{ resp -> data := JNull }}).

(** The state the acceptors decide on. *)
Definition decision (acceptors : list jsval) (r : request) : jsval :=
  let '(matched, state) :=
    foldl (λ (ms : bool * jsval) acceptor,
             if ms.1 then ms
             else if accepts r (object acceptor) then (true, obj_prop (object acceptor) (js "state")) else ms)
      (false, JStr (js "retry")) acceptors in
  if negb matched && (match get_error r with Some _ => true | None => false end) then JStr (js "failure") else state.

Definition CHECK_ACCEPTORS (w : waiter) (r : request) : request * option aws_error :=
  match obj_prop (wt_config w) (js "acceptors") with
  | JArr acceptors =>
    let state := decision acceptors r in
    (if is_str (js "success") state then setSuccess r else setError w (is_str (js "retry") state) r, None)
  | _ => (r, Some (TypeError (js "Cannot read properties of undefined (reading 'forEach')")))
  end.

Definition WAITER_RETRY_CHECK (w : waiter) (r : request) : request :=
  match get_error r with
  | Some e =>
    if is_str (js "ResourceNotReady") (err_get e (js "code")) then
      upd_error (js "retryDelay")
        (JNum (num_mul (cmp_num (js_or (obj_prop (wt_config w) (js "delay")) (JNum (num_of_Z 0)))) (num_of_Z 1000))) r
    else r
  | None => r
  end.

(** The listeners as functions of the request; CHECK_OUTPUT and CHECK_ERROR are
    one function. *)
Definition check_id : nat := 1.
Definition retry_id : nat := 2.
Definition waiter_listeners : list (jsstr * fn_id) * executor fn_id :=
  addNamedListeners
    [ Add (js "RETRY_CHECK") (js "retry") (OtherFn retry_id) false;
      Add (js "CHECK_OUTPUT") (js "extractData") (OtherFn check_id) false;
      Add (js "CHECK_ERROR") (js "extractError") (OtherFn check_id) false ]
    ([], new_executor []).

(** The world with the bodies of these listeners. *)
Definition waiter_world {Creds} (wt : waiter) (w : world Creds) : world Creds :=
  World Creds (w_getCredentials w) (w_addAuthorization w) (w_validateParams w) (w_uuid_v4 w) (w_computeSha256 w)
    (w_network w) (w_getSystemErrorName w) (w_sslEnabled w) (w_urlParse w) (w_Date_parse w) (w_random w)
    (λ f a r, if bool_decide (f = OtherFn check_id) then CHECK_ACCEPTORS wt r
              else if bool_decide (f = OtherFn retry_id) then (WAITER_RETRY_CHECK wt r, None)
              else w_other_sync w f a r)
    (w_other_async w).
End waiter.

(** ** Waiting *)

(** [$waiter] of the parameters overrides the configuration; it is not sent. *)
Definition wait_config (params : jsobj) (w : waiter) : waiter * jsobj :=
  let options := obj_prop params (js "$waiter") in
  if truthy options then
    let given key := match obj_prop (object options) (js key) with JNum n => Some (JNum n) | _ => None end in
    let override key config := match given key with Some v => obj_set (js key) v config | None => config end in
    (Waiter (wt_state w) (override "maxAttempts"%string (override "delay"%string (wt_config w))), obj_del (js "$waiter") params)
  else (w, params).

(** [config.maxAttempts] as the bound of [retryCount < maxRetries]: no retry
    without one; [None] for a number that is not an integer. *)
Definition attempts (config : jsobj) : option Z :=
  match obj_prop config (js "maxAttempts") with
  | JUndef => Some 0
  | JNum n => num_int n
  | _ => None
  end.

(** [wait(params)] up to the sending of the request. *)
Definition wait (svc : service) (signingRegion : option jsstr) (customUserAgent : jsval) (maxAttempts : Z)
    (params : jsobj) (offset now : Z) : request :=
  (makeRequest svc signingRegion customUserAgent (new_executor []) params offset now)
    {{ resp -> maxRetries := maxAttempts; exec ::= addListeners (events_object waiter_listeners.2) }}.

Definition waitFor (svc : service) (signingRegion : option jsstr) (customUserAgent : jsval) (waiters : list (jsstr * jsobj))
    (state : jsstr) (params : jsobj) (offset now : Z) : option (result aws_error (waiter * request)) :=
  match loadWaiterConfig now waiters state with
  | Throw e => Some (Throw e)
  | Ok wt =>
    let '(wt, params) := wait_config params wt in
    n ← attempts (wt_config wt);
    Some (Ok (wt, wait svc signingRegion customUserAgent n params offset now))
  end.

(** ** What the acceptors decide *)

Section decisions.
Context (localeCompare : jsstr → jsstr → Z) (num_div : jsnum → jsnum → jsnum) (fuel : nat).
Local Abbreviation accepts := (accepts localeCompare num_div fuel).
Local Abbreviation decision := (decision localeCompare num_div fuel).
Local Abbreviation CHECK_ACCEPTORS := (CHECK_ACCEPTORS localeCompare num_div fuel).

Lemma decision_find acceptors r :
  decision acceptors r =
  match List.find (λ a, accepts r (object a)) acceptors with
  | Some a => obj_prop (object a) (js "state")
  | None => match get_error r with Some _ => JStr (js "failure") | None => JStr (js "retry") end
  end.
Proof.
  unfold ResourceWaiter.decision.
  assert (Hdone : ∀ l st, foldl (λ (ms : bool * jsval) acceptor, if ms.1 then ms
     else if accepts r (object acceptor) then (true, obj_prop (object acceptor) (js "state")) else ms) (true, st) l = (true, st)).
  { induction l; intros; [done|]. cbn. apply IHl. }
  induction acceptors as [|a l IH]; cbn [foldl List.find fst]; [by destruct (get_error r)|].
  destruct (accepts r (object a)); [by rewrite Hdone|]. exact IH.
Qed.

Lemma listeners_removeAll name (ex : executor fn_id) : name ≠ [] → listeners name (removeAllListeners (Some name) ex) = [].
Proof.
  intros Hn. unfold listeners. destruct name as [|c name]; [done|]. cbn [removeAllListeners _events].
  by rewrite obj_get_del, str_eqb_refl.
Qed.

(** How a waiter judges a response.  The first acceptor whose matcher accepts
    it decides; when none does, an error is a failure and anything else is tried
    again.  A success keeps the data and takes the listeners of [extractData]
    away, so that nothing looks at the response again; any other verdict
    discards the data and makes the error [ResourceNotReady], retryable exactly
    when the verdict is to try again. *)
Theorem waiter_verdict (w : waiter) (acceptors : list jsval) (r : request) :
  obj_prop (wt_config w) (js "acceptors") = JArr acceptors →
  let verdict :=
    match List.find (λ a, accepts r (object a)) acceptors with
    | Some a => obj_prop (object a) (js "state")
    | None => match get_error r with Some _ => JStr (js "failure") | None => JStr (js "retry") end
    end in
  let r' := (CHECK_ACCEPTORS w r).1 in
  (CHECK_ACCEPTORS w r).2 = None ∧
  if is_str (js "success") verdict then
    get_error r' = None ∧ data (resp r') = js_or (data (resp r)) (JObj []) ∧ listeners (js "extractData") (exec r') = []
  else
    ∃ e, get_error r' = Some e ∧ err_get e (js "code") = JStr (js "ResourceNotReady") ∧
      err_get e (js "retryable") = JBool (is_str (js "retry") verdict) ∧ data (resp r') = JNull ∧ exec r' = exec r.
Proof.
  intros Ha verdict r'. subst r'. unfold ResourceWaiter.CHECK_ACCEPTORS. rewrite Ha, decision_find.
  fold verdict. split; [done|]. destruct (is_str (js "success") verdict); cbn [fst].
  - split_and!; [done|done|]. by apply (listeners_removeAll (js "extractData")).
  - eexists. split; [reflexivity|]. split_and!; [| |done|done].
    + by rewrite util_error_code.
    + rewrite util_error_get; [reflexivity|done| |]; apply (bool_decide_unpack _); vm_compute; exact I.
Qed.
End decisions.

(** A response of status 404 under two acceptors. *)
Lemma waiter_verdict_witness :
  let w := Waiter (js "gone") [(js "acceptors", JArr [
    JObj [(js "matcher", JStr (js "status")); (js "expected", JNum (num_of_Z 200)); (js "state", JStr (js "retry"))];
    JObj [(js "matcher", JStr (js "status")); (js "expected", JNum (num_of_Z 404)); (js "state", JStr (js "success"))]])] in
  let r := http_headers demo_service (demo_world (λ _, [EvEnd])) 404 [] JUndef
    (makeRequest demo_service None JUndef (new_executor []) [] 0 0) in
  get_error (CHECK_ACCEPTORS (λ _ _, 0) (λ x _, x) 0 w r).1 = None.
Proof.
  intros w r. destruct (waiter_verdict (λ _ _, 0) (λ x _, x) 0 w _ r eq_refl) as [_ H].
  vm_compute in H. vm_compute. apply H.
Defined.

(** ** The waiter of the service for e-mail *)

(** The description of the waiters of Amazon SES. *)
Definition ses_waiters : jsobj :=
  [(js "IdentityExists", JObj [(js "delay", JNum (num_of_Z 3));
    (js "operation", JStr (js "GetIdentityVerificationAttributes")); (js "maxAttempts", JNum (num_of_Z 20));
    (js "acceptors", JArr [JObj [(js "expected", JStr (js "Success")); (js "matcher", JStr (js "pathAll"));
      (js "state", JStr (js "success")); (js "argument", JStr (js "VerificationAttributes.*.VerificationStatus"))]])])].

Definition identity_acceptor : jsobj :=
  [(js "expected", JStr (js "Success")); (js "matcher", JStr (js "pathAll"));
   (js "state", JStr (js "success")); (js "argument", JStr (js "VerificationAttributes.*.VerificationStatus"))].
Definition identity_waiter : waiter :=
  Waiter (js "identityExists") (new_ResourceWaiter (js "IdentityExists") [(js "delay", JNum (num_of_Z 3));
    (js "operation", JStr (js "GetIdentityVerificationAttributes")); (js "maxAttempts", JNum (num_of_Z 20));
    (js "acceptors", JArr [JObj identity_acceptor])]).

Lemma identity_waiter_loaded now : loadWaiterConfig now (api_waiters ses_waiters) (js "identityExists") = Ok identity_waiter.
Proof. reflexivity. Qed.

Lemma filter_every {A} (P : A → Prop) `{∀ x, Decision (P x)} (l : list A) : Forall P l → base.filter P l = l.
Proof. induction 1 as [|x l Hx _ IH]; [done|]. by rewrite filter_cons_True, IH. Qed.

(** The answer of the service: the status of the verification of each identity. *)
Definition identity_response (attrs : list (jsstr * jsstr)) : jsval :=
  JObj [(js "VerificationAttributes", JObj ((λ p, (p.1, JObj [(js "VerificationStatus", JStr p.2)])) <$> attrs))].
Definition identity_path : path :=
  (((js "VerificationAttributes", []), [Every (js "VerificationStatus", [])]), []).

Lemma identity_path_ok : path_ok identity_path.
Proof.
  split; [split; [|apply Forall_singleton]|constructor]; (split; [reflexivity|]); cbn [fst snd];
    repeat (apply Forall_cons; split; [reflexivity|]); apply Forall_nil_2.
Qed.

Lemma identity_statuses attrs :
  path_value identity_path (identity_response attrs) =
  JArr ((λ p : jsstr * jsval, field (js "VerificationStatus") p.2) <$>
    own_props ((λ p, (p.1, JObj [(js "VerificationStatus", JStr p.2)])) <$> attrs)).
Proof.
  unfold path_value, chain_value, identity_path. cbn [fst snd foldl part_value_of].
  change (segment_value (js "VerificationAttributes", []) (identity_response attrs)) with
    (JObj ((λ p, (p.1, JObj [(js "VerificationStatus", JStr p.2)])) <$> attrs)).
  unfold of_every, objValues. f_equal. rewrite <-list_fmap_compose. unfold not_null.
  apply (filter_every (λ v, v ≠ JNull)), Forall_fmap, Forall_forall. intros p Hp.
  rewrite own_props_perm in Hp. by apply list_elem_of_fmap_1 in Hp as (q & -> & _).
Qed.

Lemma identity_accepts lc div fuel attrs r :
  (46 ≤ fuel)%nat → data (resp r) = identity_response attrs →
  accepts lc div fuel r identity_acceptor = bool_decide (attrs ≠ [] ∧ Forall (λ p, p.2 = js "Success") attrs).
Proof.
  intros Hf Hd.
  change (accepts lc div fuel r identity_acceptor) with
    (pathAll_matcher lc div fuel r (JStr (js "Success")) (JStr (path_text identity_path))).
  unfold pathAll_matcher, searched. rewrite Hd, search_path_value; [|exact identity_path_ok|vm_compute in Hf |- *; lia].
  cbn [r_ret]. rewrite identity_statuses. cbn [results_list]. set (o := fmap _ attrs).
  assert (Hlen : length (own_props o) = length attrs) by (rewrite own_props_perm; unfold o; apply length_fmap).
  rewrite length_fmap, Hlen. destruct attrs as [|p attrs]; [done|]. cbn [length Nat.eqb].
  apply eq_bool_prop_intro. rewrite bool_decide_spec, forallb_True, Forall_fmap, own_props_perm. unfold o.
  rewrite Forall_fmap. split.
  - intros H. split; [done|]. eapply Forall_impl; [exact H|]. intros q Hq. apply Is_true_true in Hq.
    cbn in Hq. by apply str_eqb_eq in Hq.
  - intros [_ H]. eapply Forall_impl; [exact H|]. intros q Hq. apply Is_true_true. cbn. rewrite Hq. reflexivity.
Qed.

(** The waiter [identityExists] of Amazon SES: an answer that gives the
    status of every identity ends the wait with success exactly when it names
    one at least and all of them are verified; otherwise the request is tried
    again.  The description is the service's, its path goes through the lexer,
    the parser and the interpreter of jmespath. *)
Theorem identity_waiter_decides lc div (now : Z) (fuel : nat) (attrs : list (jsstr * jsstr)) (r : request) :
  (46 ≤ fuel)%nat → get_error r = None → data (resp r) = identity_response attrs →
  ∃ wt, loadWaiterConfig now (api_waiters ses_waiters) (js "identityExists") = Ok wt ∧
    let r' := (CHECK_ACCEPTORS lc div fuel wt r).1 in
    if bool_decide (attrs ≠ [] ∧ Forall (λ p, p.2 = js "Success") attrs)
    then get_error r' = None ∧ data (resp r') = identity_response attrs
    else ∃ e, get_error r' = Some e ∧ err_get e (js "retryable") = JBool true.
Proof.
  intros Hf He Hd. exists identity_waiter. split; [reflexivity|]. cbv zeta.
  change (CHECK_ACCEPTORS lc div fuel identity_waiter r) with
    (if is_str (js "success") (decision lc div fuel [JObj identity_acceptor] r) then setSuccess r
     else setError identity_waiter (is_str (js "retry") (decision lc div fuel [JObj identity_acceptor] r)) r, @None aws_error).
  rewrite decision_find. cbn [List.find object]. rewrite (identity_accepts lc div fuel attrs r Hf Hd).
  destruct (bool_decide _); cbn [fst].
  - split; [reflexivity|]. change (js_or (data (resp r)) (JObj []) = identity_response attrs). by rewrite Hd.
  - rewrite He. eexists. split; [reflexivity|].
    rewrite util_error_get; [reflexivity|done| |]; apply (bool_decide_unpack _); vm_compute; exact I.
Qed.

(** One of two identities is pending. *)
Lemma identity_waiter_decides_witness :
  let attrs := [(js "a@x.org", js "Success"); (js "b@x.org", js "Pending")] in
  let r := (makeRequest demo_service None JUndef (new_executor []) [] 0 0) {{ resp -> data := identity_response attrs }} in
  ∃ wt, loadWaiterConfig 0 (api_waiters ses_waiters) (js "identityExists") = Ok wt ∧
    ∃ e, get_error (CHECK_ACCEPTORS (λ _ _, 0) (λ x _, x) 46 wt r).1 = Some e ∧ err_get e (js "retryable") = JBool true.
Proof.
  intros attrs r.
  destruct (identity_waiter_decides (λ _ _, 0) (λ x _, x) 0 46 attrs r) as (wt & Hl & H); [lia|reflexivity|reflexivity|].
  exists wt. split; [exact Hl|]. rewrite bool_decide_false in H; [exact H|].
  intros [_ Ha]. rewrite Forall_forall in Ha.
  assert (Hb : (js "b@x.org", js "Pending").2 = js "Success") by (apply Ha; right; left).
  vm_compute in Hb. discriminate Hb.
Defined.
