(* ===== verification/WaiterRuns.v ===== *)
(** * Runs of a waiter

    The request of a waiter (ResourceWaiter) on the request machine: it completes,
    it succeeds only when an acceptor decided so, and how many requests it
    sends. *)

From stdpp Require Import base gmap strings list.
From Stdlib Require Import ZArith Lia.
From coqutil Require Import Datatypes.RecordSetters.
From S2P Require Import Prelude JsValue Json JsText SequentialExecutor AwsError RequestMachine Http RequestListeners RequestFrame RequestLiveness JmesLexer JmesParser JmesInterp ResourceWaiter.

Import DoubleBraceUpdate.
Local Open Scope Z_scope.

(** The listeners of a waiter's request, before and after a success. *)
Definition waiter_executor (svc : service) : executor fn_id :=
  on (js "complete") SETTLE false
    (addListeners (events_object waiter_listeners.2)
      (addAllRequestListeners svc (new_executor []) (new_executor async_marks))).
Definition stripped (ex : executor fn_id) : executor fn_id := removeAllListeners (Some (js "extractData")) ex.

Lemma stripped_twice ex : stripped (stripped ex) = stripped ex.
Proof.
  unfold stripped. cbn [removeAllListeners js _events _isAsync]. f_equal. apply obj_del_absent.
  intros (v & Hv)%obj_get_elem. rewrite obj_get_del, str_eqb_refl in Hv. done.
Qed.

Section runs.
Context {Creds : Type} (svc : service) (w : world Creds) `{!FairWorld w}.
Context (localeCompare : jsstr → jsstr → Z) (num_div : jsnum → jsnum → jsnum) (f : nat) (wt : waiter).
Local Abbreviation world := (waiter_world localeCompare num_div f wt w).

Definition waiting (ex : executor fn_id) : Prop :=
  ex = waiter_executor svc ∨ ex = stripped (waiter_executor svc).

Lemma retry_check_keeps r : is_Some (get_error r) → is_Some (get_error (WAITER_RETRY_CHECK wt r)).
Proof.
  intros [e He]. unfold WAITER_RETRY_CHECK. rewrite He. case_match; [|by eexists].
  unfold upd_error. unfold get_error in He. rewrite He. by eexists.
Qed.

#[export] Instance waiting_listening : Listening waiting world.
Proof.
  unfold waiting, waiter_executor, addAllRequestListeners, stripped.
  split; intros ex; (intros [->| ->] || intros g [->| ->]); destruct (cfg_paramValidation svc); try reflexivity;
    try (exists [retry_id]; split; [reflexivity|]; intros n a r ->%list_elem_of_singleton; exact (retry_check_keeps r));
    (apply only_at_name; apply (bool_decide_unpack _); vm_compute; exact I).
Qed.

Lemma check_frame r : frame waiting r (CHECK_ACCEPTORS localeCompare num_div f wt r).1.
Proof.
  unfold CHECK_ACCEPTORS. destruct (obj_prop (wt_config wt) (js "acceptors")) as [| | | | |l|]; try reflexivity.
  cbn [fst]. destruct (is_str (js "success") (decision localeCompare num_div f l r)); [|by split].
  split; [|done]. change (exec (setSuccess r)) with (stripped (exec r)).
  intros [->| ->]; right; [done|]. apply stripped_twice.
Qed.

Lemma other_frame good g a r : g ≠ OtherFn check_id → frame good r (w_other_sync world g a r).1.
Proof.
  intros Hg. cbn. rewrite bool_decide_false by done. case_bool_decide; [|apply untouched_frame, fair_sync].
  apply untouched_frame. cbn. unfold WAITER_RETRY_CHECK, upd_error, untouched, same_counts. by repeat case_match.
Qed.

#[export] Instance waiting_fair : Fair anyone waiting world.
Proof.
  split.
  - intros g a r _. destruct (decide (g = OtherFn check_id)) as [->|]; [apply check_frame|by apply other_frame].
  - intros. apply untouched_frame, (fair_async (w := w)).
  - apply (fair_calls (w := w)).
  - apply (fair_network (w := w)).
  - apply (fair_settle (w := w)).
  - done.
Qed.

(** The listeners stay as they are until the acceptors are asked. *)
Definition unasked (ex : executor fn_id) : Prop := ex = waiter_executor svc.
Definition not_check (g : fn_id) : Prop := g ≠ OtherFn check_id.

Lemma check_at name :
  name ≠ js "extractData" → name ≠ js "extractError" → OtherFn check_id ∉ listeners name (waiter_executor svc).
Proof.
  intros H1 H2 Hin.
  assert (H : Forall (λ p, OtherFn check_id ∈ p.2 → p.1 = js "extractData" ∨ p.1 = js "extractError")
    (_events (waiter_executor svc))).
  { unfold waiter_executor, addAllRequestListeners. destruct (cfg_paramValidation svc);
      apply (bool_decide_unpack _); vm_compute; exact I. }
  unfold listeners in Hin. destruct (obj_get name _) as [ls|] eqn:E; [|by apply not_elem_of_nil in Hin].
  apply elem_of_obj_get in E. rewrite Forall_forall in H. destruct (H _ E Hin); done.
Qed.

#[export] Instance unasked_listening : Listening unasked world.
Proof.
  pose proof waiting_listening as []. unfold waiting, unasked in *. split; eauto.
Qed.

#[export] Instance unasked_fair : Fair not_check unasked world.
Proof.
  pose proof waiting_fair as []. split; [intros; by apply other_frame| |done..|].
  - intros. apply untouched_frame, (fair_async (w := w)).
  - intros ex name g -> Hn Hg ->. revert Hg.
    apply check_at; unfold inner_event in Hn; intros ->; revert Hn; apply (bool_decide_unpack (_ ∉ _)); vm_compute; exact I.
Qed.

(** *** Who decided *)

Local Abbreviation transition := (transition get_error set_error set_halt (emitted svc world)).

(** The states of the machine and of the request a run goes through. *)
Inductive reached (start : request) : state → request → Prop :=
| reached_start : reached start s_validate start
| reached_step c r r' err c' : reached start c r → transition c None r = (r', CallsBack err) →
    next c (is_none err) = Some c' → reached start c' r'.

(** The response the acceptors are asked about: the protocol's listener has
    extracted its data or its error. *)
Definition judged (c : state) (r : request) : request :=
  extract_request_id (w_other_sync w (if bool_decide (c = s_extractError) then EXTRACT_ERROR else EXTRACT_DATA)
    NoArgs (set_halt false r)).1.

Definition says_success (r : request) : Prop :=
  ∃ acceptors, obj_prop (wt_config wt) (js "acceptors") = JArr acceptors ∧
    is_str (js "success") (decision localeCompare num_div f acceptors r) = true.
Definition asks (c : state) : Prop := c = s_extractData ∨ c = s_extractError.
#[local] Instance asks_dec c : Decision (asks c).
Proof. unfold asks. apply _. Defined.
Definition approved (start : request) : Prop :=
  ∃ c r, asks c ∧ reached start c r ∧ says_success (judged c r).

Lemma extract_request_id_exec r : exec (extract_request_id r) = exec r.
Proof. unfold extract_request_id, upd_error. by repeat case_match. Qed.

Lemma asking_listeners c : asks c → listeners (state_name c) (waiter_executor svc) =
  [if bool_decide (c = s_extractError) then EXTRACT_ERROR else EXTRACT_DATA; EXTRACT_REQUEST_ID; OtherFn check_id].
Proof.
  unfold waiter_executor, addAllRequestListeners. by intros [-> | ->]; destruct (cfg_paramValidation svc).
Qed.

(** Asking the acceptors keeps the listeners, and fails, unless they decide on
    success. *)
Lemma check_kept r : exec r = waiter_executor svc →
  let '(r', t) := CHECK_ACCEPTORS localeCompare num_div f wt r in
  exec r' = waiter_executor svc ∧ (is_Some t ∨ is_Some (get_error r')) ∨ says_success r.
Proof.
  intros Hex. unfold CHECK_ACCEPTORS, says_success.
  destruct (obj_prop (wt_config wt) (js "acceptors")) as [| | | | |l|] eqn:Ha; try (left; split; [done|]; by left).
  destruct (is_str (js "success") (decision localeCompare num_div f l r)) eqn:Hd; [right; by exists l|].
  left. split; [exact Hex|]. right. by eexists.
Qed.

Lemma asked c r : asks c → exec r = waiter_executor svc →
  let '(r', out) := emitted svc world c (set_halt false r) in
  exec r' = waiter_executor svc ∧ (out = DoneCallback None → is_Some (get_error r')) ∨ says_success (judged c r).
Proof.
  intros Hc Hex. unfold emitted, emit. cbn [fst]. change (exec (set_halt false r)) with (exec r).
  replace (eventParameters c (set_halt false r)) with NoArgs by (by destruct Hc as [-> | ->]).
  rewrite Hex, (asking_listeners c Hc). set (g := if bool_decide (c = s_extractError) then _ else _).
  assert (Hmarks : ∀ r g, exec r = waiter_executor svc → g ∉ async_ids → g ∉ _isAsync (exec r)).
  { intros r0 g0 H0 Hg. rewrite (good_marks (good := unasked) (w := world)); done. }
  assert (Hg : sync_body svc world NoArgs g (set_halt false r) = w_other_sync w g NoArgs (set_halt false r) ∧ g ∉ async_ids).
  { unfold g. destruct Hc as [-> | ->]; (split; [reflexivity|]); unfold async_ids; set_solver. }
  destruct Hg as [Hg Hga]. unfold judged. fold g.
  destruct (fair_sync (w := w) g NoArgs (set_halt false r)) as [Hx _].
  cbn [callListeners]. rewrite bool_decide_false by (by apply Hmarks). rewrite Hg.
  destruct (w_other_sync w g NoArgs (set_halt false r)) as [r1 t1]. cbn [fst] in Hx |- *.
  assert (Hx1 : exec r1 = waiter_executor svc) by (by rewrite Hx).
  assert (Hx2 : exec (extract_request_id r1) = waiter_executor svc) by (by rewrite extract_request_id_exec).
  rewrite bool_decide_false by (apply Hmarks; [done|unfold async_ids; set_solver]).
  cbn [sync_body returns].
  rewrite bool_decide_false by (apply Hmarks; [done|unfold async_ids; set_solver]).
  change (w_other_sync world (OtherFn check_id) NoArgs (extract_request_id r1))
    with (CHECK_ACCEPTORS localeCompare num_div f wt (extract_request_id r1)).
  pose proof (check_kept _ Hx2) as Hk. destruct (CHECK_ACCEPTORS _ _ _ _ (extract_request_id r1)) as [r3 t3].
  destruct Hk as [[Hx3 He]|Hs]; [|destruct t1, t3; repeat case_match; simplify_eq; right; exact Hs].
  destruct t1, t3; repeat case_match; simplify_eq; left; (split; [done|]); try done; by destruct He as [[? ?]|?].
Qed.

Lemma reset_retry_state_exec r : exec (reset_retry_state r).1 = exec r.
Proof.
  unfold reset_retry_state. destruct r as [? ? [? er ? ? ? ? ? ?] ? ? ? ? ? ?]. unfold get_error. cbn [resp error].
  destruct er; [|done]. cbv zeta. repeat case_match; simplify_eq; done.
Qed.

Lemma restart_exec r : exec (restart svc r) = exec r.
Proof. unfold restart. by repeat case_match. Qed.

(** A transition keeps the listeners until the acceptors decide on success. *)
Lemma transition_unasked c r r' err : plain_operation svc → exec r = waiter_executor svc →
  transition c None r = (r', CallsBack err) →
  exec r' = waiter_executor svc ∧ (c = s_extractData → err ≠ None) ∨ asks c ∧ says_success (judged c r).
Proof.
  intros Hplain Hex Ht. destruct (decide (asks c)) as [Hc|Hc].
  - pose proof (asked c r Hc Hex) as Ha. unfold RequestMachine.transition, emitEvent in Ht.
    destruct (emitted svc world c (set_halt false r)) as [r1 out]. destruct Ha as [[Hx He]|Hs]; [left|by right].
    destruct out as [[e|]| |e]; simplify_eq.
    + destruct (isTerminalState c); simplify_eq. by split.
    + split; [done|]. intros _ Hn. destruct (He eq_refl). congruence.
  - left. split; [|intros ->; by destruct Hc; left].
    destruct (transition_result svc world anyone waiting Hplain c r (or_introl Hex)) as (r2 & e2 & Ht2 & _ & Hr).
    rewrite Ht in Ht2. simplify_eq.
    destruct (decide (c = s_afterRetry)) as [->|H1]; [|destruct (decide (c = s_restart)) as [->|H2]].
    + rewrite (emitted_afterRetry svc world anyone waiting Hplain) in Hr by (by left). destruct Hr as [Hr _].
      by rewrite (Hr eq_refl), reset_retry_state_exec.
    + rewrite (emitted_restart svc world anyone waiting Hplain) in Hr by (by left). destruct Hr as [Hr _].
      by rewrite (Hr eq_refl), restart_exec.
    + apply (transition_frame svc world not_check unasked Hplain c r r2 e2); try done.
      intros l Hl ->. revert Hl. rewrite Hex. unfold asks in Hc. apply check_at; destruct c; naive_solver.
Qed.

Context (Hplain : plain_operation svc) (Hsafe : restart_safe svc world) (start : request).

Definition waiter_inv (c : state) (r : request) : Prop :=
  inv svc waiting c r ∧ reached start c r ∧ (exec r = waiter_executor svc ∨ approved start) ∧
  (c = s_success → approved start).

Lemma waiter_step c r : waiter_inv c r → ∃ r' err,
  transition c None r = (r', CallsBack err) ∧
  (∀ c', next c (is_none err) = Some c' → waiter_inv c' r') ∧
  (budget r' ≤ budget r)%nat ∧
  (c = s_afterRetry → err = None → (budget r' < budget r)%nat) ∧
  (c = s_restart → err ≠ None).
Proof.
  intros (Hinv & Hreach & Ho & _).
  destruct (inv_step svc world waiting Hplain c r Hsafe Hinv) as (r' & err & Ht & Hn & Hrest).
  exists r', err. split; [done|]. split; [|done]. intros c' Hc. split; [by apply Hn|].
  split; [by eapply reached_step|]. destruct Ho as [Hex|Happ]; [|by split; [right|]].
  destruct (transition_unasked c r r' err Hplain Hex Ht) as [[Hex' He]|[Ha Hs]]; [split; [by left|]|].
  - intros ->. destruct c, err; simplify_eq/=. by destruct (He eq_refl).
  - assert (approved start) by (by exists c, r). by split; [right|].
Qed.
End runs.

(** C19. Waiting ends, and ends well only for a reason.  In a fair world the
    request of a waiter with [maxAttempts] runs to [complete], whatever the
    service answers, with at most [maxAttempts + 1] attempts besides the
    redirections; and it goes through [success] only if at some state of this
    very run the acceptors of the description were asked about the response the
    protocol's listener had extracted there, and decided on success.  As for
    every request, what builds it must fail for good unless the configured
    [maxRetries] is positive. *)
Theorem waiter_completes {Creds} (svc : service) (w : world Creds) `{!FairWorld w} lc div (f : nat) (wt : waiter)
    (signingRegion : option jsstr) (customUserAgent : jsval) (maxAttempts : Z) (params : jsobj) (offset now : Z)
    (fuel : nat) :
  plain_operation svc → restart_safe svc w →
  let bound := (Z.to_nat maxAttempts + Z.to_nat (default 0%Z (cfg_maxRedirects svc)))%nat in
  let start := promise SETTLE (wait svc signingRegion customUserAgent maxAttempts params offset now) in
  (12 * bound + 13 ≤ fuel)%nat →
  ∃ tr r',
    run_request svc (waiter_world lc div f wt w) fuel s_validate start
    = (tr, (s_complete, r', Stopped (get_error r'))) ∧
    (send_count tr ≤ 1 + bound)%nat ∧
    (s_success ∈ tr →
     ∃ c r0 acceptors, (c = s_extractData ∨ c = s_extractError) ∧ reached svc w lc div f wt start c r0 ∧
       obj_prop (wt_config wt) (js "acceptors") = JArr acceptors ∧
       is_str (js "success") (decision lc div f acceptors (judged w c r0)) = true).
Proof.
  intros Hplain Hsafe bound r Hfuel.
  assert (Hb : budget r = bound) by (unfold budget; simpl; by rewrite !Z.sub_0_r).
  assert (Hsafe' : restart_safe svc (waiter_world lc div f wt w)) by exact Hsafe.
  assert (Hinv : waiter_inv svc w lc div f wt r s_validate r).
  { split_and!; [|constructor|by left|done]. split_and!; [by left|naive_solver|done|done|by intros [?|?]]. }
  destruct (run_bounded svc (waiter_world lc div f wt w) (waiting svc) Hplain fuel r) as (tr & r' & Hrun & Hs);
    [done|by left|done|by rewrite Hb|].
  exists tr, r'. split; [exact Hrun|]. rewrite Hb in Hs. split; [exact Hs|]. intros Hin.
  destruct (request_visits get_error set_error set_halt (emitted svc (waiter_world lc div f wt w))
    (waiter_inv svc w lc div f wt r) budget (waiter_step svc w lc div f wt Hplain Hsafe' r) fuel s_validate r s_success Hinv)
    as (_ & _ & _ & _ & Hok); [|destruct (Hok eq_refl) as (c & r0 & Hc & Hr0 & acceptors & Ha & Hd); by exists c, r0, acceptors].
  change (s_success ∈ (run_request svc (waiter_world lc div f wt w) fuel s_validate r).1). by rewrite Hrun.
Qed.

(** A service whose answers all carry [answer] as their data. *)
Definition answering_world (answer : jsval) : world unit :=
  let d := demo_world (λ _, [EvHeaders 200 [] JUndef; EvEnd]) in
  World unit (w_getCredentials d) (w_addAuthorization d) (w_validateParams d) (w_uuid_v4 d)
    (w_computeSha256 d) (w_network d) (w_getSystemErrorName d) (w_sslEnabled d) (w_urlParse d)
    (w_Date_parse d) (w_random d)
    (λ g _ r, (if bool_decide (g = EXTRACT_DATA) then r {{ resp -> data := answer }} else r, None))
    (w_other_async d).
#[global] Instance answering_fair answer : FairWorld (answering_world answer).
Proof.
  split; [|done|by eexists|by right; left|done]. intros g a r. cbn. by case_bool_decide.
Qed.

Lemma waiter_completes_witness :
  let verified := answering_world (identity_response [(js "a@x.org", js "Success")]) in
  let start := promise SETTLE (wait default_service None JUndef 20 [] 0 0) in
  ∃ c r0 acceptors, reached default_service verified (λ _ _, 0) (λ x _, x) 46 identity_waiter start c r0 ∧
    is_str (js "success") (decision (λ _ _, 0) (λ x _, x) 46 acceptors (judged verified c r0)) = true.
Proof.
  intros verified start.
  destruct (waiter_completes default_service verified (λ _ _, 0) (λ x _, x) 46 identity_waiter
    None JUndef 20 [] 0 0 400) as (tr & r' & Hrun & _ & Hs).
  - by split.
  - right. split; [done|]. intros a r Hr. by split.
  - apply Nat.leb_le. vm_compute. reflexivity.
  - destruct Hs as (c & r0 & acceptors & _ & Hr0 & _ & Hd); [|exists c, r0, acceptors; split; [exact Hr0|exact Hd]].
    apply (f_equal fst) in Hrun. cbn [fst] in Hrun. rewrite <- Hrun.
    apply (bool_decide_unpack _). vm_compute. exact I.
Defined.

(** A waiter sends one request more than its [maxAttempts], which the
    documentation of [waitFor] gives as the maximum number of requests: waiting
    for an identity that stays pending sends 21 requests with the 20 of the
    description of Amazon SES, and 3 with a [$waiter.maxAttempts] of 2, before
    it fails; an identity that is verified takes one. *)
Theorem waiter_sends_one_more :
  let sends params answer :=
    match waitFor demo_service None JUndef (api_waiters ses_waiters) (js "identityExists") params 0 0 with
    | Some (Ok (wt, r)) =>
      let run := run_request demo_service (waiter_world (λ _ _, 0) (λ x _, x) 46 wt (answering_world answer)) 400 s_validate
                   (promise SETTLE r) in
      Some (send_count run.1, match get_error run.2.1.2 with Some e => err_get e (js "code") | None => JNull end)
    | _ => None
    end in
  let pending := identity_response [(js "a@x.org", js "Pending")] in
  let verified := identity_response [(js "a@x.org", js "Success")] in
  let two := [(js "$waiter", JObj [(js "maxAttempts", JNum (num_of_Z 2))])] in
  sends [] pending = Some (21%nat, JStr (js "ResourceNotReady")) ∧
  sends two pending = Some (3%nat, JStr (js "ResourceNotReady")) ∧
  sends [] verified = Some (1%nat, JNull).
Proof. vm_compute. split_and!; reflexivity. Qed.
