(* ===== verification/Paging.v ===== *)
(** * Paging

    Paginated operations: the pagination of the API description (dist/index.js
    16915-16926, 22108-22119), the tokens of the next page and the request for it
    ([AWS.Response], 20402-20467), and the iteration over pages and items
    ([AWS.Request.eachPage] and [eachItem], 19729-19793).  The tokens and the
    items are found with jmespath (JmesInterp, JmesPath). *)

From stdpp Require Import base strings list.
From Stdlib Require Import ZArith Lia.
From S2P Require Import Prelude JsValue Json JsText AwsError ApiShapes JmesLexer JmesParser JmesInterp JmesPath.

Local Open Scope Z_scope.

(** ** The description of the pages *)

Record paginator := Paginator {
  inputToken : jsval;
  limitKey : jsval;
  moreResults : jsval;
  outputToken : jsval;
  resultKey : jsval;
}.
Definition new_Paginator (p : jsobj) : paginator :=
  Paginator (obj_prop p (js "input_token")) (obj_prop p (js "limit_key")) (obj_prop p (js "more_results"))
    (obj_prop p (js "output_token")) (obj_prop p (js "result_key")).

(** [api.paginators], by the name of the operation, and
    [service.paginationConfig(operation)]. *)
Definition api_paginators (paginators : jsobj) : list (jsstr * paginator) :=
  (λ p, (p.1, new_Paginator (object p.2))) <$> own_props paginators.
Definition paginationConfig (paginators : list (jsstr * paginator)) (operation : jsstr) : option paginator :=
  obj_get operation paginators.
Definition isPageable (paginators : list (jsstr * paginator)) (operation : jsstr) : bool :=
  match paginationConfig paginators operation with Some _ => true | None => false end.

(** The description of the pages of Amazon SES. *)
Definition ses_paginators : jsobj :=
  [(js "ListCustomVerificationEmailTemplates", JObj [(js "input_token", JStr (js "NextToken"));
      (js "limit_key", JStr (js "MaxResults")); (js "output_token", JStr (js "NextToken"))]);
   (js "ListIdentities", JObj [(js "input_token", JStr (js "NextToken")); (js "limit_key", JStr (js "MaxItems"));
      (js "output_token", JStr (js "NextToken")); (js "result_key", JStr (js "Identities"))]);
   (js "ListVerifiedEmailAddresses", JObj [(js "result_key", JStr (js "VerifiedEmailAddresses"))])].

(** ** The next page *)

Section paging.
Context (localeCompare : jsstr → jsstr → Z) (num_div : jsnum → jsnum → jsnum) (fuel : nat).

(** [jmespath.search(data, expression)] of a text. *)
Definition search_text (data expression : jsval) : R jsval :=
  match expression with
  | JStr s => search localeCompare num_div fuel data s
  | _ => r_throw (parser_error (js "Invalid token (EOF)"))
  end.

(** [nextPageTokens]: undefined without pagination, null, or an array. *)
Inductive page_tokens := NotPaged | NoMore | Tokens (l : list jsval).

(** The tokens the expressions find; those that find nothing are left out. *)
Fixpoint collect_tokens (data : jsval) (exprs : list jsval) (tokens : page_tokens) : R page_tokens :=
  match exprs with
  | [] => r_ret tokens
  | expr :: exprs =>
    output <~ search_text data expr;;
    collect_tokens data exprs
      (if truthy output then Tokens (match tokens with Tokens l => l ++ [output] | _ => [output] end) else tokens)
  end.

Definition expressions (v : jsval) : list jsval :=
  match v with JStr _ => [v] | JArr l => l | _ => [] end.

Definition cacheNextPageTokens (config : option paginator) (data : jsval) : R page_tokens :=
  match config with
  | None => r_ret NotPaged
  | Some config =>
    more <~ (if truthy (moreResults config) then search_text data (moreResults config) else r_ret (JBool true));;
    if truthy more then collect_tokens data (expressions (outputToken config)) NoMore else r_ret NoMore
  end.

Definition hasNextPage (config : option paginator) (data : jsval) : R jsval :=
  tokens <~ cacheNextPageTokens config data;;
  r_ret (match tokens with Tokens _ => JBool true | NotPaged => JUndef | NoMore => JBool false end).

(** [params[inputTokens[i]] = nextPageTokens[i]] for every input token. *)
Fixpoint set_tokens (inputs tokens : list jsval) (params : jsobj) : jsobj :=
  match inputs with
  | [] => params
  | i :: inputs => set_tokens inputs (tail tokens) (obj_set (to_string i) (default JUndef (head tokens)) params)
  end.

(** [nextPage()] of a response without an error: the parameters of the next
    request; [None] is null. *)
Definition nextPage (config : option paginator) (data : jsval) (params : jsobj) : R (option jsobj) :=
  tokens <~ cacheNextPageTokens config data;;
  match config, tokens with
  | Some c, Tokens l => r_ret (Some (set_tokens (expressions (inputToken c)) l params))
  | None, _ => r_throw (js_error (js "No pagination configuration"))
  | _, _ => r_ret None
  end.

(** ** Iteration *)

(** The completed response to a request with the given parameters, and the
    caller's function: its new state, and what it gives to [done], when it
    calls it. *)
Context (call : jsobj → option aws_error * jsval).
Context {S : Type}.

Fixpoint eachPage (rounds : nat) (config : option paginator) (callback : S → option aws_error → jsval → R (S * option jsval))
    (params : jsobj) (s : S) : R S :=
  match rounds with
  | O => None
  | Datatypes.S rounds =>
    let '(error, data) := call params in
    sr <~ callback s error data;;
    match sr.2 with
    | None | Some (JBool false) => r_ret sr.1
    | Some _ =>
      next <~ hasNextPage config data;;
      if truthy next then
        params <~ nextPage config data params;;
        match params with
        | Some params => eachPage rounds config callback params sr.1
        | None => r_throw (type_error "on")
        end
      else sr <~ callback sr.1 None JNull;; r_ret sr.1
    end
  end.

(** What [arrayEach] goes through. *)
Definition items_of (v : jsval) : list jsval :=
  match v with JArr l => l | JObj o => (own_props o).*2 | JStr s => (λ c, JStr [c]) <$> s | _ => [] end.

Fixpoint each_item (callback : S → option aws_error → jsval → S * jsval) (items : list jsval) (s : S) : S * jsval :=
  match items with
  | [] => (s, JBool true)
  | item :: items =>
    let '(s, continueIteration) := callback s None item in
    match continueIteration, items with
    | JBool false, _ | _, [] => (s, continueIteration)
    | _, _ => each_item callback items s
    end
  end.

Definition item_callback (config : option paginator) (callback : S → option aws_error → jsval → S * jsval)
    (s : S) (error : option aws_error) (data : jsval) : R (S * option jsval) :=
  match error, data with
  | Some _, _ => let '(s, v) := callback s error JNull in r_ret (s, Some v)
  | None, JNull => let '(s, v) := callback s None JNull in r_ret (s, Some v)
  | None, _ =>
    match config with
    | None => r_throw (type_error "resultKey")
    | Some c =>
      let resultKey := match resultKey c with JArr l => default JUndef (head l) | k => k end in
      items <~ search_text data resultKey;;
      let '(s, v) := each_item callback (items_of items) s in r_ret (s, Some v)
    end
  end.

Definition eachItem (rounds : nat) (config : option paginator) (callback : S → option aws_error → jsval → S * jsval)
    (params : jsobj) (s : S) : R S :=
  eachPage rounds config (item_callback config callback) params s.
End paging.

(** ** What the iteration visits *)

Section visits.
Context (localeCompare : jsstr → jsstr → Z) (num_div : jsnum → jsnum → jsnum) (fuel : nat).
Context (call : jsobj → option aws_error * jsval).
Context {S : Type} (callback : S → option aws_error → jsval → S * jsval).
Context (c : paginator) (key : jsstr) (token result : path).
Context (Hin : inputToken c = JStr key) (Hmore : truthy (moreResults c) = false).
Context (Hout : outputToken c = JStr (path_text token)) (Hres : resultKey c = JStr (path_text result)).
Context (Htok : path_ok token) (Hrok : path_ok result).
Context (Hft : (length (path_text token) + 3 ≤ fuel)%nat) (Hfr : (length (path_text result) + 3 ≤ fuel)%nat).

(** The service delivers the pages [ds] to requests that start with [params] and
    go on with the token of the page before; the last page has none. *)
Fixpoint delivers (params : jsobj) (ds : list jsval) : Prop :=
  match ds with
  | [] => False
  | d :: ds =>
    call params = (None, d) ∧ d ≠ JNull ∧
    match ds with
    | [] => truthy (path_value token d) = false
    | _ => truthy (path_value token d) = true ∧ delivers (obj_set key (path_value token d) params) ds
    end
  end.

Lemma tokens_found d :
  cacheNextPageTokens localeCompare num_div fuel (Some c) d =
  r_ret (if truthy (path_value token d) then Tokens [path_value token d] else NoMore).
Proof.
  unfold cacheNextPageTokens. rewrite Hmore, Hout. cbn [r_bind r_ret expressions collect_tokens search_text].
  change (truthy (JBool true)) with true. cbv iota. cbn [collect_tokens search_text].
  rewrite search_path_value by done. cbn [r_bind r_ret]. by destruct (truthy _).
Qed.

(** The caller's state after it has seen some items, and whether it answered
    false to none of them. *)
Definition seen (s : S) (items : list jsval) : S := foldl (λ s x, (callback s None x).1) s items.
Definition goes_on (s : S) (items : list jsval) : Prop :=
  ∀ before x after, items = before ++ x :: after → (callback (seen s before) None x).2 ≠ JBool false.

Lemma goes_on_cons s x items :
  goes_on s (x :: items) ↔ (callback s None x).2 ≠ JBool false ∧ goes_on (callback s None x).1 items.
Proof.
  split.
  - intros H. split; [exact (H [] x items eq_refl)|]. intros b y a ->. exact (H (x :: b) y a eq_refl).
  - intros [H1 H2] [|z b] y a [= -> ->]; [exact H1|]. exact (H2 b y a eq_refl).
Qed.

Lemma goes_on_app s a b : goes_on s (a ++ b) ↔ goes_on s a ∧ goes_on (seen s a) b.
Proof.
  revert s. induction a as [|x a IH]; intros s.
  - cbn [app seen foldl]. split; [|by intros [_ ?]]. intros H. split; [|done]. by intros [|? ?] ? ? ?.
  - cbn [app]. rewrite !goes_on_cons, IH. cbn [seen foldl]. unfold seen. tauto.
Qed.

Lemma seen_app s a b : seen s (a ++ b) = seen (seen s a) b.
Proof. apply foldl_app. Qed.

Lemma each_item_all items s : goes_on s items → ∃ v, each_item callback items s = (seen s items, v) ∧ v ≠ JBool false.
Proof.
  revert s. induction items as [|x items IH]; intros s; [by exists (JBool true)|].
  intros [Hx Hc]%goes_on_cons. cbn [each_item seen foldl]. destruct (callback s None x) as [s' v]. cbn [fst snd] in *.
  destruct items as [|y items]; [exists v; by destruct v as [| |[]| | | |]|].
  destruct (IH s' Hc) as (v' & Hv & Hne). exists v'. split; [|done]. rewrite Hv. by destruct v as [| |[]| | | |].
Qed.

Lemma each_item_stops before x after s :
  goes_on s before → (callback (seen s before) None x).2 = JBool false →
  each_item callback (before ++ x :: after) s = (seen s (before ++ [x]), JBool false).
Proof.
  revert s. induction before as [|y before IH]; intros s.
  - intros _ Hx. cbn in *. destruct (callback s None x) as [s' v]. cbn in *. by subst v.
  - intros [Hy Hc]%goes_on_cons Hx. cbn [app each_item seen foldl] in *. destruct (callback s None y) as [s' v]. cbn [fst snd] in *.
    specialize (IH s' Hc Hx). destruct (before ++ x :: after) as [|z l] eqn:E; [by destruct before|].
    unfold seen in IH. rewrite IH. by destruct v as [| |[]| | | |].
Qed.

Local Abbreviation page_items := (λ d, items_of (path_value result d)).

Lemma item_callback_page d s : d ≠ JNull →
  item_callback localeCompare num_div fuel (Some c) callback s None d =
  let '(s, v) := each_item callback (page_items d) s in r_ret (s, Some v).
Proof.
  intros Hd. unfold item_callback. rewrite Hres. cbn [search_text]. rewrite search_path_value by done. by destruct d.
Qed.

(** A page whose items the caller goes on after: the iteration goes on with the
    next request, or ends with null. *)
Lemma page_visited rounds params d s :
  call params = (None, d) → d ≠ JNull → goes_on s (page_items d) →
  eachItem localeCompare num_div fuel call (Datatypes.S rounds) (Some c) callback params s =
  let s' := seen s (page_items d) in
  if truthy (path_value token d)
  then eachItem localeCompare num_div fuel call rounds (Some c) callback (obj_set key (path_value token d) params) s'
  else r_ret (callback s' None JNull).1.
Proof.
  intros Hcall Hd Hgo. unfold eachItem. cbn [eachPage]. rewrite Hcall, item_callback_page by done.
  destruct (each_item_all _ _ Hgo) as (v & -> & Hv). cbn [r_bind r_ret snd fst]. set (s' := seen s _).
  assert (Hnext : hasNextPage localeCompare num_div fuel (Some c) d = r_ret (JBool (truthy (path_value token d)))).
  { unfold hasNextPage. rewrite tokens_found. case (truthy (path_value token d)); reflexivity. }
  rewrite Hnext. cbn [r_bind r_ret]. unfold nextPage. rewrite tokens_found, Hin.
  destruct (truthy (path_value token d)); cbn; [by destruct v as [| |[]| | | |]|].
  destruct (callback s' None JNull). by destruct v as [| |[]| | | |].
Qed.

Lemma page_stopped rounds params d s before x after :
  call params = (None, d) → d ≠ JNull → page_items d = before ++ x :: after → goes_on s before →
  (callback (seen s before) None x).2 = JBool false →
  eachItem localeCompare num_div fuel call (Datatypes.S rounds) (Some c) callback params s = r_ret (seen s (before ++ [x])).
Proof.
  intros Hcall Hd Hi Hgo Hx. unfold eachItem. cbn [eachPage]. rewrite Hcall, item_callback_page, Hi by done.
  by rewrite each_item_stops.
Qed.

(** The pages of the service up to the last of [ds], whether or not it is its last. *)
Fixpoint begins (params : jsobj) (ds : list jsval) : Prop :=
  match ds with
  | [] => False
  | d :: ds =>
    call params = (None, d) ∧ d ≠ JNull ∧
    match ds with
    | [] => True
    | _ => truthy (path_value token d) = true ∧ begins (obj_set key (path_value token d) params) ds
    end
  end.

(** C40. Iterating over items visits them all, and stops when told to.  When the
    service delivers pages, each to a request with the token of the page before,
    [eachItem] calls the caller's function with every item of every page, in
    order and once, and then with null, if it answers false to none of them.
    When it answers false to an item of some page, that call is the last one:
    the items after it are not visited, no null follows, and whatever the
    service would answer to a further request does not matter.  The operation
    has one token and no flag for more results, as those of Amazon SES; tokens
    and items are found at the paths of the description. *)
Theorem each_item_complete (rounds : nat) (params : jsobj) (ds : list jsval) (s : S) :
  let items := concat (page_items <$> ds) in
  (length ds ≤ rounds)%nat →
  (delivers params ds → goes_on s items →
   eachItem localeCompare num_div fuel call rounds (Some c) callback params s = r_ret (seen s (items ++ [JNull]))) ∧
  (∀ before x after, begins params ds → items = before ++ x :: after → goes_on s before →
   (callback (seen s before) None x).2 = JBool false →
   eachItem localeCompare num_div fuel call rounds (Some c) callback params s = r_ret (seen s (before ++ [x]))).
Proof.
  cbv zeta. intros Hr. split.
  - revert rounds params s Hr. induction ds as [|d ds IH]; intros [|rounds] params s Hr Hd; cbn [length] in Hr; try (done || lia).
    cbn [delivers] in Hd. destruct Hd as (Hcall & Hnn & Hd). cbn [fmap list_fmap concat]. intros [Hg1 Hg2]%goes_on_app.
    rewrite (page_visited rounds params d s Hcall Hnn Hg1). cbv zeta. rewrite <- app_assoc, seen_app.
    destruct ds as [|d' ds]; [by rewrite Hd|]. destruct Hd as [-> Hd]. apply IH; [lia|done|done].
  - revert rounds params s Hr. induction ds as [|d ds IH]; intros [|rounds] params s Hr before x after Hd Heq Hgo Hx;
      cbn [length] in Hr; try (done || lia).
    cbn [begins] in Hd. destruct Hd as (Hcall & Hnn & Hd). cbn [fmap list_fmap concat] in Heq.
    assert (Hcase : (∃ k, page_items d = before ++ x :: k) ∨
      ∃ k, before = page_items d ++ k ∧ concat (page_items <$> ds) = k ++ x :: after).
    { destruct (app_eq_inv _ _ _ _ Heq) as [([|y k] & Hk1 & Hk2)|(k & -> & Hk2)]; [right|left|right].
      - exists []. rewrite app_nil_r in Hk1 |- *. by rewrite Hk1.
      - injection Hk2 as <- _. by exists k.
      - by exists k. }
    destruct Hcase as [[k Hk]|(k & -> & Hk)]; [by apply (page_stopped rounds params d s before x k)|].
    apply goes_on_app in Hgo as [Hg1 Hg2]. rewrite seen_app in Hx. rewrite <- app_assoc, seen_app.
    rewrite (page_visited rounds params d s Hcall Hnn Hg1). cbv zeta.
    destruct ds as [|d' ds]; [by destruct k|]. destruct Hd as [-> Hd]. apply (IH rounds _ _ ltac:(lia) k x after Hd Hk Hg2 Hx).
Qed.

Lemma null_walk (p : path) : path_value p JNull = JNull.
Proof.
  assert (Hi : ∀ ks, foldl (λ v k, item k v) JNull ks = JNull) by (by induction ks).
  assert (Hp : ∀ ps, foldl (λ v p, part_value_of p v) JNull ps = JNull).
  { induction ps as [|q ps IH]; [done|]. cbn [foldl]. destruct q as [s|s]; cbn [part_value_of of_every]; [|done].
    unfold segment_value. cbn [field]. by rewrite Hi. }
  assert (Hc : ∀ l, foldl (λ v c, flatten_value c v) JNull l = JNull) by (by induction l).
  unfold path_value, chain_value, segment_value. cbn [field]. by rewrite Hi, Hp, Hc.
Qed.

(** A failed page looks like the last one: when a request fails, the caller's
    function gets the error and then, unless it answers false, is called again
    without an error and without data, as after the last page. *)
Theorem failed_page_ends (rounds : nat) (params : jsobj) (e : aws_error) (s : S) :
  call params = (Some e, JNull) → (callback s (Some e) JNull).2 ≠ JBool false →
  eachItem localeCompare num_div fuel call (Datatypes.S rounds) (Some c) callback params s =
  r_ret (callback (callback s (Some e) JNull).1 None JNull).1.
Proof.
  intros Hcall Hv. unfold eachItem. cbn [eachPage]. rewrite Hcall. cbn [item_callback].
  destruct (callback s (Some e) JNull) as [s' v]. cbn [r_bind r_ret fst snd] in *.
  unfold hasNextPage. rewrite tokens_found, null_walk. cbn.
  destruct (callback s' None JNull). by destruct v as [| |[]| | | |].
Qed.
End visits.

(** The tokens of a page lose their places: a page with two tokens that lacks
    the first one sends the second in the place of the first. *)
Theorem tokens_shift lc div (fuel : nat) (c : paginator) (a b : jsstr) (pa pb : path) (d : jsval) (params : jsobj) :
  inputToken c = JArr [JStr a; JStr b] → outputToken c = JArr [JStr (path_text pa); JStr (path_text pb)] →
  truthy (moreResults c) = false → path_ok pa → path_ok pb →
  (length (path_text pa) + 3 ≤ fuel)%nat → (length (path_text pb) + 3 ≤ fuel)%nat → a ≠ b →
  truthy (path_value pa d) = false → truthy (path_value pb d) = true →
  ∃ next, nextPage lc div fuel (Some c) d params = r_ret (Some next) ∧
    obj_prop next a = path_value pb d ∧ obj_prop next b = JUndef.
Proof.
  intros Hin Hout Hmore Ha Hb Hfa Hfb Hab Hta Htb. unfold nextPage, cacheNextPageTokens. rewrite Hmore, Hout.
  cbn [r_bind r_ret expressions]. change (truthy (JBool true)) with true. cbv iota. cbn [collect_tokens search_text].
  rewrite search_path_value by done. cbn [r_bind r_ret]. rewrite Hta. cbn [collect_tokens search_text].
  rewrite search_path_value by done. cbn [r_bind r_ret collect_tokens]. rewrite Htb. cbn [r_bind r_ret]. rewrite Hin.
  eexists. split; [reflexivity|]. cbn [expressions set_tokens to_string default head tail].
  rewrite !obj_prop_set, !str_eqb_refl. split; [|done]. by rewrite (proj2 (str_eqb_neq a b) Hab).
Qed.

(** ** The identities of Amazon SES *)

Definition identities_config : paginator := new_Paginator [(js "input_token", JStr (js "NextToken"));
  (js "limit_key", JStr (js "MaxItems")); (js "output_token", JStr (js "NextToken")); (js "result_key", JStr (js "Identities"))].
Lemma identities_configured : paginationConfig (api_paginators ses_paginators) (js "ListIdentities") = Some identities_config.
Proof. reflexivity. Qed.

Definition name_path (n : jsstr) : path := (((n, []), []), []).
Lemma name_path_text n : path_text (name_path n) = n.
Proof. unfold path_text, chain_text, segment_text. cbn. by rewrite !app_nil_r. Qed.

(** A list of identities in two pages. *)
Definition two_pages (params : jsobj) : option aws_error * jsval :=
  match obj_prop params (js "NextToken") with
  | JUndef => (None, JObj [(js "Identities", JArr [JStr (js "a@x.org"); JStr (js "b@x.org")]); (js "NextToken", JStr (js "t1"))])
  | _ => (None, JObj [(js "Identities", JArr [JStr (js "c@x.org")])])
  end.
Definition record_item (seen : list jsval) (_ : option aws_error) (v : jsval) : list jsval * jsval := (seen ++ [v], JUndef).

Ltac name_ok_solve := split; [split; [split; [reflexivity|]|]|]; cbn [fst snd];
  repeat (apply Forall_cons; split; [reflexivity|]); apply Forall_nil_2.

(** The same list, when the caller has seen enough after the second item. *)
Definition record_two (l : list jsval) (_ : option aws_error) (v : jsval) : list jsval * jsval :=
  (l ++ [v], JBool (Nat.ltb (length l) 1)).

Lemma each_item_complete_witness :
  let run cb := eachItem (λ _ _, 0) (λ x _, x) 50 two_pages 2 (Some identities_config) cb [] [] in
  run record_item = r_ret [JStr (js "a@x.org"); JStr (js "b@x.org"); JStr (js "c@x.org"); JNull] ∧
  run record_two = r_ret [JStr (js "a@x.org"); JStr (js "b@x.org")].
Proof.
  intros run.
  assert (H1 : path_ok (name_path (js "NextToken"))) by name_ok_solve.
  assert (H2 : path_ok (name_path (js "Identities"))) by name_ok_solve.
  assert (H3 : (length (path_text (name_path (js "NextToken"))) + 3 ≤ 50)%nat) by (vm_compute; lia).
  assert (H4 : (length (path_text (name_path (js "Identities"))) + 3 ≤ 50)%nat) by (vm_compute; lia).
  pose proof (λ cb : list jsval → option aws_error → jsval → list jsval * jsval, each_item_complete (λ _ _, 0) (λ x _, x) 50 two_pages cb identities_config (js "NextToken")
    (name_path (js "NextToken")) (name_path (js "Identities")) eq_refl eq_refl eq_refl eq_refl H1 H2 H3 H4 2 []
    [(two_pages []).2; (two_pages [(js "NextToken", JStr (js "t1"))]).2] []) as H. split.
  - apply (proj1 (H record_item ltac:(vm_compute; lia))); [vm_compute; split_and!; done|].
    intros b x a _ E. discriminate E.
  - apply (proj2 (H record_two ltac:(vm_compute; lia)) [JStr (js "a@x.org")] (JStr (js "b@x.org")) [JStr (js "c@x.org")]).
    + vm_compute. split_and!; done.
    + vm_compute. reflexivity.
    + intros [|y b] x a E; [injection E as <- _; discriminate|]. injection E as _ E. by destruct b.
    + reflexivity.
Defined.

Lemma failed_page_ends_witness :
  let e := new_Error (js "denied") JUndef in
  eachItem (λ _ _, 0) (λ x _, x) 50 (λ _, (Some e, JNull)) 1 (Some identities_config)
    (λ (n : nat) _ _, (Datatypes.S n, JUndef)) [] 0%nat = r_ret 2%nat.
Proof.
  intros e.
  refine (failed_page_ends (λ _ _, 0) (λ x _, x) 50 (λ _, (Some e, JNull)) (λ (n : nat) _ _, (Datatypes.S n, JUndef)) identities_config
    (name_path (js "NextToken")) eq_refl eq_refl _ _ 0 [] e 0%nat eq_refl _).
  - name_ok_solve.
  - vm_compute. lia.
  - discriminate.
Defined.

Lemma tokens_shift_witness :
  let c := Paginator (JArr [JStr (js "KeyMarker"); JStr (js "VersionIdMarker")]) JUndef JUndef
             (JArr [JStr (js "NextKeyMarker"); JStr (js "NextVersionIdMarker")]) JUndef in
  ∃ next, nextPage (λ _ _, 0) (λ x _, x) 50 (Some c) (JObj [(js "NextVersionIdMarker", JStr (js "v7"))]) [] = r_ret (Some next) ∧
    obj_prop next (js "KeyMarker") = JStr (js "v7") ∧ obj_prop next (js "VersionIdMarker") = JUndef.
Proof.
  intros c.
  refine (tokens_shift (λ _ _, 0) (λ x _, x) 50 c (js "KeyMarker") (js "VersionIdMarker") (name_path (js "NextKeyMarker"))
    (name_path (js "NextVersionIdMarker")) (JObj [(js "NextVersionIdMarker", JStr (js "v7"))]) [] eq_refl eq_refl eq_refl
    _ _ _ _ _ eq_refl eq_refl).
  - name_ok_solve.
  - name_ok_solve.
  - vm_compute. lia.
  - vm_compute. lia.
  - vm_compute. discriminate.
Defined.
