(* ===== verification/Sax.v ===== *)
(** * The XML parser: characters to events

    The sax package of the action (dist/index.js 29401-30979): a state machine
    that reads a document one character at a time and calls a handler for each
    piece it recognizes.

    This is the parser as xml2js creates it: strict, without the options
    [trim], [normalize] and [xmlns], so the states that read a script element
    are never entered and [attribList] stays empty.  The handlers do not decide
    what the parser does next, so a call of one is an event of the log;
    [resuming] says that the error handler calls [resume].  The stack [tags]
    has the innermost element first. *)

From stdpp Require Import base gmap strings list.
From Stdlib Require Import ZArith Lia.
From coqutil Require Import Datatypes.RecordSetters.
From S2P Require Import Prelude JsValue Json JsText SignersLegacy.

Import DoubleBraceUpdate.
Local Open Scope Z_scope.

(** ** Characters *)

Abbreviation TAB := 9 (only parsing).
Abbreviation LF := 10 (only parsing).
Abbreviation CR := 13 (only parsing).
Abbreviation SP := 32 (only parsing).
Abbreviation BANG := 33 (only parsing).
Abbreviation QUOT := 34 (only parsing).
Abbreviation AMP := 38 (only parsing).
Abbreviation APOS := 39 (only parsing).
Abbreviation DASH := 45 (only parsing).
Abbreviation SLASH := 47 (only parsing).
Abbreviation SEMI := 59 (only parsing).
Abbreviation LT := 60 (only parsing).
Abbreviation EQUALS := 61 (only parsing).
Abbreviation GT := 62 (only parsing).
Abbreviation QUERY := 63 (only parsing).
Abbreviation LBRACK := 91 (only parsing).
Abbreviation RBRACK := 93 (only parsing).

(** The character classes. *)
Definition whitespace (c : Z) : bool := Z.eqb c CR || Z.eqb c LF || Z.eqb c TAB || Z.eqb c SP.
Definition is_quote (c : Z) : bool := Z.eqb c APOS || Z.eqb c QUOT.
Definition attribEnd (c : Z) : bool := whitespace c || Z.eqb c GT.

Definition in_range (lo hi c : Z) : bool := Z.leb lo c && Z.leb c hi.

Definition nameStart (c : Z) : bool :=
  Z.eqb c 58 || Z.eqb c 95 || in_range 65 90 c || in_range 97 122 c ||
  in_range 0xC0 0xD6 c || in_range 0xD8 0xF6 c || in_range 0xF8 0x2FF c || in_range 0x370 0x37D c ||
  in_range 0x37F 0x1FFF c || in_range 0x200C 0x200D c || in_range 0x2070 0x218F c ||
  in_range 0x2C00 0x2FEF c || in_range 0x3001 0xD7FF c || in_range 0xF900 0xFDCF c ||
  in_range 0xFDF0 0xFFFD c.
Definition nameBody (c : Z) : bool :=
  nameStart c || Z.eqb c 0xB7 || in_range 0x300 0x36F c || in_range 0x203F 0x2040 c ||
  Z.eqb c 46 || in_range 48 57 c || Z.eqb c 45.
Definition entityStart (c : Z) : bool := Z.eqb c 35 || nameStart c.
Definition entityBody (c : Z) : bool := Z.eqb c 35 || nameBody c.

(** ** Entities *)

Definition XML_ENTITIES : list (string * Z) :=
  [("amp", 38); ("gt", 62); ("lt", 60); ("quot", 34); ("apos", 39)].

Definition ENTITIES_1 : list (string * Z) :=
  [("AElig", 198); ("Aacute", 193); ("Acirc", 194); ("Agrave", 192); ("Aring", 197); ("Atilde", 195);
   ("Auml", 196); ("Ccedil", 199); ("ETH", 208); ("Eacute", 201); ("Ecirc", 202); ("Egrave", 200);
   ("Euml", 203); ("Iacute", 205); ("Icirc", 206); ("Igrave", 204); ("Iuml", 207); ("Ntilde", 209);
   ("Oacute", 211); ("Ocirc", 212); ("Ograve", 210); ("Oslash", 216); ("Otilde", 213); ("Ouml", 214);
   ("THORN", 222); ("Uacute", 218); ("Ucirc", 219); ("Ugrave", 217); ("Uuml", 220); ("Yacute", 221);
   ("aacute", 225); ("acirc", 226); ("aelig", 230); ("agrave", 224); ("aring", 229); ("atilde", 227);
   ("auml", 228); ("ccedil", 231); ("eacute", 233); ("ecirc", 234); ("egrave", 232); ("eth", 240);
   ("euml", 235); ("iacute", 237); ("icirc", 238); ("igrave", 236); ("iuml", 239); ("ntilde", 241);
   ("oacute", 243); ("ocirc", 244); ("ograve", 242); ("oslash", 248); ("otilde", 245); ("ouml", 246);
   ("szlig", 223); ("thorn", 254); ("uacute", 250); ("ucirc", 251); ("ugrave", 249); ("uuml", 252);
   ("yacute", 253); ("yuml", 255); ("copy", 169); ("reg", 174); ("nbsp", 160); ("iexcl", 161); ("cent", 162);
   ("pound", 163); ("curren", 164); ("yen", 165); ("brvbar", 166); ("sect", 167); ("uml", 168); ("ordf", 170);
   ("laquo", 171); ("not", 172); ("shy", 173); ("macr", 175); ("deg", 176); ("plusmn", 177); ("sup1", 185);
   ("sup2", 178); ("sup3", 179); ("acute", 180); ("micro", 181); ("para", 182); ("middot", 183);
   ("cedil", 184); ("ordm", 186); ("raquo", 187); ("frac14", 188); ("frac12", 189); ("frac34", 190);
   ("iquest", 191); ("times", 215); ("divide", 247); ("OElig", 338); ("oelig", 339); ("Scaron", 352);
   ("scaron", 353); ("Yuml", 376); ("fnof", 402); ("circ", 710); ("tilde", 732); ("Alpha", 913); ("Beta", 914);
   ("Gamma", 915); ("Delta", 916); ("Epsilon", 917); ("Zeta", 918); ("Eta", 919); ("Theta", 920);
   ("Iota", 921); ("Kappa", 922); ("Lambda", 923); ("Mu", 924); ("Nu", 925); ("Xi", 926); ("Omicron", 927);
   ("Pi", 928); ("Rho", 929); ("Sigma", 931); ("Tau", 932); ("Upsilon", 933)].

Definition ENTITIES_2 : list (string * Z) :=
  [("Phi", 934); ("Chi", 935); ("Psi", 936); ("Omega", 937); ("alpha", 945); ("beta", 946); ("gamma", 947);
   ("delta", 948); ("epsilon", 949); ("zeta", 950); ("eta", 951); ("theta", 952); ("iota", 953);
   ("kappa", 954); ("lambda", 955); ("mu", 956); ("nu", 957); ("xi", 958); ("omicron", 959); ("pi", 960);
   ("rho", 961); ("sigmaf", 962); ("sigma", 963); ("tau", 964); ("upsilon", 965); ("phi", 966); ("chi", 967);
   ("psi", 968); ("omega", 969); ("thetasym", 977); ("upsih", 978); ("piv", 982); ("ensp", 8194);
   ("emsp", 8195); ("thinsp", 8201); ("zwnj", 8204); ("zwj", 8205); ("lrm", 8206); ("rlm", 8207);
   ("ndash", 8211); ("mdash", 8212); ("lsquo", 8216); ("rsquo", 8217); ("sbquo", 8218); ("ldquo", 8220);
   ("rdquo", 8221); ("bdquo", 8222); ("dagger", 8224); ("Dagger", 8225); ("bull", 8226); ("hellip", 8230);
   ("permil", 8240); ("prime", 8242); ("Prime", 8243); ("lsaquo", 8249); ("rsaquo", 8250); ("oline", 8254);
   ("frasl", 8260); ("euro", 8364); ("image", 8465); ("weierp", 8472); ("real", 8476); ("trade", 8482);
   ("alefsym", 8501); ("larr", 8592); ("uarr", 8593); ("rarr", 8594); ("darr", 8595); ("harr", 8596);
   ("crarr", 8629); ("lArr", 8656); ("uArr", 8657); ("rArr", 8658); ("dArr", 8659); ("hArr", 8660);
   ("forall", 8704); ("part", 8706); ("exist", 8707); ("empty", 8709); ("nabla", 8711); ("isin", 8712);
   ("notin", 8713); ("ni", 8715); ("prod", 8719); ("sum", 8721); ("minus", 8722); ("lowast", 8727);
   ("radic", 8730); ("prop", 8733); ("infin", 8734); ("ang", 8736); ("and", 8743); ("or", 8744); ("cap", 8745);
   ("cup", 8746); ("int", 8747); ("there4", 8756); ("sim", 8764); ("cong", 8773); ("asymp", 8776);
   ("ne", 8800); ("equiv", 8801); ("le", 8804); ("ge", 8805); ("sub", 8834); ("sup", 8835); ("nsub", 8836);
   ("sube", 8838); ("supe", 8839); ("oplus", 8853); ("otimes", 8855); ("perp", 8869); ("sdot", 8901);
   ("lceil", 8968); ("rceil", 8969); ("lfloor", 8970); ("rfloor", 8971); ("lang", 9001); ("rang", 9002);
   ("loz", 9674); ("spades", 9824); ("clubs", 9827); ("hearts", 9829); ("diams", 9830)].

(** [sax.ENTITIES], after its numbers are made characters. *)
Definition ENTITIES : list (jsstr * jsstr) :=
  (λ e : string * Z, (js e.1, [e.2])) <$> XML_ENTITIES ++ ENTITIES_1 ++ ENTITIES_2.

(** What [ENTITIES[name]] is as text for a name the table inherits: the
    functions of Object.prototype, and the table itself for [__proto__]. *)
Definition inherited_text (name : jsstr) : jsstr :=
  if str_eqb name (js "__proto__") then js "[object Object]"
  else js "function " ++ (if str_eqb name (js "constructor") then js "Object" else name) ++
       js "() { [native code] }".

Definition entity_text (name : jsstr) : option jsstr :=
  match obj_get name ENTITIES with
  | Some s => Some s
  | None => if str_mem name object_prototype then Some (inherited_text name) else None
  end.

(** [entity.toLowerCase()]: above ASCII only the Kelvin sign has an ASCII
    letter as its lower case; the other letters are in no name of the table and
    no digit, so they are left as they are. *)
Definition entity_lower (s : jsstr) : jsstr :=
  (λ c, if Z.eqb c 0x212A then 107 else to_lower_unit c) <$> s.

(** ** The parser *)

Inductive sax_state :=
| BEGIN | BEGIN_WHITESPACE | TEXT | TEXT_ENTITY | OPEN_WAKA
| SGML_DECL | SGML_DECL_QUOTED | DOCTYPE | DOCTYPE_QUOTED | DOCTYPE_DTD | DOCTYPE_DTD_QUOTED
| COMMENT_STARTING | COMMENT | COMMENT_ENDING | COMMENT_ENDED
| CDATA | CDATA_ENDING | CDATA_ENDING_2
| PROC_INST | PROC_INST_BODY | PROC_INST_ENDING
| OPEN_TAG | OPEN_TAG_SLASH | ATTRIB | ATTRIB_NAME | ATTRIB_NAME_SAW_WHITE
| ATTRIB_VALUE | ATTRIB_VALUE_QUOTED | ATTRIB_VALUE_CLOSED | ATTRIB_VALUE_UNQUOTED
| ATTRIB_VALUE_ENTITY_Q | ATTRIB_VALUE_ENTITY_U
| CLOSE_TAG | CLOSE_TAG_SAW_WHITE.
#[global] Instance sax_state_eq_dec : EqDecision sax_state.
Proof. solve_decision. Defined.

Record tag := Tag { tag_name : jsstr; attributes : list (jsstr * jsstr); isSelfClosing : bool }.

(** The calls of the handlers. *)
Inductive sax_event :=
| OnText (text : jsstr)
| OnProcessingInstruction (name body : jsstr)
| OnSgmlDeclaration (decl : jsstr)
| OnDoctype (doctype : jsstr)
| OnComment (comment : jsstr)
| OnOpenTagStart (t : tag)
| OnAttribute (name value : jsstr)
| OnOpenTag (t : tag)
| OnCloseTag (name : jsstr)
| OnOpenCdata
| OnCdata (cdata : jsstr)
| OnCloseCdata
| OnError (e : jserror)
| OnEnd.

(** Where the parser is in the document, and the character it reads. *)
Record place := Place {
  position : Z;
  line : Z;
  column : Z;
  startTagPosition : Z;
  current : jsstr;
}.

(** [doctype] is [None] once it is [true]; [bufferCheckPosition] is [None] when
    it is NaN. *)
Record parser := Parser {
  state : sax_state;
  at_ : place;
  q : jsstr;
  comment : jsstr;
  sgmlDecl : jsstr;
  textNode : jsstr;
  tagName : jsstr;
  doctype : option jsstr;
  procInstName : jsstr;
  procInstBody : jsstr;
  entity : jsstr;
  attribName : jsstr;
  attribValue : jsstr;
  cdata : jsstr;
  tags : list tag;
  ptag : option tag;
  closed : bool;
  closedRoot : bool;
  sawRoot : bool;
  perror : option jserror;
  bufferCheckPosition : option Z;
  resuming : bool;
  log : list sax_event;
}.

Definition MAX_BUFFER_LENGTH : Z := 64 * 1024.

(** [SAXParser(strict, opt)]; called again by [end] on the same object, which
    keeps its handlers. *)
Definition SAXParser (resuming : bool) (log : list sax_event) : parser :=
  Parser BEGIN (Place 0 0 0 0 []) [] [] [] [] [] (Some []) [] [] [] [] [] [] [] None false false false None
         (Some MAX_BUFFER_LENGTH) resuming log.

Abbreviation sax := (ST parser).

(** ** The helpers *)

Definition emit (e : sax_event) (p : parser) : parser := p {{ log := log p ++ [e] }}.

Definition closeText (p : parser) : parser :=
  let p := if str_eqb (textNode p) [] then p else emit (OnText (textNode p)) p in
  p {{ textNode := [] }}.

Definition emitNode (e : sax_event) (p : parser) : parser :=
  emit e (if str_eqb (textNode p) [] then p else closeText p).

(** [error(parser, er)]. *)
Definition fail_with (er : jsstr) (p : parser) : parser :=
  let p := closeText p in
  let e := js_error (er ++ [10] ++ js "Line: " ++ Z_to_str (line (at_ p)) ++
                     [10] ++ js "Column: " ++ Z_to_str (column (at_ p)) ++
                     [10] ++ js "Char: " ++ current (at_ p)) in
  let p := emit (OnError e) (p {{ perror := Some e }}) in
  if resuming p then p {{ perror := None }} else p.

Definition strictFail (message : string) (p : parser) : parser := fail_with (js message) p.

Definition newTag (p : parser) : parser :=
  let t := Tag (tagName p) [] false in
  emitNode (OnOpenTagStart t) (p {{ ptag := Some t }}).

Definition null_error (what : string) : jserror :=
  mk_error (js "TypeError") (js "Cannot read properties of null (reading '" ++ js what ++ js "')").

(** [tag.attributes[name] = value]: text is no prototype, so that assignment
    to [__proto__] does nothing. *)
Definition set_attribute (name value : jsstr) (t : tag) : tag :=
  if str_eqb name (js "__proto__") then t else t {{ attributes := obj_set name value (attributes t) }}.

(** [attrib(parser)]; an attribute called [hasOwnProperty] hides the method. *)
Definition attrib : sax () := λ p,
  match ptag p with
  | None => (p, Throw (null_error "attributes"))
  | Some t =>
    match obj_get (js "hasOwnProperty") (attributes t), obj_get (attribName p) (attributes t) with
    | Some _, _ => (p, Throw (mk_error (js "TypeError") (js "parser.tag.attributes.hasOwnProperty is not a function")))
    | None, Some _ => (p {{ attribName := []; attribValue := [] }}, Ok ())
    | None, None =>
      let p := p {{ ptag := Some (set_attribute (attribName p) (attribValue p) t) }} in
      let p := emitNode (OnAttribute (attribName p) (attribValue p)) p in
      (p {{ attribName := []; attribValue := [] }}, Ok ())
    end
  end.

Definition openTag (selfClosing : bool) : sax () := λ p,
  match ptag p with
  | None => (p, Throw (mk_error (js "TypeError") (js "Cannot set properties of null (setting 'isSelfClosing')")))
  | Some t =>
    let t := t {{ isSelfClosing := selfClosing }} in
    let p := emitNode (OnOpenTag t) (p {{ ptag := Some t; sawRoot := true; tags := t :: tags p }}) in
    let p := if selfClosing then p else p {{ state := TEXT; ptag := None; tagName := [] }} in
    (p {{ attribName := []; attribValue := [] }}, Ok ())
  end.

(** The first loop of [closeTag]: from the innermost element outwards, an error
    for each that has another name; the elements outside the one found. *)
Fixpoint closes (name : jsstr) (l : list tag) (p : parser) : parser * option (list tag) :=
  match l with
  | [] => (p, None)
  | t :: l =>
    if str_eqb (tag_name t) name then (p, Some l)
    else closes name l (strictFail "Unexpected close tag" p)
  end.

(** Its second loop: [n] elements are closed. *)
Fixpoint pop_tags (n : nat) (p : parser) : parser :=
  match n, tags p with
  | S n, t :: l =>
    pop_tags n (emitNode (OnCloseTag (tag_name t)) (p {{ tags := l; ptag := Some t; tagName := tag_name t }}))
  | _, _ => p
  end.

Definition closeTag (p : parser) : parser :=
  if str_eqb (tagName p) [] then
    let p := strictFail "Weird empty close tag." p in
    p {{ textNode := textNode p ++ js "</>"; state := TEXT }}
  else
    match closes (tagName p) (tags p) p with
    | (p, None) =>
      let p := fail_with (js "Unmatched closing tag: " ++ tagName p) p in
      p {{ textNode := textNode p ++ js "</" ++ tagName p ++ js ">"; state := TEXT }}
    | (p, Some outer) =>
      let p := pop_tags (length (tags p) - length outer) p in
      let p := match outer with [] => p {{ closedRoot := true }} | _ => p end in
      p {{ tagName := []; attribValue := []; attribName := []; state := TEXT }}
    end.

(** [parseInt(s, radix)] for a radix of 10 or 16 and text without white space;
    [None] is NaN. *)
Definition digit_in (radix : Z) (c : Z) : option Z :=
  match hex_digit c with Some d => if Z.ltb d radix then Some d else None | None => None end.
Fixpoint digits_value (radix : Z) (acc : option Z) (s : jsstr) : option Z :=
  match s with
  | c :: s' =>
    match digit_in radix c with
    | Some d => digits_value radix (Some (default 0 acc * radix + d)) s'
    | None => acc
    end
  | [] => acc
  end.
Definition parse_int (radix : Z) (s : jsstr) : option Z :=
  let '(sign, s) := if starts_with (js "-") s then (-1, drop 1 s) else (1, s) in
  let s := if Z.eqb radix 16 && (starts_with (js "0x") s || starts_with (js "0X") s) then drop 2 s else s in
  Z.mul sign <$> digits_value radix None s.

(** [num.toString(radix).toLowerCase()]. *)
Definition number_text (radix : Z) (num : option Z) : jsstr :=
  match num with
  | None => js "nan"
  | Some n =>
    if Z.eqb radix 10 then num_to_str (num_of_Z n)
    else if Z.ltb n 0 then js "-" ++ radix_str radix (- n) else radix_str radix n
  end.

(** [String(num)]. *)
Definition shown_number (num : option Z) : jsstr :=
  match num with Some n => num_to_str (num_of_Z n) | None => js "NaN" end.

(** [String.fromCodePoint(num)]; [shown] is the argument in the message. *)
Definition fromCodePoint (num : option Z) (shown : jsstr) : result jserror jsstr :=
  match num with
  | Some n =>
    if Z.ltb n 0 || Z.ltb 0x10FFFF n
    then Throw (mk_error (js "RangeError") (js "Invalid code point " ++ shown))
    else Ok (utf16_point n)
  | None => Throw (mk_error (js "RangeError") (js "Invalid code point " ++ shown))
  end.

(** A reference without [#] has no number: [numStr] is empty and [num]
    undefined. *)
Definition parseEntity : sax jsstr := λ p,
  let name := entity p in
  let lower := entity_lower name in
  match entity_text name, entity_text lower with
  | Some s, _ => (p, Ok s)
  | None, Some s => (p, Ok s)
  | None, None =>
    let '(num, numStr, shown, digits) :=
      if starts_with (js "#") lower then
        if starts_with (js "#x") lower then
          let num := parse_int 16 (drop 2 lower) in
          (num, number_text 16 num, shown_number num, drop 2 lower)
        else
          let num := parse_int 10 (drop 1 lower) in
          (num, number_text 10 num, shown_number num, drop 1 lower)
      else (None, [], js "undefined", lower) in
    if negb (str_eqb numStr (drop_while (Z.eqb 48) digits)) then
      (strictFail "Invalid character entity" p, Ok (js "&" ++ name ++ js ";"))
    else (p, fromCodePoint num shown)
  end.

Definition beginWhiteSpace (c : Z) (p : parser) : parser :=
  if Z.eqb c LT then p {{ state := OPEN_WAKA; at_->startTagPosition := position (at_ p) }}
  else if negb (whitespace c) then
    let p := strictFail "Non-whitespace before first tag." p in
    p {{ textNode := [c]; state := TEXT }}
  else p.

(** ** The buffers *)

Inductive buffer :=
| BComment | BSgmlDecl | BTextNode | BTagName | BDoctype | BProcInstName | BProcInstBody
| BEntity | BAttribName | BAttribValue | BCdata.

Definition buffers : list buffer :=
  [BComment; BSgmlDecl; BTextNode; BTagName; BDoctype; BProcInstName; BProcInstBody;
   BEntity; BAttribName; BAttribValue; BCdata].

Definition buffer_name (b : buffer) : jsstr :=
  match b with
  | BComment => js "comment" | BSgmlDecl => js "sgmlDecl" | BTextNode => js "textNode"
  | BTagName => js "tagName" | BDoctype => js "doctype" | BProcInstName => js "procInstName"
  | BProcInstBody => js "procInstBody" | BEntity => js "entity" | BAttribName => js "attribName"
  | BAttribValue => js "attribValue" | BCdata => js "cdata"
  end.

(** [parser[name].length]: undefined for a [doctype] that is [true]. *)
Definition buffer_length (b : buffer) (p : parser) : option Z :=
  let len s := Some (Z.of_nat (length s)) in
  match b with
  | BComment => len (comment p) | BSgmlDecl => len (sgmlDecl p) | BTextNode => len (textNode p)
  | BTagName => len (tagName p) | BDoctype => Z.of_nat ∘ length <$> doctype p
  | BProcInstName => len (procInstName p) | BProcInstBody => len (procInstBody p)
  | BEntity => len (entity p) | BAttribName => len (attribName p) | BAttribValue => len (attribValue p)
  | BCdata => len (cdata p)
  end.

(** One buffer of [checkBufferLength]; [None] is a maximum that is NaN. *)
Definition check_buffer (st : parser * option Z) (b : buffer) : parser * option Z :=
  let '(p, maxActual) := st in
  match buffer_length b p with
  | None => (p, None)
  | Some len =>
    (if Z.ltb MAX_BUFFER_LENGTH len then
       match b with
       | BTextNode => closeText p
       | BCdata => (emitNode (OnCdata (cdata p)) p) {{ cdata := [] }}
       | _ => fail_with (js "Max buffer length exceeded: " ++ buffer_name b) p
       end
     else p, Z.max len <$> maxActual)
  end.

Definition checkBufferLength (p : parser) : parser :=
  let '(p, maxActual) := foldl check_buffer (p, Some 0) buffers in
  p {{ bufferCheckPosition := (λ m, MAX_BUFFER_LENGTH - m + position (at_ p)) <$> maxActual }}.

Definition flushBuffers (p : parser) : parser :=
  let p := closeText p in
  if str_eqb (cdata p) [] then p else (emitNode (OnCdata (cdata p)) p) {{ cdata := [] }}.

Definition resume (p : parser) : parser := p {{ perror := None }}.

(** ** One character in each state *)

(** A step that cannot throw. *)
Definition plain (f : parser → parser) : sax () := st_modify f.

(** The start of an iteration: the character is recorded and counted. *)
Definition advance (c : Z) (pl : place) : place :=
  let pl := pl {{ position := position pl + 1 }} in
  if Z.eqb c LF then pl {{ line := line pl + 1; column := 0 }} else pl {{ column := column pl + 1 }}.
Definition read_char (c : Z) (p : parser) : parser := p {{ at_ := (advance c (at_ p)) {{ current := [c] }} }}.

Definition in_root (p : parser) : bool := sawRoot p && negb (closedRoot p).

(** The inner loop of the state TEXT: the text up to the next markup, that
    character ([None] at the end of the chunk), and what follows it. *)
Fixpoint text_run (c : Z) (rest : jsstr) (pl : place) : jsstr * option Z * jsstr * place :=
  if Z.eqb c LT || Z.eqb c AMP then ([], Some c, rest, pl)
  else match rest with
       | [] => ([c], None, [], pl)
       | c' :: rest =>
         let '(text, stop, rest, pl) := text_run c' rest (advance c' pl) in (c :: text, stop, rest, pl)
       end.

Definition text_outside (c : option Z) (p : parser) : parser :=
  match c with
  | Some c =>
    if Z.eqb c LT then p {{ state := OPEN_WAKA; at_->startTagPosition := position (at_ p) }}
    else
      let p := if negb (whitespace c) && (negb (sawRoot p) || closedRoot p)
               then strictFail "Text data outside of root node." p else p in
      if Z.eqb c AMP then p {{ state := TEXT_ENTITY }} else p {{ textNode := textNode p ++ [c] }}
  | None =>
    if negb (sawRoot p) || closedRoot p then strictFail "Text data outside of root node." p else p
  end.

Definition on_text (c : Z) (rest : jsstr) (p : parser) : parser * jsstr :=
  if in_root p then
    let '(text, stop, rest, pl) := text_run c rest (at_ p) in
    (text_outside stop (p {{ at_ := pl; textNode := textNode p ++ text }}), rest)
  else (text_outside (Some c) p, rest).

Definition on_begin (c : Z) (p : parser) : parser :=
  let p := p {{ state := BEGIN_WHITESPACE }} in
  if Z.eqb c 0xFEFF then p else beginWhiteSpace c p.

(** [new Array(pad).join(' ')] has one space less than [pad]. *)
Definition on_open_waka (c : Z) (p : parser) : parser :=
  if Z.eqb c BANG then p {{ state := SGML_DECL; sgmlDecl := [] }}
  else if whitespace c then p
  else if nameStart c then p {{ state := OPEN_TAG; tagName := [c] }}
  else if Z.eqb c SLASH then p {{ state := CLOSE_TAG; tagName := [] }}
  else if Z.eqb c QUERY then p {{ state := PROC_INST; procInstName := []; procInstBody := [] }}
  else
    let p := strictFail "Unencoded <" p in
    let pl := at_ p in
    let pad := if Z.ltb (startTagPosition pl + 1) (position pl)
               then replicate (Z.to_nat (position pl - startTagPosition pl - 1)) SP else [] in
    p {{ textNode := textNode p ++ [LT] ++ pad ++ [c]; state := TEXT }}.

Definition on_sgml_decl (c : Z) (p : parser) : parser :=
  let decl := sgmlDecl p ++ [c] in
  if str_eqb (to_upper decl) (js "[CDATA[") then
    (emitNode OnOpenCdata p) {{ state := CDATA; sgmlDecl := []; cdata := [] }}
  else if str_eqb decl (js "--") then p {{ state := COMMENT; comment := []; sgmlDecl := [] }}
  else if str_eqb (to_upper decl) (js "DOCTYPE") then
    let p := p {{ state := DOCTYPE }} in
    let p := if negb (bool_decide (doctype p = Some [])) || sawRoot p
             then strictFail "Inappropriately located doctype declaration" p else p in
    p {{ doctype := Some []; sgmlDecl := [] }}
  else if Z.eqb c GT then
    (emitNode (OnSgmlDeclaration (sgmlDecl p)) p) {{ sgmlDecl := []; state := TEXT }}
  else if is_quote c then p {{ state := SGML_DECL_QUOTED; sgmlDecl := decl }}
  else p {{ sgmlDecl := decl }}.

Definition on_sgml_decl_quoted (c : Z) (p : parser) : parser :=
  let p := if str_eqb [c] (q p) then p {{ state := SGML_DECL; q := [] }} else p in
  p {{ sgmlDecl := sgmlDecl p ++ [c] }}.

(** [parser.doctype += c]. *)
Definition doctype_text (p : parser) : jsstr := default (js "true") (doctype p).
Definition add_doctype (c : Z) (p : parser) : parser := p {{ doctype := Some (doctype_text p ++ [c]) }}.

Definition on_doctype (c : Z) (p : parser) : parser :=
  if Z.eqb c GT then
    let p := p {{ state := TEXT }} in (emitNode (OnDoctype (doctype_text p)) p) {{ doctype := None }}
  else
    let p := add_doctype c p in
    if Z.eqb c LBRACK then p {{ state := DOCTYPE_DTD }}
    else if is_quote c then p {{ state := DOCTYPE_QUOTED; q := [c] }} else p.

Definition on_doctype_quoted (c : Z) (p : parser) : parser :=
  let p := add_doctype c p in
  if str_eqb [c] (q p) then p {{ q := []; state := DOCTYPE }} else p.

Definition on_doctype_dtd (c : Z) (p : parser) : parser :=
  let p := add_doctype c p in
  if Z.eqb c RBRACK then p {{ state := DOCTYPE }}
  else if is_quote c then p {{ state := DOCTYPE_DTD_QUOTED; q := [c] }} else p.

Definition on_doctype_dtd_quoted (c : Z) (p : parser) : parser :=
  let p := add_doctype c p in
  if str_eqb [c] (q p) then p {{ state := DOCTYPE_DTD; q := [] }} else p.

Definition on_comment (c : Z) (p : parser) : parser :=
  if Z.eqb c DASH then p {{ state := COMMENT_ENDING }} else p {{ comment := comment p ++ [c] }}.

Definition on_comment_ending (c : Z) (p : parser) : parser :=
  if Z.eqb c DASH then
    let p := p {{ state := COMMENT_ENDED }} in
    let p := if str_eqb (comment p) [] then p else emitNode (OnComment (comment p)) p in
    p {{ comment := [] }}
  else p {{ comment := comment p ++ [DASH; c]; state := COMMENT }}.

Definition on_comment_ended (c : Z) (p : parser) : parser :=
  if negb (Z.eqb c GT) then
    let p := strictFail "Malformed comment" p in
    p {{ comment := comment p ++ [DASH; DASH; c]; state := COMMENT }}
  else p {{ state := TEXT }}.

Definition on_cdata (c : Z) (p : parser) : parser :=
  if Z.eqb c RBRACK then p {{ state := CDATA_ENDING }} else p {{ cdata := cdata p ++ [c] }}.

Definition on_cdata_ending (c : Z) (p : parser) : parser :=
  if Z.eqb c RBRACK then p {{ state := CDATA_ENDING_2 }}
  else p {{ cdata := cdata p ++ [RBRACK; c]; state := CDATA }}.

Definition on_cdata_ending_2 (c : Z) (p : parser) : parser :=
  if Z.eqb c GT then
    let p := if str_eqb (cdata p) [] then p else emitNode (OnCdata (cdata p)) p in
    (emitNode OnCloseCdata p) {{ cdata := []; state := TEXT }}
  else if Z.eqb c RBRACK then p {{ cdata := cdata p ++ [RBRACK] }}
  else p {{ cdata := cdata p ++ [RBRACK; RBRACK; c]; state := CDATA }}.

Definition on_proc_inst (c : Z) (p : parser) : parser :=
  if Z.eqb c QUERY then p {{ state := PROC_INST_ENDING }}
  else if whitespace c then p {{ state := PROC_INST_BODY }}
  else p {{ procInstName := procInstName p ++ [c] }}.

Definition on_proc_inst_body (c : Z) (p : parser) : parser :=
  if str_eqb (procInstBody p) [] && whitespace c then p
  else if Z.eqb c QUERY then p {{ state := PROC_INST_ENDING }}
  else p {{ procInstBody := procInstBody p ++ [c] }}.

Definition on_proc_inst_ending (c : Z) (p : parser) : parser :=
  if Z.eqb c GT then
    (emitNode (OnProcessingInstruction (procInstName p) (procInstBody p)) p)
      {{ procInstName := []; procInstBody := []; state := TEXT }}
  else p {{ procInstBody := procInstBody p ++ [QUERY; c]; state := PROC_INST_BODY }}.

Definition on_open_tag (c : Z) : sax () := λ p,
  if nameBody c then (p {{ tagName := tagName p ++ [c] }}, Ok ())
  else
    let p := newTag p in
    if Z.eqb c GT then openTag false p
    else if Z.eqb c SLASH then (p {{ state := OPEN_TAG_SLASH }}, Ok ())
    else
      let p := if negb (whitespace c) then strictFail "Invalid character in tag name" p else p in
      (p {{ state := ATTRIB }}, Ok ()).

Definition on_open_tag_slash (c : Z) : sax () :=
  if Z.eqb c GT then openTag true ;;; plain closeTag
  else plain (λ p, (strictFail "Forward-slash in opening tag not followed by >" p) {{ state := ATTRIB }}).

Definition on_attrib (c : Z) : sax () :=
  if whitespace c then st_ret ()
  else if Z.eqb c GT then openTag false
  else if Z.eqb c SLASH then plain (λ p, p {{ state := OPEN_TAG_SLASH }})
  else if nameStart c then plain (λ p, p {{ attribName := [c]; attribValue := []; state := ATTRIB_NAME }})
  else plain (strictFail "Invalid attribute name").

Definition on_attrib_name (c : Z) : sax () :=
  if Z.eqb c EQUALS then plain (λ p, p {{ state := ATTRIB_VALUE }})
  else if Z.eqb c GT then
    plain (λ p, let p := strictFail "Attribute without value" p in p {{ attribValue := attribName p }}) ;;;
    attrib ;;; openTag false
  else if whitespace c then plain (λ p, p {{ state := ATTRIB_NAME_SAW_WHITE }})
  else if nameBody c then plain (λ p, p {{ attribName := attribName p ++ [c] }})
  else plain (strictFail "Invalid attribute name").

(** An attribute without a value replaces an earlier one of the same name. *)
Definition valueless_attribute : sax () := λ p,
  let p := strictFail "Attribute without value" p in
  match ptag p with
  | None => (p, Throw (null_error "attributes"))
  | Some t =>
    let p := p {{ ptag := Some (set_attribute (attribName p) [] t); attribValue := [] }} in
    ((emitNode (OnAttribute (attribName p) []) p) {{ attribName := [] }}, Ok ())
  end.

Definition on_attrib_name_saw_white (c : Z) : sax () :=
  if Z.eqb c EQUALS then plain (λ p, p {{ state := ATTRIB_VALUE }})
  else if whitespace c then st_ret ()
  else
    valueless_attribute ;;;
    (if Z.eqb c GT then openTag false
     else if nameStart c then plain (λ p, p {{ attribName := [c]; state := ATTRIB_NAME }})
     else plain (λ p, (strictFail "Invalid attribute name" p) {{ state := ATTRIB }})).

Definition on_attrib_value (c : Z) (p : parser) : parser :=
  if whitespace c then p
  else if is_quote c then p {{ q := [c]; state := ATTRIB_VALUE_QUOTED }}
  else (strictFail "Unquoted attribute value" p) {{ state := ATTRIB_VALUE_UNQUOTED; attribValue := [c] }}.

Definition on_attrib_value_quoted (c : Z) : sax () := λ p,
  if negb (str_eqb [c] (q p)) then
    (if Z.eqb c AMP then p {{ state := ATTRIB_VALUE_ENTITY_Q }}
     else p {{ attribValue := attribValue p ++ [c] }}, Ok ())
  else (attrib ;;; plain (λ p, p {{ q := []; state := ATTRIB_VALUE_CLOSED }})) p.

Definition on_attrib_value_closed (c : Z) : sax () :=
  if whitespace c then plain (λ p, p {{ state := ATTRIB }})
  else if Z.eqb c GT then openTag false
  else if Z.eqb c SLASH then plain (λ p, p {{ state := OPEN_TAG_SLASH }})
  else if nameStart c then
    plain (λ p, (strictFail "No whitespace between attributes" p)
                  {{ attribName := [c]; attribValue := []; state := ATTRIB_NAME }})
  else plain (strictFail "Invalid attribute name").

Definition on_attrib_value_unquoted (c : Z) : sax () :=
  if negb (attribEnd c) then
    plain (λ p, if Z.eqb c AMP then p {{ state := ATTRIB_VALUE_ENTITY_U }}
                else p {{ attribValue := attribValue p ++ [c] }})
  else
    attrib ;;;
    (if Z.eqb c GT then openTag false else plain (λ p, p {{ state := ATTRIB }})).

Definition on_close_tag (c : Z) (p : parser) : parser :=
  if str_eqb (tagName p) [] then
    if whitespace c then p
    else if negb (nameStart c) then strictFail "Invalid tagname in closing tag." p
    else p {{ tagName := [c] }}
  else if Z.eqb c GT then closeTag p
  else if nameBody c then p {{ tagName := tagName p ++ [c] }}
  else
    let p := if negb (whitespace c) then strictFail "Invalid tagname in closing tag" p else p in
    p {{ state := CLOSE_TAG_SAW_WHITE }}.

Definition on_close_tag_saw_white (c : Z) (p : parser) : parser :=
  if whitespace c then p
  else if Z.eqb c GT then closeTag p
  else strictFail "Invalid characters in closing tag" p.

(** The three states that read a reference: where they return to and the
    buffer they add to.  [parser[buffer] += parseEntity(parser)] reads the
    buffer before the call, so an error's [closeText] does not take its text
    away. *)
Definition returnState (s : sax_state) : sax_state :=
  match s with
  | ATTRIB_VALUE_ENTITY_Q => ATTRIB_VALUE_QUOTED
  | ATTRIB_VALUE_ENTITY_U => ATTRIB_VALUE_UNQUOTED
  | _ => TEXT
  end.
Definition entity_buffer (p : parser) : jsstr :=
  match state p with TEXT_ENTITY => textNode p | _ => attribValue p end.
Definition set_entity_buffer (s : jsstr) (p : parser) : parser :=
  match state p with TEXT_ENTITY => p {{ textNode := s }} | _ => p {{ attribValue := s }} end.

Definition on_entity (c : Z) : sax () := λ p,
  if Z.eqb c SEMI then
    let before := entity_buffer p in
    (s <- parseEntity ;;
     plain (λ p, (set_entity_buffer (before ++ s) p) {{ entity := []; state := returnState (state p) }})) p
  else if (if str_eqb (entity p) [] then entityStart c else entityBody c) then
    (p {{ entity := entity p ++ [c] }}, Ok ())
  else
    let p := strictFail "Invalid character in entity name" p in
    let p := set_entity_buffer (entity_buffer p ++ js "&" ++ entity p ++ [c]) p in
    (p {{ entity := []; state := returnState (state p) }}, Ok ()).

(** ** Reading a chunk *)

(** The body of the loop after the bookkeeping, in a state other than TEXT.  The
    state COMMENT_STARTING is never entered, and has no case of its own. *)
Definition step_in (s : sax_state) (c : Z) : sax () :=
  match s with
  | BEGIN => plain (on_begin c)
  | BEGIN_WHITESPACE => plain (beginWhiteSpace c)
  | OPEN_WAKA => plain (on_open_waka c)
  | SGML_DECL => plain (on_sgml_decl c)
  | SGML_DECL_QUOTED => plain (on_sgml_decl_quoted c)
  | DOCTYPE => plain (on_doctype c)
  | DOCTYPE_QUOTED => plain (on_doctype_quoted c)
  | DOCTYPE_DTD => plain (on_doctype_dtd c)
  | DOCTYPE_DTD_QUOTED => plain (on_doctype_dtd_quoted c)
  | COMMENT => plain (on_comment c)
  | COMMENT_ENDING => plain (on_comment_ending c)
  | COMMENT_ENDED => plain (on_comment_ended c)
  | CDATA => plain (on_cdata c)
  | CDATA_ENDING => plain (on_cdata_ending c)
  | CDATA_ENDING_2 => plain (on_cdata_ending_2 c)
  | PROC_INST => plain (on_proc_inst c)
  | PROC_INST_BODY => plain (on_proc_inst_body c)
  | PROC_INST_ENDING => plain (on_proc_inst_ending c)
  | OPEN_TAG => on_open_tag c
  | OPEN_TAG_SLASH => on_open_tag_slash c
  | ATTRIB => on_attrib c
  | ATTRIB_NAME => on_attrib_name c
  | ATTRIB_NAME_SAW_WHITE => on_attrib_name_saw_white c
  | ATTRIB_VALUE => plain (on_attrib_value c)
  | ATTRIB_VALUE_QUOTED => on_attrib_value_quoted c
  | ATTRIB_VALUE_CLOSED => on_attrib_value_closed c
  | ATTRIB_VALUE_UNQUOTED => on_attrib_value_unquoted c
  | CLOSE_TAG => plain (on_close_tag c)
  | CLOSE_TAG_SAW_WHITE => plain (on_close_tag_saw_white c)
  | TEXT_ENTITY | ATTRIB_VALUE_ENTITY_Q | ATTRIB_VALUE_ENTITY_U => on_entity c
  | TEXT | COMMENT_STARTING => st_throw (js_error (js "[object Object]"))
  end.

(** One iteration: it returns what is left of the chunk. *)
Definition iteration (c : Z) (rest : jsstr) : sax jsstr := λ p,
  let p := read_char c p in
  match state p with
  | TEXT => let '(p, rest) := on_text c rest p in (p, Ok rest)
  | s => (step_in s c ;;; st_ret rest) p
  end.

(** Every iteration takes at least one character, so the length of the chunk is
    enough fuel. *)
Fixpoint write_loop (fuel : nat) (chunk : jsstr) : sax () :=
  match fuel, chunk with
  | S fuel, c :: rest => rest <- iteration c rest ;; write_loop fuel rest
  | _, _ => plain (λ p, p {{ at_->current := [] }})
  end.

Definition end_ (p : parser) : parser :=
  let p := if in_root p then strictFail "Unclosed root tag" p else p in
  let p := if bool_decide (state p = BEGIN) || bool_decide (state p = BEGIN_WHITESPACE) ||
              bool_decide (state p = TEXT)
           then p else strictFail "Unexpected end" p in
  let p := closeText p in
  let p := emit OnEnd (p {{ at_->current := []; closed := true }}) in
  SAXParser (resuming p) (log p).

(** [write(chunk)]; [None] is null. *)
Definition write (chunk : option jsstr) : sax () := λ p,
  match perror p with
  | Some e => (p, Throw e)
  | None =>
    if closed p then (strictFail "Cannot write after close. Assign an onready handler." p, Ok ())
    else match chunk with
    | None => (end_ p, Ok ())
    | Some chunk =>
      (write_loop (length chunk) chunk ;;;
       plain (λ p, match bufferCheckPosition p with
                   | Some n => if Z.leb n (position (at_ p)) then checkBufferLength p else p
                   | None => p
                   end)) p
    end
  end.

Definition close : sax () := write None.

