(* ===== verification/SaxEvents.v ===== *)
(** * What every run of the XML parser has

    Facts about the state machine of Sax.v that hold for every document: the
    loop is its one-character step repeated, the tags it reports are properly
    nested, and the way a document is cut into chunks does not matter. *)

From stdpp Require Import base gmap strings list.
From Stdlib Require Import ZArith Lia.
From coqutil Require Import Datatypes.RecordSetters.
From S2P Require Import Prelude JsValue Json JsText SignersLegacy Sax.

Import DoubleBraceUpdate.
Local Open Scope Z_scope.

(** ** One character at a time *)

(** The loop without the inner loop of the state TEXT. *)
Definition step (c : Z) : sax () := λ p,
  let p := read_char c p in
  match state p with
  | TEXT => (text_outside (Some c) p, Ok ())
  | s => step_in s c p
  end.

Fixpoint steps (chunk : jsstr) : sax () :=
  match chunk with
  | [] => st_ret ()
  | c :: rest => step c ;;; steps rest
  end.

Definition at_end : sax () := plain (λ p, p {{ at_->current := [] }}).

(** Parsers that differ at most in the character they last recorded. *)
Definition alike (p p' : parser) : Prop := p {{ at_->current := [] }} = p' {{ at_->current := [] }}.

Lemma alike_read c p p' : alike p p' → read_char c p = read_char c p'.
Proof.
  destruct p as [? [] ? ? ? ? ? ? ? ? ? ? ? ? ? ? ? ? ? ? ? ? ?], p' as [? [] ? ? ? ? ? ? ? ? ? ? ? ? ? ? ? ? ? ? ? ? ?].
  unfold alike, read_char, advance. cbn. intros [=]; subst.
  by destruct (Z.eqb c 10).
Qed.

Lemma alike_step c p p' : alike p p' → step c p = step c p'.
Proof. intros H%(alike_read c). unfold step. by rewrite H. Qed.

Lemma alike_steps s p p' : alike p p' → (steps s ;;; at_end) p = (steps s ;;; at_end) p'.
Proof.
  destruct s as [|c s]; intros H.
  - exact (f_equal (λ x, (x, Ok ())) H).
  - cbn [steps]. unfold st_bind. by rewrite (alike_step c p p' H).
Qed.

Lemma text_run_current c rest pl x :
  text_run c rest (pl {{ current := x }}) =
  let '(text, stop, rest', pl') := text_run c rest pl in (text, stop, rest', pl' {{ current := x }}).
Proof.
  revert c pl. induction rest as [|c' rest IH]; intros c pl; cbn [text_run]; [by case_match|].
  case_match; [done|].
  assert (H1 : advance c' (pl {{ current := x }}) = (advance c' pl) {{ current := x }})
    by (unfold advance; by destruct (Z.eqb c' 10)).
  rewrite H1, IH. by destruct (text_run c' rest (advance c' pl)) as [[[text stop] rest'] pl'].
Qed.

Lemma text_run_length c rest pl text stop rest' pl' :
  text_run c rest pl = (text, stop, rest', pl') → (length rest' ≤ length rest)%nat.
Proof.
  revert c pl text. induction rest as [|c' rest IH]; intros c pl text; cbn [text_run]; case_match; try naive_solver lia.
  destruct (text_run c' rest _) as [[[text1 stop1] rest1] pl1] eqn:Hrun. intros [= <- <- <- <-].
  apply IH in Hrun. cbn. lia.
Qed.

Lemma alike_text_outside stop p p' : in_root p = true → alike p p' → alike (text_outside stop p) (text_outside stop p').
Proof.
  destruct p as [? [] ? ? ? ? ? ? ? ? ? ? ? ? ? ? ? ? ? ? ? ? ?], p' as [? [] ? ? ? ? ? ? ? ? ? ? ? ? ? ? ? ? ? ? ? ? ?].
  unfold alike, in_root. cbn. intros [-> Hc%negb_true_iff]%andb_true_iff.
  intros [=]; subst. unfold text_outside. destruct stop as [c|]; cbn; [|done].
  rewrite andb_false_r. by destruct (Z.eqb c 60), (Z.eqb c 38).
Qed.

Lemma text_outside_plain c p :
  in_root p = true → Z.eqb c 60 || Z.eqb c 38 = false →
  text_outside (Some c) p = p {{ textNode := textNode p ++ [c] }}.
Proof.
  unfold in_root, text_outside. intros [-> ->%negb_true_iff]%andb_true_iff [-> ->]%orb_false_iff.
  by rewrite andb_false_r.
Qed.

(** The inner loop is the step repeated. *)
Lemma text_run_steps rest c p text stop rest' pl' :
  state p = TEXT → in_root p = true → text_run c rest (at_ p) = (text, stop, rest', pl') →
  (steps rest ;;; at_end) (text_outside (Some c) p) =
  (steps rest' ;;; at_end) (text_outside stop (p {{ at_ := pl'; textNode := textNode p ++ text }})).
Proof.
  revert c p text stop rest' pl'. induction rest as [|c' rest IH]; intros c p text stop rest' pl' Hs Hr; cbn [text_run];
    destruct (Z.eqb c 60 || Z.eqb c 38) eqn:Hc.
  1,3: intros [= <- <- <- <-]; rewrite app_nil_r; by destruct p.
  - intros [= <- <- <- <-]. rewrite text_outside_plain by done. destruct p. cbn in Hr |- *.
    unfold in_root in Hr. cbn in Hr. apply andb_true_iff in Hr as [-> ->%negb_true_iff]. done.
  - destruct (text_run c' rest (advance c' (at_ p))) as [[[text1 stop1] rest1] pl1] eqn:Hrun.
    intros [= <- <- <- <-]. rewrite text_outside_plain by done.
    set (p1 := read_char c' (p {{ textNode := textNode p ++ [c] }})).
    assert (Hstep : (steps (c' :: rest) ;;; at_end) (p {{ textNode := textNode p ++ [c] }}) =
                    (steps rest ;;; at_end) (text_outside (Some c') p1)).
    { cbn [steps]. unfold step at 1, st_bind at 1 2. fold p1. by change (state p1) with (state p); rewrite Hs. }
    rewrite Hstep, (IH c' p1 text1 stop1 rest1 (pl1 {{ current := [c'] }}) Hs Hr).
    + apply alike_steps, alike_text_outside; [done|]. unfold alike, p1. destruct p, pl1. cbn.
      by rewrite <-app_assoc.
    + change (at_ p1) with ((advance c' (at_ p)) {{ current := [c'] }}). by rewrite text_run_current, Hrun.
Qed.

Lemma step_text c p : state p = TEXT → step c p = (text_outside (Some c) (read_char c p), Ok ()).
Proof. unfold step. change (state (read_char c p)) with (state p). by intros ->. Qed.

Lemma step_other c p : state p ≠ TEXT → step c p = step_in (state p) c (read_char c p).
Proof. unfold step. change (state (read_char c p)) with (state p). by destruct (state p). Qed.

Lemma iteration_other c rest p : state p ≠ TEXT → iteration c rest p = (step c ;;; st_ret rest) p.
Proof.
  intros Hs. unfold st_bind. rewrite step_other by done. unfold iteration.
  change (state (read_char c p)) with (state p). by destruct (state p).
Qed.

Lemma steps_cons c rest p : (steps (c :: rest) ;;; at_end) p = (step c ;;; (steps rest ;;; at_end)) p.
Proof. cbn [steps]. unfold st_bind. by destruct (step c p) as [p' [[]|e]]. Qed.

(** The loop with the inner one is the step repeated. *)
Lemma write_loop_steps fuel chunk p : (length chunk ≤ fuel)%nat → write_loop fuel chunk p = (steps chunk ;;; at_end) p.
Proof.
  revert chunk p. induction fuel as [|fuel IH]; intros [|c rest] p Hlen; cbn in Hlen; [done|lia|done|].
  cbn [write_loop]. rewrite steps_cons. unfold st_bind at 1 2.
  destruct (decide (state p = TEXT)) as [Hs|Hs].
  - rewrite step_text by done. unfold iteration. change (state (read_char c p)) with (state p). rewrite Hs.
    unfold on_text. destruct (in_root (read_char c p)) eqn:Hr; [|apply IH; lia].
    destruct (text_run c rest (at_ (read_char c p))) as [[[text stop] rest'] pl'] eqn:Hrun.
    rewrite IH by (apply text_run_length in Hrun; lia).
    symmetry. by apply text_run_steps.
  - rewrite iteration_other by done. unfold st_bind at 1, st_ret.
    destruct (step c p) as [p' [[]|e]]; [apply IH; lia|done].
Qed.

(** ** Events are properly nested *)

(** Replay the tags of a log on a stack of open elements, innermost first. *)
Definition nest1 (e : sax_event) (open : list jsstr) : option (list jsstr) :=
  match e with
  | OnOpenTag t => Some (tag_name t :: open)
  | OnCloseTag name =>
    match open with
    | top :: open => if str_eqb top name then Some open else None
    | [] => None
    end
  | _ => Some open
  end.
Fixpoint nest (evs : list sax_event) (open : list jsstr) : option (list jsstr) :=
  match evs with
  | [] => Some open
  | e :: evs => nest1 e open ≫= nest evs
  end.

Definition open_names (p : parser) : list jsstr := tag_name <$> tags p.

(** What a part of a step may do: add events that nest, and leave alone where
    the parser is, its options and the absence of an error. *)
Record follows (p p' : parser) : Prop := {
  follows_log : ∃ evs, log p' = log p ++ evs ∧ nest evs (open_names p) = Some (open_names p');
  follows_resuming : resuming p' = resuming p;
  follows_check : bufferCheckPosition p' = bufferCheckPosition p;
  follows_closed : closed p' = closed p;
  follows_position : position (at_ p') = position (at_ p);
  follows_error : resuming p = true → perror p = None → perror p' = None;
}.

Lemma nest_app a b open : nest (a ++ b) open = nest a open ≫= nest b.
Proof. revert open. induction a as [|e a IH]; intros open; [done|]. cbn. destruct (nest1 e open); cbn; [apply IH|done]. Qed.

Lemma follows_refl p : follows p p.
Proof. split; try done. exists []. by rewrite app_nil_r. Qed.

Lemma follows_trans p1 p2 p3 : follows p1 p2 → follows p2 p3 → follows p1 p3.
Proof.
  intros [(l & Hl & Hn) ? ? ? ? He] [(k & Hk & Hm) ? ? ? ? He']. split; try congruence.
  - exists (l ++ k). rewrite Hk, Hl, app_assoc, nest_app, Hn. done.
  - intros. apply He'; [congruence|]. by apply He.
Qed.

(** An update of fields [follows] does not mention. *)
Definition harmless (f : parser → parser) : Prop := ∀ p,
  log (f p) = log p ∧ tags (f p) = tags p ∧ resuming (f p) = resuming p ∧
  bufferCheckPosition (f p) = bufferCheckPosition p ∧ closed (f p) = closed p ∧
  position (at_ (f p)) = position (at_ p) ∧ perror (f p) = perror p.

Lemma follows_harmless p0 p f : harmless f → follows p0 p → follows p0 (f p).
Proof.
  intros Hh Hf. destruct (Hh p) as (? & Ht & ? & ? & ? & ? & ?). apply (follows_trans p0 p _ Hf). split; [|congruence..].
  exists []. unfold open_names. by rewrite app_nil_r, Ht.
Qed.

Lemma follows_emit p0 p e : nest1 e (open_names p) = Some (open_names p) → follows p0 p → follows p0 (emit e p).
Proof.
  intros Hn Hf. apply (follows_trans p0 p _ Hf). split; try done. exists [e]. split; [done|]. cbn [nest].
  by rewrite Hn.
Qed.

Ltac quiet :=
  cbv zeta;
  repeat match goal with
  | |- follows ?p0 ?t =>
    match t with
    | apply_update _ ?x =>
      let g := eval pattern x in t in
      match g with ?f _ => refine (follows_harmless p0 x f _ _); [intros ?; repeat split|] end
    end
  end.

Lemma follows_closeText p0 p : follows p0 p → follows p0 (closeText p).
Proof. intros H. unfold closeText. quiet. case_match; [done|]. by apply follows_emit. Qed.

Lemma follows_emitNode p0 p e :
  (∀ open, nest1 e open = Some open) → follows p0 p → follows p0 (emitNode e p).
Proof.
  intros Hn H. unfold emitNode. apply follows_emit; [apply Hn|]. case_match; [done|]. by apply follows_closeText.
Qed.

Lemma follows_fail p0 p er : follows p0 p → follows p0 (fail_with er p).
Proof.
  intros H. unfold fail_with. set (p1 := closeText p). cbv zeta. set (e := js_error _).
  apply (follows_trans p0 p1); [by apply follows_closeText|].
  assert (Hlog : log (emit (OnError e) (p1 {{ perror := Some e }})) = log p1 ++ [OnError e]) by done.
  change (resuming (emit _ _)) with (resuming p1). destruct (resuming p1) eqn:Hr; split; try done.
  all: try (exists [OnError e]; done). rewrite Hr. done.
Qed.

Lemma follows_strictFail p0 p m : follows p0 p → follows p0 (strictFail m p).
Proof. apply follows_fail. Qed.

(** The states inside a start tag, which read [parser.tag]. *)
Definition in_tag (s : sax_state) : bool :=
  match s with
  | OPEN_TAG_SLASH | ATTRIB | ATTRIB_NAME | ATTRIB_NAME_SAW_WHITE | ATTRIB_VALUE | ATTRIB_VALUE_QUOTED
  | ATTRIB_VALUE_CLOSED | ATTRIB_VALUE_UNQUOTED | ATTRIB_VALUE_ENTITY_Q | ATTRIB_VALUE_ENTITY_U => true
  | _ => false
  end.
Definition entered (s : sax_state) : bool := match s with COMMENT_STARTING => false | _ => true end.
Definition has_tag (p : parser) : Prop := (in_tag (state p) = true → ptag p ≠ None) ∧ entered (state p) = true.

(** The exceptions a document can cause: a reference to a character that does
    not exist, and an attribute that hides [hasOwnProperty]. *)
Definition shadowed : jserror := mk_error (js "TypeError") (js "parser.tag.attributes.hasOwnProperty is not a function").
Definition document_exception (e : jserror) : Prop := err_name e = js "RangeError" ∨ e = shadowed.

Definition sound_step {A} (p : parser) (res : parser * result jserror A) : Prop :=
  follows p res.1 ∧ (has_tag p → match res.2 with Ok _ => has_tag res.1 | Throw e => document_exception e end).

Lemma sound_plain p f : follows p (f p) → (has_tag p → has_tag (f p)) → sound_step p (plain f p).
Proof. done. Qed.

Lemma sound_bind {A B} (m : sax A) (k : A → sax B) p :
  sound_step p (m p) → (∀ a p', m p = (p', Ok a) → sound_step p' (k a p')) → sound_step p ((x <- m ;; k x) p).
Proof.
  unfold sound_step, st_bind. destruct (m p) as [p' [a|e]]; cbn; [|done].
  intros [Hf Ht] Hk. destruct (Hk a p' eq_refl) as [Hf' Ht']. split; [by eapply follows_trans|]. intros Hp. by apply Ht', Ht.
Qed.

Lemma follows_attrib p : follows p (attrib p).1.
Proof.
  unfold attrib. repeat case_match; cbn [fst]; try apply follows_refl; quiet; [apply follows_refl|].
  apply follows_emitNode; [done|]. quiet. apply follows_refl.
Qed.

(** [emitNode] of an event that changes the stack, with the change. *)
Lemma emitNode_log e p :
  log (emitNode e p) = log p ++ (if str_eqb (textNode p) [] then [] else [OnText (textNode p)]) ++ [e].
Proof. unfold emitNode, closeText, emit. destruct (str_eqb (textNode p) []); [done|]. symmetry. apply app_assoc. Qed.

Lemma emitNode_same e p :
  tags (emitNode e p) = tags p ∧ resuming (emitNode e p) = resuming p ∧
  bufferCheckPosition (emitNode e p) = bufferCheckPosition p ∧ closed (emitNode e p) = closed p ∧
  at_ (emitNode e p) = at_ p ∧ perror (emitNode e p) = perror p ∧
  state (emitNode e p) = state p ∧ ptag (emitNode e p) = ptag p.
Proof. unfold emitNode, closeText, emit. by destruct (str_eqb (textNode p) []). Qed.

Lemma follows_node p0 p p1 e :
  follows p0 p → nest1 e (open_names p) = Some (open_names p1) → log p1 = log p → resuming p1 = resuming p →
  bufferCheckPosition p1 = bufferCheckPosition p → closed p1 = closed p → at_ p1 = at_ p → perror p1 = perror p →
  follows p0 (emitNode e p1).
Proof.
  intros Hf Hn Hl ? ? ? ? ?. apply (follows_trans p0 p _ Hf).
  destruct (emitNode_same e p1) as (Ht & ? & ? & ? & ? & ? & ?). split; try congruence.
  rewrite emitNode_log, Hl. eexists. split; [done|].
  assert (Ho : open_names (emitNode e p1) = open_names p1) by (unfold open_names; by rewrite Ht).
  rewrite Ho, nest_app. case_match; cbn [nest mbind option_bind].
  - by rewrite Hn.
  - change (nest1 (OnText _) ?o) with (Some o). cbn [mbind option_bind]. by rewrite Hn.
Qed.

Lemma follows_openTag b p : follows p (openTag b p).1.
Proof.
  unfold openTag. destruct (ptag p) as [t|]; cbn [fst]; [|apply follows_refl]. quiet.
  destruct b; quiet; apply (follows_node p p); try done; apply follows_refl.
Qed.

Lemma follows_closes name l p0 p : follows p0 p → follows p0 (closes name l p).1 ∧ tags (closes name l p).1 = tags p.
Proof.
  revert p. induction l as [|t l IH]; intros p Hf; cbn [closes]; [done|]. case_match; [done|].
  destruct (IH (strictFail "Unexpected close tag" p)) as [? Ht]; [by apply follows_strictFail|]. split; [done|].
  rewrite Ht. unfold strictFail, fail_with, closeText, emit. by repeat case_match.
Qed.

Lemma follows_pop_tags n p0 p : follows p0 p → follows p0 (pop_tags n p).
Proof.
  revert p. induction n as [|n IH]; intros p Hf; [done|]. cbn [pop_tags]. destruct (tags p) as [|t l] eqn:Ht; [done|].
  apply IH, (follows_node p0 p); try done. unfold open_names. rewrite Ht. cbn. by rewrite str_eqb_refl.
Qed.

Lemma follows_closeTag p0 p : follows p0 p → follows p0 (closeTag p).
Proof.
  intros Hf. unfold closeTag. case_match; [quiet; by apply follows_strictFail|].
  destruct (closes (tagName p) (tags p) p) as [p1 [outer|]] eqn:Hc;
    destruct (follows_closes (tagName p) (tags p) p0 p Hf) as [Hf' _]; rewrite Hc in Hf'; cbn [fst] in Hf'; quiet.
  - destruct outer; quiet; by apply follows_pop_tags.
  - by apply follows_fail.
Qed.

Lemma has_tag_outside p : in_tag (state p) = false → entered (state p) = true → has_tag p.
Proof. intros H. split; [by rewrite H|done]. Qed.

Lemma has_tag_inside p : ptag p ≠ None → entered (state p) = true → has_tag p.
Proof. by split. Qed.

Lemma has_tag_same p p' : state p' = state p → ptag p' = ptag p → has_tag p → has_tag p'.
Proof. intros Hs Ht. unfold has_tag. by rewrite Hs, Ht. Qed.

Lemma fail_same er p : state (fail_with er p) = state p ∧ ptag (fail_with er p) = ptag p.
Proof. unfold fail_with, closeText, emit. by repeat case_match. Qed.
Lemma strictFail_state m p : state (strictFail m p) = state p.
Proof. apply fail_same. Qed.
Lemma strictFail_tag m p : ptag (strictFail m p) = ptag p.
Proof. apply fail_same. Qed.
Lemma emitNode_state e p : state (emitNode e p) = state p.
Proof. apply emitNode_same. Qed.
Lemma emitNode_tag e p : ptag (emitNode e p) = ptag p.
Proof. apply emitNode_same. Qed.

Ltac follow :=
  repeat (quiet; first
    [ apply follows_refl
    | apply follows_strictFail
    | apply follows_emitNode; [done|]
    | apply follows_closeTag
    | match goal with
      | |- follows _ (if ?b then _ else _) => destruct b
      | |- follows _ (match ?b with _ => _ end) => destruct b
      end ]).

(** The steps that throw nothing. *)
Lemma follows_text_outside stop p : follows p (text_outside stop p).
Proof. unfold text_outside. follow. Qed.
Lemma follows_begin c p : follows p (beginWhiteSpace c p).
Proof. unfold beginWhiteSpace. follow. Qed.

Lemma has_tag_enter p p' :
  ptag p' = ptag p → in_tag (state p) = true → has_tag p → entered (state p') = true → has_tag p'.
Proof. intros Ht Hi [Hp _]. apply has_tag_inside. rewrite Ht. auto. Qed.

Lemma closeTag_state p : state (closeTag p) = TEXT.
Proof. unfold closeTag. repeat case_match; reflexivity. Qed.

Lemma has_tag_closeTag p : has_tag (closeTag p).
Proof. apply has_tag_outside; by rewrite closeTag_state. Qed.

Local Opaque fail_with strictFail emitNode closeTag.

Ltac state_of :=
  repeat first
    [ rewrite emitNode_state | rewrite strictFail_state
    | match goal with
      | |- context [state (apply_update ?u ?x)] => change (state (apply_update u x)) with (state x)
      end ].

Ltac tag_of :=
  repeat first
    [ rewrite emitNode_tag | rewrite strictFail_tag
    | match goal with
      | |- context [ptag (apply_update ?u ?x)] => change (ptag (apply_update u x)) with (ptag x)
      end ].

Ltac tagged Hs :=
  let Hp := fresh in intros Hp; cbv zeta;
  repeat match goal with |- has_tag ?x => match x with context [if ?b then _ else _] => destruct b end end;
  first
    [ exact Hp
    | apply has_tag_closeTag
    | apply has_tag_outside; reflexivity
    | apply has_tag_outside; state_of; reflexivity
    | eapply has_tag_same; [ | |exact Hp]; first [reflexivity | exact (strictFail_state _ _) | exact (strictFail_tag _ _)]
    | eapply has_tag_enter; [ | |exact Hp|reflexivity];
      [first [reflexivity | exact (strictFail_tag _ _)] | rewrite Hs; reflexivity] ].

Ltac plain_step Hs := apply sound_plain; [follow|tagged Hs].

(** The states in which a step throws nothing. *)
Definition plain_state (s : sax_state) : bool :=
  match s with
  | OPEN_TAG | OPEN_TAG_SLASH | ATTRIB | ATTRIB_NAME | ATTRIB_NAME_SAW_WHITE | ATTRIB_VALUE_QUOTED
  | ATTRIB_VALUE_CLOSED | ATTRIB_VALUE_UNQUOTED | TEXT_ENTITY | ATTRIB_VALUE_ENTITY_Q | ATTRIB_VALUE_ENTITY_U
  | TEXT | COMMENT_STARTING => false
  | _ => true
  end.

Lemma sound_plain_state s c p : state p = s → plain_state s = true → sound_step p (step_in s c p).
Proof.
  intros Hs Hok. destruct s; try discriminate Hok; clear Hok; cbn [step_in].
  all: unfold on_begin, beginWhiteSpace, on_open_waka, on_sgml_decl, on_sgml_decl_quoted, on_doctype,
      on_doctype_quoted, on_doctype_dtd, on_doctype_dtd_quoted, on_comment, on_comment_ending, on_comment_ended,
      on_cdata, on_cdata_ending, on_cdata_ending_2, on_proc_inst, on_proc_inst_body, on_proc_inst_ending,
      on_attrib_value, on_close_tag, on_close_tag_saw_white, add_doctype; plain_step Hs.
Qed.

(** The steps that can throw. *)
Lemma pair_ok {A B} (a a' : A) (b b' : B) : (a, b) = (a', b') → a' = a.
Proof. congruence. Qed.

Lemma attrib_state p p' : attrib p = (p', Ok ()) → state p' = state p ∧ ptag p' ≠ None.
Proof.
  unfold attrib. destruct (ptag p) as [t|] eqn:Ht; [|done]. repeat case_match; try done; intros ->%pair_ok.
  - split; [done|]. change (ptag p ≠ None). by rewrite Ht.
  - split; [by state_of|by tag_of].
Qed.

Lemma sound_attrib p : in_tag (state p) = true → sound_step p (attrib p).
Proof.
  intros Hi. split; [apply follows_attrib|]. intros [Hp He]. specialize (Hp Hi).
  destruct (attrib p) as [p' [[]|e]] eqn:Ha; cbn.
  - apply attrib_state in Ha as [Hs Ht]. apply has_tag_inside; [done|]. by rewrite Hs.
  - unfold attrib in Ha. destruct (ptag p); [|done]. repeat case_match; try done. injection Ha as _ <-. by right.
Qed.

Lemma openTag_state b p p' : openTag b p = (p', Ok ()) → state p' = (if b then state p else TEXT) ∧ (b = true → ptag p' ≠ None).
Proof.
  unfold openTag. destruct (ptag p) as [t|] eqn:Ht; [|done]. destruct b; intros ->%pair_ok; [|done].
  split; [by state_of|]. intros _. by tag_of.
Qed.

Lemma sound_openTag b p : (has_tag p → ptag p ≠ None) → sound_step p (openTag b p).
Proof.
  intros Hi. split; [apply follows_openTag|]. intros Hp. specialize (Hi Hp).
  destruct (openTag b p) as [p' [[]|e]] eqn:Ho; cbn.
  - apply openTag_state in Ho as [Hs Ht]. destruct b; [|by apply has_tag_outside; rewrite Hs].
    apply has_tag_inside; [by apply Ht|]. rewrite Hs. apply Hp.
  - unfold openTag in Ho. by destruct (ptag p).
Qed.

Lemma in_tag_open b p : in_tag (state p) = true → sound_step p (openTag b p).
Proof. intros Hi. apply sound_openTag. intros [Hp _]. auto. Qed.

Lemma sound_ret {A} (a : A) p : sound_step p (st_ret a p).
Proof. split; [apply follows_refl|done]. Qed.

Lemma sound_open_tag c p : sound_step p (on_open_tag c p).
Proof.
  unfold on_open_tag. destruct (nameBody c); [split; [cbn [fst]; follow|intros Hp; exact Hp]|].
  assert (Hn : follows p (newTag p)) by (unfold newTag; follow).
  assert (Ht : ptag (newTag p) ≠ None) by (unfold newTag; by rewrite emitNode_tag).
  assert (Hst : state (newTag p) = state p) by (unfold newTag; by state_of).
  cbv zeta. generalize dependent (newTag p). intros p1 Hn Ht Hst.
  assert (Hopen : ∀ p', follows p p' → ptag p' ≠ None → entered (state p') = true → sound_step p (p', Ok ())).
  { intros p' ? ? ?. split; [done|]. intros _. by apply has_tag_inside. }
  destruct (Z.eqb c 62).
  { destruct (sound_openTag false p1) as [Hf Hok]; [done|]. split; [exact (follows_trans _ _ _ Hn Hf)|].
    intros Hp. apply Hok, has_tag_inside; [done|]. rewrite Hst. apply Hp. }
  destruct (Z.eqb c 47); [apply Hopen; [by quiet|done|done]|].
  destruct (negb (whitespace c)); apply Hopen; try done; quiet; [by apply follows_strictFail| |done]. by tag_of.
Qed.

Ltac in_tag_step Hs :=
  first
    [ apply sound_ret
    | apply sound_plain; [follow|tagged Hs]
    | apply in_tag_open; by rewrite Hs ].

Lemma sound_attrib_then p (k : sax ()) :
  in_tag (state p) = true → (∀ p', state p' = state p → sound_step p' (k p')) → sound_step p ((attrib ;;; k) p).
Proof.
  intros Hi Hk. apply sound_bind; [by apply sound_attrib|]. intros [] p' Ha. apply Hk. by apply attrib_state in Ha as [? _].
Qed.

Lemma sound_slash c p : state p = OPEN_TAG_SLASH → sound_step p (on_open_tag_slash c p).
Proof.
  intros Hs. unfold on_open_tag_slash. destruct (Z.eqb c 62); [|in_tag_step Hs].
  apply sound_bind; [apply in_tag_open; by rewrite Hs|]. intros [] p' Ho.
  apply sound_plain; [follow|intros _; apply has_tag_closeTag].
Qed.

Lemma sound_on_attrib c p : state p = ATTRIB → sound_step p (on_attrib c p).
Proof. intros Hs. unfold on_attrib. repeat case_match; in_tag_step Hs. Qed.

Lemma sound_attrib_name c p : state p = ATTRIB_NAME → sound_step p (on_attrib_name c p).
Proof.
  intros Hs. unfold on_attrib_name. repeat case_match; try in_tag_step Hs.
  apply sound_bind; [in_tag_step Hs|]. intros [] p1 ->%pair_ok. cbv zeta. apply sound_attrib_then; state_of; rewrite Hs; [done|].
  intros p' Hs'. apply in_tag_open. by rewrite Hs'.
Qed.

Lemma follows_valueless p : follows p (valueless_attribute p).1.
Proof.
  unfold valueless_attribute. cbv zeta. destruct (ptag (strictFail "Attribute without value" p)); cbn [fst].
  - quiet. apply follows_emitNode; [done|]. follow.
  - follow.
Qed.

Lemma valueless_state p p' : valueless_attribute p = (p', Ok ()) → state p' = state p ∧ ptag p' ≠ None.
Proof.
  unfold valueless_attribute. cbv zeta. rewrite <-(strictFail_state "Attribute without value" p).
  generalize (strictFail "Attribute without value" p). intros p1. destruct (ptag p1) as [t|]; [|done].
  intros ->%pair_ok. split; [by state_of|by tag_of].
Qed.

Lemma sound_valueless p : in_tag (state p) = true → sound_step p (valueless_attribute p).
Proof.
  intros Hi. split; [apply follows_valueless|]. intros [Hp He]. specialize (Hp Hi).
  destruct (valueless_attribute p) as [p' [[]|e]] eqn:Ha; cbn.
  - apply valueless_state in Ha as [Hs Ht]. apply has_tag_inside; [done|]. by rewrite Hs.
  - unfold valueless_attribute in Ha. rewrite strictFail_tag in Ha. by destruct (ptag p).
Qed.

Lemma sound_saw_white c p : state p = ATTRIB_NAME_SAW_WHITE → sound_step p (on_attrib_name_saw_white c p).
Proof.
  intros Hs. unfold on_attrib_name_saw_white. destruct (Z.eqb c 61); [in_tag_step Hs|].
  destruct (whitespace c); [in_tag_step Hs|].
  apply sound_bind; [apply sound_valueless; by rewrite Hs|]. intros [] p' [Hs' _]%valueless_state. rewrite Hs in Hs'.
  repeat case_match; in_tag_step Hs'.
Qed.

Lemma sound_quoted c p : state p = ATTRIB_VALUE_QUOTED → sound_step p (on_attrib_value_quoted c p).
Proof.
  intros Hs. unfold on_attrib_value_quoted. destruct (negb _).
  - destruct (Z.eqb c 38); (split; [cbn [fst]; follow|cbn [fst snd]; tagged Hs]).
  - apply sound_attrib_then; [by rewrite Hs|]. intros p' Hs'. rewrite Hs in Hs'. in_tag_step Hs'.
Qed.

Lemma sound_closed c p : state p = ATTRIB_VALUE_CLOSED → sound_step p (on_attrib_value_closed c p).
Proof. intros Hs. unfold on_attrib_value_closed. repeat case_match; in_tag_step Hs. Qed.

Lemma sound_unquoted c p : state p = ATTRIB_VALUE_UNQUOTED → sound_step p (on_attrib_value_unquoted c p).
Proof.
  intros Hs. unfold on_attrib_value_unquoted. destruct (negb _); [in_tag_step Hs|].
  apply sound_attrib_then; [by rewrite Hs|]. intros p' Hs'. rewrite Hs in Hs'. destruct (Z.eqb c 62); in_tag_step Hs'.
Qed.

Lemma parseEntity_spec p :
  follows p (parseEntity p).1 ∧ state (parseEntity p).1 = state p ∧ ptag (parseEntity p).1 = ptag p ∧
  (∀ e, (parseEntity p).2 = Throw e → document_exception e).
Proof.
  unfold parseEntity. cbv zeta. destruct (entity_text (entity p)); [split; [apply follows_refl|done]|].
  destruct (entity_text (entity_lower (entity p))); [split; [apply follows_refl|done]|].
  match goal with |- context [let '_ := ?x in _] => generalize x end. intros [[[num numStr] shown] digits].
  destruct (negb _); cbn [fst snd].
  - split; [follow|]. split; [by state_of|]. split; [by tag_of|done].
  - split; [follow|]. split; [done|]. split; [done|]. intros e. unfold fromCodePoint.
    repeat case_match; intros [= <-]; by left.
Qed.

Lemma set_entity_buffer_spec x p :
  follows p (set_entity_buffer x p) ∧ state (set_entity_buffer x p) = state p ∧ ptag (set_entity_buffer x p) = ptag p.
Proof. unfold set_entity_buffer. destruct (state p) eqn:H; (split; [follow|split; [exact H|done]]). Qed.

Lemma returnState_in_tag s : in_tag (returnState s) = true → in_tag s = true.
Proof. by destruct s. Qed.

Lemma returnState_entered s : entered (returnState s) = true.
Proof. by destruct s. Qed.

Lemma entity_returns p x :
  follows p ((set_entity_buffer x p) {{ entity := []; state := returnState (state p) }}) ∧
  (has_tag p → has_tag ((set_entity_buffer x p) {{ entity := []; state := returnState (state p) }})).
Proof.
  destruct (set_entity_buffer_spec x p) as (Hf & _ & Ht). split; [by quiet|]. intros [Hp _]. split.
  - intros Hi%returnState_in_tag. change (ptag (set_entity_buffer x p) ≠ None). rewrite Ht. auto.
  - apply returnState_entered.
Qed.

Lemma sound_entity c p : sound_step p (on_entity c p).
Proof.
  unfold on_entity. destruct (Z.eqb c 59).
  - apply sound_bind; [|intros a p' _; apply entity_returns].
    destruct (parseEntity_spec p) as (Hf & Hs & Ht & He). split; [done|]. intros Hp.
    destruct (parseEntity p) as [p' [a|e]]; [|by apply He]. by apply (has_tag_same p).
  - match goal with |- context [if ?b then _ else _] => destruct b end.
    + split; [cbn [fst]; follow|exact id].
    + cbv zeta. assert (Hf : follows p (strictFail "Invalid character in entity name" p)) by follow.
      assert (Hh : has_tag p → has_tag (strictFail "Invalid character in entity name" p))
        by (apply has_tag_same; [by state_of|by tag_of]).
      generalize dependent (strictFail "Invalid character in entity name" p). intros p1 Hf Hh.
      destruct (set_entity_buffer_spec (entity_buffer p1 ++ js "&" ++ entity p1 ++ [c]) p1) as (_ & Hs & _).
      rewrite Hs. destruct (entity_returns p1 (entity_buffer p1 ++ js "&" ++ entity p1 ++ [c])) as [Hf' Hh'].
      split; [exact (follows_trans _ _ _ Hf Hf')|]. cbn [fst snd]. auto.
Qed.

Lemma sound_step_in c p : state p ≠ TEXT → entered (state p) = true → sound_step p (step_in (state p) c p).
Proof.
  intros Hs He. destruct (plain_state (state p)) eqn:Hp; [by apply sound_plain_state|].
  destruct (state p) eqn:Hst; try discriminate Hp; try (by destruct (Hs eq_refl)); try discriminate He; cbn [step_in].
  - apply sound_entity.
  - apply sound_open_tag.
  - by apply sound_slash.
  - by apply sound_on_attrib.
  - by apply sound_attrib_name.
  - by apply sound_saw_white.
  - by apply sound_quoted.
  - by apply sound_closed.
  - by apply sound_unquoted.
  - apply sound_entity.
  - apply sound_entity.
Qed.

(** A whole run: the position advances by the characters read, and what
    [follows] keeps is kept. *)
Record sound_run (n : Z) (p : parser) (res : parser * result jserror ()) : Prop := {
  run_log : ∃ evs, log res.1 = log p ++ evs ∧ nest evs (open_names p) = Some (open_names res.1);
  run_check : bufferCheckPosition res.1 = bufferCheckPosition p;
  run_closed : closed res.1 = closed p;
  run_resuming : resuming res.1 = resuming p;
  run_error : resuming p = true → perror p = None → perror res.1 = None;
  run_tag : match res.2 with
            | Ok _ => has_tag res.1 ∧ position (at_ res.1) = position (at_ p) + n
            | Throw e => document_exception e
            end;
}.

Lemma run_trans n m p p1 r res :
  sound_run n p (p1, r) → r = Ok () → sound_run m p1 res → sound_run (n + m) p res.
Proof.
  intros [(l & Hl & Hn) ? ? Hr He Ht] -> [(k & Hk & Hm) ? ? ? He' Ht']; cbn [fst snd] in *. split; try congruence.
  - exists (l ++ k). rewrite Hk, Hl, app_assoc, nest_app, Hn. done.
  - intros. apply He'; [congruence|]. by apply He.
  - destruct res as [p' [[]|e]]; cbn [fst snd] in *; [|done]. destruct Ht as [_ Hq], Ht' as [? ->]. split; [done|]. rewrite Hq. lia.
Qed.

Lemma follows_run p p1 res :
  log p1 = log p → tags p1 = tags p → bufferCheckPosition p1 = bufferCheckPosition p → closed p1 = closed p →
  resuming p1 = resuming p → perror p1 = perror p → position (at_ p1) = position (at_ p) + 1 →
  has_tag p1 → sound_step p1 res → sound_run 1 p res.
Proof.
  intros Hl Ht ? ? Hr Hp Hpos Htag [[(l & Hlog & Hn) ? ? ? Hp' He] Hok]. split; try congruence.
  - exists l. rewrite Hlog, Hl. unfold open_names in *. by rewrite <-Ht.
  - rewrite <-Hr, <-Hp. done.
  - specialize (Hok Htag). destruct res as [p' [[]|e]]; cbn [fst snd] in *; [|done]. split; [done|]. by rewrite Hp'.
Qed.

Lemma sound_one c p : has_tag p → sound_run 1 p (step c p).
Proof.
  intros Ht. assert (Hpos : position (at_ (read_char c p)) = position (at_ p) + 1).
  { unfold read_char, advance. cbn. by destruct (Z.eqb c 10). }
  destruct (decide (state p = TEXT)) as [Hs|Hs]; apply (follows_run p (read_char c p)); try done.
  - rewrite step_text by done. split; [apply follows_text_outside|]. intros _. cbn [fst snd].
    unfold text_outside. apply has_tag_outside; repeat case_match; state_of; try done; change (state (read_char c p)) with (state p); by rewrite Hs.
  - rewrite step_other by done. change (state p) with (state (read_char c p)). apply sound_step_in; [done|]. apply Ht.
Qed.

Lemma sound_steps s p : has_tag p → sound_run (Z.of_nat (length s)) p (steps s p).
Proof.
  revert p. induction s as [|c s IH]; intros p Ht.
  - split; try done. { exists []. by rewrite app_nil_r. } cbn [fst snd]. split; [done|cbn; lia].
  - cbn [steps length]. rewrite Nat2Z.inj_succ, <-Z.add_1_l. unfold st_bind.
    pose proof (sound_one c p Ht) as H1. destruct (step c p) as [p1 [[]|e]] eqn:Hc.
    + apply (run_trans _ _ p p1 (Ok ())); [done..|]. apply IH. by destruct H1 as [? ? ? ? ? [? _]].
    + by destruct H1.
Qed.

(** ** Documents *)

(** [parser.write(str).close()]. *)
Definition parse_document (s : jsstr) : sax () := write (Some s) ;;; close.

Lemma steps_app a b p : steps (a ++ b) p = (steps a ;;; steps b) p.
Proof.
  revert p. induction a as [|c a IH]; intros p; [done|]. cbn [steps app]. unfold st_bind.
  destruct (step c p) as [p' [[]|e]]; [apply IH|done].
Qed.

Lemma initial_has_tag b l : has_tag (SAXParser b l).
Proof. by apply has_tag_outside. Qed.

(** A chunk that does not reach the position of the next buffer check. *)
Lemma write_steps s p n :
  has_tag p → perror p = None → closed p = false → bufferCheckPosition p = Some n →
  position (at_ p) + Z.of_nat (length s) < n → write (Some s) p = (steps s ;;; at_end) p.
Proof.
  intros Ht He Hc Hb Hn. unfold write. rewrite He, Hc. unfold st_bind at 1. rewrite write_loop_steps by done.
  pose proof (sound_steps s p Ht) as [_ Hb' _ _ _ Hr]. unfold st_bind. destruct (steps s p) as [p' [[]|e]]; [|done].
  cbn [fst snd] in *. destruct Hr as [_ Hpos]. unfold at_end, plain, st_modify.
  change (bufferCheckPosition (p' {{ at_->current := [] }})) with (bufferCheckPosition p').
  change (position (at_ (p' {{ at_->current := [] }}))) with (position (at_ p')).
  rewrite Hb', Hb. destruct (Z.leb_spec n (position (at_ p'))); [lia|done].
Qed.

Fixpoint write_all (chunks : list jsstr) : sax () :=
  match chunks with
  | [] => st_ret ()
  | chunk :: chunks => write (Some chunk) ;;; write_all chunks
  end.

Lemma write_all_steps chunks p n :
  has_tag p → perror p = None → closed p = false → resuming p = true → bufferCheckPosition p = Some n →
  current (at_ p) = [] → position (at_ p) + Z.of_nat (length (concat chunks)) < n →
  write_all chunks p = (steps (concat chunks) ;;; at_end) p.
Proof.
  revert p. induction chunks as [|s chunks IH]; intros p Ht He Hc Hr Hb Hcur Hn; cbn [write_all concat].
  - destruct p as [? [] ? ? ? ? ? ? ? ? ? ? ? ? ? ? ? ? ? ? ? ? ?]. cbn in Hcur. by subst.
  - cbn [concat] in Hn. rewrite length_app, Nat2Z.inj_add in Hn.
    assert (Hw : write (Some s) p = (steps s ;;; at_end) p) by (apply (write_steps s p n); done || lia).
    assert (Happ : (steps (s ++ concat chunks) ;;; at_end) p = (steps s ;;; (steps (concat chunks) ;;; at_end)) p).
    { unfold st_bind at 1. rewrite steps_app. unfold st_bind. by destruct (steps s p) as [p' [[]|e]]. }
    rewrite Happ. clear Happ. pose proof (sound_steps s p Ht) as [_ Hb' Hc' Hr' He' Hrun].
    destruct (steps s p) as [p' [[]|e]] eqn:Hst; cbn [fst snd] in *.
    2: { rewrite (st_bind_throw _ _ p p' e Hst) in Hw. by rewrite (st_bind_throw _ _ p p' e Hw), (st_bind_throw _ _ p p' e Hst). }
    set (p1 := p' {{ at_->current := [] }}). rewrite (st_bind_run _ _ p p' () Hst). rewrite (st_bind_run _ _ p p' () Hst) in Hw.
    rewrite (st_bind_run _ _ p p1 () Hw). destruct Hrun as [Ht' Hpos].
    rewrite (IH p1).
    + apply alike_steps. unfold alike, p1. by destruct p' as [? [] ? ? ? ? ? ? ? ? ? ? ? ? ? ? ? ? ? ? ? ? ?].
    + exact (has_tag_same p' p1 eq_refl eq_refl Ht').
    + change (perror p1) with (perror p'). auto.
    + change (closed p1) with (closed p'). congruence.
    + change (resuming p1) with (resuming p'). congruence.
    + change (bufferCheckPosition p1) with (bufferCheckPosition p'). congruence.
    + done.
    + change (position (at_ p1)) with (position (at_ p')). lia.
Qed.

Lemma follows_check_buffer p0 st b : follows p0 st.1 → follows p0 (check_buffer st b).1.
Proof.
  destruct st as [p m]. unfold check_buffer. cbn [fst]. intros Hf. destruct (buffer_length b p); cbn [fst]; [|done].
  destruct (Z.ltb _ _); [|done]. destruct b; try (by apply follows_fail).
  - by apply follows_closeText.
  - quiet. by apply follows_emitNode.
Qed.

Lemma follows_check_buffers p0 l st : follows p0 st.1 → follows p0 (foldl check_buffer st l).1.
Proof. revert st. induction l as [|b l IH]; intros st Hf; [done|]. apply IH. by apply follows_check_buffer. Qed.

Lemma checkBufferLength_log p :
  perror p = None → resuming p = true →
  ∃ p', follows p p' ∧ log (checkBufferLength p) = log p' ∧ open_names (checkBufferLength p) = open_names p' ∧
        perror (checkBufferLength p) = None ∧ resuming (checkBufferLength p) = true ∧ closed (checkBufferLength p) = closed p.
Proof.
  intros He Hr. unfold checkBufferLength. pose proof (follows_check_buffers p buffers (p, Some 0) (follows_refl p)) as Hf.
  destruct (foldl check_buffer (p, Some 0) buffers) as [p' m]. cbn [fst] in Hf. exists p'.
  split; [done|]. destruct Hf as [? Hr' ? Hc ? He'].
  split; [done|]. split; [done|]. split; [exact (He' Hr He)|]. split; [by rewrite <-Hr|exact Hc].
Qed.

(** The whole of [write] on a chunk. *)
Lemma write_log s p :
  has_tag p → perror p = None → resuming p = true → closed p = false →
  let '(p', r) := write (Some s) p in
  (∃ evs, log p' = log p ++ evs ∧ nest evs (open_names p) = Some (open_names p')) ∧
  perror p' = None ∧ resuming p' = true ∧ closed p' = false ∧ (∀ e, r = Throw e → document_exception e).
Proof.
  intros Ht He Hr Hc. unfold write. rewrite He, Hc. unfold st_bind at 1. rewrite write_loop_steps by done.
  pose proof (sound_steps s p Ht) as [(l & Hl & Hn) _ Hc' Hr' He' Hrun].
  unfold st_bind. destruct (steps s p) as [p' [[]|e]]; cbn [fst snd] in *.
  2: { split; [eauto|]. repeat split; [auto|congruence..|]. by intros ? [= <-]. }
  unfold at_end, plain, st_modify. set (p1 := p' {{ at_->current := [] }}).
  assert (Hp1 : perror p1 = None) by (change (perror p' = None); auto).
  assert (Hr1 : resuming p1 = true) by (change (resuming p' = true); congruence).
  assert (Hc1 : closed p1 = false) by (change (closed p' = false); congruence).
  assert (Hl1 : log p1 = log p ++ l ∧ nest l (open_names p) = Some (open_names p1)) by done. clearbody p1.
  destruct (bufferCheckPosition p1) as [n|]; [destruct (Z.leb n _)|]; try (by split; [eauto|]).
  destruct (checkBufferLength_log p1 Hp1 Hr1) as (p2 & [(k & Hk & Hm) _ _ _ _ _] & Hlog & Hopen & ? & ? & ?).
  split; [|repeat split; [done..|congruence|done]].
  exists (l ++ k). rewrite Hlog, Hk, (proj1 Hl1), app_assoc. split; [done|]. by rewrite nest_app, (proj2 Hl1), Hopen.
Qed.

Lemma end_log p : ∃ evs open, log (end_ p) = log p ++ evs ∧ nest evs (open_names p) = Some open.
Proof.
  unfold end_. cbv zeta. match goal with |- context [closeText ?x] => assert (Hf : follows p (closeText x)) end.
  { apply follows_closeText. follow. }
  match type of Hf with follows _ ?x => generalize dependent x end.
  intros x [(l & Hl & Hn) _ _ _ _ _]. exists (l ++ [OnEnd]), (open_names x).
  split; [|by rewrite nest_app, Hn]. rewrite app_assoc, <-Hl. done.
Qed.

(** C33. The parser does not see how a document is cut into chunks, as long as
    it is shorter than the limit at which the buffers are checked: writing the
    chunks one after the other leaves the parser, with all the events it has
    reported and the exception it has thrown, as writing them at once does. *)
Theorem chunks_do_not_matter (chunks : list jsstr) :
  Z.of_nat (length (concat chunks)) < MAX_BUFFER_LENGTH →
  write_all chunks (SAXParser true []) = write (Some (concat chunks)) (SAXParser true []).
Proof.
  intros Hn. rewrite (write_all_steps chunks _ MAX_BUFFER_LENGTH) by (done || apply initial_has_tag).
  symmetry. apply (write_steps _ _ MAX_BUFFER_LENGTH); (done || apply initial_has_tag).
Qed.

Lemma chunks_do_not_matter_witness :
  write_all [js "<a b='1"; js "2'>x"; []; js "y</"; js "a>"] (SAXParser true []) =
  write (Some (js "<a b='12'>xy</a>")) (SAXParser true []).
Proof. exact (chunks_do_not_matter [js "<a b='1"; js "2'>x"; []; js "y</"; js "a>"] eq_refl). Defined.

(** C32. Whatever the document, the tags the parser reports are properly
    nested: each close tag it reports names the innermost element that is
    open.  And whatever the document, it throws nothing but a RangeError for
    a reference to a character that does not exist, or the TypeError of an
    attribute called [hasOwnProperty]. *)
Theorem tags_nest (s : jsstr) :
  let '(p, r) := parse_document s (SAXParser true []) in
  (∃ open, nest (log p) [] = Some open) ∧ (∀ e, r = Throw e → document_exception e).
Proof.
  unfold parse_document. pose proof (write_log s (SAXParser true []) (initial_has_tag _ _) eq_refl eq_refl eq_refl) as Hw.
  unfold st_bind. destruct (write (Some s) (SAXParser true [])) as [p [[]|e]]; destruct Hw as ((l & Hl & Hn) & He & _ & Hc & Hx).
  - unfold close, write. rewrite He, Hc. destruct (end_log p) as (k & open & Hk & Hm). split; [|done].
    exists open. rewrite Hk, Hl, nest_app. change (log (SAXParser true [])) with (@nil sax_event).
    cbn [app]. change (open_names (SAXParser true [])) with (@nil jsstr) in Hn. by rewrite Hn.
  - split; [|done]. exists (open_names p). by rewrite Hl.
Qed.

(** ** A quote in a markup declaration *)

(** The parser that has read nothing but [<!] and [decl], in state [s]. *)
Definition declaring (s : sax_state) (pl : place) (decl : jsstr) : parser :=
  (SAXParser true []) {{ state := s; at_ := pl; sgmlDecl := decl }}.

(** A character that neither ends a declaration nor starts a quotation in it. *)
Definition declared (c : Z) : bool := negb (Z.eqb c 62) && negb (is_quote c).
(** A first character of no [[CDATA[], [--] or [DOCTYPE]. *)
Definition declares (c : Z) : bool := negb (bool_decide (to_upper_unit c ∈ [91; 45; 68])).

Lemma declare_step d ds c pl :
  declares d = true → Z.eqb c 62 = false →
  step c (declaring SGML_DECL pl (d :: ds)) =
  (declaring (if is_quote c then SGML_DECL_QUOTED else SGML_DECL) ((advance c pl) {{ current := [c] }}) (d :: ds ++ [c]), Ok ()).
Proof.
  unfold declares. rewrite negb_true_iff, bool_decide_eq_false. intros Hd Hc.
  rewrite step_other by done. change (state (declaring SGML_DECL pl (d :: ds))) with SGML_DECL. cbn [step_in].
  unfold on_sgml_decl, plain, st_modify. change (sgmlDecl (read_char _ _)) with (d :: ds). cbn [app].
  assert (H1 : ∀ w, to_upper (d :: ds ++ [c]) = w → head w = Some (to_upper_unit d)) by (intros w <-; done).
  destruct (str_eqb_spec (to_upper (d :: ds ++ [c])) (js "[CDATA[")) as [Hw|_].
  { apply H1 in Hw. injection Hw as Hw. destruct Hd. rewrite <-Hw. by repeat constructor. }
  destruct (str_eqb_spec (d :: ds ++ [c]) (js "--")) as [Hw|_].
  { injection Hw as -> _. destruct Hd. by repeat constructor. }
  destruct (str_eqb_spec (to_upper (d :: ds ++ [c])) (js "DOCTYPE")) as [Hw|_].
  { apply H1 in Hw. injection Hw as Hw. destruct Hd. rewrite <-Hw. by repeat constructor. }
  rewrite Hc. by destruct (is_quote c).
Qed.

Lemma declare_steps s d ds pl :
  declares d = true → forallb declared s = true →
  ∃ pl', steps s (declaring SGML_DECL pl (d :: ds)) = (declaring SGML_DECL pl' (d :: ds ++ s), Ok ()).
Proof.
  intros Hd. revert ds pl. induction s as [|c s IH]; intros ds pl Hs.
  - exists pl. by rewrite app_nil_r.
  - cbn [forallb] in Hs. apply andb_true_iff in Hs as [[Hc Hq]%andb_true_iff Hs]. rewrite negb_true_iff in Hc, Hq.
    cbn [steps]. unfold st_bind. rewrite declare_step, Hq by done.
    destruct (IH (ds ++ [c]) ((advance c pl) {{ current := [c] }}) Hs) as [pl' ->]. exists pl'. by rewrite <-app_assoc.
Qed.

Lemma quoted_steps s decl pl :
  ∃ pl', steps s (declaring SGML_DECL_QUOTED pl decl) = (declaring SGML_DECL_QUOTED pl' (decl ++ s), Ok ()).
Proof.
  revert decl pl. induction s as [|c s IH]; intros decl pl.
  - exists pl. by rewrite app_nil_r.
  - cbn [steps]. unfold st_bind. rewrite step_other by done.
    destruct (IH (decl ++ [c]) ((advance c pl) {{ current := [c] }})) as [pl' Hs]. exists pl'.
    rewrite <-app_assoc in Hs. exact Hs.
Qed.

Definition is_error (e : sax_event) : Prop := match e with OnError _ => True | _ => False end.

Local Transparent fail_with strictFail emitNode closeTag.

(** The same parser after errors [errs] and nothing else. *)
Definition erring (s : sax_state) (pl : place) (decl : jsstr) (b : option Z) (errs : list sax_event) : parser :=
  (declaring s pl decl) {{ bufferCheckPosition := b; log := errs }}.

Lemma erring_fail er s pl decl b errs :
  ∃ e, fail_with er (erring s pl decl b errs) = erring s pl decl b (errs ++ [OnError e]).
Proof. eexists. reflexivity. Qed.

Lemma check_empty p m b : buffer_length b p = Some 0 → check_buffer (p, m) b = (p, Z.max 0 <$> m).
Proof. unfold check_buffer. by intros ->. Qed.

Lemma erring_checked s pl decl b errs :
  Forall is_error errs →
  ∃ b' errs', checkBufferLength (erring s pl decl b errs) = erring s pl decl b' errs' ∧ Forall is_error errs'.
Proof.
  intros Hall.
  assert (Hc : ∃ errs' m, check_buffer (erring s pl decl b errs, Some 0) BSgmlDecl = (erring s pl decl b errs', m) ∧
                          Forall is_error errs').
  { unfold check_buffer. cbn [buffer_length]. destruct (Z.ltb MAX_BUFFER_LENGTH _).
    - destruct (erring_fail (js "Max buffer length exceeded: " ++ buffer_name BSgmlDecl) s pl decl b errs) as [e He].
      eexists (errs ++ [OnError e]), _. split; [exact (f_equal2 pair He eq_refl)|]. apply Forall_app. by repeat constructor.
    - by exists errs, (Some (Z.max (Z.of_nat (length decl)) 0)). }
  destruct Hc as (errs' & m & Hc & Hall'). unfold checkBufferLength, buffers. cbn [foldl].
  rewrite (check_empty (erring s pl decl b errs) _ BComment) by done. change (Z.max 0 <$> Some 0) with (Some 0).
  rewrite Hc, !check_empty by done. cbv iota beta.
  by exists ((λ n, MAX_BUFFER_LENGTH - n + position pl) <$> Nat.iter 9 (λ x, Z.max 0 <$> x) m), errs'.
Qed.

Lemma declare_first d pl :
  declared d = true →
  step d (declaring SGML_DECL pl []) = (declaring SGML_DECL ((advance d pl) {{ current := [d] }}) [d], Ok ()).
Proof.
  unfold declared. rewrite andb_true_iff, !negb_true_iff. intros [Hc Hq]. rewrite step_other by done.
  change (state (declaring SGML_DECL pl [])) with SGML_DECL. cbn [step_in].
  unfold on_sgml_decl, plain, st_modify. change (sgmlDecl (read_char _ _)) with (@nil Z). cbn [app].
  rewrite !(proj2 (str_eqb_neq _ _)), Hc, Hq by (intros Hx%(f_equal length); vm_compute in Hx; discriminate Hx). done.
Qed.

Lemma quotation d quote decl rest :
  declares d = true → declared d = true → forallb declared decl = true → is_quote quote = true →
  ∃ pl, steps (js "<!" ++ d :: decl ++ quote :: rest) (SAXParser true []) =
        (declaring SGML_DECL_QUOTED pl (d :: decl ++ quote :: rest), Ok ()).
Proof.
  intros Hd Hd' Hs Hq. rewrite steps_app. unfold st_bind at 1.
  change (steps (js "<!") (SAXParser true [])) with (declaring SGML_DECL (Place 2 0 2 1 [33]) [], @Ok jserror () ()).
  cbv iota. cbn [steps]. unfold st_bind at 1. rewrite declare_first by done. cbv iota. rewrite steps_app. unfold st_bind at 1.
  match goal with |- context [declaring SGML_DECL ?pl [d]] => destruct (declare_steps decl d [] pl Hd Hs) as [pl' ->] end.
  cbn [app steps]. unfold st_bind at 1. rewrite declare_step; [|done|].
  2: { unfold is_quote in Hq. destruct (Z.eqb_spec quote 62); [by subst|done]. }
  rewrite Hq. match goal with |- context [declaring SGML_DECL_QUOTED ?pl ?x] => destruct (quoted_steps rest x pl) as [pl2 ->] end.
  exists pl2. cbn [app]. by rewrite <-app_assoc.
Qed.

(** A quote in a markup declaration swallows the rest of the document: the
    parser remembers no quote there, so none ends the quotation.  After
    [<!ENTITY x '] or the like it reports nothing but errors, whatever
    follows. *)
Theorem declaration_quote_swallows (d quote : Z) (decl rest : jsstr) :
  declares d = true → declared d = true → forallb declared decl = true → is_quote quote = true →
  let '(p, r) := parse_document (js "<!" ++ d :: decl ++ quote :: rest) (SAXParser true []) in
  r = Ok () ∧ ∃ errs, log p = errs ++ [OnEnd] ∧ errs ≠ [] ∧ Forall is_error errs.
Proof.
  intros Hd Hd' Hs Hq. destruct (quotation d quote decl rest Hd Hd' Hs Hq) as [pl Hrun].
  set (text := js "<!" ++ d :: decl ++ quote :: rest) in *. set (all := d :: decl ++ quote :: rest) in *.
  assert (Hw : ∃ pl b errs, write (Some text) (SAXParser true []) = (erring SGML_DECL_QUOTED pl all b errs, Ok ()) ∧
                            Forall is_error errs).
  { unfold write. change (perror _) with (@None jserror). change (closed _) with false. cbv iota beta.
    unfold st_bind at 1. rewrite write_loop_steps by done. rewrite (st_bind_run _ _ _ _ _ Hrun).
    unfold at_end, plain, st_modify. set (pl0 := pl {{ current := [] }}).
    change ((declaring SGML_DECL_QUOTED pl all) {{ at_->current := [] }})
      with (erring SGML_DECL_QUOTED pl0 all (Some MAX_BUFFER_LENGTH) []).
    change (bufferCheckPosition (erring _ _ _ ?b _)) with b. cbv iota.
    destruct (Z.leb _ _); [|by eexists _, _, _].
    destruct (erring_checked SGML_DECL_QUOTED pl0 all (Some MAX_BUFFER_LENGTH) []) as (b & errs & -> & ?); [done|].
    by eexists _, _, _. }
  destruct Hw as (pl1 & b & errs & Hw & Herrs). unfold parse_document. rewrite (st_bind_run _ _ _ _ _ Hw).
  unfold close, write. change (perror _) with (@None jserror). change (closed _) with false. cbv iota.
  split; [done|]. destruct (erring_fail (js "Unexpected end") SGML_DECL_QUOTED pl1 all b errs) as [e He].
  exists (errs ++ [OnError e]). split; [|split; [by destruct errs|apply Forall_app; by repeat constructor]].
  unfold end_. change (in_root _) with false. cbv iota.
  change (bool_decide _ || _ || _) with false. cbv iota. unfold strictFail. by rewrite He.
Qed.

Lemma declaration_quote_swallows_witness :
  let '(p, r) := parse_document (js "<!ENTITY x '1'><a>text</a>") (SAXParser true []) in
  r = Ok () ∧ ∃ errs, log p = errs ++ [OnEnd] ∧ errs ≠ [] ∧ Forall is_error errs.
Proof.
  exact (declaration_quote_swallows 69 39 (js "NTITY x ") (js "1'><a>text</a>") eq_refl eq_refl eq_refl eq_refl).
Defined.
