(* ===== verification/Xml2js.v ===== *)
(** * The XML parser: events to objects

    xml2js (dist/index.js 31477-31493, 31635-31702 and 31732-32047) on top of
    the state machine of Sax.v: the handlers build an object for each element
    on a stack, and the end of the root element, or an error, is passed to the
    callback of [parseString].

    The options that hold functions ([validator] and the processors) are null
    and [xmlns] and [async] are false, as in their defaults.  An element whose
    name every object inherits, such as [constructor], gets an array with a
    function of Object.prototype in it, which is not a value of [jsval]: the
    outcome of such a document is [Inherited]. *)

From stdpp Require Import base gmap strings list.
From Stdlib Require Import ZArith Lia.
From coqutil Require Import Datatypes.RecordSetters.
From S2P Require Import Prelude JsValue Json JsText SignersLegacy Sax SaxEvents.

Import DoubleBraceUpdate.
Local Open Scope Z_scope.

(** ** Options *)

Record options := Options {
  explicitCharkey : bool;
  o_trim : bool;
  normalize : bool;
  attrkey : jsstr;
  charkey : jsstr;
  explicitArray : bool;
  ignoreAttrs : bool;
  mergeAttrs : bool;
  explicitRoot : bool;
  explicitChildren : bool;
  preserveChildrenOrder : bool;
  childkey : jsstr;
  charsAsChildren : bool;
  includeWhiteChars : bool;
  emptyTag : option jsstr;   (* [None] is null *)
}.

(** [defaults["0.2"]]. *)
Definition defaults_0_2 : options :=
  Options false false false (js "$") (js "_") true false false true false false (js "$$") false false (Some []).

(** ** Values *)

(** What ends a handler: an exception, or a name outside the model. *)
Inductive interruption := Raised (e : jserror) | Inherited (name : jsstr).

Definition no_method (what : string) : interruption :=
  Raised (mk_error (js "TypeError") (js what ++ js " is not a function")).

(** [name in obj]. *)
Definition has {A} (name : jsstr) (obj : list (jsstr * A)) : bool :=
  match obj_get name obj with Some _ => true | None => str_mem name object_prototype end.

(** [isEmpty(thing)]. *)
Definition isEmpty (thing : jsval) : bool :=
  match thing with JObj [] | JArr [] => true | _ => false end.

(** [/^\s*$/.test(s)]. *)
Definition blank (s : jsstr) : bool := forallb is_js_space s.

(** [s.replace(/\s{2,}/g, ' ')]: [spaces] are those just read. *)
Fixpoint collapse (spaces : jsstr) (s : jsstr) : jsstr :=
  let kept := match spaces with [] => [] | [c] => [c] | _ => [32] end in
  match s with
  | [] => kept
  | c :: s => if is_js_space c then collapse (spaces ++ [c]) s else kept ++ c :: collapse [] s
  end.

(** [s.replace(/\\n/g, '')]: a backslash followed by the letter n. *)
Fixpoint drop_backslash_n (s : jsstr) : jsstr :=
  match s with
  | a :: ((b :: s) as t) => if Z.eqb a 92 && Z.eqb b 110 then drop_backslash_n s else a :: drop_backslash_n t
  | _ => s
  end.

(** [bom.stripBOM(str)]. *)
Definition stripBOM (s : jsstr) : jsstr :=
  match s with c :: s' => if Z.eqb c 0xFEFF then s' else s | [] => [] end.

(** ** The parser *)

(** [this.saxParser] is the machine while it is fed, and a fresh one after
    [reset]; [errThrown] and [ended] are the marks on it.  [listening] says
    that the listeners of [parseString] are registered, [stack] is the one of
    the handlers of the machine that is fed (innermost element first), and
    [calls] are the calls of the callback. *)
Record xparser := XParser {
  errThrown : bool;
  ended : bool;
  listening : bool;
  resultObject : jsval;
  stack : list jsobj;
  calls : list (option jserror * jsval);
}.

Definition new_Parser : xparser := XParser false false true JNull [] [].

(** [reset], as far as the parser in use can see it. *)
Definition reset (x : xparser) : xparser :=
  x {{ errThrown := false; ended := false; listening := false; resultObject := JNull }}.

Definition handler : Type := xparser → xparser * result interruption ().

(** [this.emit("error", e)]: with no listener it throws. *)
Definition emit_error (e : jserror) : handler := λ x,
  if listening x then ((reset x) {{ calls := calls x ++ [(Some e, JUndef)] }}, Ok ())
  else (x, Throw (Raised e)).

(** [this.emit("end", r)]. *)
Definition emit_end (r : jsval) (x : xparser) : xparser :=
  if listening x then (reset x) {{ calls := calls x ++ [(None, r)] }} else x.

Section handlers.
Context (opts : options).

(** [assignOrPush(obj, key, newValue)]. *)
Definition assignOrPush (obj : jsobj) (key : jsstr) (newValue : jsval) : result interruption jsobj :=
  match obj_get key obj with
  | None =>
    if str_mem key object_prototype then Throw (Inherited key)
    else Ok (obj_set key (if explicitArray opts then JArr [newValue] else newValue) obj)
  | Some (JArr l) => Ok (obj_set key (JArr (l ++ [newValue])) obj)
  | Some v => Ok (obj_set key (JArr [v; newValue]) obj)
  end.

(** The loop over the attributes in [onopentag]. *)
Fixpoint add_attributes (attrs : list (jsstr * jsstr)) (obj : jsobj) : result interruption jsobj :=
  match attrs with
  | [] => Ok obj
  | (key, value) :: attrs =>
    let obj := if negb (has (attrkey opts) obj) && negb (mergeAttrs opts)
               then obj_set (attrkey opts) (JObj []) obj else obj in
    let* obj := (if mergeAttrs opts then assignOrPush obj key (JStr value)
                 else match obj_get (attrkey opts) obj with
                      | Some (JObj a) => Ok (obj_set (attrkey opts) (JObj (obj_set key (JStr value) a)) obj)
                      | Some _ => Throw (Raised (mk_error (js "TypeError") (js "Cannot create property '" ++ key ++ js "' on string ''")))
                      | None => Throw (Inherited (attrkey opts))
                      end) in
    add_attributes attrs obj
  end.

Definition onopentag (node : tag) : handler := λ x,
  let obj := obj_set (charkey opts) (JStr []) [] in
  match (if ignoreAttrs opts then Ok obj else add_attributes (own_props (attributes node)) obj) with
  | Throw i => (x, Throw i)
  | Ok obj => (x {{ stack := obj_set (js "#name") (JStr (tag_name node)) obj :: stack x }}, Ok ())
  end.

(** The text of an element when it is closed: [obj] without its name and mark,
    the value it becomes. *)
Definition element_text (cdata : bool) (obj : jsobj) : result interruption (jsval * jsval) :=
  match obj_get (charkey opts) obj with
  | Some (JStr text) =>
    if blank text && negb cdata then Ok (JObj (obj_del (charkey opts) obj), JStr text)
    else
      let text := if o_trim opts then trim text else text in
      let text := if normalize opts then trim (collapse [] text) else text in
      let obj := obj_set (charkey opts) (JStr text) obj in
      Ok (if Z.eqb (Z.of_nat (length (own_keys obj))) 1 && has (charkey opts) obj && negb (explicitCharkey opts)
          then JStr text else JObj obj, JUndef)
  | _ => Throw (no_method "obj[charkey].match")
  end.

(** The children of an element that is closed, with the option
    [explicitChildren]; [below] is the rest of the stack. *)
Definition children_object (obj : jsobj) : jsobj :=
  let '(node, obj) := match obj_get (attrkey opts) obj with
                      | Some v => ([(attrkey opts, v)], obj_del (attrkey opts) obj)
                      | None => ([], obj)
                      end in
  let '(node, obj) := match obj_get (charkey opts) obj with
                      | Some v => if charsAsChildren opts then (node, obj)
                                  else (obj_set (charkey opts) v node, obj_del (charkey opts) obj)
                      | None => (node, obj)
                      end in
  match obj with [] => node | _ => obj_set (childkey opts) (JObj obj) node end.

Definition push_child (child : jsval) (s : jsobj) : result interruption jsobj :=
  match obj_get (childkey opts) s with
  | Some (JArr l) => Ok (obj_set (childkey opts) (JArr (l ++ [child])) s)
  | Some v => if truthy v then Throw (no_method "s[_this.options.childkey].push")
              else Ok (obj_set (childkey opts) (JArr [child]) s)
  | None => Ok (obj_set (childkey opts) (JArr [child]) s)
  end.

Definition close_children (obj : jsval) (below : list jsobj) : result interruption (jsval * list jsobj) :=
  if negb (explicitChildren opts && negb (mergeAttrs opts)) then Ok (obj, below)
  else match obj with
  | JObj o =>
    if negb (preserveChildrenOrder opts) then Ok (JObj (children_object o), below)
    else match below with
    | [] => Ok (obj, below)
    | s :: below =>
      let* s := push_child (JObj (own_props o)) s in
      let o := obj_del (js "#name") o in
      Ok (if Z.eqb (Z.of_nat (length (own_keys o))) 1 && has (charkey opts) o && negb (explicitCharkey opts)
          then default JUndef (obj_get (charkey opts) o) else JObj o, s :: below)
    end
  | JNull => Throw (Raised (mk_error (js "TypeError") (js "Cannot use 'in' operator to search for '" ++
                                                       attrkey opts ++ js "' in null")))
  | _ => Ok (obj, below)
  end.

(** [onclosetag]. *)
Definition onclosetag : handler := λ x,
  match stack x with
  | [] => (x, Throw (Raised (mk_error (js "TypeError") (js "Cannot read properties of undefined (reading '#name')"))))
  | obj :: below =>
    let nodeName := match obj_get (js "#name") obj with Some (JStr name) => name | _ => [] end in
    let obj := if negb (explicitChildren opts) || negb (preserveChildrenOrder opts)
               then obj_del (js "#name") obj else obj in
    let cdata := bool_decide (obj_get (js "cdata") obj = Some (JBool true)) in
    let obj := if cdata then obj_del (js "cdata") obj else obj in
    let x := x {{ stack := below }} in
    match element_text cdata obj with
    | Throw i => (x, Throw i)
    | Ok (obj, emptyStr) =>
      let obj := if isEmpty obj
                 then match emptyTag opts with Some [] => emptyStr | Some t => JStr t | None => JNull end
                 else obj in
      match close_children obj below with
      | Throw i => (x, Throw i)
      | Ok (obj, s :: below) =>
        match assignOrPush s nodeName obj with
        | Throw i => (x, Throw i)
        | Ok s => (x {{ stack := s :: below }}, Ok ())
        end
      | Ok (obj, []) =>
        let obj := if explicitRoot opts then JObj [(nodeName, obj)] else obj in
        (emit_end obj (x {{ resultObject := obj; ended := true }}), Ok ())
      end
    end
  end.

(** [ontext]: the text is added to the innermost element, if there is one. *)
Definition add_text (text : jsstr) (s : jsobj) : result interruption jsobj :=
  let s := obj_set (charkey opts) (JStr (to_string (obj_prop s (charkey opts)) ++ text)) s in
  if explicitChildren opts && preserveChildrenOrder opts && charsAsChildren opts &&
     (includeWhiteChars opts || negb (str_eqb (trim (drop_backslash_n text)) []))
  then
    let shown := if normalize opts then trim (collapse [] text) else text in
    push_child (JObj (obj_set (charkey opts) (JStr shown) [(js "#name", JStr (js "__text__"))])) s
  else Ok s.

Definition ontext (text : jsstr) : handler := λ x,
  match stack x with
  | [] => (x, Ok ())
  | s :: below =>
    match add_text text s with
    | Throw i => (x, Throw i)
    | Ok s => (x {{ stack := s :: below }}, Ok ())
    end
  end.

Definition oncdata (text : jsstr) : handler := λ x,
  match stack x with
  | [] => (x, Ok ())
  | s :: below =>
    match add_text text s with
    | Throw i => (x, Throw i)
    | Ok s => (x {{ stack := obj_set (js "cdata") (JBool true) s :: below }}, Ok ())
    end
  end.

Definition onerror (e : jserror) : handler := λ x,
  if errThrown x then (x, Ok ()) else emit_error e (x {{ errThrown := true }}).

Definition onend : handler := λ x,
  (if ended x then x else emit_end (resultObject x) (x {{ ended := true }}), Ok ()).

(** The handlers, and the events that have none. *)
Definition handle (e : sax_event) : handler :=
  match e with
  | OnOpenTag t => onopentag t
  | OnCloseTag _ => onclosetag
  | OnText s => ontext s
  | OnCdata s => oncdata s
  | OnError e => onerror e
  | OnEnd => onend
  | _ => λ x, (x, Ok ())
  end.

Fixpoint handle_all (evs : list sax_event) : handler :=
  match evs with
  | [] => λ x, (x, Ok ())
  | e :: evs => λ x, match handle e x with (x, Ok _) => handle_all evs x | (x, Throw i) => (x, Throw i) end
  end.

(** [this.saxParser.write(str).close()]: an exception of a handler ends it; one
    of the machine comes after the events it has reported. *)
Definition feed (s : jsstr) : handler := λ x,
  let '(p, r) := parse_document s (SAXParser true []) in
  match handle_all (log p) x, r with
  | (x, Throw i), _ => (x, Throw i)
  | (x, Ok _), Ok _ => (x, Ok ())
  | (x, Ok _), Throw e => (x, Throw (Raised e))
  end.

(** [parseString(str, cb)]: the calls of [cb] and the exception it throws. *)
Definition parseString (s : jsstr) : handler := λ x,
  if str_eqb (trim s) [] then (emit_end JNull x, Ok ())
  else match feed (stripBOM s) x with
  | (x, Throw (Raised err)) =>
    if negb (errThrown x || ended x) then
      match emit_error err x with
      | (x, Ok _) => (x {{ errThrown := true }}, Ok ())
      | (x, Throw i) => (x, Throw i)
      end
    else if ended x then (x, Throw (Raised err)) else (x, Ok ())
  | (x, r) => (x, r)
  end.

End handlers.
