(* ===== verification/XmlParser.v ===== *)
(** * XML documents to data

    [AWS.XML.Parser] for Node (dist/index.js 27299-27447), which reads the
    object xml2js builds by the shape of an operation's output, the [toType]
    functions of the shapes (17289-17374) and [util.date.parseTimestamp]
    (26407-26421).

    Date objects and buffers are not values of [jsval]; the functions that
    make them are arguments. *)

From stdpp Require Import base gmap strings list.
From Stdlib Require Import ZArith Lia.
From S2P Require Import Prelude JsValue Json JsText JsDate AwsError SignersLegacy ParamValidator QuerySerializer Xml2js.

Local Open Scope Z_scope.

Definition type_error_of (message : jsstr) : jserror := mk_error (js "TypeError") message.

(** The options of the parser. *)
Definition xml2js_options : options :=
  Options false false false (js "$") (js "_") true false false false false false (js "$$") false false None.

Section parser.
Context (new_Date : jsnum + jsstr → jsval).   (* [new Date(x)] *)
Context (base64_Buffer : jsval → jsval).   (* [Buffer.from(x, 'base64')] *)
Context (protocol : jsstr).   (* [api.protocol] *)
Context (xmlNoDefaultLists : bool).   (* [api.xmlNoDefaultLists] *)
Context (table : shape_id → shape).

(** ** Scalars *)

Definition is_word (c : Z) : bool := is_alnum c || Z.eqb c 95.

(** [util.date.parseTimestamp(value)] of text. *)
Definition parseTimestamp (value : jsstr) : result jserror jsval :=
  let seconds n := new_Date (inl (num_mul n (num_of_Z 1000))) in
  if negb (str_eqb value []) && forallb is_digit value then Ok (seconds (num_of_Z (dec_value 0 value)))
  else if Nat.leb 4 (length value) && forallb is_digit (take 4 value) then Ok (new_Date (inr value))
  else if Nat.leb 4 (length value) && forallb is_word (take 3 value) && bool_decide (value !! 3%nat = Some 44)
  then Ok (new_Date (inr value))
  else Throw (js_error (js "unhandled timestamp format: " ++ value)).

(** [util.base64.decode(value)]. *)
Definition base64_decode (value : jsval) : result jserror jsval :=
  match value with
  | JNum n => Throw (js_error (js "Cannot base64 decode number " ++ num_to_str n))
  | JNull | JUndef => Ok value
  | _ => Ok (base64_Buffer value)
  end.

(** [toType] of the scalar shapes. *)
Definition type_timestamp (value : jsval) : result jserror jsval :=
  match value with
  | JStr s => parseTimestamp s
  | JNum n => Ok (new_Date (inl (num_mul n (num_of_Z 1000))))
  | _ => Ok JNull
  end.
Definition type_string (s : shape) (value : jsval) : result jserror jsval :=
  let value := if bool_decide (protocol ∈ [js "rest-xml"; js "query"; js "ec2"]) then js_or value (JStr []) else value in
  if s_isJsonValue s then
    match JSON_parse (to_string value) with
    | Some v => Ok v
    | None => Throw (mk_error (js "SyntaxError") (js "Unexpected token in JSON"))
    end
  else Ok (if truthy value then JStr (to_string value) else value).
Definition type_float (value : jsval) : jsval :=
  if nullish value then JNull else JNum (parseFloat (to_string value)).
Definition type_integer (value : jsval) : jsval :=
  if nullish value then JNull else JNum (parseInt (to_string value)).
Definition type_boolean (value : jsval) : jsval :=
  match value with
  | JBool b => JBool b
  | JNull | JUndef => JNull
  | _ => JBool (is_str (js "true") value)
  end.

Definition toType (s : shape) (value : jsval) : result jserror jsval :=
  let t := default [] (s_type s) in
  if str_eqb t (js "timestamp") then type_timestamp value
  else if str_eqb t (js "float") then Ok (type_float value)
  else if str_eqb t (js "integer") then Ok (type_integer value)
  else if str_eqb t (js "base64") || str_eqb t (js "binary") then base64_decode value
  else if str_eqb t (js "string") then type_string s value
  else if str_eqb t (js "boolean") then Ok (type_boolean value)
  else Ok value.

(** ** Nodes *)

(** [xml[name]] of a node of the object; text has no such property. *)
Definition child (xml : jsval) (name : jsstr) : jsval :=
  match xml with JObj o => obj_prop o name | _ => JUndef end.

(** [parseScalar(text, shape)]. *)
Definition parseScalar (text : jsval) (s : shape) : result jserror jsval :=
  let encoded := is_str (js "base64") (child (child text (js "$")) (js "encoding")) in
  let text := if truthy (child text (js "_")) then child text (js "_") else text in
  if encoded then base64_decode text else toType s text.

(** The callbacks of [util.each], until one throws. *)
Fixpoint each_data {A} (f : A → jsobj → result jserror jsobj) (l : list A) (data : jsobj) : result jserror jsobj :=
  match l with
  | [] => Ok data
  | x :: l => let* data := f x data in each_data f l data
  end.
Fixpoint each_item {A} (f : A → result jserror jsval) (l : list A) : result jserror (list jsval) :=
  match l with
  | [] => Ok []
  | x :: l => let* v := f x in let* vs := each_item f l in Ok (v :: vs)
  end.

(** [v[0]]. *)
Definition item0 (v : jsval) : result jserror jsval :=
  match v with
  | JArr l => Ok (default JUndef (head l))
  | JStr s => Ok (default JUndef ((λ c, JStr [c]) <$> head s))
  | JObj _ | JBool _ | JNum _ => Ok JUndef
  | JUndef | JNull => Throw (type_error_of (js "Cannot read properties of undefined (reading '0')"))
  end.

(** [xml[name][0]]. *)
Definition first_of (name : jsstr) (xml : jsval) : result jserror jsval :=
  match xml with
  | JNull => Throw (type_error_of (js "Cannot read properties of null (reading '" ++ name ++ js "')"))
  | _ => item0 (child xml name)
  end.

Section nodes.
Context (parseXml : jsval → shape → result jserror jsval).   (* the recursive call *)

(** One member of [parseStructure]. *)
Definition parse_member (xml : jsval) (m : jsstr * shape_id) (data : jsobj) : result jserror jsobj :=
  let memberShape := table m.2 in
  let xmlName := s_name memberShape in
  match child xml xmlName with
  | JArr l =>
    let* v := parseXml (if s_flattened memberShape then JArr l else default JUndef (head l)) memberShape in
    Ok (obj_set m.1 v data)
  | _ =>
    match (if x_isXmlAttribute (s_xml memberShape) then child xml (js "$") else JUndef) with
    | JObj attrs =>
      match obj_get xmlName attrs with
      | Some a => let* v := parseScalar a memberShape in Ok (obj_set m.1 v data)
      | None => if has_type memberShape (js "list") && negb xmlNoDefaultLists
                then Ok (obj_set m.1 (JArr []) data) else Ok data
      end
    | _ => if has_type memberShape (js "list") && negb xmlNoDefaultLists
           then Ok (obj_set m.1 (JArr []) data) else Ok data
    end
  end.

Definition parseStructure (xml : jsval) (s : shape) : result jserror jsval :=
  match xml with
  | JNull => Ok (JObj [])
  | JUndef =>
    match own_props (s_members s) with
    | [] => Ok (JObj [])
    | _ => Throw (type_error_of (js "Cannot convert undefined or null to object"))
    end
  | _ => let* data := each_data (parse_member xml) (own_props (s_members s)) [] in Ok (JObj data)
  end.

Definition parse_entry (s : shape) (entry : jsval) (data : jsobj) : result jserror jsobj :=
  let xmlKey := match s_name (table (s_key s)) with [] => js "key" | n => n end in
  let xmlValue := match s_name (table (s_value s)) with [] => js "value" | n => n end in
  let* k := first_of xmlKey entry in
  let* x := first_of xmlValue entry in
  let* v := parseXml x (table (s_value s)) in
  Ok (obj_set (to_string k) v data).

Definition parseMap (xml : jsval) (s : shape) : result jserror jsval :=
  match xml with
  | JNull => Ok (JObj [])
  | _ =>
    let* iterable :=
      (match s_flattened s, xml with
       | true, _ => Ok xml
       | false, JUndef => Throw (type_error_of (js "Cannot read properties of undefined (reading 'entry')"))
       | false, _ => Ok (child xml (js "entry"))
       end) in
    match iterable with
    | JArr entries => let* data := each_data (parse_entry s) entries [] in Ok (JObj data)
    | _ => Ok (JObj [])
    end
  end.

(** The items of [parseList]: [name] and [flattened] of the shape. *)
Definition list_items (flattened : bool) (name : jsstr) (xml : jsval) : list jsval :=
  if flattened then (entries xml).*2
  else match child xml name with JArr l => l | _ => [] end.

Definition parseList (xml : jsval) (s : shape) : result jserror jsval :=
  let name := match s_name (table (s_member s)) with [] => js "member" | n => n end in
  let* l := each_item (λ x, parseXml x (table (s_member s))) (list_items (s_flattened s) name xml) in
  Ok (JArr l).

(** [parseUnknown(xml)]: the member with more than one value is read by
    [parseList(value, {member: {}})]. *)
Definition unknown_member (kv : jsstr * jsval) (data : jsobj) : result jserror jsobj :=
  let '(key, value) := kv in
  if str_eqb key (js "$") then Ok data
  else
    let many := match value with
                | JArr l => Nat.ltb 1 (length l)
                | JStr s => Nat.ltb 1 (length s)
                | _ => false
                end in
    if many then
      let* l := each_item (λ x, parseXml x bare_shape) (list_items false (js "member") value) in
      Ok (obj_set key (JArr l) data)
    else
      let* x := item0 value in
      let* v := parseXml x bare_shape in
      Ok (obj_set key v data).

Definition parseUnknown (xml : jsval) : result jserror jsval :=
  match xml with
  | JUndef | JNull => Ok (JStr [])
  | JStr s => Ok (JStr s)
  | JArr l => let* arr := each_item (λ x, parseXml x bare_shape) l in Ok (JArr arr)
  | JObj o =>
    let keys := own_keys o in
    if Nat.eqb (length keys) 0 || bool_decide (keys = [js "$"]) then Ok (JObj [])
    else let* data := each_data unknown_member (own_props o) [] in Ok (JObj data)
  | _ => Ok (JObj [])
  end.

End nodes.

(** [parseXml(xml, shape)].  Every recursive call is on a part of the node, so
    its depth is enough fuel. *)
Fixpoint parseXml (fuel : nat) (xml : jsval) (s : shape) : result jserror jsval :=
  match fuel with
  | O => Throw (mk_error (js "RangeError") (js "Maximum call stack size exceeded"))
  | S fuel =>
    if has_type s (js "structure") then parseStructure (parseXml fuel) xml s
    else if has_type s (js "map") then parseMap (parseXml fuel) xml s
    else if has_type s (js "list") then parseList (parseXml fuel) xml s
    else if bool_decide (s_type s = None) then parseUnknown (parseXml fuel) xml
    else parseScalar xml s
  end.
Definition parse_node (xml : jsval) (s : shape) : result jserror jsval := parseXml (S (depth xml)) xml s.

(** ** Documents *)

(** What [parse] comes to: data; the error it throws for a document that is not
    well-formed, with the error of the parser; another exception; or a document
    outside the model. *)
Inductive parsed :=
| Data (data : jsval)
| XMLParserError (cause : jserror)
| Exception (e : jserror)
| Outside (name : jsstr).

(** [data.ResponseMetadata = v]: text and numbers ignore it. *)
Definition set_metadata (v data : jsval) : result jserror jsval :=
  match data with
  | JObj o => Ok (JObj (obj_set (js "ResponseMetadata") v o))
  | JNull | JUndef => Throw (type_error_of (js "Cannot set properties of null (setting 'ResponseMetadata')"))
  | _ => Ok data
  end.

Definition parse_result (root : jsval) (s : shape) : result jserror jsval :=
  let* data := parse_node root s in
  if truthy (child root (js "ResponseMetadata")) then
    let* x := first_of (js "ResponseMetadata") root in
    let* v := parse_node x bare_shape in
    set_metadata v data
  else Ok data.

Definition parse (xml : jsstr) (s : shape) : parsed :=
  let outcome (r : result jserror jsval) := match r with Ok data => Data data | Throw e => Exception e end in
  let '(x, r) := parseString xml2js_options xml new_Parser in
  match r with
  | Throw (Raised e) => Exception e
  | Throw (Inherited name) => Outside name
  | Ok _ =>
    let '(error, root) := default (None, JNull) (last (calls x)) in
    if truthy root then outcome (parse_result root s)
    else match error with
         | Some e => XMLParserError e
         | None => outcome (parse_node (JObj []) s)
         end
  end.

End parser.
