(* ===== verification/XmlBuilder.v ===== *)
(** * Data to XML documents

    [AWS.XML.Builder] (dist/index.js 27145-27237), the nodes it builds
    (27466-27531) and their escaping (27253-27275). *)

From stdpp Require Import base gmap strings list.
From Stdlib Require Import ZArith Lia.
From S2P Require Import Prelude JsValue Json AwsError ParamValidator QuerySerializer.

Local Open Scope Z_scope.

(** ** Nodes *)

Definition escapeAttribute (value : jsstr) : jsstr :=
  replace_all 34 (js "&quot;") (replace_all 62 (js "&gt;") (replace_all 60 (js "&lt;")
    (replace_all 39 (js "&apos;") (replace_all 38 (js "&amp;") value)))).

Definition escapeElement (value : jsstr) : jsstr :=
  replace_all 62 (js "&gt;") (replace_all 60 (js "&lt;") (replace_all 38 (js "&amp;") value)).

(** An empty name is one that is not set. *)
Inductive xmlnode :=
| XmlNode (name : jsstr) (attributes : jsobj) (children : list xmlnode)
| XmlText (value : jsval).

Definition shown_name (name : jsstr) : jsstr := match name with [] => js "undefined" | _ => name end.

Definition attribute_text (a : jsstr * jsval) : jsstr :=
  if nullish a.2 then []
  else js " " ++ a.1 ++ js "=" ++ [34] ++ escapeAttribute (to_string a.2) ++ [34].

(** [node.toString()]. *)
Fixpoint node_text (n : xmlnode) : jsstr :=
  match n with
  | XmlText value => escapeElement (to_string value)
  | XmlNode name attributes children =>
    js "<" ++ shown_name name ++ concat (attribute_text <$> own_props attributes) ++
    match children with
    | [] => js "/>"
    | _ => js ">" ++ concat (node_text <$> children) ++ js "</" ++ shown_name name ++ js ">"
    end
  end.

(** ** The builder *)

(** The node under construction: its attributes and its children. *)
Abbreviation building := (jsobj * list xmlnode)%type.

Definition addAttribute (name : jsstr) (value : jsval) (xml : building) : building := (obj_set name value xml.1, xml.2).
Definition addChildNode (n : xmlnode) (xml : building) : building := (xml.1, xml.2 ++ [n]).
Definition element (name : jsstr) (xml : building) : xmlnode := XmlNode name xml.1 xml.2.

Section builder.
Context (Date_parse : jsval → option Z).   (* [new Date(v)] of a value that is not a number *)
Context (Buffer_from : jsval → option (list Z)).   (* [Buffer.from(v)] of a value that is not text *)
Context (xmlNamespaceUri : jsstr).   (* [api.xmlNamespaceUri] *)
Context (table : shape_id → shape).

Definition applyNamespaces (xml : building) (s : shape) (isRoot : bool) : building :=
  let own := x_namespaceUri (s_xml s) in
  let '(uri, prefix) :=
    match own with
    | _ :: _ => (own, match x_namespacePrefix (s_xml s) with [] => js "xmlns" | p => js "xmlns:" ++ p end)
    | [] => (if isRoot then xmlNamespaceUri else [], js "xmlns")
    end in
  match uri with [] => xml | _ => addAttribute prefix (JStr uri) xml end.

(** The callbacks of [util.each], until one throws. *)
Fixpoint build_each {A} (f : A → building → option building) (l : list A) (xml : building) : option building :=
  match l with
  | [] => Some xml
  | x :: l => xml ← f x xml; build_each f l xml
  end.

Definition serializeScalar (s : shape) (value : jsval) (xml : building) : option building :=
  t ← wire Date_parse Buffer_from s value; Some (addChildNode (XmlText (JStr t)) xml).

Section nodes.
Context (serialize : shape → jsval → building → option building).   (* the recursive call *)

Definition serialize_member (s : shape) (params : jsval) (memberName : jsstr) (xml : building) : option building :=
  id ← obj_get memberName (s_members s);
  let memberShape := table id in
  if negb (is_str (js "body") (s_location memberShape)) then Some xml
  else
    let value := js_prop params memberName in
    let name := s_name memberShape in
    if nullish value then Some xml
    else if x_isXmlAttribute (s_xml memberShape) then Some (addAttribute name value xml)
    else if s_flattened memberShape then serialize memberShape value xml
    else
      e ← serialize memberShape value (applyNamespaces ([], []) memberShape false);
      Some (addChildNode (element name e) xml).

Definition serializeStructure (s : shape) (params : jsval) (xml : building) : option building :=
  build_each (serialize_member s params) (x_memberNames (s_xml s)) xml.

Definition serialize_entry (s : shape) (kv : jsstr * jsval) (xml : building) : option building :=
  let xmlKey := match s_name (table (s_key s)) with [] => js "key" | n => n end in
  let xmlValue := match s_name (table (s_value s)) with [] => js "value" | n => n end in
  k ← serialize (table (s_key s)) (JStr kv.1) ([], []);
  v ← serialize (table (s_value s)) kv.2 ([], []);
  Some (addChildNode (XmlNode (if s_flattened s then s_name s else js "entry") []
                        [element xmlKey k; element xmlValue v]) xml).

Definition serializeMap (s : shape) (map : jsval) (xml : building) : option building :=
  build_each (serialize_entry s) (entries map) xml.

Definition item_element (s : shape) : jsstr :=
  match s_name (table (s_member s)) with
  | [] => if s_flattened s then s_name s else js "member"
  | n => n
  end.

Definition serializeList (s : shape) (l : jsval) (xml : building) : option building :=
  build_each (λ value xml, e ← serialize (table (s_member s)) value ([], []);
                           Some (addChildNode (element (item_element s) e) xml)) (entries l).*2 xml.

End nodes.

(** [serialize(xml, value, shape)]; the fuel bounds the depth of the value. *)
Fixpoint serialize (fuel : nat) (s : shape) (value : jsval) (xml : building) : option building :=
  match fuel with
  | O => None
  | S fuel =>
    if has_type s (js "structure") then serializeStructure (serialize fuel) s value xml
    else if has_type s (js "map") then serializeMap (serialize fuel) s value xml
    else if has_type s (js "list") then serializeList (serialize fuel) s value xml
    else serializeScalar s value xml
  end.

Definition build (fuel : nat) (params : jsval) (s : shape) (rootElement : jsstr) : option xmlnode :=
  e ← serialize fuel s params (applyNamespaces ([], []) s true); Some (element rootElement e).

Definition toXML (fuel : nat) (params : jsval) (s : shape) (rootElement : jsstr) (noEmpty : bool) : option jsstr :=
  n ← build fuel params s rootElement;
  Some (match n with
        | XmlNode _ _ [] => if noEmpty then node_text n else []
        | _ => node_text n
        end).

End builder.
