(* ===== verification/SaxDocument.v ===== *)
(** * The parser on printed documents

    What the state machine of Sax.v reports for the documents the nodes of
    XmlBuilder.v print: for every tree, the events of its elements, its
    attributes and its text, with the escaping undone. *)

From stdpp Require Import base gmap strings list.
From Stdlib Require Import ZArith Lia.
From coqutil Require Import Datatypes.RecordSetters.
From S2P Require Import Prelude JsValue Json JsText SignersLegacy Sax SaxEvents ParamValidator XmlBuilder.

Import DoubleBraceUpdate.
Local Open Scope Z_scope.

(** ** Reading *)

(** A parser on whose state nothing but elements and text has left a trace. *)
Definition reader (s : sax_state) (qq t name ent an av : jsstr) (ts : list tag) (tg : option tag) (cr saw : bool)
    (lg : list sax_event) (pl : place) : parser :=
  Parser s pl qq [] [] t name (Some []) [] [] ent an av [] ts tg false cr saw None (Some MAX_BUFFER_LENGTH) true lg.

Lemma read_reader c s qq t name ent an av ts tg cr saw lg pl :
  read_char c (reader s qq t name ent an av ts tg cr saw lg pl) =
  reader s qq t name ent an av ts tg cr saw lg ((advance c pl) {{ current := [c] }}).
Proof. reflexivity. Qed.

(** Reading [s] takes a parser from [p] to [p'], wherever in the document. *)
Definition reads (s : jsstr) (p p' : place → parser) : Prop := ∀ pl, ∃ pl', steps s (p pl) = (p' pl', Ok ()).

Lemma reads_nil p : reads [] p p.
Proof. intros pl. by exists pl. Qed.

Lemma reads_app a b p q r : reads a p q → reads b q r → reads (a ++ b) p r.
Proof.
  intros Ha Hb pl. destruct (Ha pl) as [pl1 H1]. destruct (Hb pl1) as [pl2 H2]. exists pl2.
  by rewrite steps_app, (st_bind_run _ _ _ _ _ H1).
Qed.

Lemma reads_cons c s p q r : reads [c] p q → reads s q r → reads (c :: s) p r.
Proof. apply (reads_app [c] s). Qed.

Lemma reads_step c p q : (∀ pl, ∃ pl', step c (p pl) = (q pl', Ok ())) → reads [c] p q.
Proof. intros H pl. destruct (H pl) as [pl' Hs]. exists pl'. cbn [steps]. by rewrite (st_bind_run _ _ _ _ _ Hs). Qed.

(** ** Names *)

Definition name_ok (n : jsstr) : bool := match n with c :: n' => nameStart c && forallb nameBody n' | [] => false end.

Lemma nameStart_not c : nameStart c = true →
  Z.eqb c 33 = false ∧ whitespace c = false ∧ Z.eqb c 62 = false ∧ Z.eqb c 47 = false ∧ Z.eqb c 61 = false ∧ is_digit c = false.
Proof.
  intros H. assert (Hn : ∀ d, nameStart d = false → c ≠ d) by (intros d Hd ->; congruence).
  unfold whitespace, is_digit. rewrite !(proj2 (Z.eqb_neq _ _)) by (apply Hn; reflexivity). repeat split.
  destruct (Z.leb_spec 48 c), (Z.leb_spec c 57); try done. exfalso.
  assert (Hc : c = 48 ∨ c = 49 ∨ c = 50 ∨ c = 51 ∨ c = 52 ∨ c = 53 ∨ c = 54 ∨ c = 55 ∨ c = 56 ∨ c = 57) by lia.
  repeat (destruct Hc as [->|Hc]; [discriminate H|]). by subst.
Qed.

Lemma nameBody_not c : nameBody c = true →
  whitespace c = false ∧ Z.eqb c 62 = false ∧ Z.eqb c 47 = false ∧ Z.eqb c 61 = false.
Proof.
  intros H. assert (Hn : ∀ d, nameBody d = false → c ≠ d) by (intros d Hd ->; congruence).
  unfold whitespace. rewrite !(proj2 (Z.eqb_neq _ _)) by (apply Hn; reflexivity). done.
Qed.

Section element.
Context (t : jsstr) (ts : list tag) (tg : option tag) (cr saw : bool) (lg : list sax_event).

Lemma reads_name_rest pre n :
  forallb nameBody n = true →
  reads n (reader OPEN_TAG [] t pre [] [] [] ts tg cr saw lg) (reader OPEN_TAG [] t (pre ++ n) [] [] [] ts tg cr saw lg).
Proof.
  revert pre. induction n as [|d n IH]; intros pre Hn; [rewrite app_nil_r; apply reads_nil|].
  cbn [forallb] in Hn. apply andb_true_iff in Hn as [Hd Hn].
  apply (reads_cons d n _ (reader OPEN_TAG [] t (pre ++ [d]) [] [] [] ts tg cr saw lg)).
  - apply reads_step. intros pl. eexists. rewrite step_other by done. cbn [reader state step_in]. unfold on_open_tag.
    by rewrite Hd.
  - specialize (IH (pre ++ [d]) Hn). by rewrite <-app_assoc in IH.
Qed.

Lemma reads_open_name n :
  name_ok n = true →
  reads n (reader OPEN_WAKA [] t [] [] [] [] ts tg cr saw lg) (reader OPEN_TAG [] t n [] [] [] ts tg cr saw lg).
Proof.
  destruct n as [|c n]; [done|]. cbn [name_ok]. intros [Hc Hn]%andb_true_iff.
  apply (reads_cons c n _ (reader OPEN_TAG [] t [c] [] [] [] ts tg cr saw lg)); [|by apply (reads_name_rest [c] n)].
  apply reads_step. intros pl. destruct (nameStart_not c Hc) as (H1 & H2 & _). eexists. rewrite step_other by done.
  cbn [reader state step_in]. unfold plain, st_modify, on_open_waka. by rewrite H1, H2, Hc.
Qed.
End element.

(** ** Escaped text *)

Lemma escapeAttribute_cons c v : escapeAttribute (c :: v) = escapeAttribute [c] ++ escapeAttribute v.
Proof.
  unfold escapeAttribute. rewrite <-!replace_all_app. by cbn [app].
Qed.

Lemma escapeElement_cons c v : escapeElement (c :: v) = escapeElement [c] ++ escapeElement v.
Proof. unfold escapeElement. rewrite <-!replace_all_app. by cbn [app]. Qed.

Lemma replace_all_one d r c : c ≠ d → replace_all d r [c] = [c].
Proof. intros H%Z.eqb_neq. unfold replace_all. cbn [flat_map]. by rewrite H. Qed.

(** A character is one of those that have an entity, or stands for itself. *)
Lemma escapeAttribute_unit c :
  (c, escapeAttribute [c]) ∈ [(38, js "&amp;"); (39, js "&apos;"); (60, js "&lt;"); (62, js "&gt;"); (34, js "&quot;")] ∨
  (escapeAttribute [c] = [c] ∧ c ≠ 38 ∧ c ≠ 34).
Proof.
  destruct (decide (c = 38)) as [->|H1]; [left; vm_compute; repeat constructor|].
  destruct (decide (c = 39)) as [->|H2]; [left; vm_compute; repeat constructor|].
  destruct (decide (c = 60)) as [->|H3]; [left; vm_compute; repeat constructor|].
  destruct (decide (c = 62)) as [->|H4]; [left; vm_compute; repeat constructor|].
  destruct (decide (c = 34)) as [->|H5]; [left; vm_compute; repeat constructor|].
  right. split; [|done]. unfold escapeAttribute. by rewrite !replace_all_one.
Qed.

Lemma escapeElement_unit c :
  (c, escapeElement [c]) ∈ [(38, js "&amp;"); (60, js "&lt;"); (62, js "&gt;")] ∨
  (escapeElement [c] = [c] ∧ c ≠ 38 ∧ c ≠ 60).
Proof.
  destruct (decide (c = 38)) as [->|H1]; [left; vm_compute; repeat constructor|].
  destruct (decide (c = 60)) as [->|H2]; [left; vm_compute; repeat constructor|].
  destruct (decide (c = 62)) as [->|H3]; [left; vm_compute; repeat constructor|].
  right. split; [|done]. unfold escapeElement. by rewrite !replace_all_one.
Qed.

Section reading.
Context (ts : list tag) (cr saw : bool).

(** *** The value of an attribute *)

Lemma reads_entity_value name an av tg lg c e :
  (c, e) ∈ [(38, js "&amp;"); (39, js "&apos;"); (60, js "&lt;"); (62, js "&gt;"); (34, js "&quot;")] →
  reads e (reader ATTRIB_VALUE_QUOTED [34] [] name [] an av ts tg cr saw lg)
          (reader ATTRIB_VALUE_QUOTED [34] [] name [] an (av ++ [c]) ts tg cr saw lg).
Proof.
  rewrite !elem_of_cons, elem_of_nil.
  intros [H|[H|[H|[H|[H|[]]]]]]; injection H as -> ->; intros pl; eexists; reflexivity.
Qed.

Lemma reads_value v name an av tg lg :
  reads (escapeAttribute v) (reader ATTRIB_VALUE_QUOTED [34] [] name [] an av ts tg cr saw lg)
        (reader ATTRIB_VALUE_QUOTED [34] [] name [] an (av ++ v) ts tg cr saw lg).
Proof.
  revert av. induction v as [|c v IH]; intros av; [rewrite app_nil_r; apply reads_nil|].
  rewrite escapeAttribute_cons.
  apply (reads_app _ _ _ (reader ATTRIB_VALUE_QUOTED [34] [] name [] an (av ++ [c]) ts tg cr saw lg)).
  2: { specialize (IH (av ++ [c])). by rewrite <-app_assoc in IH. }
  destruct (escapeAttribute_unit c) as [H|(-> & H1 & H2)]; [by apply reads_entity_value|].
  apply reads_step. intros pl. eexists. rewrite step_other by done. cbn [reader state step_in].
  unfold on_attrib_value_quoted. change (q (read_char _ _)) with [34].
  rewrite (proj2 (str_eqb_neq _ _)) by congruence. by rewrite (proj2 (Z.eqb_neq c 38) H1).
Qed.

(** *** Attributes *)

Lemma reads_attribute_name k name tg lg :
  name_ok k = true →
  reads k (reader ATTRIB [] [] name [] [] [] ts tg cr saw lg) (reader ATTRIB_NAME [] [] name [] k [] ts tg cr saw lg).
Proof.
  destruct k as [|c k]; [done|]. cbn [name_ok]. intros [Hc Hk]%andb_true_iff.
  apply (reads_cons c k _ (reader ATTRIB_NAME [] [] name [] [c] [] ts tg cr saw lg)).
  - apply reads_step. intros pl. destruct (nameStart_not c Hc) as (_ & H1 & H2 & H3 & _). eexists. rewrite step_other by done.
    cbn [reader state step_in]. unfold on_attrib. by rewrite H1, H2, H3, Hc.
  - apply (reads_app [] k _ (reader ATTRIB_NAME [] [] name [] [c] [] ts tg cr saw lg)); [apply reads_nil|].
    change (c :: k) with ([c] ++ k). generalize [c]. revert Hk. induction k as [|d k IH]; intros Hk pre.
    { rewrite app_nil_r. apply reads_nil. }
    cbn [forallb] in Hk. apply andb_true_iff in Hk as [Hd Hk].
    apply (reads_cons d k _ (reader ATTRIB_NAME [] [] name [] (pre ++ [d]) [] ts tg cr saw lg)).
    + apply reads_step. intros pl. destruct (nameBody_not d Hd) as (H1 & H2 & _ & H3). eexists. rewrite step_other by done.
      cbn [reader state step_in]. unfold on_attrib_name. by rewrite H3, H2, H1, Hd.
    + specialize (IH Hk (pre ++ [d])). by rewrite <-app_assoc in IH.
Qed.

(** The attributes an element can have: names that hide no method. *)
Definition attribute_ok (k : jsstr) : bool :=
  name_ok k && negb (str_eqb k (js "__proto__")) && negb (str_eqb k (js "hasOwnProperty")).

Lemma reads_attribute k v name attrs lg :
  attribute_ok k = true → k ∉ attrs.*1 → js "hasOwnProperty" ∉ attrs.*1 →
  reads (k ++ js "=" ++ [34] ++ escapeAttribute v ++ [34])
        (reader ATTRIB [] [] name [] [] [] ts (Some (Tag name attrs false)) cr saw lg)
        (reader ATTRIB_VALUE_CLOSED [] [] name [] [] [] ts (Some (Tag name (attrs ++ [(k, v)]) false)) cr saw
                (lg ++ [OnAttribute k v])).
Proof.
  intros [[Hk Hp]%andb_true_iff _]%andb_true_iff Hfresh Hhas. rewrite negb_true_iff in Hp.
  set (tg := Some (Tag name attrs false)).
  apply (reads_app _ _ _ (reader ATTRIB_NAME [] [] name [] k [] ts tg cr saw lg)); [by apply reads_attribute_name|].
  apply (reads_app _ _ _ (reader ATTRIB_VALUE [] [] name [] k [] ts tg cr saw lg)); [intros pl; eexists; reflexivity|].
  apply (reads_app _ _ _ (reader ATTRIB_VALUE_QUOTED [34] [] name [] k [] ts tg cr saw lg)); [intros pl; eexists; reflexivity|].
  apply (reads_app _ _ _ (reader ATTRIB_VALUE_QUOTED [34] [] name [] k v ts tg cr saw lg)); [apply (reads_value v name k [])|].
  apply reads_step. intros pl. eexists. rewrite step_other by done. cbn [reader state step_in].
  unfold on_attrib_value_quoted. change (q (read_char _ _)) with [34]. change (str_eqb [34] [34]) with true. cbn [negb].
  unfold st_bind, attrib. change (ptag (read_char _ _)) with tg. unfold tg. cbn [attributes].
  change (attribName (read_char _ _)) with k.
  assert (Hnone : ∀ x, x ∉ attrs.*1 → obj_get x attrs = None).
  { intros x Hx. destruct (obj_get x attrs) eqn:He; [|done]. destruct Hx. apply obj_get_elem. by rewrite He. }
  rewrite !Hnone by done. unfold set_attribute. rewrite Hp, obj_set_fresh by done. reflexivity.
Qed.

(** The attributes of a node as it prints them. *)
Definition printed (attrs : list (jsstr * jsstr)) : jsstr :=
  concat ((λ a : jsstr * jsstr, js " " ++ a.1 ++ js "=" ++ [34] ++ escapeAttribute a.2 ++ [34]) <$> attrs).

Definition attribute_events (attrs : list (jsstr * jsstr)) : list sax_event := (λ a, OnAttribute a.1 a.2) <$> attrs.

Definition attributes_ok (attrs : list (jsstr * jsstr)) : Prop :=
  Forall (λ k, attribute_ok k = true) attrs.*1 ∧ NoDup attrs.*1.

Lemma attribute_ok_has (attrs : list (jsstr * jsstr)) : Forall (λ k, attribute_ok k = true) attrs.*1 → js "hasOwnProperty" ∉ attrs.*1.
Proof. rewrite Forall_forall. intros H Hin. apply H in Hin. by vm_compute in Hin. Qed.

Lemma reads_more_attributes attrs pre name lg :
  attributes_ok (pre ++ attrs) →
  reads (printed attrs)
        (reader ATTRIB_VALUE_CLOSED [] [] name [] [] [] ts (Some (Tag name pre false)) cr saw lg)
        (reader ATTRIB_VALUE_CLOSED [] [] name [] [] [] ts (Some (Tag name (pre ++ attrs) false)) cr saw
                (lg ++ attribute_events attrs)).
Proof.
  revert pre lg. induction attrs as [|[k v] attrs IH]; intros pre lg [Hok Hnd].
  { rewrite !app_nil_r. apply reads_nil. }
  unfold printed. cbn [fmap list_fmap concat fst snd]. rewrite <-app_assoc.
  apply (reads_app _ _ _ (reader ATTRIB [] [] name [] [] [] ts (Some (Tag name pre false)) cr saw lg));
    [intros pl; eexists; reflexivity|].
  rewrite fmap_app in Hok, Hnd. cbn [fmap list_fmap fst] in Hok, Hnd.
  apply Forall_app in Hok as [Hpre [Hk Hrest]%Forall_cons]. apply NoDup_app in Hnd as (Hnd1 & Hdisj & Hnd2).
  eapply (reads_app (k ++ _)); [apply reads_attribute; [done| |by apply attribute_ok_has]|].
  { intros Hin. apply (Hdisj k Hin). left. }
  specialize (IH (pre ++ [(k, v)]) (lg ++ [OnAttribute k v])). rewrite <-!app_assoc in IH. apply IH.
  split; rewrite fmap_app; cbn [fmap list_fmap fst].
  - apply Forall_app. split; [done|]. by apply Forall_cons.
  - by apply NoDup_app.
Qed.

(** *** Tags *)

Definition flush (t : jsstr) : list sax_event := if str_eqb t [] then [] else [OnText t].

Definition start_events (t name : jsstr) (attrs : list (jsstr * jsstr)) : list sax_event :=
  flush t ++ OnOpenTagStart (Tag name [] false) :: attribute_events attrs.

(** The tag as far as its attributes: the parser is still in the name of the tag
    when there are none. *)
Definition in_start (t name : jsstr) (attrs : list (jsstr * jsstr)) (tg : option tag) (lg : list sax_event) : place → parser :=
  match attrs with
  | [] => reader OPEN_TAG [] t name [] [] [] ts tg cr saw lg
  | _ => reader ATTRIB_VALUE_CLOSED [] [] name [] [] [] ts (Some (Tag name attrs false)) cr saw
                (lg ++ start_events t name attrs)
  end.

Lemma newTag_reader t name tg lg pl :
  newTag (reader OPEN_TAG [] t name [] [] [] ts tg cr saw lg pl) =
  reader OPEN_TAG [] [] name [] [] [] ts (Some (Tag name [] false)) cr saw
         (lg ++ flush t ++ [OnOpenTagStart (Tag name [] false)]) pl.
Proof.
  destruct t as [|c t]; [reflexivity|].
  transitivity (reader OPEN_TAG [] [] name [] [] [] ts (Some (Tag name [] false)) cr saw
                  ((lg ++ flush (c :: t)) ++ [OnOpenTagStart (Tag name [] false)]) pl); [reflexivity|].
  by rewrite <-app_assoc.
Qed.

Lemma reads_attributes t name attrs tg lg :
  attributes_ok attrs →
  reads (printed attrs) (reader OPEN_TAG [] t name [] [] [] ts tg cr saw lg) (in_start t name attrs tg lg).
Proof.
  destruct attrs as [|[k v] attrs]; [intros _; apply reads_nil|]. intros Hok.
  unfold printed. cbn [fmap list_fmap concat fst snd]. rewrite <-app_assoc.
  set (lg1 := lg ++ flush t ++ [OnOpenTagStart (Tag name [] false)]).
  apply (reads_app _ _ _ (reader ATTRIB [] [] name [] [] [] ts (Some (Tag name [] false)) cr saw lg1)).
  { apply (reads_step 32). intros pl. eexists. rewrite step_other by done. change (state (reader OPEN_TAG _ _ _ _ _ _ _ _ _ _ _ _)) with OPEN_TAG. cbn [step_in].
    unfold on_open_tag. change (nameBody 32) with false. cbv iota.
    rewrite read_reader, newTag_reader. reflexivity. }
  destruct Hok as [[Hk Hrest]%Forall_cons Hnd].
  eapply (reads_app (k ++ _)); [apply reads_attribute; [done|apply not_elem_of_nil|apply not_elem_of_nil]|].
  cbn [app]. unfold in_start, start_events.
  replace (lg ++ _) with ((lg1 ++ [OnAttribute k v]) ++ attribute_events attrs).
  - apply (reads_more_attributes attrs [(k, v)]). split; [by apply Forall_cons|done].
  - unfold lg1. by rewrite <-!app_assoc.
Qed.

Lemma in_start_opens t name attrs tg lg :
  reads (js ">") (in_start t name attrs tg lg)
        (reader TEXT [] [] [] [] [] [] (Tag name attrs false :: ts) None cr true
                (lg ++ start_events t name attrs ++ [OnOpenTag (Tag name attrs false)])).
Proof.
  apply (reads_step 62). intros pl. eexists. unfold start_events. destruct attrs as [|a attrs]; unfold in_start.
  - rewrite step_other by done. cbn [reader state step_in].
    unfold on_open_tag. change (nameBody 62) with false. cbv iota.
    rewrite read_reader, newTag_reader, !app_assoc. reflexivity.
  - rewrite app_assoc. reflexivity.
Qed.

(** Whether the root is closed once an element with the elements [outer] around
    it is. *)
Definition root_closed (outer : list tag) : bool := match outer with [] => true | _ => cr end.

Lemma closeTag_reader s t tg tag0 lg pl name :
  tag_name tag0 = name → name ≠ [] →
  closeTag (reader s [] t name [] [] [] (tag0 :: ts) tg cr true lg pl) =
  reader TEXT [] [] [] [] [] [] ts (Some tag0) (root_closed ts) true (lg ++ flush t ++ [OnCloseTag name]) pl.
Proof.
  intros <- Hn. set (R := reader s [] t (tag_name tag0) [] [] [] (tag0 :: ts) tg cr true lg pl). unfold closeTag.
  change (tagName R) with (tag_name tag0). change (tags R) with (tag0 :: ts).
  rewrite (proj2 (str_eqb_neq _ _) Hn). cbn [closes]. rewrite str_eqb_refl. change (tags R) with (tag0 :: ts).
  replace (length (tag0 :: ts) - length ts)%nat with 1%nat by (cbn; lia).
  assert (Hp : pop_tags 1 R =
               reader s [] [] (tag_name tag0) [] [] [] ts (Some tag0) cr true (lg ++ flush t ++ [OnCloseTag (tag_name tag0)]) pl).
  { destruct t as [|c t]; [reflexivity|].
    transitivity (reader s [] [] (tag_name tag0) [] [] [] ts (Some tag0) cr true
                    ((lg ++ flush (c :: t)) ++ [OnCloseTag (tag_name tag0)]) pl); [reflexivity|]. by rewrite <-app_assoc. }
  rewrite Hp. by destruct ts.
Qed.

Lemma in_start_closes t name attrs tg lg :
  name ≠ [] →
  reads (js "/>") (in_start t name attrs tg lg)
        (reader TEXT [] [] [] [] [] [] ts (Some (Tag name attrs true)) (root_closed ts) true
                (lg ++ start_events t name attrs ++ [OnOpenTag (Tag name attrs true); OnCloseTag name])).
Proof.
  intros Hn. set (lg1 := lg ++ start_events t name attrs).
  apply (reads_app [47] [62] _ (reader OPEN_TAG_SLASH [] [] name [] [] [] ts (Some (Tag name attrs false)) cr saw lg1)).
  - apply reads_step. intros pl. eexists. unfold lg1, start_events. destruct attrs as [|a attrs]; unfold in_start; [|reflexivity].
    rewrite step_other by done. cbn [reader state step_in]. unfold on_open_tag. change (nameBody 47) with false. cbv iota.
    rewrite read_reader, newTag_reader. reflexivity.
  - apply reads_step. intros pl. eexists. rewrite step_other by done. cbn [reader state step_in].
    unfold on_open_tag_slash. change (Z.eqb 62 62) with true. cbv iota.
    set (tg2 := Tag name attrs true).
    set (pl1 := at_ (read_char 62 (reader OPEN_TAG_SLASH [] [] name [] [] [] ts (Some (Tag name attrs false)) cr saw lg1 pl))).
    assert (Ho : openTag true (read_char 62 (reader OPEN_TAG_SLASH [] [] name [] [] [] ts (Some (Tag name attrs false)) cr saw lg1 pl)) =
                 (reader OPEN_TAG_SLASH [] [] name [] [] [] (tg2 :: ts) (Some tg2) cr true (lg1 ++ [OnOpenTag tg2]) pl1, Ok ())) by reflexivity.
    rewrite (st_bind_run _ _ _ _ _ Ho). unfold plain, st_modify. rewrite (closeTag_reader _ _ _ tg2) by done.
    unfold lg1. by rewrite <-!app_assoc.
Qed.

(** *** End tags and text *)

Lemma reads_lt t tg lg :
  reads [60] (reader TEXT [] t [] [] [] [] ts tg false true lg) (reader OPEN_WAKA [] t [] [] [] [] ts tg false true lg).
Proof. intros pl. eexists. reflexivity. Qed.

End reading.

Lemma reads_close_rest ts pre n t tg lg :
  forallb nameBody n = true → pre ≠ [] →
  reads n (reader CLOSE_TAG [] t pre [] [] [] ts tg false true lg) (reader CLOSE_TAG [] t (pre ++ n) [] [] [] ts tg false true lg).
Proof.
  revert pre. induction n as [|d n IH]; intros pre Hn Hpre; [rewrite app_nil_r; apply reads_nil|].
  cbn [forallb] in Hn. apply andb_true_iff in Hn as [Hd Hn].
  apply (reads_cons d n _ (reader CLOSE_TAG [] t (pre ++ [d]) [] [] [] ts tg false true lg)).
  - apply reads_step. intros pl. destruct (nameBody_not d Hd) as (_ & H1 & _). eexists. rewrite step_other by done.
    cbn [reader state step_in]. unfold plain, st_modify, on_close_tag. change (tagName (read_char _ _)) with pre.
    rewrite (proj2 (str_eqb_neq _ _) Hpre). by rewrite H1, Hd.
  - specialize (IH (pre ++ [d]) Hn). rewrite <-app_assoc in IH. apply IH. by destruct pre.
Qed.

Lemma reads_end_tag t tag0 ts tg lg :
  name_ok (tag_name tag0) = true →
  reads (js "</" ++ tag_name tag0 ++ js ">") (reader TEXT [] t [] [] [] [] (tag0 :: ts) tg false true lg)
        (reader TEXT [] [] [] [] [] [] ts (Some tag0) (root_closed false ts) true (lg ++ flush t ++ [OnCloseTag (tag_name tag0)])).
Proof.
  intros Hn. apply (reads_app [60; 47] _ _ (reader CLOSE_TAG [] t [] [] [] [] (tag0 :: ts) tg false true lg));
    [intros pl; eexists; reflexivity|].
  destruct (tag_name tag0) as [|c n] eqn:Hname; [done|]. cbn [name_ok] in Hn. apply andb_true_iff in Hn as [Hc Hn].
  apply (reads_app (c :: n) _ _ (reader CLOSE_TAG [] t (c :: n) [] [] [] (tag0 :: ts) tg false true lg)).
  - apply (reads_cons c n _ (reader CLOSE_TAG [] t [c] [] [] [] (tag0 :: ts) tg false true lg));
      [|by apply (reads_close_rest _ [c] n)].
    apply reads_step. intros pl. destruct (nameStart_not c Hc) as (_ & H1 & _). eexists. rewrite step_other by done.
    cbn [reader state step_in]. unfold plain, st_modify, on_close_tag. change (tagName (read_char _ _)) with (@nil Z).
    change (str_eqb [] []) with true. cbv iota. by rewrite H1, Hc.
  - apply (reads_step 62). intros pl. eexists. rewrite step_other by done. cbn [reader state step_in].
    unfold plain, st_modify, on_close_tag. change (tagName (read_char _ _)) with (c :: n).
    rewrite (proj2 (str_eqb_neq (c :: n) [])) by done. change (Z.eqb 62 62) with true. cbv iota.
    set (pl1 := at_ (read_char 62 (reader CLOSE_TAG [] t (c :: n) [] [] [] (tag0 :: ts) tg false true lg pl))).
    change (read_char 62 _) with (reader CLOSE_TAG [] t (c :: n) [] [] [] (tag0 :: ts) tg false true lg pl1).
    rewrite (closeTag_reader ts false _ _ _ tag0) by done. reflexivity.
Qed.

Lemma reads_text v t ts tg lg :
  reads (escapeElement v) (reader TEXT [] t [] [] [] [] ts tg false true lg) (reader TEXT [] (t ++ v) [] [] [] [] ts tg false true lg).
Proof.
  revert t. induction v as [|c v IH]; intros t; [rewrite app_nil_r; apply reads_nil|]. rewrite escapeElement_cons.
  apply (reads_app _ _ _ (reader TEXT [] (t ++ [c]) [] [] [] [] ts tg false true lg)).
  2: { specialize (IH (t ++ [c])). by rewrite <-app_assoc in IH. }
  destruct (escapeElement_unit c) as [H|(-> & H1 & H2)].
  - rewrite !elem_of_cons, elem_of_nil in H.
    destruct H as [H|[H|[H|[]]]]; injection H as -> ->; intros pl; eexists; reflexivity.
  - apply reads_step. intros pl. eexists. rewrite step_text by done. rewrite text_outside_plain; [reflexivity|done|].
    apply Z.eqb_neq in H1, H2. by rewrite H1, H2.
Qed.

(** ** Trees *)

Section xmlnode_induction.
Context (P : xmlnode → Prop).
Context (Htext : ∀ value, P (XmlText value)).
Context (Hnode : ∀ name attributes children, Forall P children → P (XmlNode name attributes children)).

Fixpoint xmlnode_ind' (n : xmlnode) : P n :=
  match n with
  | XmlText value => Htext value
  | XmlNode name attributes children =>
    Hnode name attributes children
      ((fix all (l : list xmlnode) : Forall P l :=
          match l with
          | [] => Forall_nil_2 _
          | n :: l => Forall_cons_2 _ _ _ (xmlnode_ind' n) (all l)
          end) children)
  end.
End xmlnode_induction.

(** The attributes a node prints: those that are not null. *)
Definition shown_attributes (attributes : jsobj) : list (jsstr * jsstr) :=
  (λ a : jsstr * jsval, (a.1, to_string a.2)) <$> filter (λ a, nullish a.2 = false) (own_props attributes).

Lemma printed_attributes attributes : concat (attribute_text <$> own_props attributes) = printed (shown_attributes attributes).
Proof.
  unfold printed, shown_attributes. induction (own_props attributes) as [|[k v] l IH]; [done|].
  cbn [fmap list_fmap concat]. rewrite IH, filter_cons. unfold attribute_text. cbn [fst snd].
  destruct (nullish v); by case_decide.
Qed.

(** The names of the elements and of their attributes are names of XML, and no
    attribute is given twice or hides a method. *)
Fixpoint printable (n : xmlnode) : bool :=
  match n with
  | XmlText _ => true
  | XmlNode name attributes children =>
    name_ok (shown_name name) && forallb attribute_ok (shown_attributes attributes).*1 &&
    bool_decide (NoDup (shown_attributes attributes).*1) && forallb printable children
  end.

Lemma printable_node name attributes children :
  printable (XmlNode name attributes children) = true →
  name_ok (shown_name name) = true ∧ attributes_ok (shown_attributes attributes) ∧ Forall (λ n, printable n = true) children.
Proof.
  cbn [printable]. rewrite !andb_true_iff, bool_decide_eq_true, !forallb_forall. intros [[[H1 H2] H3] H4].
  split; [done|]. split; [split; [|done]|]; apply Forall_forall; intros x Hx; [apply H2|apply H4]; by apply list_elem_of_In.
Qed.

(** The events of a node, and of the children of one, when the text [t] is
    pending; and the text pending afterwards. *)
Fixpoint node_events (t : jsstr) (n : xmlnode) : list sax_event * jsstr :=
  match n with
  | XmlText value => ([], t ++ to_string value)
  | XmlNode name attributes children =>
    let name := shown_name name in
    let attrs := shown_attributes attributes in
    let start := start_events t name attrs in
    match children with
    | [] => (start ++ [OnOpenTag (Tag name attrs true); OnCloseTag name], [])
    | _ =>
      let '(evs, t) := foldl (λ st n, let '(evs, t) := node_events st.2 n in (st.1 ++ evs, t)) ([], []) children in
      (start ++ OnOpenTag (Tag name attrs false) :: evs ++ flush t ++ [OnCloseTag name], [])
    end
  end.
Definition content_events (st : list sax_event * jsstr) (l : list xmlnode) : list sax_event * jsstr :=
  foldl (λ st n, let '(evs, t) := node_events st.2 n in (st.1 ++ evs, t)) st l.

(** An element without its first character. *)
Definition element_rest (name : jsstr) (attributes : jsobj) (children : list xmlnode) : jsstr :=
  drop 1 (node_text (XmlNode name attributes children)).

Definition reads_node (n : xmlnode) : Prop := ∀ t tag0 ts tg lg, ∃ tg',
  reads (node_text n) (reader TEXT [] t [] [] [] [] (tag0 :: ts) tg false true lg)
        (reader TEXT [] (node_events t n).2 [] [] [] [] (tag0 :: ts) tg' false true (lg ++ (node_events t n).1)).

Lemma content_events_acc st l : content_events st l = (st.1 ++ (content_events ([], st.2) l).1, (content_events ([], st.2) l).2).
Proof.
  revert st. induction l as [|n l IH]; intros [evs t]; cbn [content_events foldl fst snd]; [by rewrite app_nil_r|].
  destruct (node_events t n) as [evs1 t1]. unfold content_events in IH. rewrite (IH (evs ++ evs1, t1)), (IH ([] ++ evs1, t1)).
  cbn [fst snd app]. by rewrite app_assoc.
Qed.

Lemma content_events_cons t n l :
  content_events ([], t) (n :: l) =
  ((node_events t n).1 ++ (content_events ([], (node_events t n).2) l).1, (content_events ([], (node_events t n).2) l).2).
Proof.
  unfold content_events at 1. cbn [foldl fst snd app]. destruct (node_events t n) as [evs1 t1].
  exact (content_events_acc (evs1, t1) l).
Qed.

Lemma reads_content l t tag0 ts tg lg :
  Forall reads_node l → ∃ tg',
  reads (concat (node_text <$> l)) (reader TEXT [] t [] [] [] [] (tag0 :: ts) tg false true lg)
        (reader TEXT [] (content_events ([], t) l).2 [] [] [] [] (tag0 :: ts) tg' false true (lg ++ (content_events ([], t) l).1)).
Proof.
  intros Hl. revert t tg lg. induction Hl as [|n l Hn Hl IH]; intros t tg lg.
  - exists tg. cbn. rewrite app_nil_r. apply reads_nil.
  - destruct (Hn t tag0 ts tg lg) as [tg1 H1]. cbn [fmap list_fmap concat].
    destruct (IH (node_events t n).2 tg1 (lg ++ (node_events t n).1)) as [tg2 H2]. exists tg2.
    rewrite content_events_cons. cbn [fst snd]. rewrite app_assoc. by eapply reads_app.
Qed.

Lemma reads_element name attributes children t ts tg saw lg :
  name_ok (shown_name name) = true → attributes_ok (shown_attributes attributes) → Forall reads_node children →
  ∃ tg',
  reads (element_rest name attributes children) (reader OPEN_WAKA [] t [] [] [] [] ts tg false saw lg)
        (reader TEXT [] [] [] [] [] [] ts tg' (root_closed false ts) true (lg ++ (node_events t (XmlNode name attributes children)).1)).
Proof.
  intros Hname Hattrs Hch. unfold element_rest. cbn [node_text]. change (js "<" ++ ?x) with (60 :: x). cbn [drop].
  rewrite printed_attributes. cbn [node_events]. set (nm := shown_name name) in *. set (attrs := shown_attributes attributes) in *.
  assert (Hstart : reads (nm ++ printed attrs) (reader OPEN_WAKA [] t [] [] [] [] ts tg false saw lg) (in_start ts false saw t nm attrs tg lg)).
  { eapply reads_app; [by apply reads_open_name|]. by apply reads_attributes. }
  rewrite app_assoc. destruct children as [|n l].
  - eexists. eapply reads_app; [exact Hstart|]. apply in_start_closes. by destruct nm.
  - destruct (reads_content (n :: l) [] (Tag nm attrs false) ts None
                (lg ++ start_events t nm attrs ++ [OnOpenTag (Tag nm attrs false)]) Hch) as [tg1 Hcont].
    unfold content_events in Hcont. destruct (foldl _ _ _) as [evs t1]. cbn [fst snd] in Hcont |- *.
    rewrite <-!app_assoc in Hcont. cbn [app] in Hcont. eexists.
    eapply reads_app; [exact Hstart|]. eapply reads_app; [apply in_start_opens|]. eapply reads_app; [exact Hcont|].
    pose proof (reads_end_tag t1 (Tag nm attrs false) ts tg1
                  ((lg ++ start_events t nm attrs ++ [OnOpenTag (Tag nm attrs false)]) ++ evs) Hname) as Hend.
    cbn [tag_name] in Hend. rewrite <-!app_assoc in Hend. cbn [app] in Hend. exact Hend.
Qed.

Lemma printable_reads n : printable n = true → reads_node n.
Proof.
  induction n as [value|name attributes children IH] using xmlnode_ind'; intros Hp t tag0 ts tg lg.
  - exists tg. cbn [node_text node_events fst snd]. rewrite app_nil_r. apply reads_text.
  - apply printable_node in Hp as (Hn & Ha & Hc).
    assert (Hch : Forall reads_node children).
    { rewrite Forall_forall in IH, Hc |- *. auto. }
    destruct (reads_element name attributes children t (tag0 :: ts) tg true lg Hn Ha Hch) as [tg' H]. exists tg'.
    assert (Ht : (node_events t (XmlNode name attributes children)).2 = []).
    { cbn [node_events]. destruct children; [done|]. by destruct (foldl _ _ _). }
    rewrite Ht. change (node_text (XmlNode name attributes children)) with (60 :: element_rest name attributes children).
    eapply reads_cons; [apply reads_lt|exact H].
Qed.

(** ** Documents *)

Lemma reader_checked ts tg cr saw lg pl :
  ∃ b, checkBufferLength (reader TEXT [] [] [] [] [] [] ts tg cr saw lg pl) =
       (reader TEXT [] [] [] [] [] [] ts tg cr saw lg pl) {{ bufferCheckPosition := b }}.
Proof. unfold checkBufferLength, buffers. cbn [foldl]. rewrite !check_empty by done. by eexists. Qed.

(** The events of a printed document. *)
Lemma document_events name attributes children :
  printable (XmlNode name attributes children) = true →
  parse_document (node_text (XmlNode name attributes children)) (SAXParser true []) =
  (SAXParser true ((node_events [] (XmlNode name attributes children)).1 ++ [OnEnd]), Ok ()).
Proof.
  intros (Hn & Ha & Hc)%printable_node. set (evs := (node_events [] (XmlNode name attributes children)).1).
  assert (Hch : Forall reads_node children) by (eapply Forall_impl; [exact Hc|apply printable_reads]).
  destruct (reads_element name attributes children [] [] None false [] Hn Ha Hch) as [tg Hreads].
  assert (Hfirst : step 60 (SAXParser true []) = (reader OPEN_WAKA [] [] [] [] [] [] [] None false false [] (Place 1 0 1 1 [60]), Ok ()))
    by reflexivity.
  destruct (Hreads (Place 1 0 1 1 [60])) as [pl Hrest]. cbn [app root_closed] in Hrest. fold evs in Hrest.
  assert (Hsteps : steps (node_text (XmlNode name attributes children)) (SAXParser true []) =
                   (reader TEXT [] [] [] [] [] [] [] tg true true evs pl, Ok ())).
  { change (node_text (XmlNode name attributes children)) with (60 :: element_rest name attributes children).
    cbn [steps]. by rewrite (st_bind_run _ _ _ _ _ Hfirst). }
  set (pl0 := pl {{ current := [] }}).
  assert (Hw : ∃ b, write (Some (node_text (XmlNode name attributes children))) (SAXParser true []) =
                    ((reader TEXT [] [] [] [] [] [] [] tg true true evs pl0) {{ bufferCheckPosition := b }}, Ok ())).
  { unfold write. change (perror _) with (@None jserror). change (closed _) with false. cbv iota beta.
    unfold st_bind at 1. rewrite write_loop_steps by done. rewrite (st_bind_run _ _ _ _ _ Hsteps).
    unfold at_end, plain, st_modify. change ((reader _ _ _ _ _ _ _ _ _ _ _ _ _) {{ at_->current := [] }})
      with (reader TEXT [] [] [] [] [] [] [] tg true true evs pl0).
    change (bufferCheckPosition (reader _ _ _ _ _ _ _ _ _ _ _ _ _)) with (Some MAX_BUFFER_LENGTH). cbv iota.
    destruct (Z.leb _ _).
    - destruct (reader_checked [] tg true true evs pl0) as [b ->]. by exists b.
    - by exists (Some MAX_BUFFER_LENGTH). }
  destruct Hw as [b Hw]. unfold parse_document. by rewrite (st_bind_run _ _ _ _ _ Hw).
Qed.
