(* ===== verification/XmlTree.v ===== *)
(** * Printed documents as objects

    What xml2js (Xml2js.v), with the options of the SDK, makes of the documents
    the nodes of XmlBuilder.v print: the same object as reading the tree
    directly. *)

From stdpp Require Import base gmap strings list.
From Stdlib Require Import ZArith Lia.
From coqutil Require Import Datatypes.RecordSetters.
From S2P Require Import Prelude JsValue Json JsText SignersLegacy Sax SaxEvents ParamValidator QuerySerializer Xml2js XmlParser XmlBuilder SaxDocument.

Import DoubleBraceUpdate.
Local Open Scope Z_scope.

(** ** The object of a tree *)

(** [assignOrPush] on the children of an element. *)
Definition push (key : jsstr) (v : jsval) (kids : jsobj) : jsobj :=
  match obj_get key kids with
  | Some (JArr l) => obj_set key (JArr (l ++ [v])) kids
  | Some w => obj_set key (JArr [w; v]) kids
  | None => obj_set key (JArr [v]) kids
  end.

Definition dollar (attrs : list (jsstr * jsstr)) : jsobj :=
  match attrs with [] => [] | _ => [(js "$", JObj ((λ a, (a.1, JStr a.2)) <$> attrs))] end.

(** An element with attributes, text and children: null without any of them, its
    text if that is all there is, an object otherwise; text that is blank is
    left out. *)
Definition element_value (attrs : list (jsstr * jsstr)) (text : jsstr) (kids : jsobj) : jsval :=
  let obj := (if blank text then [] else [(js "_", JStr text)]) ++ dollar attrs ++ kids in
  match obj with
  | [] => JNull
  | [_] => if blank text then JObj obj else JStr text
  | _ => JObj obj
  end.

Definition own_text (n : xmlnode) : jsstr := match n with XmlText v => to_string v | XmlNode _ _ _ => [] end.

Fixpoint node_value (n : xmlnode) : jsval :=
  match n with
  | XmlText v => JStr (to_string v)
  | XmlNode name attributes children =>
    element_value (shown_attributes attributes) (concat (own_text <$> children))
      (foldl (λ kids n, match n with
                        | XmlNode name _ _ => push (shown_name name) (node_value n) kids
                        | XmlText _ => kids
                        end) [] children)
  end.

Definition add_child (kids : jsobj) (n : xmlnode) : jsobj :=
  match n with
  | XmlNode name _ _ => push (shown_name name) (node_value n) kids
  | XmlText _ => kids
  end.

(** The names an element inside another can have: not the key of the text, and
    none every object inherits. *)
Definition child_ok (name : jsstr) : bool := negb (str_eqb name (js "_")) && negb (str_mem name object_prototype).

Fixpoint representable (n : xmlnode) : bool :=
  match n with
  | XmlText _ => true
  | XmlNode _ _ children =>
    forallb (λ n, match n with XmlNode name _ _ => child_ok (shown_name name) | XmlText _ => true end && representable n) children
  end.

(** ** The stack *)

(** The object of an element that is open. *)
Definition open_element (name : jsstr) (attrs : list (jsstr * jsstr)) (text : jsstr) (kids : jsobj) : jsobj :=
  (js "_", JStr text) :: dollar attrs ++ (js "#name", JStr name) :: kids.

Lemma add_attributes_dollar attrs pre :
  NoDup (pre ++ attrs).*1 →
  add_attributes xml2js_options attrs ((js "_", JStr []) :: dollar pre) = Ok ((js "_", JStr []) :: dollar (pre ++ attrs)).
Proof.
  revert pre. induction attrs as [|[k v] attrs IH]; intros pre Hnd; [by rewrite app_nil_r|].
  assert (Hk : k ∉ pre.*1).
  { rewrite fmap_app in Hnd. apply NoDup_app in Hnd as (_ & Hd & _). intros Hin. apply (Hd k Hin). left. }
  replace (pre ++ (k, v) :: attrs) with ((pre ++ [(k, v)]) ++ attrs) in Hnd |- * by (by rewrite <-app_assoc).
  rewrite <-(IH (pre ++ [(k, v)]) Hnd). cbn [add_attributes].
  destruct pre as [|a pre]; [reflexivity|]. cbn [dollar app].
  change (negb (has _ _) && _) with false. cbv iota. change (mergeAttrs xml2js_options) with false. cbv iota.
  change (obj_get (attrkey xml2js_options) _) with (Some (JObj ((λ a : jsstr * jsstr, (a.1, JStr a.2)) <$> a :: pre))).
  cbv iota. cbn [rbind]. f_equal.
  change (obj_set (attrkey xml2js_options) ?x _) with [(js "_", JStr []); (js "$", x)].
  rewrite obj_set_fresh.
  - change (a :: pre ++ [(k, v)]) with ((a :: pre) ++ [(k, v)]). by rewrite fmap_app.
  - by rewrite <-list_fmap_compose.
Qed.

Lemma opens name attrs b x :
  NoDup attrs.*1 → own_props attrs = attrs →
  onopentag xml2js_options (Tag name attrs b) x = (x {{ stack := open_element name attrs [] [] :: stack x }}, Ok ()).
Proof.
  intros Hnd Hown. unfold onopentag. change (ignoreAttrs xml2js_options) with false. cbv iota. cbn [attributes tag_name].
  rewrite Hown. change (obj_set (charkey xml2js_options) (JStr []) []) with ((js "_", JStr []) :: dollar []).
  rewrite (add_attributes_dollar attrs []) by done. unfold open_element. by destruct attrs.
Qed.

Lemma own_keys_length {A} (o : list (jsstr * A)) : length (own_keys o) = length o.
Proof. unfold own_keys. by rewrite length_fmap, own_props_perm. Qed.

(** The names that are keys of an open element whatever its children. *)
Definition reserved : list jsstr := [js "_"; js "$"; js "#name"].

Lemma dollar_keys attrs k : k ∈ (dollar attrs).*1 → k = js "$".
Proof. destruct attrs; cbn [dollar fmap list_fmap fst]; [by intros ?%elem_of_nil|by intros ?%list_elem_of_singleton]. Qed.

(** Text. *)
Lemma open_element_text name attrs text kids v :
  add_text xml2js_options v (open_element name attrs text kids) = Ok (open_element name attrs (text ++ v) kids).
Proof. reflexivity. Qed.

(** A child. *)
Lemma open_element_child name attrs text kids k v :
  k ∉ reserved → str_mem k object_prototype = false →
  assignOrPush xml2js_options (open_element name attrs text kids) k v = Ok (open_element name attrs text (push k v kids)).
Proof.
  intros Hk Hp. set (pre := (js "_", JStr text) :: dollar attrs ++ [(js "#name", JStr name)]).
  assert (Hpre : k ∉ pre.*1).
  { unfold pre. rewrite fmap_cons, fmap_app. cbn [fst fmap list_fmap]. intros Hin. apply Hk. unfold reserved.
    apply elem_of_cons in Hin as [->|[H%dollar_keys|H%list_elem_of_singleton]%elem_of_app]; [left|rewrite H; right; left|rewrite H; right; right; left]. }
  assert (He : ∀ kids, open_element name attrs text kids = pre ++ kids).
  { intros ks. unfold open_element, pre. cbn [app]. by rewrite <-app_assoc. }
  assert (Hg : obj_get k (pre ++ kids) = obj_get k kids).
  { clear He. induction pre as [|[k2 v2] pre IH]; [done|]. cbn [fmap list_fmap fst] in Hpre. apply not_elem_of_cons in Hpre as [? ?].
    cbn [app obj_get]. rewrite (proj2 (str_eqb_neq k k2)) by done. by apply IH. }
  rewrite !He. unfold assignOrPush, push. rewrite Hg, Hp. change (explicitArray xml2js_options) with true. cbv iota.
  destruct (obj_get k kids) as [[]|]; by rewrite obj_set_app.
Qed.

(** The children as xml2js keeps them: arrays, under names that are not
    reserved. *)
Definition kids_ok (kids : jsobj) : Prop := Forall (λ kv, kv.1 ∉ reserved ∧ ∃ l, kv.2 = JArr l) kids.

Lemma push_ok k v kids : k ∉ reserved → kids_ok kids → kids_ok (push k v kids).
Proof.
  intros Hk Hkids. unfold kids_ok in *. apply Forall_forall. intros h Hh. rewrite Forall_forall in Hkids. unfold push in Hh.
  destruct (obj_get k kids) as [[]|]; apply elem_of_obj_set in Hh as [->|Hh]; try (by apply Hkids); (split; [done|by eexists]).
Qed.

Lemma kids_absent kids k : kids_ok kids → k ∈ reserved → obj_del k kids = kids.
Proof.
  intros Hok Hk. apply obj_del_absent. intros ([k' v'] & -> & Hin)%list_elem_of_fmap_1. unfold kids_ok in Hok.
  rewrite Forall_forall in Hok. by apply Hok in Hin as [? _].
Qed.

(** The end of an element: the value it becomes. *)
Lemma del_name name attrs text kids :
  kids_ok kids → obj_del (js "#name") (open_element name attrs text kids) = (js "_", JStr text) :: dollar attrs ++ kids.
Proof.
  intros Hk. unfold open_element, obj_del. rewrite filter_cons_True by done. f_equal.
  rewrite filter_app, filter_cons_False by (cbn; tauto). f_equal; [by destruct attrs|].
  apply (kids_absent kids (js "#name") Hk). right; right; left.
Qed.

Lemma del_text attrs text kids :
  kids_ok kids → obj_del (js "_") ((js "_", JStr text) :: dollar attrs ++ kids) = dollar attrs ++ kids.
Proof.
  intros Hk. unfold obj_del. rewrite filter_cons_False, filter_app by (cbn; tauto). f_equal; [by destruct attrs|].
  apply (kids_absent kids (js "_") Hk). left.
Qed.

Lemma no_cdata attrs text kids :
  kids_ok kids → bool_decide (obj_get (js "cdata") ((js "_", JStr text) :: dollar attrs ++ kids) = Some (JBool true)) = false.
Proof.
  intros Hk. apply bool_decide_eq_false. intros [Hin|[Hin|Hin]%elem_of_app]%elem_of_obj_get%elem_of_cons; [done| |].
  - destruct attrs; [by apply elem_of_nil in Hin|]. by apply list_elem_of_singleton in Hin.
  - unfold kids_ok in Hk. rewrite Forall_forall in Hk. by apply Hk in Hin as [_ [? ?]].
Qed.

Lemma element_text_value attrs text kids :
  kids_ok kids → ∃ obj str, element_text xml2js_options false ((js "_", JStr text) :: dollar attrs ++ kids) = Ok (obj, str) ∧
  (if isEmpty obj then JNull else obj) = element_value attrs text kids.
Proof.
  intros Hk. unfold element_text, element_value.
  change (obj_get (charkey xml2js_options) _) with (Some (JStr text)). cbv iota. rewrite andb_true_r.
  destruct (blank text) eqn:Hb; cbn [app].
  - change (charkey xml2js_options) with (js "_"). rewrite del_text by done. do 2 eexists. split; [done|].
    destruct (dollar attrs ++ kids) as [|? [|]]; done.
  - change (obj_set (charkey xml2js_options) _ _) with ((js "_", JStr text) :: dollar attrs ++ kids).
    rewrite own_keys_length. destruct (dollar attrs ++ kids) as [|kv rest]; do 2 eexists; (split; [done|]); [done|].
    replace (Z.eqb _ 1) with false; [done|]. symmetry. apply Z.eqb_neq. cbn [length]. lia.
Qed.

Lemma closes_child name attrs text kids name' attrs' text' kids' below x :
  kids_ok kids → name ∉ reserved → str_mem name object_prototype = false →
  stack x = open_element name attrs text kids :: open_element name' attrs' text' kids' :: below →
  onclosetag xml2js_options x =
  (x {{ stack := open_element name' attrs' text' (push name (element_value attrs text kids) kids') :: below }}, Ok ()).
Proof.
  intros Hk Hn Hp Hs. unfold onclosetag. rewrite Hs.
  change (obj_get (js "#name") (open_element name attrs text kids)) with
    (obj_get (js "#name") (dollar attrs ++ (js "#name", JStr name) :: kids)).
  assert (Hname : obj_get (js "#name") (dollar attrs ++ (js "#name", JStr name) :: kids) = Some (JStr name)) by by destruct attrs.
  rewrite Hname. change (negb (explicitChildren xml2js_options) || _) with true. cbv iota zeta. rewrite del_name by done.
  rewrite no_cdata by done. destruct (element_text_value attrs text kids Hk) as (obj & str & -> & Hv).
  change (emptyTag xml2js_options) with (@None jsstr). cbv iota. rewrite Hv. unfold close_children.
  change (negb (explicitChildren xml2js_options && _)) with true. cbv iota. by rewrite open_element_child.
Qed.

Lemma closes_root name attrs text kids x :
  kids_ok kids → stack x = [open_element name attrs text kids] →
  onclosetag xml2js_options x =
  (emit_end (element_value attrs text kids) (x {{ stack := []; resultObject := element_value attrs text kids; ended := true }}), Ok ()).
Proof.
  intros Hk Hs. unfold onclosetag. rewrite Hs.
  assert (Hname : obj_get (js "#name") (open_element name attrs text kids) = Some (JStr name)) by by destruct attrs.
  rewrite Hname. change (negb (explicitChildren xml2js_options) || _) with true. cbv iota zeta. rewrite del_name by done.
  rewrite no_cdata by done. destruct (element_text_value attrs text kids Hk) as (obj & str & -> & Hv).
  change (emptyTag xml2js_options) with (@None jsstr). cbv iota. rewrite Hv. reflexivity.
Qed.

(** ** Trees through the handlers *)

Abbreviation handles := (λ evs x x', handle_all xml2js_options evs x = (x', Ok ())).

Lemma handles_app a b x y z : handles a x y → handles b y z → handles (a ++ b) x z.
Proof.
  revert x. induction a as [|e a IH]; intros x; [by intros [= ->]|]. cbn [handle_all app].
  destruct (handle xml2js_options e x) as [x1 [[]|i]]; [apply IH|done].
Qed.

Lemma handles_cons e evs x y z : handle xml2js_options e x = (y, Ok ()) → handles evs y z → handles (e :: evs) x z.
Proof. cbn [handle_all]. by intros ->. Qed.

Definition with_top (x : xparser) (below : list jsobj) (top : jsobj) : xparser := x {{ stack := top :: below }}.

Lemma handles_flush t x below name attrs text kids :
  handles (flush t) (with_top x below (open_element name attrs text kids))
                    (with_top x below (open_element name attrs (text ++ t) kids)).
Proof. destruct t as [|c t]; [by rewrite app_nil_r|]. reflexivity. Qed.

Lemma handles_attributes attrs x : handles (attribute_events attrs) x x.
Proof. induction attrs as [|a attrs IH]; [done|]. exact IH. Qed.

Lemma name_ok_attrs attrs : attributes_ok attrs → own_props attrs = attrs.
Proof.
  intros [Hok _]. apply own_props_names. rewrite Forall_fmap in Hok. eapply Forall_impl; [exact Hok|].
  intros [k v]. cbn. unfold attribute_ok. rewrite !andb_true_iff. intros [[Hn _] _].
  destruct k as [|c k]; [done|]. cbn [name_ok] in Hn. apply andb_true_iff in Hn as [Hc _].
  destruct (nameStart_not c Hc) as (_ & _ & _ & _ & _ & Hd). unfold array_index. cbn [forallb]. rewrite Hd.
  by rewrite andb_false_r.
Qed.

Lemma element_name name : name_ok name = true → child_ok name = true → name ∉ reserved ∧ str_mem name object_prototype = false.
Proof.
  unfold child_ok. rewrite andb_true_iff, !negb_true_iff, str_eqb_neq. intros Hn [H1 H2]. split; [|done].
  unfold reserved. rewrite !elem_of_cons, elem_of_nil. intros [->|[->|[->|[]]]]; [done|by vm_compute in Hn..].
Qed.

(** What reading a node does to the element it is in. *)
Definition handles_node (n : xmlnode) : Prop := ∀ t x below name attrs text kids, kids_ok kids →
  ∃ text', text' ++ (node_events t n).2 = text ++ t ++ own_text n ∧ kids_ok (add_child kids n) ∧
  handles (node_events t n).1 (with_top x below (open_element name attrs text kids))
                              (with_top x below (open_element name attrs text' (add_child kids n))).

Lemma handles_content l t x below name attrs text kids :
  Forall handles_node l → kids_ok kids →
  ∃ text', text' ++ (content_events ([], t) l).2 = text ++ t ++ concat (own_text <$> l) ∧ kids_ok (foldl add_child kids l) ∧
  handles (content_events ([], t) l).1 (with_top x below (open_element name attrs text kids))
                                      (with_top x below (open_element name attrs text' (foldl add_child kids l))).
Proof.
  intros Hl. revert t text kids. induction Hl as [|n l Hn Hl IH]; intros t text kids Hk.
  - exists text. cbn. by rewrite app_nil_r.
  - rewrite content_events_cons. cbn [fst snd].
    destruct (Hn t x below name attrs text kids Hk) as (text1 & H1 & Hk1 & Hh1).
    destruct (IH (node_events t n).2 text1 (add_child kids n) Hk1) as (text2 & H2 & Hk2 & Hh2).
    exists text2. split; [|split; [done|by eapply handles_app]].
    rewrite H2, app_assoc, H1. cbn [fmap list_fmap concat]. by rewrite <-!app_assoc.
Qed.

(** An element from its first event to the last but one. *)
Lemma handles_element nm attrs b evs t' l x :
  attributes_ok attrs → Forall handles_node l → content_events ([], []) l = (evs, t') →
  kids_ok (foldl add_child [] l) ∧
  handles (OnOpenTag (Tag nm attrs b) :: evs ++ flush t') x
          (with_top x (stack x) (open_element nm attrs (concat (own_text <$> l)) (foldl add_child [] l))).
Proof.
  intros Ha Hl Hc. destruct (handles_content l [] x (stack x) nm attrs [] [] Hl (Forall_nil_2 _)) as (text & Ht & Hk & Hh).
  rewrite Hc in Ht, Hh. cbn [fst snd app] in Ht, Hh. split; [done|]. destruct Ha as [Ha Hnd].
  eapply handles_cons; [by apply opens, name_ok_attrs|]. eapply handles_app; [exact Hh|]. rewrite <-Ht. apply handles_flush.
Qed.

(** The events of an element, whether or not it has content. *)
Lemma node_events_element t name attributes children :
  ∃ b evs t', content_events ([], []) children = (evs, t') ∧
  node_events t (XmlNode name attributes children) =
  (start_events t (shown_name name) (shown_attributes attributes) ++
   OnOpenTag (Tag (shown_name name) (shown_attributes attributes) b) :: evs ++ flush t' ++ [OnCloseTag (shown_name name)], []).
Proof.
  destruct children as [|n l].
  - by exists true, [], [].
  - exists false. cbn [node_events]. unfold content_events. destruct (foldl _ _ (n :: l)) as [evs t']. eauto.
Qed.

Lemma tree_handled n : printable n = true → representable n = true →
  match n with XmlNode name _ _ => child_ok (shown_name name) | XmlText _ => true end = true → handles_node n.
Proof.
  induction n as [value|name attributes children IH] using xmlnode_ind'; intros Hp Hr Hc t x below nm attrs text kids Hk.
  - exists text. by cbn.
  - apply printable_node in Hp as (Hn & Ha & Hch).
    assert (Hl : Forall handles_node children).
    { cbn [representable] in Hr. rewrite forallb_forall in Hr. rewrite Forall_forall in IH, Hch |- *. intros c Hin.
      specialize (Hr c). rewrite andb_true_iff in Hr. destruct Hr as [? ?]; [by apply list_elem_of_In|]. auto. }
    destruct (node_events_element t name attributes children) as (b & evs & t' & Hev & ->). cbn [fst snd own_text].
    exists (text ++ t). rewrite !app_nil_r. split; [done|].
    destruct (element_name _ Hn Hc) as [Hres Hproto].
    split; [by apply push_ok|].
    unfold start_events. rewrite <-app_assoc. eapply handles_app; [apply handles_flush|]. cbn [app].
    eapply handles_cons; [done|]. eapply handles_app; [apply handles_attributes|].
    set (x1 := with_top x below (open_element nm attrs (text ++ t) kids)).
    destruct (handles_element (shown_name name) (shown_attributes attributes) b evs t' children x1 Ha Hl Hev) as [Hk' Hh].
    change (_ :: evs ++ flush t' ++ _) with ((OnOpenTag (Tag (shown_name name) (shown_attributes attributes) b) :: evs) ++ flush t' ++ [OnCloseTag (shown_name name)]).
    rewrite app_assoc. eapply handles_app; [exact Hh|]. eapply handles_cons; [by eapply closes_child|]. done.
Qed.

Lemma root_handled name attributes children :
  printable (XmlNode name attributes children) = true → representable (XmlNode name attributes children) = true →
  ∃ x, handles ((node_events [] (XmlNode name attributes children)).1 ++ [OnEnd]) new_Parser x ∧
       calls x = [(None, node_value (XmlNode name attributes children))].
Proof.
  intros (Hn & Ha & Hch)%printable_node Hr.
  assert (Hl : Forall handles_node children).
  { cbn [representable] in Hr. rewrite forallb_forall in Hr. rewrite Forall_forall in Hch |- *. intros c Hin.
    specialize (Hr c). rewrite andb_true_iff in Hr. destruct Hr as [? ?]; [by apply list_elem_of_In|]. apply tree_handled; auto. }
  destruct (node_events_element [] name attributes children) as (b & evs & t' & Hev & ->). cbn [fst].
  destruct (handles_element (shown_name name) (shown_attributes attributes) b evs t' children new_Parser Ha Hl Hev) as [Hk Hh].
  eexists. split.
  - rewrite <-app_assoc. eapply handles_app.
    { unfold start_events. cbn [flush app]. eapply handles_cons; [done|]. apply handles_attributes. }
    change ((_ :: evs ++ flush t' ++ _) ++ _) with
      (((OnOpenTag (Tag (shown_name name) (shown_attributes attributes) b) :: evs) ++ flush t' ++ [OnCloseTag (shown_name name)]) ++ [OnEnd]).
    rewrite (app_assoc _ (flush t')). rewrite <-app_assoc. eapply handles_app; [exact Hh|].
    eapply handles_cons; [by eapply closes_root|]. eapply handles_cons; done.
  - reflexivity.
Qed.

Lemma node_text_head name attributes children : ∃ rest, node_text (XmlNode name attributes children) = 60 :: rest.
Proof. eexists. reflexivity. Qed.

(** The object xml2js makes of a printed tree. *)
Lemma document_parsed name attributes children :
  printable (XmlNode name attributes children) = true → representable (XmlNode name attributes children) = true →
  ∃ x, parseString xml2js_options (node_text (XmlNode name attributes children)) new_Parser = (x, Ok ()) ∧
       calls x = [(None, node_value (XmlNode name attributes children))].
Proof.
  intros Hp Hr. destruct (root_handled name attributes children Hp Hr) as (x & Hh & Hc). exists x. split; [|done].
  destruct (node_text_head name attributes children) as [rest Hrest]. unfold parseString.
  assert (Htrim : str_eqb (trim (node_text (XmlNode name attributes children))) [] = false).
  { rewrite Hrest. apply str_eqb_neq. unfold trim. change (trim_start (60 :: rest)) with (60 :: rest).
    unfold trim_end. rewrite reverse_cons. intros Hnil. apply (f_equal reverse) in Hnil. rewrite reverse_involutive in Hnil. cbn in Hnil.
    revert Hnil. generalize (reverse rest). intros l. induction l as [|c l IH]; cbn; [done|]. by destruct (is_js_space c). }
  rewrite Htrim. assert (Hbom : stripBOM (node_text (XmlNode name attributes children)) = node_text (XmlNode name attributes children)).
  { by rewrite Hrest. }
  rewrite Hbom. unfold feed. rewrite document_events by done. change (log (SAXParser true ?l)) with l.
  by rewrite Hh.
Qed.
