(* ===== verification/XmlRoundtrip.v ===== *)
(** * Data to XML and back

    The documents [AWS.XML.Builder] prints (XmlBuilder.v) are read by
    [AWS.XML.Parser] (XmlParser.v) as the data they were built from. *)

From stdpp Require Import base gmap strings list.
From Stdlib Require Import ZArith Lia.
From S2P Require Import Prelude JsValue Json JsText SignersLegacy AwsError Sax ParamValidator QuerySerializer Xml2js XmlParser XmlBuilder SaxDocument XmlTree.

Local Open Scope Z_scope.

(** ** Lists and objects *)

Lemma Forall2_choice {A B} (P : A → B → Prop) (l : list A) :
  (∀ x, x ∈ l → ∃ y, P x y) → ∃ k, Forall2 P l k.
Proof.
  induction l as [|x l IH]; intros H; [by exists []|].
  destruct (H x) as [y Hy]; [left|]. destruct IH as [k Hk]; [by intros z Hz; apply H; right|].
  exists (y :: k). by constructor.
Qed.

Lemma keyed_choice {A B} (P : jsstr → A → B → Prop) (d : B) (o : list (jsstr * A)) :
  NoDup o.*1 → (∀ k x, (k, x) ∈ o → ∃ y, P k x y) → ∃ g : jsstr → B, ∀ k x, (k, x) ∈ o → P k x (g k).
Proof.
  induction o as [|[k x] o IH]; cbn [fmap list_fmap fst]; intros Hnd H.
  { exists (λ _, d). by intros k x ?%elem_of_nil. }
  apply NoDup_cons in Hnd as [Hk Hnd]. destruct (H k x) as [y Hy]; [left|].
  destruct IH as [g Hg]; [done|by intros ???; apply H; right|].
  exists (λ k', if decide (k' = k) then y else g k'). intros k' x' [[= -> ->]|Hin]%elem_of_cons.
  - by rewrite decide_True.
  - rewrite decide_False; [by apply Hg|]. intros ->. apply Hk. by apply (list_elem_of_fmap_2 fst) in Hin.
Qed.

Lemma depth_in_object k x o : (k, x) ∈ o → (depth x < depth (JObj o))%nat.
Proof.
  intros Hin. cbn [depth]. apply (list_elem_of_fmap_2 (λ kv : jsstr * jsval, depth kv.2)) in Hin.
  apply list_max_elem in Hin. cbn [snd] in Hin. lia.
Qed.
Lemma depth_in_array x l : x ∈ l → (depth x < depth (JArr l))%nat.
Proof. intros Hin. cbn [depth]. apply (list_elem_of_fmap_2 depth), list_max_elem in Hin. lia. Qed.

Lemma imap_values {A} (f : nat → jsstr) (l : list A) : (imap (λ i x, (f i, x)) l).*2 = l.
Proof. revert f. induction l as [|x l IH]; intros f; [done|]. cbn. f_equal. apply (IH (f ∘ S)). Qed.

(** The callbacks of [util.each] over the properties of an object, where each
    sets the property of [o] of that name, if there is one. *)
Lemma each_data_sublist {A} (f : jsstr * A → jsobj → result jserror jsobj) (ms : list (jsstr * A)) (o data : jsobj) :
  NoDup (data.*1 ++ ms.*1) → o.*1 `sublist_of` ms.*1 →
  (∀ k id d, (k, id) ∈ ms → f (k, id) d = Ok (match obj_get k o with Some v => obj_set k v d | None => d end)) →
  each_data f ms data = Ok (data ++ o).
Proof.
  revert o data. induction ms as [|[k id] ms IH]; intros o data Hnd Hsub Hf; cbn [each_data fmap list_fmap fst] in *.
  { apply sublist_nil_r, fmap_nil_inv in Hsub as ->. by rewrite app_nil_r. }
  assert (Hk : k ∉ data.*1 ∧ k ∉ ms.*1 ∧ NoDup (data.*1 ++ ms.*1)).
  { apply NoDup_app in Hnd as (H1 & H2 & [H3 H4]%NoDup_cons). split; [intros Hin; apply (H2 k Hin); left|]. split; [done|].
    apply NoDup_app. split_and!; [done| |done]. intros z Hz Hz'. apply (H2 z Hz). by right. }
  destruct Hk as (Hkd & Hkm & Hnd'). rewrite Hf by left.
  apply sublist_cons_r in Hsub as [Hsub|(ks & Hks & Hsub)].
  - rewrite (proj2 (eq_None_not_Some (obj_get k o))).
    + cbn [rbind]. apply IH; [done|done|]. intros; apply Hf; by right.
    + rewrite obj_get_elem. intros Hin. apply Hkm. eapply elem_of_submseteq; [exact Hin|by apply sublist_submseteq].
  - destruct o as [|[k' v] o]; [done|]. cbn [fmap list_fmap fst] in Hks. injection Hks as -> <-.
    cbn [obj_get]. rewrite str_eqb_refl. cbn [rbind]. rewrite obj_set_fresh by done.
    rewrite (IH o (data ++ [(k, v)])); [by rewrite <-app_assoc| |done|].
    + rewrite fmap_app, <-app_assoc. cbn [fmap list_fmap fst app]. done.
    + intros k2 id2 d Hin. rewrite Hf by (by right). cbn [obj_get]. rewrite (proj2 (str_eqb_neq k2 k)); [done|].
      intros ->. apply Hkm. by apply (list_elem_of_fmap_2 fst) in Hin.
Qed.

(** The case of a shape of a known type. *)
Ltac typed H :=
  unfold has_type; rewrite !H;
  repeat match goal with
  | |- context [bool_decide (Some ?a = Some ?b)] =>
    let r := eval vm_compute in (bool_decide (Some a = Some b)) in change (bool_decide (Some a = Some b)) with r
  end; cbv iota.

(** ** The data that survives *)

Section roundtrip.
Context (Date_parse : jsval → option Z) (Buffer_from : jsval → option (list Z)).
Context (new_Date : jsnum + jsstr → jsval) (base64_Buffer : jsval → jsval).
Context (protocol xmlNamespaceUri : jsstr) (xmlNoDefaultLists : bool).
Context (table : shape_id → shape).

(** The name of an element inside another. *)
Definition element_ok (name : jsstr) : bool := name_ok name && child_ok name.

Definition or_name (name : jsstr) (other : string) : jsstr := match name with [] => js other | n => n end.

(** A member that is an element of its own, in the body. *)
Definition plain_member (m : shape) : bool :=
  is_str (js "body") (s_location m) && negb (x_isXmlAttribute (s_xml m)) && negb (s_flattened m) &&
  bool_decide (x_namespaceUri (s_xml m) = []) && element_ok (s_name m).

(** A structure whose members can be told apart by the names of their elements,
    in the order of the document and of the shape. *)
Record plain_structure (s : shape) : Prop := {
  ps_type : s_type s = Some (js "structure");
  ps_order : x_memberNames (s_xml s) ≡ₚ (s_members s).*1;
  ps_keys : NoDup (s_members s).*1;
  ps_length : js "length" ∉ (s_members s).*1;
  ps_plain : ∀ k id, (k, id) ∈ s_members s → plain_member (table id) = true;
  ps_names : ∀ k k' id id', (k, id) ∈ s_members s → (k', id') ∈ s_members s → s_name (table id) = s_name (table id') → k = k';
}.

(** The values of a shape that come back as they are: text that is not only
    white space, integers, booleans, and lists, maps and structures of such values.  A
    list that is left out comes back empty where the API asks for that. *)
Inductive fits : shape → jsval → Prop :=
| fits_string s x :
    s_type s = Some (js "string") → s_isJsonValue s = false →
    (blank x = true → x = [] ∧ protocol ∈ [js "rest-xml"; js "query"; js "ec2"]) → fits s (JStr x)
| fits_integer s m e : s_type s = Some (js "integer") → int_ok m e → fits s (JNum (NumDec m e))
| fits_boolean s b : s_type s = Some (js "boolean") → fits s (JBool b)
| fits_list s l :
    s_type s = Some (js "list") → s_flattened s = false →
    element_ok (or_name (s_name (table (s_member s))) "member") = true →
    (∀ x, x ∈ l → fits (table (s_member s)) x) → fits s (JArr l)
| fits_map s o :
    s_type s = Some (js "map") → s_flattened s = false →
    s_type (table (s_key s)) = Some (js "string") → s_isJsonValue (table (s_key s)) = false →
    let k := or_name (s_name (table (s_key s))) "key" in
    let v := or_name (s_name (table (s_value s))) "value" in
    element_ok k = true → element_ok v = true → k ≠ v →
    own_props o = o → NoDup o.*1 → (∀ key x, (key, x) ∈ o → blank key = false) →
    (∀ key x, (key, x) ∈ o → fits (table (s_value s)) x) → fits s (JObj o)
| fits_structure s o :
    plain_structure s → o.*1 `sublist_of` (own_props (s_members s)).*1 →
    (∀ k id, (k, id) ∈ s_members s → k ∉ o.*1 → has_type (table id) (js "list") = true → xmlNoDefaultLists = true) →
    (∀ k x id, (k, x) ∈ o → (k, id) ∈ s_members s → fits (table id) x) → fits s (JObj o).

(** ** What the builder adds, and what the parser reads of it *)

(** The content of an element as xml2js has it. *)
Definition content_value (children : list xmlnode) : jsval :=
  element_value [] (concat (own_text <$> children)) (foldl add_child [] children).

Definition content_ok (children : list xmlnode) : Prop :=
  Forall (λ n, printable n = true ∧ representable n = true ∧
               match n with XmlNode name _ _ => child_ok (shown_name name) | XmlText _ => true end = true) children.

(** The value [v] of shape [s] is written as [extra], and read back. *)
Definition written (s : shape) (v : jsval) (extra : list xmlnode) : Prop :=
  (∀ fuel attrs ch, (depth v < fuel)%nat →
     XmlBuilder.serialize Date_parse Buffer_from xmlNamespaceUri table fuel s v (attrs, ch) = Some (attrs, ch ++ extra)) ∧
  content_ok extra ∧
  (∀ fuel, (depth (content_value extra) < fuel)%nat →
     parseXml new_Date base64_Buffer protocol xmlNoDefaultLists table fuel (content_value extra) s = Ok v).

(** *** Elements inside an element *)

Definition elements (l : list (jsstr * list xmlnode)) : list xmlnode := (λ p, XmlNode p.1 [] p.2) <$> l.

Lemma elements_text l : concat (own_text <$> elements l) = [].
Proof. induction l as [|p l IH]; [done|]. exact IH. Qed.

Lemma element_ok_name name : element_ok name = true → shown_name name = name.
Proof. by destruct name. Qed.

Lemma elements_ok l :
  (∀ name ch, (name, ch) ∈ l → element_ok name = true ∧ content_ok ch) → content_ok (elements l).
Proof.
  intros H. apply Forall_fmap, Forall_forall. intros [name ch] Hin. destruct (H name ch Hin) as [Hn Hch].
  cbn [compose fst snd]. pose proof (element_ok_name name Hn) as Hs. unfold element_ok in Hn. apply andb_true_iff in Hn as [Hn1 Hn2].
  unfold content_ok in Hch. rewrite Forall_forall in Hch. cbn [printable representable]. rewrite Hs.
  split_and!; [|apply forallb_forall|done].
  - rewrite !andb_true_iff. split_and!; [done|done|by apply bool_decide_eq_true_2, NoDup_nil_2|].
    apply forallb_forall. intros c Hc%list_elem_of_In. by apply Hch.
  - intros c Hc%list_elem_of_In. rewrite andb_true_iff. by destruct (Hch c Hc) as (_ & ? & ?).
Qed.

Lemma elements_value l : content_value (elements l) = match foldl add_child [] (elements l) with [] => JNull | kids => JObj kids end.
Proof. unfold content_value. rewrite elements_text. by destruct (foldl _ _ _) as [|kv [|]]. Qed.

Lemma foldl_same name (gs : list (list xmlnode)) acc :
  name ≠ [] →
  foldl add_child [(name, JArr acc)] (elements ((λ g, (name, g)) <$> gs)) = [(name, JArr (acc ++ (content_value <$> gs)))].
Proof.
  intros Hn. assert (Hs : shown_name name = name) by (by destruct name).
  revert acc. induction gs as [|g gs IH]; intros acc; cbn [fmap list_fmap elements foldl fst snd].
  { by rewrite app_nil_r. }
  change (add_child _ (XmlNode name [] g)) with (push (shown_name name) (content_value g) [(name, JArr acc)]).
  unfold push. rewrite Hs. cbn [obj_get obj_set]. rewrite str_eqb_refl. cbv iota.
  change ((λ p, XmlNode p.1 [] p.2) <$> ((λ g, (name, g)) <$> gs)) with (elements ((λ g, (name, g)) <$> gs)).
  rewrite IH. by rewrite <-app_assoc.
Qed.

(** Elements of one name: the array of their contents. *)
Lemma same_value name gs :
  name ≠ [] → content_value (elements ((λ g, (name, g)) <$> gs)) =
  match gs with [] => JNull | _ => JObj [(name, JArr (content_value <$> gs))] end.
Proof.
  intros Hn. rewrite elements_value. destruct gs as [|g gs]; [done|].
  assert (Hs : shown_name name = name) by (by destruct name).
  cbn [fmap list_fmap elements foldl fst snd].
  change (add_child [] (XmlNode name [] g)) with [(shown_name name, JArr [content_value g])]. rewrite Hs.
  change ((λ p, XmlNode p.1 [] p.2) <$> ((λ g, (name, g)) <$> gs)) with (elements ((λ g, (name, g)) <$> gs)).
  by rewrite foldl_same.
Qed.

(** Elements of different names: an array of one content under each name. *)
Lemma foldl_distinct l kids :
  NoDup (kids.*1 ++ l.*1) → [] ∉ l.*1 →
  foldl add_child kids (elements l) = kids ++ ((λ p, (p.1, JArr [content_value p.2])) <$> l).
Proof.
  revert kids. induction l as [|[name g] l IH]; intros kids Hnd Hl; cbn [fmap list_fmap elements foldl fst snd] in *.
  { by rewrite app_nil_r. }
  apply not_elem_of_cons in Hl as [Hn Hl].
  assert (Hs : shown_name name = name) by (by destruct name).
  assert (Hk : name ∉ kids.*1).
  { apply NoDup_app in Hnd as (_ & H2 & _). intros Hin. apply (H2 name Hin). left. }
  change (add_child kids (XmlNode name [] g)) with (push (shown_name name) (content_value g) kids).
  unfold push. rewrite Hs. rewrite (proj2 (eq_None_not_Some (obj_get name kids))) by (by rewrite obj_get_elem).
  rewrite obj_set_fresh by done.
  change ((λ p, XmlNode p.1 [] p.2) <$> l) with (elements l).
  rewrite IH; [by rewrite <-app_assoc| |done]. by rewrite fmap_app, <-app_assoc.
Qed.

Lemma distinct_value l :
  NoDup l.*1 → [] ∉ l.*1 →
  content_value (elements l) = match l with [] => JNull | _ => JObj ((λ p, (p.1, JArr [content_value p.2])) <$> l) end.
Proof. intros Hnd Hl. rewrite elements_value, foldl_distinct by done. by destruct l. Qed.

(** *** Building *)

Lemma build_each_adds {A} (f : A → building → option building) (l : list A) (adds : list (list xmlnode)) attrs ch :
  Forall2 (λ x add, ∀ ch, f x (attrs, ch) = Some (attrs, ch ++ add)) l adds →
  build_each f l (attrs, ch) = Some (attrs, ch ++ concat adds).
Proof.
  intros H. revert ch. induction H as [|x add l adds Hx _ IH]; intros ch; cbn [build_each concat]; [by rewrite app_nil_r|].
  rewrite Hx. cbn [mbind option_bind]. rewrite IH. by rewrite <-app_assoc.
Qed.

(** *** Each kind of value *)

Lemma text_value x : content_value [XmlText (JStr x)] = if blank x then JNull else JStr x.
Proof.
  unfold content_value. cbn [fmap list_fmap concat own_text foldl add_child]. rewrite app_nil_r.
  change (to_string (JStr x)) with x. unfold element_value. destruct (blank x); reflexivity.
Qed.

Lemma text_ok v : content_ok [XmlText v].
Proof. by apply Forall_singleton. Qed.

(** What a scalar adds. *)
Lemma scalar_written s v t :
  has_type s (js "structure") = false → has_type s (js "map") = false → has_type s (js "list") = false →
  s_type s ≠ None → depth v = 0%nat → wire Date_parse Buffer_from s v = Some t →
  parseScalar new_Date base64_Buffer protocol (if blank t then JNull else JStr t) s = Ok v →
  written s v [XmlText (JStr t)].
Proof.
  intros H1 H2 H3 Ht Hd Hw Hp. split_and!.
  - intros [|fuel] attrs ch Hf; [lia|]. cbn [XmlBuilder.serialize]. rewrite H1, H2, H3. unfold serializeScalar. by rewrite Hw.
  - apply text_ok.
  - intros [|fuel] Hf; [lia|]. rewrite text_value. cbn [parseXml]. rewrite H1, H2, H3, bool_decide_eq_false_2 by done. done.
Qed.

Lemma string_written s x :
  s_type s = Some (js "string") → s_isJsonValue s = false →
  (blank x = true → x = [] ∧ protocol ∈ [js "rest-xml"; js "query"; js "ec2"]) → written s (JStr x) [XmlText (JStr x)].
Proof.
  intros Ht Hj Hx. apply scalar_written; unfold has_type; rewrite ?Ht; try done.
  - unfold wire, wire_string. rewrite Ht, Hj. reflexivity.
  - unfold parseScalar, toType. rewrite Ht. destruct (blank x) eqn:Hb.
    + destruct (Hx eq_refl) as [-> Hp]. unfold type_string. rewrite Hj, bool_decide_eq_true_2 by done. reflexivity.
    + assert (Hne : x ≠ []) by (intros ->; done). unfold type_string. rewrite Hj.
      destruct x; [done|]. by destruct (bool_decide _).
Qed.

Lemma num_text_not_blank m e : int_ok m e → blank (num_to_str (NumDec m e)) = false.
Proof.
  intros Hok. unfold num_to_str. destruct (Z.eqb_spec m 0) as [->|Hm]; [done|].
  pose proof (int_digits_str m e Hok) as Hstr. destruct (Z.ltb_spec m 0); [done|].
  rewrite (Z.abs_eq m) in Hstr by lia. rewrite Hstr.
  destruct (radix_str_head m ltac:(lia)) as (d & ds & -> & Hd). unfold blank. cbn [forallb app].
  assert (Hsp : is_js_space d = false); [|by rewrite Hsp].
  unfold is_js_space. rewrite !orb_false_iff, !andb_false_iff, !Z.leb_gt, !Z.eqb_neq. lia.
Qed.

Lemma integer_written s m e : s_type s = Some (js "integer") → int_ok m e →
  written s (JNum (NumDec m e)) [XmlText (JStr (num_to_str (NumDec m e)))].
Proof.
  intros Ht Hok. apply scalar_written; unfold has_type; rewrite ?Ht; try done.
  - unfold wire, wire_integer. rewrite Ht. change (to_string (JNum ?n)) with (num_to_str n).
    change (Some (num_to_str (parseInt (num_to_str (NumDec m e)))) = Some (num_to_str (NumDec m e))). by rewrite parseInt_num.
  - rewrite num_text_not_blank by done. unfold parseScalar, toType. rewrite Ht.
    change (Ok (JNum (parseInt (num_to_str (NumDec m e)))) = Ok (E := jserror) (JNum (NumDec m e))). by rewrite parseInt_num.
Qed.

Lemma boolean_written s b : s_type s = Some (js "boolean") → written s (JBool b) [XmlText (JStr (to_string (JBool b)))].
Proof.
  intros Ht. apply scalar_written; unfold has_type; rewrite ?Ht; try done.
  - unfold wire. by rewrite Ht.
  - unfold parseScalar, toType. rewrite Ht. by destruct b.
Qed.

Lemma each_item_ok {A} (f : A → result jserror jsval) (l : list A) (vs : list jsval) :
  Forall2 (λ x v, f x = Ok v) l vs → each_item f l = Ok vs.
Proof. induction 1 as [|x v l vs Hx _ IH]; [done|]. cbn [each_item]. by rewrite Hx; cbn [rbind]; rewrite IH. Qed.

Lemma concat_singletons {A B} (f : A → B) (l : list A) : concat ((λ x, [f x]) <$> l) = f <$> l.
Proof. induction l as [|x l IH]; [done|]. cbn. by f_equal. Qed.

Lemma list_written s l :
  s_type s = Some (js "list") → s_flattened s = false →
  element_ok (or_name (s_name (table (s_member s))) "member") = true →
  (∀ x, x ∈ l → ∃ g, written (table (s_member s)) x g) → ∃ extra, written s (JArr l) extra.
Proof.
  intros Ht Hfl Hn Hl. apply Forall2_choice in Hl as [gs Hgs].
  assert (Hitem : item_element table s = or_name (s_name (table (s_member s))) "member").
  { unfold item_element, or_name. rewrite Hfl. by destruct (s_name _). }
  assert (Hname : match s_name (table (s_member s)) with [] => js "member" | n => n end = or_name (s_name (table (s_member s))) "member") by (unfold or_name; by destruct (s_name _)).
  revert Hitem Hname Hn. generalize (or_name (s_name (table (s_member s))) "member"). intros name Hitem Hname Hn.
  assert (Hne : name ≠ []) by (by intros ->). exists (elements ((λ g, (name, g)) <$> gs)). split_and!.
  - intros [|fuel] attrs ch Hf; [lia|]. cbn [XmlBuilder.serialize]. typed Ht.
    unfold serializeList. cbn [entries]. rewrite imap_values, Hitem.
    rewrite (build_each_adds _ l ((λ g, [XmlNode name [] g]) <$> gs)).
    { unfold elements. by rewrite concat_singletons, <-list_fmap_compose. }
    apply Forall2_fmap_r. eapply Forall2_impl; [apply Forall2_same_length_lookup_2 with (P := λ x g, x ∈ l ∧ written (table (s_member s)) x g)|].
    + by apply Forall2_length in Hgs.
    + intros i x g Hx Hg. split; [by eapply list_elem_of_lookup_2|]. by eapply Forall2_lookup_lr.
    + intros x g [Hin (Hw & _ & _)] ch'. rewrite Hw by (pose proof (depth_in_array x l Hin); lia). done.
  - apply elements_ok. intros nm g Hin. apply list_elem_of_fmap_1 in Hin as (g' & [= -> ->] & Hin). split; [done|].
    apply list_elem_of_lookup in Hin as [i Hi]. destruct (Forall2_lookup_r _ _ _ _ _ Hgs Hi) as (x & _ & _ & Hc & _). done.
  - intros [|fuel] Hf; [lia|]. revert Hf. rewrite same_value by done. intros Hf. cbn [parseXml]. typed Ht.
    unfold parseList. rewrite Hfl, Hname. rewrite (each_item_ok _ _ l); [done|].
    assert (Hitems : list_items false name match gs with [] => JNull | _ => JObj [(name, JArr (content_value <$> gs))] end = content_value <$> gs).
    { destruct gs; [done|]. unfold list_items, child, obj_prop. cbn [obj_get]. by rewrite str_eqb_refl. }
    rewrite Hitems. apply Forall2_fmap_l. apply Forall2_flip in Hgs.
    apply Forall2_same_length_lookup_2; [by apply Forall2_length in Hgs|].
    intros i g x Hg Hx. pose proof (Forall2_lookup_lr _ _ _ _ _ _ Hgs Hg Hx) as (_ & _ & Hp). apply Hp.
    apply list_elem_of_lookup_2 in Hg. destruct gs as [|g0 gs]; [by apply elem_of_nil in Hg|].
    assert (H1 : content_value g ∈ content_value <$> g0 :: gs) by (by apply list_elem_of_fmap_2).
    apply depth_in_array in H1.
    assert (H2 : (depth (JArr (content_value <$> g0 :: gs)) < depth (JObj [(name, JArr (content_value <$> g0 :: gs))]))%nat)
      by (eapply (depth_in_object name); left). lia.
Qed.

Lemma each_data_entries {A} (f : A → jsobj → result jserror jsobj) (l : list A) (o data : jsobj) :
  NoDup (data.*1 ++ o.*1) → Forall2 (λ x kv, ∀ d, f x d = Ok (obj_set kv.1 kv.2 d)) l o → each_data f l data = Ok (data ++ o).
Proof.
  intros Hnd H. revert data Hnd. induction H as [|x [k v] l o Hx _ IH]; intros data Hnd; cbn [each_data fmap list_fmap fst snd] in *.
  { by rewrite app_nil_r. }
  rewrite Hx. cbn [rbind]. rewrite obj_set_fresh.
  - rewrite (IH (data ++ [(k, v)])); [by rewrite <-app_assoc|]. by rewrite fmap_app, <-app_assoc.
  - apply NoDup_app in Hnd as (_ & H2 & _). intros Hin. apply (H2 k Hin). left.
Qed.

(** An entry of a map: the key and the content of the value. *)
Definition entry_nodes (kn vn key : jsstr) (g : list xmlnode) : list xmlnode := elements [(kn, [XmlText (JStr key)]); (vn, g)].

Lemma entry_value kn vn key g :
  element_ok kn = true → element_ok vn = true → kn ≠ vn → blank key = false →
  content_value (entry_nodes kn vn key g) = JObj [(kn, JArr [JStr key]); (vn, JArr [content_value g])].
Proof.
  intros Hk Hv Hne Hb. unfold entry_nodes. rewrite distinct_value; cbn [fmap list_fmap fst snd].
  - by rewrite text_value, Hb.
  - apply NoDup_cons. split; [by intros ?%list_elem_of_singleton|apply NoDup_singleton].
  - intros [He|He%list_elem_of_singleton]%elem_of_cons; [by rewrite <-He in Hk|by rewrite <-He in Hv].
Qed.

Lemma entry_name (n : jsstr) (other : string) : match n with [] => js other | c :: m => c :: m end = or_name n other.
Proof. by destruct n. Qed.

Lemma map_written s o :
  s_type s = Some (js "map") → s_flattened s = false →
  s_type (table (s_key s)) = Some (js "string") → s_isJsonValue (table (s_key s)) = false →
  let kn := or_name (s_name (table (s_key s))) "key" in
  let vn := or_name (s_name (table (s_value s))) "value" in
  element_ok kn = true → element_ok vn = true → kn ≠ vn →
  own_props o = o → NoDup o.*1 → (∀ key x, (key, x) ∈ o → blank key = false) →
  (∀ key x, (key, x) ∈ o → ∃ g, written (table (s_value s)) x g) → ∃ extra, written s (JObj o) extra.
Proof.
  intros Ht Hfl Htk Hjk kn vn Hkn Hvn Hne Hown Hnd Hkeys Hl.
  set (P := λ (kv : jsstr * jsval) e, ∃ g, kv ∈ o ∧ e = entry_nodes kn vn kv.1 g ∧ written (table (s_value s)) kv.2 g).
  destruct (Forall2_choice P o) as [es Hes].
  { intros [key x] Hin. destruct (Hl key x Hin) as [g Hg]. by exists (entry_nodes kn vn key g), g. }
  exists (elements ((λ e, (js "entry", e)) <$> es)). split_and!.
  - intros [|fuel] attrs ch Hf; [lia|]. cbn [XmlBuilder.serialize]. typed Ht.
    unfold serializeMap. cbn [entries]. rewrite Hown.
    rewrite (build_each_adds _ o ((λ e, [XmlNode (js "entry") [] e]) <$> es)).
    { unfold elements. by rewrite concat_singletons, <-list_fmap_compose. }
    apply Forall2_fmap_r. eapply Forall2_impl; [exact Hes|]. intros [key x] e (g & Hin & -> & Hw & _) ch'. cbn [fst snd] in *.
    pose proof (depth_in_object key x o Hin) as Hd.
    destruct (string_written (table (s_key s)) key Htk Hjk) as [Hk _]; [by rewrite (Hkeys key x Hin)|].
    unfold serialize_entry. cbn [fst snd]. rewrite Hk by (cbn [depth] in *; lia). cbn [mbind option_bind]. rewrite Hw by lia.
    rewrite Hfl. unfold entry_nodes, addChildNode. cbn [mbind option_bind app]. rewrite !entry_name. done.
  - apply elements_ok. intros nm e Hin. apply list_elem_of_fmap_1 in Hin as (e' & [= -> ->] & Hin). split; [done|].
    apply list_elem_of_lookup in Hin as [i Hi]. destruct (Forall2_lookup_r _ _ _ _ _ Hes Hi) as (kv & _ & g & _ & -> & _ & Hc & _).
    apply elements_ok. intros n2 g2 [[= -> ->]|[= -> ->]%list_elem_of_singleton]%elem_of_cons; [split; [done|apply text_ok]|done].
  - intros [|fuel] Hf; [lia|]. revert Hf. rewrite same_value by done. intros Hf. cbn [parseXml]. typed Ht.
    unfold parseMap. rewrite Hfl. destruct es as [|e0 es]; [by apply Forall2_nil_inv_r in Hes as ->|].
    set (vals := content_value <$> e0 :: es) in *. change (child (JObj [(js "entry", JArr vals)]) (js "entry")) with (JArr vals). cbn [rbind].
    rewrite (each_data_entries _ vals o []); [done|done|]. apply Forall2_fmap_l, Forall2_flip.
    apply Forall2_same_length_lookup_2; [by apply Forall2_length in Hes|].
    intros i [key x] e Hx He. pose proof (Forall2_lookup_lr _ _ _ _ _ _ Hes Hx He) as (g & Hin & -> & _ & _ & Hp). cbn [fst snd] in *.
    intros d. apply list_elem_of_lookup_2, (list_elem_of_fmap_2 content_value) in He. fold vals in He.
    rewrite entry_value in He |- * by eauto. apply depth_in_array in He.
    assert (H2 : (depth (JArr vals) < depth (JObj [(js "entry", JArr vals)]))%nat) by (eapply (depth_in_object (js "entry")); left).
    unfold parse_entry. rewrite !entry_name. fold kn vn. unfold first_of, child, obj_prop. cbn [obj_get].
    rewrite !str_eqb_refl, (proj2 (str_eqb_neq vn kn)) by congruence. cbn [default id rbind item0 head].
    rewrite Hp; [done|].
    pose proof (depth_in_object vn (JArr [content_value g]) [(kn, JArr [JStr key]); (vn, JArr [content_value g])]) as H3.
    pose proof (depth_in_array (content_value g) [content_value g]) as H4.
    specialize (H3 ltac:(right; left)). specialize (H4 ltac:(left)). lia.
Qed.

(** *** Structures *)

Section structures.
Context (s : shape) (o : jsobj) (Hs : plain_structure s) (Ho : o.*1 `sublist_of` (own_props (s_members s)).*1).
Context (Hvalues : ∀ k x, (k, x) ∈ o → nullish x = false).
Context (G : jsstr → list xmlnode).

(** The element of a member, and the members that are there, in the order of the
    document. *)
Definition member_element (k : jsstr) : jsstr :=
  match obj_get k (s_members s) with Some id => s_name (table id) | None => [] end.
Definition present : list jsstr := filter (λ k, k ∈ o.*1) (x_memberNames (s_xml s)).
Definition structure_nodes : list xmlnode := elements ((λ k, (member_element k, G k)) <$> present).

Lemma own_members_keys : (own_props (s_members s)).*1 ≡ₚ (s_members s).*1.
Proof. by rewrite own_props_perm. Qed.

Lemma object_keys_NoDup : NoDup o.*1.
Proof. eapply sublist_NoDup; [|exact Ho]. rewrite own_members_keys. apply Hs. Qed.

Lemma member_entry k : k ∈ (s_members s).*1 → ∃ id, (k, id) ∈ s_members s ∧ member_element k = s_name (table id) ∧ obj_get k (s_members s) = Some id.
Proof.
  intros [id Hid]%obj_get_elem. exists id. unfold member_element. rewrite Hid. split_and!; [by apply elem_of_obj_get|done..].
Qed.

Lemma object_member k : k ∈ o.*1 → k ∈ (s_members s).*1.
Proof.
  intros Hk. rewrite <-own_members_keys. eapply elem_of_submseteq; [exact Hk|by apply sublist_submseteq].
Qed.

Lemma present_in k : k ∈ present ↔ k ∈ o.*1.
Proof.
  unfold present. rewrite list_elem_of_filter, (ps_order s Hs). split; [by intros [??]|]. intros Hk. split; [done|by apply object_member].
Qed.

Lemma member_plain k id : (k, id) ∈ s_members s →
  is_str (js "body") (s_location (table id)) = true ∧ x_isXmlAttribute (s_xml (table id)) = false ∧ s_flattened (table id) = false ∧
  x_namespaceUri (s_xml (table id)) = [] ∧ element_ok (s_name (table id)) = true.
Proof.
  intros H%(ps_plain s Hs). unfold plain_member in H. rewrite !andb_true_iff, !negb_true_iff, bool_decide_eq_true in H. tauto.
Qed.

Lemma member_element_inj k k' : k ∈ (s_members s).*1 → k' ∈ (s_members s).*1 → member_element k = member_element k' → k = k'.
Proof.
  intros (id & Hid & -> & _)%member_entry (id' & Hid' & -> & _)%member_entry He. by eapply (ps_names s Hs).
Qed.

Lemma present_elements_NoDup : NoDup (member_element <$> present).
Proof.
  apply NoDup_fmap_2_strong.
  - intros k k' Hk%present_in%object_member Hk'%present_in%object_member. by apply member_element_inj.
  - apply NoDup_filter. rewrite (ps_order s Hs). apply Hs.
Qed.

Lemma present_elements_ok k : k ∈ present → element_ok (member_element k) = true.
Proof. intros (id & Hid & -> & _)%present_in%object_member%member_entry. by apply member_plain in Hid as (_ & _ & _ & _ & ?). Qed.

(** The object of the structure. *)
Lemma structure_value :
  content_value structure_nodes =
  match present with [] => JNull | _ => JObj ((λ k, (member_element k, JArr [content_value (G k)])) <$> present) end.
Proof.
  unfold structure_nodes. rewrite distinct_value.
  - rewrite <-list_fmap_compose. by destruct present.
  - rewrite <-list_fmap_compose. apply present_elements_NoDup.
  - rewrite <-list_fmap_compose. intros (k & He & Hk)%list_elem_of_fmap_1. cbn [compose fst] in He.
    apply present_elements_ok in Hk. by rewrite <-He in Hk.
Qed.

Lemma structure_child k : k ∈ (s_members s).*1 →
  obj_get (member_element k) ((λ k, (member_element k, JArr [content_value (G k)])) <$> present) =
  if decide (k ∈ o.*1) then Some (JArr [content_value (G k)]) else None.
Proof.
  intros Hk. set (kids := (λ k, (member_element k, JArr [content_value (G k)])) <$> present).
  assert (Hkeys : kids.*1 = member_element <$> present) by (unfold kids; by rewrite <-list_fmap_compose).
  case_decide as Hin.
  - apply obj_get_elem_of; [rewrite Hkeys; apply present_elements_NoDup|].
    unfold kids. apply (list_elem_of_fmap_2 (λ k, (member_element k, JArr [content_value (G k)]))). by apply present_in.
  - apply eq_None_not_Some. rewrite obj_get_elem, Hkeys. intros (k' & He & Hk')%list_elem_of_fmap_1. apply Hin.
    apply present_in in Hk'. by rewrite (member_element_inj k k' Hk (object_member k' Hk') He).
Qed.

Lemma concat_present ns :
  concat ((λ k, if decide (k ∈ o.*1) then [XmlNode (member_element k) [] (G k)] else []) <$> ns) =
  elements ((λ k, (member_element k, G k)) <$> filter (λ k, k ∈ o.*1) ns).
Proof.
  induction ns as [|k ns IH]; [done|]. cbn [fmap list_fmap concat]. rewrite filter_cons. case_decide.
  - cbn [app fmap list_fmap elements fst snd]. f_equal. exact IH.
  - exact IH.
Qed.

Context (HG : ∀ k x id, (k, x) ∈ o → (k, id) ∈ s_members s → written (table id) x (G k)).
Context (Hlists : ∀ k id, (k, id) ∈ s_members s → k ∉ o.*1 → has_type (table id) (js "list") = true → xmlNoDefaultLists = true).

Lemma member_serialized fuel attrs k ch : (depth (JObj o) < S fuel)%nat → k ∈ x_memberNames (s_xml s) →
  serialize_member xmlNamespaceUri table (XmlBuilder.serialize Date_parse Buffer_from xmlNamespaceUri table fuel) s (JObj o) k (attrs, ch) =
  Some (attrs, ch ++ if decide (k ∈ o.*1) then [XmlNode (member_element k) [] (G k)] else []).
Proof.
  intros Hf Hk. rewrite (ps_order s Hs) in Hk. destruct (member_entry k Hk) as (m & Hid & Hn & Hg).
  destruct (member_plain k m Hid) as (Hbody & Hattr & Hfl & Hns & _).
  unfold serialize_member. rewrite Hg. cbn [mbind option_bind]. rewrite Hbody, Hattr, Hfl. cbn [negb].
  assert (Hprop : js_prop (JObj o) k = default JUndef (obj_get k o)).
  { unfold js_prop. rewrite (proj2 (str_eqb_neq k (js "length"))).
    - cbn [entries]. by rewrite (obj_get_perm k (own_props o) o) by
        (try apply own_props_perm; rewrite own_props_perm; apply object_keys_NoDup).
    - intros ->. by apply (ps_length s Hs). }
  rewrite Hprop. case_decide as Hin.
  - apply obj_get_elem in Hin as [x Hx]. rewrite Hx. cbn [default id]. apply elem_of_obj_get in Hx.
    rewrite (Hvalues k x Hx). destruct (HG k x m Hx Hid) as [Hw _].
    unfold applyNamespaces. rewrite Hns. cbv iota. rewrite Hw by (pose proof (depth_in_object k x o Hx); lia).
    cbn [mbind option_bind app]. unfold addChildNode, element. by rewrite Hn.
  - rewrite (proj2 (eq_None_not_Some (obj_get k o))) by (by rewrite obj_get_elem). cbn. by rewrite app_nil_r.
Qed.

(** The structure read from its elements, after properties [pre] of other
    names. *)
Definition structure_kids : jsobj := (λ k, (member_element k, JArr [content_value (G k)])) <$> present.

Lemma member_parsed pre fuel k m d :
  member_element k ∉ pre.*1 → (k, m) ∈ own_props (s_members s) → (depth (JObj (pre ++ structure_kids)) < S fuel)%nat →
  parse_member new_Date base64_Buffer protocol xmlNoDefaultLists table
    (parseXml new_Date base64_Buffer protocol xmlNoDefaultLists table fuel) (JObj (pre ++ structure_kids)) (k, m) d =
  Ok (match obj_get k o with Some v => obj_set k v d | None => d end).
Proof.
  intros Hpre Hm Hf. rewrite own_props_perm in Hm. pose proof (list_elem_of_fmap_2 fst _ _ Hm) as Hk. cbn [fst] in Hk.
  destruct (member_plain k m Hm) as (_ & Hattr & Hfl & _ & _).
  assert (Hn : member_element k = s_name (table m)).
  { unfold member_element. by rewrite (proj2 (obj_get_elem_of k m _ (ps_keys s Hs)) Hm). }
  pose proof (structure_child k Hk) as Hc. fold structure_kids in Hc.
  assert (Hchild : obj_get (member_element k) (pre ++ structure_kids) = obj_get (member_element k) structure_kids).
  { clear -Hpre. induction pre as [|[k2 v2] pre IH]; [done|]. cbn [fmap list_fmap fst] in Hpre. apply not_elem_of_cons in Hpre as [? ?].
    cbn [app obj_get]. rewrite (proj2 (str_eqb_neq (member_element k) k2)) by done. by apply IH. }
  unfold parse_member. cbn [fst snd]. rewrite <-Hn. unfold child at 1, obj_prop. rewrite Hchild, Hc. case_decide as Hin.
  - cbn [default id]. rewrite Hfl. cbn [head default id]. apply obj_get_elem in Hin as [x Hx]. rewrite Hx.
    destruct (HG k x m (elem_of_obj_get _ _ _ Hx) Hm) as (_ & _ & Hp). rewrite Hp; [done|].
    rewrite Hc in Hchild. apply elem_of_obj_get, depth_in_object in Hchild.
    pose proof (depth_in_array (content_value (G k)) [content_value (G k)] ltac:(left)). lia.
  - cbn [default id]. rewrite Hattr. rewrite (proj2 (eq_None_not_Some (obj_get k o))) by (by rewrite obj_get_elem).
    destruct (has_type (table m) (js "list")) eqn:Hl; [|done]. by rewrite (Hlists k m Hm Hin Hl).
Qed.

Lemma structure_parsed pre fuel :
  (∀ k, k ∈ (s_members s).*1 → member_element k ∉ pre.*1) → (depth (JObj (pre ++ structure_kids)) < fuel)%nat →
  parseXml new_Date base64_Buffer protocol xmlNoDefaultLists table fuel (JObj (pre ++ structure_kids)) s = Ok (JObj o).
Proof.
  intros Hpre Hf. destruct fuel as [|fuel]; [lia|]. cbn [parseXml]. typed (ps_type s Hs). unfold parseStructure.
  rewrite (each_data_sublist _ (own_props (s_members s)) o []); [done| |done|].
  - rewrite own_members_keys. apply Hs.
  - intros k m d Hm. apply member_parsed; [|done|done]. apply Hpre. rewrite <-own_members_keys.
    by apply (list_elem_of_fmap_2 fst) in Hm.
Qed.

Lemma nothing_present : present = [] → o = [].
Proof.
  intros He. apply (fmap_nil_inv fst), elem_of_nil_inv. intros k Hk%present_in. rewrite He in Hk. by apply elem_of_nil in Hk.
Qed.

Lemma structure_written : written s (JObj o) structure_nodes.
Proof.
  split_and!.
  - intros [|fuel] attrs ch Hf; [lia|]. cbn [XmlBuilder.serialize]. typed (ps_type s Hs). unfold serializeStructure.
    rewrite (build_each_adds _ _ ((λ k, if decide (k ∈ o.*1) then [XmlNode (member_element k) [] (G k)] else []) <$> x_memberNames (s_xml s))).
    { by rewrite concat_present. }
    apply Forall2_fmap_r, Forall_Forall2_diag, Forall_forall. intros k Hk ch'. by apply member_serialized.
  - apply elements_ok. intros name ch Hin. apply list_elem_of_fmap_1 in Hin as (k & [= -> ->] & Hk).
    split; [by apply present_elements_ok|]. apply present_in in Hk.
    destruct (member_entry k (object_member k Hk)) as (id & Hid & _). apply obj_get_elem in Hk as [x Hx%elem_of_obj_get].
    by destruct (HG k x id Hx Hid) as (_ & ? & _).
  - intros fuel Hf. revert Hf. rewrite structure_value. fold structure_kids. intros Hf. destruct (decide (present = [])) as [He|He].
    + destruct fuel as [|fuel]; [lia|]. rewrite He, (nothing_present He). cbn [parseXml]. by typed (ps_type s Hs).
    + assert (Hx : match present with [] => JNull | _ => JObj structure_kids end = JObj structure_kids) by (by destruct present).
      rewrite Hx in Hf |- *. apply (structure_parsed []); [|done]. intros k _. by apply not_elem_of_nil.
Qed.

End structures.

(** The contents of the members of a structure. *)
Lemma members_written s o :
  plain_structure s → o.*1 `sublist_of` (own_props (s_members s)).*1 →
  (∀ k x id, (k, x) ∈ o → (k, id) ∈ s_members s → nullish x = false ∧ ∃ extra, written (table id) x extra) →
  (∀ k x, (k, x) ∈ o → nullish x = false) ∧
  ∃ G, ∀ k x id, (k, x) ∈ o → (k, id) ∈ s_members s → written (table id) x (G k).
Proof.
  intros Hs Ho IH.
  assert (Hex : ∀ k x, (k, x) ∈ o → nullish x = false ∧ ∃ g, ∀ id, (k, id) ∈ s_members s → written (table id) x g).
  { intros k x Hx. destruct (member_entry s k) as (id & Hid & _).
    { eapply object_member; [done|]. by apply (list_elem_of_fmap_2 fst) in Hx. }
    destruct (IH k x id Hx Hid) as [Hnull [g Hg]]. split; [done|]. exists g. intros id' Hid'.
    pose proof (ps_keys s Hs) as Hnd. apply (obj_get_elem_of k id _ Hnd) in Hid. apply (obj_get_elem_of k id' _ Hnd) in Hid'. by simplify_eq. }
  split; [intros k x Hx; by destruct (Hex k x Hx)|].
  destruct (keyed_choice (λ k x g, ∀ id, (k, id) ∈ s_members s → written (table id) x g) [] o) as [G HG].
  { by eapply object_keys_NoDup. }
  { intros k x Hx. by destruct (Hex k x Hx). }
  exists G. eauto.
Qed.

(** Every value that fits its shape. *)
Lemma fits_written s v : fits s v → nullish v = false ∧ ∃ extra, written s v extra.
Proof.
  induction 1 as [s x Ht Hj Hx|s m e Ht Hok|s b Ht|s l Ht Hfl Hn _ IH|s o Ht Hfl Htk Hjk kn vn Hkn Hvn Hne Hown Hnd Hkeys _ IH|s o Hs Ho Hl _ IH].
  - split; [done|]. by eexists; apply string_written.
  - split; [done|]. by eexists; apply integer_written.
  - split; [done|]. by eexists; apply boolean_written.
  - split; [done|]. apply list_written; [done..|]. intros x Hx. by apply IH.
  - split; [done|]. eapply map_written; eauto. intros key x Hx. by eapply IH.
  - split; [done|]. destruct (members_written s o Hs Ho IH) as [Hv [G HG]].
    exists (structure_nodes s o G). by apply structure_written.
Qed.

(** ** Documents *)

(** The attribute of a name space the root has. *)
Definition root_attributes (s : shape) : list (jsstr * jsstr) :=
  shown_attributes (applyNamespaces xmlNamespaceUri ([], []) s true).1.

Lemma root_attributes_ok s :
  forallb nameBody (x_namespacePrefix (s_xml s)) = true →
  root_attributes s = [] ∨ ∃ k uri, root_attributes s = [(k, uri)] ∧ attribute_ok k = true.
Proof.
  intros Hp. unfold root_attributes, applyNamespaces. destruct (x_namespaceUri (s_xml s)) as [|c u].
  - destruct xmlNamespaceUri; [by left|]. right. do 2 eexists. by split.
  - right. destruct (x_namespacePrefix (s_xml s)) as [|c' p]; do 2 eexists; (split; [done|]); [done|].
    unfold attribute_ok. by rewrite !andb_true_iff, !negb_true_iff.
Qed.

(** What the parser makes of an object of xml2js. *)
Definition parsed_data (r : result jserror jsval) : parsed := match r with Ok data => Data data | Throw e => Exception e end.

Lemma parse_document_tree name attributes children s :
  printable (XmlNode name attributes children) = true → representable (XmlNode name attributes children) = true →
  let v := node_value (XmlNode name attributes children) in
  parse new_Date base64_Buffer protocol xmlNoDefaultLists table (node_text (XmlNode name attributes children)) s =
  parsed_data (if truthy v then parse_result new_Date base64_Buffer protocol xmlNoDefaultLists table v s
               else parse_node new_Date base64_Buffer protocol xmlNoDefaultLists table (JObj []) s).
Proof.
  intros Hp Hr v. destruct (document_parsed name attributes children Hp Hr) as (x & Hx & Hc).
  unfold parse. rewrite Hx, Hc. fold v. cbn [last default id]. by destruct (truthy v).
Qed.

Lemma element_value_kids attrs kids :
  element_value attrs [] kids = match dollar attrs ++ kids with [] => JNull | obj => JObj obj end.
Proof. unfold element_value. cbn [blank forallb app]. by destruct (dollar attrs ++ kids) as [|? []]. Qed.

(** The structure as the root of a document. *)
Lemma root_parsed s o rootElement a G :
  plain_structure s → o.*1 `sublist_of` (own_props (s_members s)).*1 →
  (∀ k x id, (k, x) ∈ o → (k, id) ∈ s_members s → written (table id) x (G k)) →
  (∀ k id, (k, id) ∈ s_members s → k ∉ o.*1 → has_type (table id) (js "list") = true → xmlNoDefaultLists = true) →
  (∀ k id, (k, id) ∈ s_members s → s_name (table id) ≠ js "ResponseMetadata") →
  let v := node_value (XmlNode rootElement a (structure_nodes s o G)) in
  (if truthy v then parse_result new_Date base64_Buffer protocol xmlNoDefaultLists table v s
   else parse_node new_Date base64_Buffer protocol xmlNoDefaultLists table (JObj []) s) = Ok (JObj o).
Proof.
  intros Hs Ho HG Hlists Hrm v.
  set (kids := structure_kids s o G).
  assert (Hname : ∀ k (pre : list jsstr), k ∈ (s_members s).*1 → (∀ x, x ∈ pre → x = js "$") → member_element s k ∉ pre).
  { intros k pre (id & Hid & -> & _)%member_entry Hpre He%Hpre. destruct (member_plain s Hs G k id Hid) as (_ & _ & _ & _ & Hok). by rewrite He in Hok. }
  assert (Hv : v = match dollar (shown_attributes a) ++ kids with [] => JNull | obj => JObj obj end).
  { rewrite <-element_value_kids. unfold v.
    change (node_value _) with (element_value (shown_attributes a) (concat (own_text <$> structure_nodes s o G)) (foldl add_child [] (structure_nodes s o G))).
    unfold structure_nodes. rewrite elements_text, foldl_distinct.
    - by rewrite <-list_fmap_compose.
    - rewrite <-list_fmap_compose. by apply present_elements_NoDup.
    - rewrite <-list_fmap_compose. intros (k & He & Hk)%list_elem_of_fmap_1. cbn [compose fst] in He.
      apply present_elements_ok in Hk; [|done..]. by rewrite <-He in Hk. }
  assert (Hp : ∀ pre, (∀ x, x ∈ pre.*1 → x = js "$") →
    parse_node new_Date base64_Buffer protocol xmlNoDefaultLists table (JObj (pre ++ kids)) s = Ok (JObj o)).
  { intros pre Hpre. unfold parse_node. apply structure_parsed; [done..| |apply Nat.lt_succ_diag_r]. intros k Hk. by apply Hname. }
  rewrite Hv. destruct (dollar (shown_attributes a) ++ kids) as [|kv obj] eqn:He.
  - apply app_eq_nil in He as [_ He]. cbn [truthy]. rewrite <-He. apply (Hp []). by intros x ?%elem_of_nil.
  - rewrite <-He. cbn [truthy]. unfold parse_result. rewrite Hp by (intros x; apply dollar_keys). cbn [rbind].
    assert (Hnone : obj_get (js "ResponseMetadata") (dollar (shown_attributes a) ++ kids) = None).
    { apply eq_None_not_Some. rewrite obj_get_elem, fmap_app. intros [Hd%dollar_keys|Hk]%elem_of_app; [by vm_compute in Hd|].
      unfold kids, structure_kids in Hk. rewrite <-list_fmap_compose in Hk. apply list_elem_of_fmap_1 in Hk as (k & Hk & Hin).
      cbn [compose fst] in Hk. apply present_in in Hin; [|done..]. eapply object_member, member_entry in Hin as (id & Hid & Hn & _); [|done].
      apply (Hrm k id Hid). congruence. }
    unfold child, obj_prop. by rewrite Hnone.
Qed.

Lemma root_printable s rootElement children :
  name_ok rootElement = true → forallb nameBody (x_namespacePrefix (s_xml s)) = true → content_ok children →
  let n := XmlNode rootElement (applyNamespaces xmlNamespaceUri ([], []) s true).1 children in
  printable n = true ∧ representable n = true.
Proof.
  intros Hroot Hpre Hc n. assert (Hs : shown_name rootElement = rootElement) by (by destruct rootElement).
  unfold content_ok in Hc. rewrite Forall_forall in Hc. unfold n. cbn [printable representable]. rewrite Hs, Hroot.
  fold (root_attributes s). split.
  - rewrite !andb_true_iff, bool_decide_eq_true. split; [split|].
    + split; [done|]. by destruct (root_attributes_ok s Hpre) as [->|(k & uri & -> & Hk)]; cbn; rewrite ?Hk.
    + destruct (root_attributes_ok s Hpre) as [->|(k & uri & -> & Hk)]; [apply NoDup_nil_2|apply NoDup_singleton].
    + apply forallb_forall. intros c Hin%list_elem_of_In. by destruct (Hc c Hin).
  - apply forallb_forall. intros c Hin%list_elem_of_In. rewrite andb_true_iff. by destruct (Hc c Hin) as (_ & ? & ?).
Qed.

Lemma parse_nothing s :
  parse new_Date base64_Buffer protocol xmlNoDefaultLists table [] s =
  parsed_data (parse_node new_Date base64_Buffer protocol xmlNoDefaultLists table (JObj []) s).
Proof. reflexivity. Qed.

(** C31. The data of a request that fits the shape of its operation comes back
    from the document the builder prints for it: [toXML] succeeds, and the parser
    reads the document, by the same shape, as the same data, whatever characters
    the texts are made of. *)
Theorem xml_roundtrip s o rootElement noEmpty :
  name_ok rootElement = true → forallb nameBody (x_namespacePrefix (s_xml s)) = true →
  has_type s (js "structure") = true → fits s (JObj o) →
  (∀ k id, (k, id) ∈ s_members s → s_name (table id) ≠ js "ResponseMetadata") →
  ∃ document,
    toXML Date_parse Buffer_from xmlNamespaceUri table (S (depth (JObj o))) (JObj o) s rootElement noEmpty = Some document ∧
    parse new_Date base64_Buffer protocol xmlNoDefaultLists table document s = Data (JObj o).
Proof.
  intros Hroot Hpre Ht Hf Hrm.
  inversion Hf as [| | | |? ? Ht'|? ? Hs Ho Hl Hm]; subst.
  { apply has_type_spec in Ht. rewrite Ht in Ht'. by vm_compute in Ht'. }
  destruct (members_written s o Hs Ho) as [Hv [G HG]].
  { intros k x id Hx Hid. apply fits_written. by eapply Hm. }
  pose proof (structure_written s o Hs Ho Hv G HG Hl) as (Hw & Hc & _).
  set (ns := applyNamespaces xmlNamespaceUri ([], []) s true).
  assert (Hns : ns = (ns.1, [])) by (unfold ns, applyNamespaces; by destruct (x_namespaceUri (s_xml s)), xmlNamespaceUri).
  assert (Hb : build Date_parse Buffer_from xmlNamespaceUri table (S (depth (JObj o))) (JObj o) s rootElement =
               Some (XmlNode rootElement ns.1 (structure_nodes s o G))).
  { unfold build. fold ns. rewrite Hns. by rewrite Hw by lia. }
  destruct (root_printable s rootElement _ Hroot Hpre Hc) as [Hp Hr].
  pose proof (λ a, root_parsed s o rootElement a G Hs Ho HG Hl Hrm) as Hparsed. cbv zeta in Hparsed.
  pose proof (parse_document_tree _ _ _ s Hp Hr) as Hdoc. cbv zeta in Hdoc. rewrite Hparsed in Hdoc. fold ns in Hdoc.
  unfold toXML. rewrite Hb. cbn [mbind option_bind]. clear Hb Hw Hp Hr Hc. revert Hdoc Hparsed.
  generalize (structure_nodes s o G). intros ch Hdoc Hparsed.
  destruct ch as [|c ch]; [|by eexists]. destruct noEmpty; [by eexists|].
  eexists. split; [done|]. rewrite parse_nothing. specialize (Hparsed []).
  change (truthy _) with false in Hparsed. by rewrite Hparsed.
Qed.

(** ** The data that does not survive *)

(** A document with one kind of element inside its root. *)
Definition nest_document (rootElement : jsstr) (l : list (jsstr * list xmlnode)) : jsstr := node_text (XmlNode rootElement [] (elements l)).

Lemma nest_parsed rootElement l s :
  name_ok rootElement = true → (∀ name ch, (name, ch) ∈ l → element_ok name = true ∧ content_ok ch) →
  parse new_Date base64_Buffer protocol xmlNoDefaultLists table (nest_document rootElement l) s =
  parsed_data (if truthy (content_value (elements l))
               then parse_result new_Date base64_Buffer protocol xmlNoDefaultLists table (content_value (elements l)) s
               else parse_node new_Date base64_Buffer protocol xmlNoDefaultLists table (JObj []) s).
Proof.
  intros Hroot Hl. apply elements_ok in Hl. unfold content_ok in Hl. rewrite Forall_forall in Hl.
  assert (Hs : shown_name rootElement = rootElement) by (by destruct rootElement).
  apply (parse_document_tree rootElement [] (elements l)); cbn [printable representable].
  - rewrite Hs, Hroot. cbn [andb fmap list_fmap forallb shown_attributes]. rewrite bool_decide_eq_true_2 by apply NoDup_nil_2.
    apply forallb_forall. intros c Hin%list_elem_of_In. by destruct (Hl c Hin).
  - apply forallb_forall. intros c Hin%list_elem_of_In. rewrite andb_true_iff. by destruct (Hl c Hin) as (_ & ? & ?).
Qed.

(** A structure with one member, a text. *)
Record one_text (s : shape) (name : jsstr) (id : shape_id) : Prop := {
  ot_type : s_type s = Some (js "structure");
  ot_members : s_members s = [(js "m", id)];
  ot_name : s_name (table id) = name;
  ot_string : s_type (table id) = Some (js "string");
  ot_plain : s_isJsonValue (table id) = false;
  ot_flattened : s_flattened (table id) = false;
}.

Lemma one_text_read s name id xml text :
  one_text s name id → name ≠ js "ResponseMetadata" →
  parseScalar new_Date base64_Buffer protocol xml (table id) = Ok text →
  parse_result new_Date base64_Buffer protocol xmlNoDefaultLists table (JObj [(name, JArr [xml])]) s = Ok (JObj [(js "m", text)]).
Proof.
  intros [Ht Hm Hn Hs _ Hfl] Hrm Htext. unfold parse_result, parse_node.
  assert (Hd : depth (JObj [(name, JArr [xml])]) = S (S (depth xml))) by (cbn; lia). rewrite Hd.
  assert (Hp : parseXml new_Date base64_Buffer protocol xmlNoDefaultLists table (S (S (S (depth xml)))) (JObj [(name, JArr [xml])]) s =
               Ok (JObj [(js "m", text)])).
  { cbn [parseXml]. typed Ht. unfold parseStructure. rewrite Hm.
    change (own_props [(js "m", id)]) with [(js "m", id)]. cbn [each_data]. unfold parse_member. cbn [fst snd]. rewrite Hn, Hfl.
    unfold child at 1, obj_prop. cbn [obj_get]. rewrite str_eqb_refl. cbn [default Datatypes.id head].
    typed Hs. rewrite bool_decide_eq_false_2 by done. by rewrite Htext. }
  rewrite Hp. cbn [rbind]. unfold child, obj_prop. cbn [obj_get]. by rewrite (proj2 (str_eqb_neq (js "ResponseMetadata") name)).
Qed.

(** C34. What the parser loses.  A text of white space is read as the empty text;
    an empty element with an attribute is read as the text "[object Object]"; and of
    an element that occurs more than once where the shape is not known, as in every
    error and in the metadata of every response, none is kept. *)
Theorem xml_losses rootElement name x y a v s id :
  name_ok rootElement = true → element_ok name = true → name ≠ js "ResponseMetadata" →
  one_text s name id → protocol ∈ [js "rest-xml"; js "query"; js "ec2"] →
  blank x = true → attribute_ok a = true → a ≠ js "encoding" →
  let read := parse new_Date base64_Buffer protocol xmlNoDefaultLists table in
  read (nest_document rootElement [(name, [XmlText (JStr x)])]) s = Data (JObj [(js "m", JStr [])]) ∧
  read (node_text (XmlNode rootElement [] [XmlNode name [(a, JStr v)] []])) s = Data (JObj [(js "m", JStr (js "[object Object]"))]) ∧
  read (nest_document rootElement [(name, [XmlText (JStr x)]); (name, [XmlText (JStr y)])]) bare_shape = Data (JObj [(name, JArr [])]).
Proof.
  intros Hroot Hname Hrm Hs Hproto Hx Ha Hae read.
  assert (Hne : name ≠ []) by (by intros ->). pose proof (element_ok_name name Hname) as Hshown.
  assert (Hok : ∀ l, Forall (λ p : jsstr * list xmlnode, p.1 = name ∧ ∃ t, p.2 = [XmlText t]) l →
    ∀ n ch, (n, ch) ∈ l → element_ok n = true ∧ content_ok ch).
  { intros l Hl n ch Hin. rewrite Forall_forall in Hl. destruct (Hl _ Hin) as [H1 [t H2]]. cbn [fst snd] in H1, H2. subst n ch. split; [done|apply text_ok]. }
  unfold read. split_and!.
  - rewrite nest_parsed by (try done; apply Hok; repeat constructor; eauto).
    pose proof (same_value name [[XmlText (JStr x)]] Hne) as Hv. cbn [fmap list_fmap] in Hv. rewrite Hv, text_value, Hx. cbn [truthy].
    rewrite (one_text_read s name id _ (JStr [])); [done..|].
    unfold parseScalar, toType. rewrite (ot_string _ _ _ Hs). change (type_string protocol (table id) JNull = Ok (JStr [])).
    unfold type_string. by rewrite (ot_plain _ _ _ Hs), bool_decide_eq_true_2.
  - assert (Hown : own_props [(a, JStr v)] = [(a, JStr v)]) by (apply Permutation_singleton_r, own_props_perm).
    assert (Hattrs : shown_attributes [(a, JStr v)] = [(a, v)]) by (unfold shown_attributes; by rewrite Hown).
    rewrite parse_document_tree; cbv zeta.
    + change (node_value _) with (JObj [(shown_name name, JArr [element_value (shown_attributes [(a, JStr v)]) [] []])]).
      rewrite Hattrs, Hshown. cbn [truthy]. rewrite (one_text_read s name id _ (JStr (js "[object Object]"))); [done..|].
      unfold parseScalar, toType. rewrite (ot_string _ _ _ Hs).
      change (child (child _ (js "$")) (js "encoding")) with (obj_prop [(a, JStr v)] (js "encoding")).
      unfold obj_prop at 1. cbn [obj_get]. rewrite (proj2 (str_eqb_neq (js "encoding") a)) by congruence.
      change (type_string protocol (table id) (JObj [(js "$", JObj [(a, JStr v)])]) = Ok (JStr (js "[object Object]"))).
      unfold type_string. by rewrite (ot_plain _ _ _ Hs), bool_decide_eq_true_2.
    + assert (Hr : shown_name rootElement = rootElement) by (by destruct rootElement).
      unfold element_ok in Hname. apply andb_true_iff in Hname as [Hn _].
      cbn [printable forallb]. rewrite Hr, Hshown, Hattrs, Hroot, Hn. cbn [fmap list_fmap fst forallb]. rewrite Ha.
      rewrite !bool_decide_eq_true_2 by (apply NoDup_singleton || apply NoDup_nil_2). done.
    + unfold element_ok in Hname. apply andb_true_iff in Hname as [_ Hc]. cbn [representable forallb]. by rewrite Hshown, Hc.
  - rewrite nest_parsed by (try done; apply Hok; repeat constructor; eauto).
    pose proof (same_value name [[XmlText (JStr x)]; [XmlText (JStr y)]] Hne) as Hv. cbn [fmap list_fmap] in Hv. rewrite Hv. cbn [truthy].
    unfold parse_result, parse_node. cbn [parseXml]. change (has_type bare_shape _) with false. cbv iota.
    change (bool_decide (s_type bare_shape = None)) with true. cbv iota. unfold parseUnknown.
    assert (Hown : ∀ w : jsval, own_props [(name, w)] = [(name, w)]) by (intros w; apply Permutation_singleton_r, own_props_perm).
    assert (Hdollar : name ≠ js "$") by (intros ->; done).
    unfold own_keys. rewrite Hown. cbn [fmap list_fmap fst length Nat.eqb orb]. rewrite bool_decide_eq_false_2 by congruence.
    cbn [each_data unknown_member]. rewrite (proj2 (str_eqb_neq name (js "$"))) by done.
    cbn [length Nat.ltb Nat.leb list_items child each_item rbind obj_set].
    unfold child, obj_prop. cbn [obj_get]. by rewrite (proj2 (str_eqb_neq (js "ResponseMetadata") name)).
Qed.

End roundtrip.

(** A structure of a text, a list of texts, a map of booleans and an empty
    structure. *)
Definition member_of (type name : string) : shape :=
  MkShape (Some (js type)) [] [] no_shape no_shape no_shape None None None None (JStr (js "body"))
    false (js name) false false [] false no_xml.
Definition rule_table (id : shape_id) : shape :=
  if str_eqb id.2 (js "Comment") then member_of "string" "comment"
  else if str_eqb id.2 (js "Items") then
    MkShape (Some (js "list")) [] [] ([], js "item") no_shape no_shape None None None None (JStr (js "body"))
      false (js "Items") false false [] false no_xml
  else if str_eqb id.2 (js "Flags") then
    MkShape (Some (js "map")) [] [] no_shape ([], js "key") ([], js "value") None None None None (JStr (js "body"))
      false (js "Flags") false false [] false no_xml
  else if str_eqb id.2 (js "Rest") then member_of "structure" "Rest"
  else if str_eqb id.2 (js "item") || str_eqb id.2 (js "key") then member_of "string" ""
  else if str_eqb id.2 (js "value") then member_of "boolean" ""
  else MkShape (Some (js "structure")) []
         [(js "Comment", ([], js "Comment")); (js "Items", ([], js "Items")); (js "Flags", ([], js "Flags")); (js "Rest", ([], js "Rest"))]
         no_shape no_shape no_shape None None None None JUndef false [] false false [] false
         (XmlTraits false [] [] [] [js "Rest"; js "Comment"; js "Flags"; js "Items"] false).
Definition rule_data : jsobj :=
  [(js "Comment", JStr (js "a<b & c")); (js "Items", JArr [JStr (js "x"); JStr []]);
   (js "Flags", JObj [(js "on", JBool true); (js "off", JBool false)]); (js "Rest", JObj [])].

Ltac members Hin := repeat (apply elem_of_cons in Hin as [[= -> ->]|Hin]); [..|by apply elem_of_nil in Hin].

Lemma rule_structure : plain_structure rule_table (rule_table no_shape).
Proof.
  split; [done|..].
  - apply (bool_decide_unpack _). vm_compute. exact I.
  - apply (bool_decide_unpack _). vm_compute. exact I.
  - apply (bool_decide_unpack _). vm_compute. exact I.
  - intros k id Hin. members Hin; vm_compute; reflexivity.
  - intros k k' id id' Hin Hin'. members Hin; members Hin'; first [done|by intros H; vm_compute in H].
Qed.

Lemma rest_structure : plain_structure rule_table (member_of "structure" "Rest").
Proof.
  split; [done|done|apply NoDup_nil_2|apply not_elem_of_nil| |].
  - intros ?? H. by apply elem_of_nil in H.
  - intros ???? H. by apply elem_of_nil in H.
Qed.

Lemma rule_fits : fits (js "rest-xml") false rule_table (rule_table no_shape) (JObj rule_data).
Proof.
  apply fits_structure; [apply rule_structure|reflexivity|..].
  - intros k id Hin Hk. exfalso. apply Hk. members Hin; apply (bool_decide_unpack _); vm_compute; exact I.
  - intros k x id Hx Hid. apply (obj_get_elem_of k id) in Hid; [|apply rule_structure].
    members Hx; vm_compute in Hid; injection Hid as <-.
    + by apply fits_string.
    + apply fits_list; [done..|]. intros x Hx. repeat (apply elem_of_cons in Hx as [->|Hx]); [..|by apply elem_of_nil in Hx].
      * by apply fits_string.
      * apply fits_string; [done..|]. intros _. split; [done|left].
    + eapply fits_map; try done; [by apply (bool_decide_unpack _); vm_compute|intros key x Hx; by members Hx|].
      intros key x Hx. members Hx; by apply fits_boolean.
    + apply fits_structure; [apply rest_structure|reflexivity|intros ?? H|intros ??? H]; by apply elem_of_nil in H.
Qed.

Lemma xml_roundtrip_witness :
  ∃ document,
    toXML (λ _, None) (λ _, None) (js "urn:rules") rule_table 3 (JObj rule_data) (rule_table no_shape) (js "Rule") false = Some document ∧
    parse (λ _, JUndef) (λ v, v) (js "rest-xml") false rule_table document (rule_table no_shape) = Data (JObj rule_data).
Proof.
  apply (xml_roundtrip (λ _, None) (λ _, None) (λ _, JUndef) (λ v, v) (js "rest-xml") (js "urn:rules") false rule_table
           (rule_table no_shape) rule_data (js "Rule") false).
  - reflexivity.
  - reflexivity.
  - reflexivity.
  - apply rule_fits.
  - intros k id Hin. members Hin; intros H; by vm_compute in H.
Defined.

Definition one_table (id : shape_id) : shape :=
  if str_eqb id.2 (js "m") then member_of "string" "Text"
  else MkShape (Some (js "structure")) [] [(js "m", ([], js "m"))] no_shape no_shape no_shape None None None None JUndef
         false [] false false [] false (XmlTraits false [] [] [] [js "m"] false).

Lemma xml_losses_witness :
  let read := parse (λ _, JUndef) (λ v, v) (js "query") false one_table in
  read (js "<R><Text> </Text></R>") (one_table no_shape) = Data (JObj [(js "m", JStr [])]) ∧
  read (js "<R><Text lang=" ++ [34] ++ js "en" ++ [34] ++ js "/></R>") (one_table no_shape) = Data (JObj [(js "m", JStr (js "[object Object]"))]) ∧
  read (js "<R><Text> </Text><Text>b</Text></R>") bare_shape = Data (JObj [(js "Text", JArr [])]).
Proof.
  apply (xml_losses (λ _, JUndef) (λ v, v) (js "query") false one_table (js "R") (js "Text") (js " ") (js "b") (js "lang") (js "en")
           (one_table no_shape) ([], js "m")).
  - reflexivity.
  - reflexivity.
  - intros H. by vm_compute in H.
  - by split.
  - js_decide.
  - reflexivity.
  - reflexivity.
  - intros H. by vm_compute in H.
Defined.
