(* ===== verification/QueryResponse.v ===== *)
(** * Responses of the query protocol

    [extractData] and [extractError] (dist/index.js 18120-18193), the listeners
    that turn the body of a response into data or an error: the parser of
    XmlParser.v on the shapes of ApiShapes.v, on the request of
    RequestListeners.v. *)

From stdpp Require Import base gmap strings list.
From Stdlib Require Import ZArith Lia.
From coqutil Require Import Datatypes.RecordSetters.
From S2P Require Import Prelude JsValue Json JsText UriUtil WellFormed Buffers AwsError Http SequentialExecutor RequestListeners RequestLiveness SignersLegacy ParamValidator QuerySerializer ApiShapes EmailRequest Sax Xml2js XmlParser XmlBuilder SaxDocument XmlTree XmlRoundtrip.

Import DoubleBraceUpdate.
Local Open Scope Z_scope.

Section response.
Context (new_Date : jsnum + jsstr → jsval) (base64_Buffer : jsval → jsval).
Context (protocol : jsstr) (xmlNoDefaultLists : bool).
Context (table : shape_id → shape).
Context (operation_name : jsstr) (output : shape).   (* [req.operation] and [operation.output] *)

(** ** The shape of the body *)

(** The two shapes [extractData] adds to the table.  They are known by a property
    that is undefined, which no description of the API has. *)
Definition added_id (name : string) : shape_id := ([([], JUndef)], js name).

(** [Shape.create({type: 'string'}, {api: {protocol: 'query'}}, 'requestId')]. *)
Definition requestIdShape : shape := shape_table (js "query") [] 1 ([(js "type", JStr (js "string"))], js "requestId").

Definition with_members (members : list (jsstr * shape_id)) (s : shape) : shape :=
  MkShape (s_type s) (s_required s) members (s_member s) (s_key s) (s_value s) (s_enum s) (s_min s) (s_max s) (s_pattern s)
    (s_location s) (s_isJsonValue s) (s_name s) (s_isQueryName s) (s_flattened s) (s_timestampFormat s) (s_hostLabel s) (s_xml s).
Definition with_name (name : jsstr) (s : shape) : shape :=
  MkShape (s_type s) (s_required s) (s_members s) (s_member s) (s_key s) (s_value s) (s_enum s) (s_min s) (s_max s) (s_pattern s)
    (s_location s) (s_isJsonValue s) name (s_isQueryName s) (s_flattened s) (s_timestampFormat s) (s_hostLabel s) (s_xml s).

Definition resultWrapper : jsstr := x_resultWrapper (s_xml output).

Definition response_table (id : shape_id) : shape :=
  if bool_decide (id = added_id "output") then with_name resultWrapper output
  else if bool_decide (id = added_id "requestId") then requestIdShape
  else table id.

(** The shape handed to the parser: with a result wrapper, a structure of the
    output under that name. *)
Definition response_shape : shape :=
  let s := match resultWrapper with
           | [] => output
           | _ => with_members [(resultWrapper, added_id "output")]
                    (shape_table [] [] 1 ([(js "type", JStr (js "structure"))], []))
           end in
  if has_type s (js "structure") && negb (bool_decide (is_Some (obj_get (js "_XAMZRequestId") (s_members s))))
  then with_members (obj_set (js "_XAMZRequestId") (added_id "requestId") (s_members s)) s
  else s.

(** ** [extractData] *)

(** [v.name] of the data. *)
Definition data_prop (v : jsval) (name : string) : result jserror jsval :=
  match v with
  | JNull | JUndef => Throw (type_error_of (js "Cannot read properties of " ++ to_string v ++ js " (reading '" ++ js name ++ js "')"))
  | _ => Ok (child v (js name))
  end.

(** [util.update(data, v)] of an object. *)
Definition update (o : jsobj) (v : jsval) : jsobj := foldl (λ o kv, obj_set kv.1 kv.2 o) o (entries v).

(** The data without the request id and without the wrapper. *)
Definition unwrap (v : jsval) : jsval :=
  match v with
  | JObj o =>
    let o := if truthy (obj_prop o (js "_XAMZRequestId")) then obj_del (js "_XAMZRequestId") o else o in
    match resultWrapper with
    | [] => JObj o
    | _ => if truthy (obj_prop o resultWrapper) then JObj (obj_del resultWrapper (update o (obj_prop o resultWrapper))) else JObj o
    end
  | _ => v
  end.

(** [resp.httpResponse.body.toString()]. *)
Definition body_text (r : request) : jsstr := utf8_decode (default [] (hs_body (httpResponse (resp r)))).

(** An exception as an error object. *)
Definition raised (e : jserror) : aws_error := AwsErr (JStr (err_message e)) false (JStr (err_name e)) false JUndef [].

(** The error of a document that is not well-formed. *)
Definition parser_error (now : Z) (cause : jserror) : aws_error :=
  util_error now (raised cause) (ObjectOptions [(js "code", JStr (js "XMLParserError")); (js "retryable", JBool true)]).

(** [extractData(resp)]: the request afterwards and the exception it throws;
    nothing for a document outside the model of xml2js. *)
Definition extractData (r : request) : option (request * option aws_error) :=
  match parse new_Date base64_Buffer protocol xmlNoDefaultLists response_table (body_text r) response_shape with
  | Outside _ => None
  | XMLParserError cause => Some (r, Some (parser_error (clock r) cause))
  | Exception e => Some (r, Some (raised e))
  | XmlParser.Data v =>
    match (let* id := data_prop v "_XAMZRequestId" in let* id' := data_prop v "requestId" in Ok (js_or id id')) with
    | Throw e => Some (r, Some (raised e))
    | Ok id => Some (r {{ resp -> requestId := id; resp -> data := unwrap v }}, None)
    end
  end.

(** ** [extractError] *)

Definition statusCode_value (r : request) : jsval :=
  match hs_statusCode (httpResponse (resp r)) with Some n => JNum (num_of_Z n) | None => JUndef end.

(** The description of the error in the body; without one, the status. *)
Definition error_data (r : request) : option jsval :=
  if includes (js "<UnknownOperationException") (body_text r) then
    Some (JObj [(js "Code", JStr (js "UnknownOperation")); (js "Message", JStr (js "Unknown operation " ++ operation_name))])
  else
    match parse new_Date base64_Buffer protocol xmlNoDefaultLists table (body_text r) bare_shape with
    | Outside _ => None
    | XmlParser.Data v => Some v
    | XMLParserError _ | Exception _ =>
      Some (JObj [(js "Code", statusCode_value r); (js "Message", hs_statusMessage (httpResponse (resp r)))])
    end.

Definition extractError (r : request) : option request :=
  d ← error_data r;
  let r := if truthy (child d (js "requestId")) && negb (truthy (requestId (resp r)))
           then r {{ resp -> requestId := child d (js "requestId") }} else r in
  let d := js_or (child d (js "Errors")) d in
  let d := js_or (child d (js "Error")) d in
  Some (set_error (Some (fresh_error r []
    (if truthy (child d (js "Code"))
     then [(js "code", child d (js "Code")); (js "message", child d (js "Message"))]
     else [(js "code", statusCode_value r); (js "message", JNull)]))) r).

End response.

(** ** The response to the e-mail *)

(** The document of a sent e-mail: elements and, between them, white space. *)
Definition send_response (xmlns : jsstr) (gap : nat → jsstr) (messageId request : jsstr) : xmlnode :=
  let space i := XmlText (JStr (gap i)) in
  XmlNode (js "SendTemplatedEmailResponse") [(js "xmlns", JStr xmlns)]
    [space 0%nat;
     XmlNode (js "SendTemplatedEmailResult") []
       [space 1%nat; XmlNode (js "MessageId") [] [XmlText (JStr messageId)]; space 2%nat];
     space 3%nat;
     XmlNode (js "ResponseMetadata") []
       [space 4%nat; XmlNode (js "RequestId") [] [XmlText (JStr request)]; space 5%nat];
     space 6%nat].

(** [operation.output] of SendTemplatedEmail. *)
Definition send_output : shape := ses_table (operation_output sendTemplatedEmail_json).

Lemma blank_app a b : blank (a ++ b) = blank a && blank b.
Proof. unfold blank. apply forallb_app. Qed.

Section email.
Context (new_Date : jsnum + jsstr → jsval) (base64_Buffer : jsval → jsval) (xmlNoDefaultLists : bool).
Context (xmlns : jsstr) (gap : nat → jsstr) (messageId request_id : jsstr).
Context (Hgap : ∀ i, blank (gap i) = true) (Hm : blank messageId = false) (Hq : blank request_id = false).

(** The object xml2js makes of the document. *)
Definition response_object : jsval :=
  JObj [(js "$", JObj [(js "xmlns", JStr xmlns)]);
        (js "SendTemplatedEmailResult", JArr [JObj [(js "MessageId", JArr [JStr messageId])]]);
        (js "ResponseMetadata", JArr [JObj [(js "RequestId", JArr [JStr request_id])]])].

Lemma text_element name x : blank x = false → node_value (XmlNode name [] [XmlText (JStr x)]) = JStr x.
Proof.
  intros Hx. change (node_value _) with (content_value [XmlText (JStr x)]). by rewrite text_value, Hx.
Qed.

Lemma response_value : node_value (send_response xmlns gap messageId request_id) = response_object.
Proof.
  unfold send_response. cbv zeta.
  assert (Hgaps : ∀ a b, blank (gap a ++ gap b ++ []) = true) by (intros; by rewrite !blank_app, !Hgap).
  assert (Hone : ∀ name inner x a b, blank x = false →
    node_value (XmlNode name [] [XmlText (JStr (gap a)); XmlNode inner [] [XmlText (JStr x)]; XmlText (JStr (gap b))]) =
    JObj [(shown_name inner, JArr [JStr x])]).
  { intros name inner x a b Hx.
    change (node_value _) with (element_value [] (gap a ++ [] ++ gap b ++ []) (push (shown_name inner) (node_value (XmlNode inner [] [XmlText (JStr x)])) [])).
    cbn [app]. rewrite text_element by done. unfold element_value. by rewrite Hgaps. }
  set (A := XmlNode (js "SendTemplatedEmailResult") [] _). set (B := XmlNode (js "ResponseMetadata") [] _).
  change (node_value _) with (element_value [(js "xmlns", xmlns)] (gap 0%nat ++ [] ++ gap 3%nat ++ [] ++ gap 6%nat ++ [])
    (push (js "ResponseMetadata") (node_value B) (push (js "SendTemplatedEmailResult") (node_value A) []))).
  unfold A, B. rewrite !Hone by done. unfold element_value. rewrite !blank_app, !Hgap. reflexivity.
Qed.

Lemma response_printable :
  printable (send_response xmlns gap messageId request_id) = true ∧ representable (send_response xmlns gap messageId request_id) = true.
Proof. split; reflexivity. Qed.

(** What the parser makes of it, by the shape of the operation. *)
Lemma response_parsed :
  parse new_Date base64_Buffer (js "query") xmlNoDefaultLists (response_table ses_table send_output)
    (node_text (send_response xmlns gap messageId request_id)) (response_shape send_output) =
  XmlParser.Data (JObj [(js "SendTemplatedEmailResult", JObj [(js "MessageId", JStr messageId)]);
                        (js "ResponseMetadata", JObj [(js "RequestId", JStr request_id)])]).
Proof.
  destruct response_printable as [Hp Hr]. unfold send_response in *. cbv zeta in *.
  rewrite parse_document_tree by done. cbv zeta. fold (send_response xmlns gap messageId request_id). rewrite response_value.
  unfold response_object. destruct messageId as [|c m]; [done|]. destruct request_id as [|d q]; [done|].
  vm_compute. reflexivity.
Qed.
End email.

(** ** The body arrives *)

Section arrival.
Context {Creds : Type} (svc : service) (w : world Creds).

(** The events of a response whose body arrives as [chunks]. *)
Definition received (statusCode : Z) (headers : jsobj) (statusMessage : jsval) (chunks : list (list Z)) (r : request) : request :=
  http_done (foldl (λ r chunk, http_data chunk r) (http_headers svc w statusCode headers statusMessage r) chunks).

Lemma http_headers_response statusCode headers statusMessage r :
  httpResponse (resp (http_headers svc w statusCode headers statusMessage r)) =
  HttpResponse (Some statusCode) statusMessage headers (Some []) (Some []) (Some 0) (hs_streaming (httpResponse (resp r))).
Proof.
  unfold http_headers. cbv zeta. destruct (truthy _); [|done]. destruct (cfg_correctClockSkew svc && _); [|done].
  unfold applyClockOffset. destruct (w_Date_parse w _); [|done]. by destruct (Z.eqb _ _).
Qed.

Lemma http_data_response chunks r b :
  hs_buffers (httpResponse (resp r)) = Some b →
  let h := httpResponse (resp (foldl (λ r chunk, http_data chunk r) r chunks)) in
  hs_buffers h = Some (b ++ chunks) ∧ hs_headers h = hs_headers (httpResponse (resp r)) ∧
  hs_statusCode h = hs_statusCode (httpResponse (resp r)) ∧ hs_body h = hs_body (httpResponse (resp r)) ∧
  hs_statusMessage h = hs_statusMessage (httpResponse (resp r)).
Proof.
  revert r b. induction chunks as [|c chunks IH]; intros r b Hb; cbn [foldl]; [by rewrite app_nil_r|].
  specialize (IH (http_data c r) (b ++ [c])). rewrite <-app_assoc in IH. apply IH.
  change (option_map (λ l, l ++ [c]) (hs_buffers (httpResponse (resp r))) = Some (b ++ [c])). by rewrite Hb.
Qed.

Lemma received_response statusCode headers statusMessage chunks r :
  let h := httpResponse (resp (received statusCode headers statusMessage chunks r)) in
  hs_body h = Some (concat chunks) ∧ hs_headers h = headers ∧ hs_statusCode h = Some statusCode ∧ hs_statusMessage h = statusMessage.
Proof.
  pose proof (http_headers_response statusCode headers statusMessage r) as Hh.
  destruct (http_data_response chunks (http_headers svc w statusCode headers statusMessage r) []) as (Hb & Hhs & Hsc & Hbody & Hsm).
  { by rewrite Hh. }
  rewrite Hh in *. unfold received, http_done. rewrite Hb. cbn [app]. destruct chunks; cbn in *; done.
Qed.

Lemma extract_request_id_data r : data (resp (extract_request_id r)) = data (resp r).
Proof. unfold extract_request_id, upd_error. destruct (truthy _); cbv zeta; by destruct (error _). Qed.

(** The request id of the headers, or else of the metadata in the data. *)
Lemma extract_request_id_metadata r d q :
  data (resp r) = JObj d → obj_prop d (js "ResponseMetadata") = JObj [(js "RequestId", JStr q)] → q ≠ [] →
  requestId (resp (extract_request_id r)) =
  js_or (js_or (obj_prop (hs_headers (httpResponse (resp r))) (js "x-amz-request-id"))
               (obj_prop (hs_headers (httpResponse (resp r))) (js "x-amzn-requestid"))) (JStr q).
Proof.
  intros Hd Hmeta Hq. unfold extract_request_id, upd_error. rewrite Hd, Hmeta.
  set (id := js_or (obj_prop _ _) (obj_prop _ _)). destruct (truthy id) eqn:Hid.
  - unfold js_or at 1. rewrite Hid. by destruct (error _).
  - unfold js_or at 1. rewrite Hid. destruct q; [done|]. cbn. by destruct (error _).
Qed.

(** C9. The answer to the e-mail reaches the caller.  Whatever the message id and
    the request id, unless they are blank, whatever white space the service puts
    between the elements of the document, and however the network cuts its bytes,
    the response ends with the message id as data, next to the metadata, and with
    the request id of the headers or else of the document. *)
Theorem send_response_read (new_Date : jsnum + jsstr → jsval) (base64_Buffer : jsval → jsval) (noLists : bool)
    (xmlns : jsstr) (gap : nat → jsstr) (messageId request_id : jsstr)
    (statusCode : Z) (headers : jsobj) (statusMessage : jsval) (chunks : list (list Z)) (r : request) :
  (∀ i, blank (gap i) = true) → blank messageId = false → blank request_id = false →
  let document := node_text (send_response xmlns gap messageId request_id) in
  well_formed document → concat chunks = utf8 document →
  ∃ r', extractData new_Date base64_Buffer (js "query") noLists ses_table send_output
          (received statusCode headers statusMessage chunks r) = Some (r', None) ∧
        let done := resp (extract_request_id r') in
        data done = JObj [(js "ResponseMetadata", JObj [(js "RequestId", JStr request_id)]); (js "MessageId", JStr messageId)] ∧
        requestId done = js_or (js_or (obj_prop headers (js "x-amz-request-id")) (obj_prop headers (js "x-amzn-requestid")))
                               (JStr request_id).
Proof.
  intros Hgap Hm Hq document Hw Hc.
  destruct (received_response statusCode headers statusMessage chunks r) as (Hbody & Hheaders & _).
  set (r1 := received _ _ _ _ r) in *.
  assert (Htext : body_text r1 = document).
  { unfold body_text. rewrite Hbody. cbn [default id]. rewrite Hc. by apply utf8_decode_utf8. }
  unfold extractData. rewrite Htext. unfold document. rewrite response_parsed by done.
  cbn [data_prop child rbind]. eexists. split; [reflexivity|]. cbv zeta.
  set (r2 := _ {{ resp -> data := _ }}).
  assert (Hd : data (resp r2) = JObj [(js "ResponseMetadata", JObj [(js "RequestId", JStr request_id)]); (js "MessageId", JStr messageId)])
    by (vm_compute; reflexivity).
  split; [by rewrite extract_request_id_data|].
  rewrite (extract_request_id_metadata r2 _ request_id Hd); [|reflexivity|by intros ->].
  change (httpResponse (resp r2)) with (httpResponse (resp r1)). by rewrite Hheaders.
Qed.

(** ** Errors *)

(** The document of an error. *)
Definition error_response (xmlns kind code message request : jsstr) : xmlnode :=
  let element name x := XmlNode (js name) [] [XmlText (JStr x)] in
  XmlNode (js "ErrorResponse") [(js "xmlns", JStr xmlns)]
    [XmlNode (js "Error") [] [element "Type" kind; element "Code" code; element "Message" message];
     element "RequestId" request].

Lemma includes_skip p a s : 60 ∉ a → includes (60 :: p) (a ++ s) = includes (60 :: p) s.
Proof.
  induction a as [|c a IH]; intros Ha; [done|]. apply not_elem_of_cons in Ha as [Hc Ha].
  cbn [app includes starts_with]. rewrite (proj2 (Z.eqb_neq 60 c)) by done. by apply IH.
Qed.

Lemma escapeElement_no_lt x : 60 ∉ escapeElement x.
Proof. unfold escapeElement. apply replace_all_keeps_absent; [apply replace_all_removes|]; js_decide. Qed.
Lemma escapeAttribute_no_lt x : 60 ∉ escapeAttribute x.
Proof.
  unfold escapeAttribute. do 2 (apply replace_all_keeps_absent; [|js_decide]). apply replace_all_removes. js_decide.
Qed.

(** The start of another element. *)
Lemma includes_open p n s :
  match n with c :: n => bool_decide (c ≠ 60 ∧ c ≠ 85 ∧ 60 ∉ n) | [] => false end = true →
  includes (60 :: 85 :: p) (js "<" ++ n ++ s) = includes (60 :: 85 :: p) s.
Proof.
  destruct n as [|c n]; [done|]. intros (H1 & H2 & Hn)%bool_decide_eq_true. change (js "<" ++ (c :: n) ++ s) with (60 :: c :: n ++ s).
  cbn [app includes starts_with]. rewrite (proj2 (Z.eqb_neq 85 c)), (proj2 (Z.eqb_neq 60 c)) by done.
  cbn [andb orb]. rewrite andb_false_r. by apply includes_skip.
Qed.
Lemma includes_literal p n s : bool_decide (60 ∉ n) = true → includes (60 :: p) (n ++ s) = includes (60 :: p) s.
Proof. intros Hn%bool_decide_eq_true. by apply includes_skip. Qed.

Lemma error_response_known xmlns kind code message request :
  includes (js "<UnknownOperationException") (node_text (error_response xmlns kind code message request)) = false.
Proof.
  unfold error_response. cbv zeta. cbn [node_text fmap list_fmap concat]. change (to_string (JStr ?x)) with x.
  change (own_props [(js "xmlns", JStr xmlns)]) with [(js "xmlns", JStr xmlns)]. cbn [fmap list_fmap concat].
  unfold attribute_text. cbn [nullish fst snd]. change (to_string (JStr ?x)) with x.
  generalize (escapeAttribute_no_lt xmlns), (escapeElement_no_lt kind), (escapeElement_no_lt code), (escapeElement_no_lt message),
    (escapeElement_no_lt request).
  generalize (escapeAttribute xmlns), (escapeElement kind), (escapeElement code), (escapeElement message), (escapeElement request).
  intros a k c m q Ha Hk Hc Hm Hq.
  change (concat (_ <$> own_props [])) with (@nil Z). rewrite !app_nil_r. change (js "</" ++ ?s) with (js "<" ++ [47] ++ s).
  change (js "<UnknownOperationException") with (60 :: 85 :: js "nknownOperationException").
  rewrite <-!app_assoc.
  repeat first [rewrite includes_open by reflexivity|rewrite includes_skip by assumption|rewrite includes_literal by reflexivity].
  reflexivity.
Qed.

(** The texts of the document, those that are blank being empty. *)
Definition shown_text (x : jsstr) : jsval := if blank x then JStr [] else JStr x.

Lemma error_parsed new_Date base64_Buffer noLists table xmlns kind code message request :
  parse new_Date base64_Buffer (js "query") noLists table (node_text (error_response xmlns kind code message request)) bare_shape =
  XmlParser.Data (JObj [(js "Error", JObj [(js "Type", shown_text kind); (js "Code", shown_text code); (js "Message", shown_text message)]);
                        (js "RequestId", shown_text request)]).
Proof.
  unfold error_response. cbv zeta. rewrite parse_document_tree by reflexivity. cbv zeta.
  assert (Htext : ∀ name x, node_value (XmlNode name [] [XmlText (JStr x)]) = if blank x then JNull else JStr x).
  { intros name x. apply text_value. }
  set (E := XmlNode (js "Error") [] _). set (Q := XmlNode (js "RequestId") [] _).
  change (node_value (XmlNode (js "ErrorResponse") _ _)) with
    (JObj [(js "$", JObj [(js "xmlns", JStr xmlns)]); (js "Error", JArr [node_value E]); (js "RequestId", JArr [node_value Q])]).
  unfold E. change (node_value (XmlNode (js "Error") [] [?a; ?b; ?c])) with
    (JObj [(js "Type", JArr [node_value a]); (js "Code", JArr [node_value b]); (js "Message", JArr [node_value c])]).
  unfold Q. rewrite !Htext. unfold shown_text.
  destruct (blank kind), (blank code), (blank message), (blank request); vm_compute; reflexivity.
Qed.

(** C10. The error of the service reaches the caller: a response with the document
    of an error ends with an error of that code and that message, however the bytes
    arrive and whatever else the document says. *)
Theorem error_response_read (new_Date : jsnum + jsstr → jsval) (base64_Buffer : jsval → jsval) (noLists : bool)
    (table : shape_id → shape) (operation_name xmlns kind code message request_id : jsstr)
    (statusCode : Z) (headers : jsobj) (statusMessage : jsval) (chunks : list (list Z)) (r : request) :
  blank code = false → blank message = false →
  let document := node_text (error_response xmlns kind code message request_id) in
  well_formed document → concat chunks = utf8 document →
  ∃ r' e, extractError new_Date base64_Buffer (js "query") noLists table operation_name
            (received statusCode headers statusMessage chunks r) = Some r' ∧ get_error r' = Some e ∧
          err_get e (js "code") = JStr code ∧ err_get e (js "message") = JStr message.
Proof.
  intros Hcode Hmess document Hw Hc.
  destruct (received_response statusCode headers statusMessage chunks r) as (Hbody & _).
  set (r1 := received _ _ _ _ r) in *.
  assert (Htext : body_text r1 = document).
  { unfold body_text. rewrite Hbody. cbn [default id]. rewrite Hc. by apply utf8_decode_utf8. }
  unfold extractError, error_data. rewrite Htext. unfold document. rewrite error_response_known.
  rewrite error_parsed. unfold shown_text. rewrite Hcode, Hmess.
  assert (Hne : ∀ x, blank x = false → ∃ c x', x = c :: x') by (intros [|c x'] Hx; [done|by exists c, x']).
  destruct (Hne code Hcode) as (c & code' & ->). destruct (Hne message Hmess) as (m & message' & ->).
  do 2 eexists. split; [reflexivity|]. split; [reflexivity|]. split; reflexivity.
Qed.

(** A failed response never passes for one without an error: whatever the body,
    there is an error, and with a status it has a code. *)
Lemma failed_response_has_code (new_Date : jsnum + jsstr → jsval) (base64_Buffer : jsval → jsval) (noLists : bool)
    (protocol : jsstr) (table : shape_id → shape) (operation_name : jsstr) (r r' : request) :
  extractError new_Date base64_Buffer protocol noLists table operation_name r = Some r' →
  ∃ e, get_error r' = Some e ∧ (truthy (statusCode_value r) = true → truthy (err_get e (js "code")) = true).
Proof.
  unfold extractError. destruct (error_data _ _ _ _ _ _ _) as [d|]; [|done]. cbn [mbind option_bind].
  set (r1 := if truthy _ && _ then _ else r). set (d1 := js_or (child d _) d). set (d2 := js_or (child d1 _) d1).
  intros H%Some_inj. subst r'. eexists. split; [reflexivity|]. intros Hcode.
  assert (Hstatus : statusCode_value r1 = statusCode_value r) by (unfold r1; by destruct (truthy _ && _)).
  unfold fresh_error. destruct (truthy (child d2 (js "Code"))) eqn:Hd; rewrite util_error_code; try done.
  - by rewrite <-Hstatus in Hcode.
  - cbn. by rewrite Hstatus.
Qed.

End arrival.

Lemma send_response_read_witness :
  let document := js "<SendTemplatedEmailResponse xmlns=" ++ [34] ++ js "u" ++ [34] ++ js "> <SendTemplatedEmailResult> <MessageId>0&amp;1</MessageId>" ++
    js " </SendTemplatedEmailResult> <ResponseMetadata> <RequestId>q</RequestId> </ResponseMetadata> </SendTemplatedEmailResponse>" in
  ∃ r', extractData (λ _, JUndef) (λ v, v) (js "query") false ses_table send_output
          (received demo_service (demo_world (λ _, [])) 200 [] JUndef [take 7 document; drop 7 document]
             (makeRequest demo_service None JUndef (new_executor []) [] 0 0)) = Some (r', None) ∧
        let done := resp (extract_request_id r') in
        data done = JObj [(js "ResponseMetadata", JObj [(js "RequestId", JStr (js "q"))]); (js "MessageId", JStr (js "0&1"))] ∧
        requestId done = JStr (js "q").
Proof.
  apply (send_response_read demo_service (demo_world (λ _, [])) (λ _, JUndef) (λ v, v) false (js "u") (λ _, js " ") (js "0&1") (js "q")
           200 [] JUndef).
  - intros _. reflexivity.
  - reflexivity.
  - reflexivity.
  - js_decide.
  - vm_compute. reflexivity.
Defined.

Lemma error_response_read_witness :
  let document := js "<ErrorResponse xmlns=" ++ [34] ++ js "u" ++ [34] ++ js "><Error><Type>Sender</Type><Code>Throttling</Code><Message>a &lt; b</Message></Error><RequestId>q</RequestId></ErrorResponse>" in
  ∃ r' e, extractError (λ _, JUndef) (λ v, v) (js "query") false ses_table (js "sendTemplatedEmail")
            (received demo_service (demo_world (λ _, [])) 400 [] JUndef [document]
               (makeRequest demo_service None JUndef (new_executor []) [] 0 0)) = Some r' ∧ get_error r' = Some e ∧
          err_get e (js "code") = JStr (js "Throttling") ∧ err_get e (js "message") = JStr (js "a < b").
Proof.
  apply (error_response_read demo_service (demo_world (λ _, [])) (λ _, JUndef) (λ v, v) false ses_table (js "sendTemplatedEmail")
           (js "u") (js "Sender") (js "Throttling") (js "a < b") (js "q") 400 [] JUndef).
  - reflexivity.
  - reflexivity.
  - js_decide.
  - vm_compute. reflexivity.
Defined.
