(* ===== verification/JsonProtocol.v ===== *)
(** * The JSON protocol

    [JsonBuilder] and [JsonParser] (dist/index.js 16294-16433), which turn
    parameters into JSON and JSON into data by the shape of an operation, and
    [buildRequest], [extractError] and [extractData] of the JSON protocol
    (18009-18085). *)

From stdpp Require Import base gmap strings list.
From Stdlib Require Import ZArith Lia.
From coqutil Require Import Datatypes.RecordSetters.
From S2P Require Import Prelude JsValue Json JsText UriUtil Buffers JsDate AwsError Http RequestListeners SignersLegacy ParamValidator HostPrefix QuerySerializer XmlParser XmlRoundtrip QueryResponse.

Import DoubleBraceUpdate.
Local Open Scope Z_scope.

(** ** JsonBuilder *)

(** The callbacks of [util.each] and [util.arrayEach], until one throws. *)
Fixpoint fold_each {A B} (f : A → B → option B) (l : list A) (b : B) : option B :=
  match l with
  | [] => Some b
  | x :: l => b ← f x b; fold_each f l b
  end.

Section builder.
Context (Date_parse : jsval → option Z).   (* [new Date(v)] of a value that is not a number *)
Context (Buffer_from : jsval → option (list Z)).   (* [Buffer.from(v)] of a value that is not text *)
Context (table : shape_id → shape).

(** [shape.toWireFormat(value)] as a value; [None]: it throws. *)
Definition wire_value (s : shape) (v : jsval) : option jsval :=
  let t := default [] (s_type s) in
  if str_eqb t (js "timestamp") then
    if str_eqb (s_timestampFormat s) (js "unixTimestamp") then
      Some (JNum (match (match v with JNum n => date_of_seconds n | _ => Date_parse v end) with
                  | Some d => unixTimestamp d
                  | None => NumNaN
                  end))
    else JStr <$> wire_timestamp Date_parse s v
  else if str_eqb t (js "float") then Some (type_float v)
  else if str_eqb t (js "integer") then Some (type_integer v)
  else if str_eqb t (js "base64") || str_eqb t (js "binary")
  then if nullish v then Some v else JStr <$> base64_encode Buffer_from v
  else if str_eqb t (js "string") then
    Some (if s_isJsonValue s then default JUndef (JStr <$> JSON_stringify v) else v)
  else Some (if nullish v then JStr [] else v).

Section nodes.
Context (translate : shape → jsval → option jsval).   (* the recursive call *)

(** A value that is undefined is left out. *)
Definition unless_undefined {A} (v : jsval) (f : jsval → A) (a : A) : A := match v with JUndef => a | _ => f v end.

Definition location_name (m : shape) (name : jsstr) : jsstr := if x_isLocationName (s_xml m) then s_name m else name.

Definition translate_member (s : shape) (kv : jsstr * jsval) (struct : jsobj) : option jsobj :=
  match member_shape table s kv.1 with
  | None => Some struct
  | Some m =>
    if negb (is_str (js "body") (s_location m)) then Some struct
    else r ← translate m kv.2; Some (unless_undefined r (λ r, obj_set (location_name m kv.1) r struct) struct)
  end.

Definition translateStructure (s : shape) (structure : jsval) : option jsval :=
  JObj <$> fold_each (translate_member s) (entries structure) [].

Definition translateList (s : shape) (l : jsval) : option jsval :=
  JArr <$> fold_each (λ x out, r ← translate (table (s_member s)) x; Some (unless_undefined r (λ r, out ++ [r]) out))
                     (entries l).*2 [].

Definition translateMap (s : shape) (map : jsval) : option jsval :=
  JObj <$> fold_each (λ kv out, r ← translate (table (s_value s)) kv.2; Some (unless_undefined r (λ r, obj_set kv.1 r out) out))
                     (entries map) [].

End nodes.

(** [translate(value, shape)]; the fuel bounds the depth of the value. *)
Fixpoint translate (fuel : nat) (s : shape) (v : jsval) : option jsval :=
  match fuel with
  | O => None
  | S fuel =>
    if nullish v then Some JUndef
    else if has_type s (js "structure") then translateStructure (translate fuel) s v
    else if has_type s (js "map") then translateMap (translate fuel) s v
    else if has_type s (js "list") then translateList (translate fuel) s v
    else wire_value s v
  end.

(** [builder.build(value, shape)]: a text, or undefined. *)
Definition json_build (v : jsval) (s : shape) : option jsval :=
  t ← translate (S (depth v)) s v; Some (default JUndef (JStr <$> JSON_stringify t)).

(** ** [buildRequest] *)

(** The HTTP request.  [Throw None] is an exception of the builder.  The input is
    a structure, so that there is a body. *)
Definition json_buildRequest (now : Z) (hostPrefixEnabled : bool) (endpointOperation targetPrefix : jsstr) (jsonVersion : jsval)
    (op : operation) (params : jsval) (input : shape) (hr : http_request) : result (option aws_error) http_request :=
  let target := targetPrefix ++ js "." ++ op_name op in
  let version := js_or jsonVersion (JStr (js "1.0")) in
  let version := if bool_decide (version = JNum (num_of_Z 1)) then JStr (js "1.0") else version in
  match json_build (js_or params (JObj [])) input with
  | Some (JStr body) =>
    let headers := obj_set (js "Content-Type") (JStr (js "application/x-amz-json-" ++ to_string version)) (hr_headers hr) in
    let headers := obj_set (js "X-Amz-Target") (JStr target) headers in
    match populateHostPrefix now table hostPrefixEnabled endpointOperation op params input (hr_endpoint hr) with
    | Throw e => Throw (Some e)
    | Ok e => Ok (HttpRequest (hr_method hr) (hr_path hr) headers body e (hr_region hr) (_userAgent hr))
    end
  | _ => Throw None
  end.

End builder.

(** ** JsonParser *)

Section parser.
Context (new_Date : jsnum + jsstr → jsval) (base64_Buffer : jsval → jsval).
Context (protocol : jsstr) (table : shape_id → shape).

(** An own property of a value. *)
Definition own_property (v : jsval) (name : jsstr) : option jsval :=
  match v with
  | JObj o => obj_get name o
  | JArr _ | JStr _ => if str_eqb name (js "length") then Some (js_length v) else obj_get name (entries v)
  | _ => None
  end.

Section nodes.
Context (translate : shape → jsval → result jserror jsval).   (* the recursive call *)

Definition read_member (structure : jsval) (m : jsstr * shape_id) (struct : jsobj) : result jserror jsobj :=
  match own_property structure (location_name (table m.2) m.1) with
  | Some v => let* r := translate (table m.2) v in Ok (unless_undefined r (λ r, obj_set m.1 r struct) struct)
  | None => Ok struct
  end.

Definition readStructure (s : shape) (structure : jsval) : result jserror jsval :=
  if nullish structure then Ok JUndef
  else let* struct := each_data (read_member structure) (own_props (s_members s)) [] in Ok (JObj struct).

(** An element that is undefined is kept as null. *)
Definition or_null (v : jsval) : jsval := match v with JUndef => JNull | _ => v end.

Definition readList (s : shape) (l : jsval) : result jserror jsval :=
  if nullish l then Ok JUndef
  else let* out := each_item (λ x, let* r := translate (table (s_member s)) x in Ok (or_null r)) (entries l).*2 in Ok (JArr out).

Definition readMap (s : shape) (map : jsval) : result jserror jsval :=
  if nullish map then Ok JUndef
  else let* out := each_data (λ kv out, let* r := translate (table (s_value s)) kv.2 in Ok (obj_set kv.1 (or_null r) out))
                             (entries map) [] in Ok (JObj out).

End nodes.

(** [translate(value, shape)] of the parser. *)
Fixpoint read (fuel : nat) (s : shape) (v : jsval) : result jserror jsval :=
  match fuel with
  | O => Throw (mk_error (js "RangeError") (js "Maximum call stack size exceeded"))
  | S fuel =>
    match v with
    | JUndef => Ok JUndef
    | _ =>
      if has_type s (js "structure") then readStructure (read fuel) s v
      else if has_type s (js "map") then readMap (read fuel) s v
      else if has_type s (js "list") then readList (read fuel) s v
      else toType new_Date base64_Buffer protocol s v
    end
  end.

Definition syntax_error : jserror := mk_error (js "SyntaxError") (js "Unexpected token in JSON").

(** [parser.parse(value, shape)]. *)
Definition json_parse (text : jsstr) (s : shape) : result jserror jsval :=
  match JSON_parse text with
  | Some v => read (S (depth v)) s v
  | None => Throw syntax_error
  end.
End parser.

(** ** [extractError] and [extractData] *)

(** [text.split(c)[0]] and [text.split(c).pop()]. *)
Definition before (c : Z) (s : jsstr) : jsstr := default [] (head (split_on c s)).
Definition behind (c : Z) (s : jsstr) : jsstr := default [] (last (split_on c s)).

(** The code of the header [x-amzn-errortype]. *)
Definition header_code (headers : jsobj) : jsval :=
  match js_or (obj_prop headers (js "x-amzn-errortype")) (JStr (js "UnknownError")) with
  | JStr code => JStr (before 58 code)
  | code => code
  end.

(** The code and the message in the body, in the [try]: [None] when it throws. *)
Definition body_error (code : jsval) (body : jsstr) : option (jsval * jsval) :=
  e ← JSON_parse body;
  if nullish e then None
  else
    let own k := child e (js k) in
    let given := js_or (own "__type") (js_or (own "code") (own "Code")) in
    code ← (if truthy given then match given with JStr s => Some (JStr (behind 35 s)) | _ => None end else Some code);
    Some (code, if is_str (js "RequestEntityTooLarge") code then JStr (js "Request body must be less than 1 MB")
                else js_or (own "message") (js_or (own "Message") JNull)).

(** [extractError(resp)]: the request and the exception it throws. *)
Definition json_extractError (r : request) : request * option aws_error :=
  let h := httpResponse (resp r) in
  let code := header_code (hs_headers h) in
  let fail options := (set_error (Some (fresh_error r [] options)) r, None) in
  match default [] (hs_body h) with
  | [] =>
    match hs_statusCode h with
    | Some n => fail [(js "code", code); (js "statusCode", JNum (num_of_Z n)); (js "message", JStr (Z_to_str n))]
    | None => (r, Some (TypeError (js "Cannot read properties of undefined (reading 'toString')")))
    end
  | body =>
    match body_error code (utf8_decode body) with
    | Some (code, message) => fail [(js "code", code); (js "message", message)]
    | None => fail [(js "code", code); (js "statusCode", statusCode_value r); (js "message", hs_statusMessage h)]
    end
  end.

(** [extractData(resp)]. *)
Definition json_extractData (new_Date : jsnum + jsstr → jsval) (base64_Buffer : jsval → jsval) (protocol : jsstr)
    (table : shape_id → shape) (convertResponseTypes : jsval) (output : shape) (r : request) : request * option aws_error :=
  let body := match body_text r with [] => js "{}" | b => b end in
  match (if bool_decide (convertResponseTypes = JBool false)
         then match JSON_parse body with Some v => Ok v | None => Throw syntax_error end
         else json_parse new_Date base64_Buffer protocol table body output) with
  | Ok v => (r {{ resp -> data := v }}, None)
  | Throw e => (r, Some (raised e))
  end.

(** ** Data to JSON and back *)

Section roundtrip.
Context (Date_parse : jsval → option Z) (Buffer_from : jsval → option (list Z)).
Context (new_Date : jsnum + jsstr → jsval) (base64_Buffer : jsval → jsval).
Context (protocol : jsstr) (table : shape_id → shape).

(** A structure whose members are in the body, under names that differ. *)
Record json_structure (s : shape) : Prop := {
  js_type : s_type s = Some (js "structure");
  js_keys : NoDup (s_members s).*1;
  js_body : ∀ k id, (k, id) ∈ s_members s →
    is_str (js "body") (s_location (table id)) = true ∧
    Forall unit_ok (location_name (table id) k) ∧ array_index (location_name (table id) k) = None;
  js_names : ∀ k k' id id', (k, id) ∈ s_members s → (k', id') ∈ s_members s →
    location_name (table id) k = location_name (table id') k' → k = k';
}.

(** The values that come back as they are: texts, integers, booleans, and lists,
    maps and structures of them. *)
Inductive json_fits : shape → jsval → Prop :=
| json_fits_string s x :
    s_type s = Some (js "string") → s_isJsonValue s = false → Forall unit_ok x → json_fits s (JStr x)
| json_fits_integer s m e : s_type s = Some (js "integer") → int_ok m e → json_fits s (JNum (NumDec m e))
| json_fits_boolean s b : s_type s = Some (js "boolean") → json_fits s (JBool b)
| json_fits_list s l : s_type s = Some (js "list") → (∀ x, x ∈ l → json_fits (table (s_member s)) x) → json_fits s (JArr l)
| json_fits_map s o :
    s_type s = Some (js "map") → NoDup o.*1 → (∀ key x, (key, x) ∈ o → Forall unit_ok key ∧ array_index key = None) →
    (∀ key x, (key, x) ∈ o → json_fits (table (s_value s)) x) → json_fits s (JObj o)
| json_fits_structure s o :
    json_structure s → own_props o = o → o.*1 `sublist_of` (own_props (s_members s)).*1 →
    (∀ k x id, (k, x) ∈ o → (k, id) ∈ s_members s → json_fits (table id) x) → json_fits s (JObj o).

(** The value [v] of shape [s] is written as [t], and read back. *)
Record json_written (s : shape) (v t : jsval) : Prop := {
  jw_given : nullish v = false;
  jw_built : ∀ fuel, (depth v < fuel)%nat → translate Date_parse Buffer_from table fuel s v = Some t;
  jw_ok : json_ok t;
  jw_read : ∀ fuel, (depth t < fuel)%nat → read new_Date base64_Buffer protocol table fuel s t = Ok v;
}.

Lemma json_ok_defined t : json_ok t → t ≠ JUndef.
Proof. by destruct 1. Qed.

Lemma json_scalar s v :
  has_type s (js "structure") = false → has_type s (js "map") = false → has_type s (js "list") = false →
  nullish v = false → depth v = 0%nat → wire_value Date_parse Buffer_from s v = Some v → json_ok v →
  toType new_Date base64_Buffer protocol s v = Ok v → json_written s v v.
Proof.
  intros H1 H2 H3 Hn Hd Hw Hok Ht. split; [done| |done|]; intros [|fuel] Hf; try lia.
  - cbn [translate]. by rewrite Hn, H1, H2, H3.
  - cbn [read]. rewrite H1, H2, H3. by destruct v.
Qed.

Lemma fold_each_adds {A B} (f : A → list B → option (list B)) (l : list A) (out ys : list B) :
  Forall2 (λ x y, ∀ out, f x out = Some (out ++ [y])) l ys → fold_each f l out = Some (out ++ ys).
Proof.
  intros H. revert out. induction H as [|x y l ys Hx _ IH]; intros out; cbn [fold_each]; [by rewrite app_nil_r|].
  rewrite Hx. cbn [mbind option_bind]. by rewrite IH, <-app_assoc.
Qed.

Lemma fold_each_sets {A B} (f : A → list (jsstr * B) → option (list (jsstr * B))) (l : list A) (o out : list (jsstr * B)) :
  NoDup (out.*1 ++ o.*1) → Forall2 (λ x kv, ∀ out, f x out = Some (obj_set kv.1 kv.2 out)) l o →
  fold_each f l out = Some (out ++ o).
Proof.
  intros Hnd H. revert out Hnd. induction H as [|x [k v] l o Hx _ IH]; intros out Hnd; cbn [fold_each fmap list_fmap fst snd] in *.
  { by rewrite app_nil_r. }
  rewrite Hx. cbn [mbind option_bind fst snd]. rewrite obj_set_fresh.
  - rewrite (IH (out ++ [(k, v)])); [by rewrite <-app_assoc|]. by rewrite fmap_app, <-app_assoc.
  - apply NoDup_app in Hnd as (_ & H2 & _). intros Hin. apply (H2 k Hin). left.
Qed.

Lemma json_list s l :
  s_type s = Some (js "list") → (∀ x, x ∈ l → ∃ t, json_written (table (s_member s)) x t) → ∃ t, json_written s (JArr l) t.
Proof.
  intros Ht Hl. apply Forall2_choice in Hl as [ts Hts]. exists (JArr ts). split; [done|..].
  - intros [|fuel] Hf; [lia|]. cbn [translate nullish]. typed Ht. unfold translateList. cbn [entries]. rewrite imap_values.
    rewrite (fold_each_adds _ l [] ts); [done|].
    apply Forall2_same_length_lookup_2; [by apply Forall2_length in Hts|]. intros i x t Hx Hti out.
    destruct (Forall2_lookup_lr _ _ _ _ _ _ Hts Hx Hti) as [_ Hb Hok _]. apply list_elem_of_lookup_2, depth_in_array in Hx.
    rewrite Hb by lia. cbn [mbind option_bind]. by destruct Hok.
  - constructor. apply Forall_lookup_2. intros i t Hti. by destruct (Forall2_lookup_r _ _ _ _ _ Hts Hti) as (x & _ & []).
  - intros [|fuel] Hf; [lia|]. cbn [read]. typed Ht. unfold readList. cbn [nullish entries]. rewrite imap_values.
    rewrite (each_item_ok _ ts l); [done|]. apply Forall2_flip.
    apply Forall2_same_length_lookup_2; [by apply Forall2_length in Hts|]. intros i x t Hx Hti.
    destruct (Forall2_lookup_lr _ _ _ _ _ _ Hts Hx Hti) as [Hn _ _ Hr]. apply list_elem_of_lookup_2, depth_in_array in Hti.
    rewrite Hr by lia. cbn [rbind]. by destruct x.
Qed.

Lemma json_map s o :
  s_type s = Some (js "map") → NoDup o.*1 → (∀ key x, (key, x) ∈ o → Forall unit_ok key ∧ array_index key = None) →
  (∀ key x, (key, x) ∈ o → ∃ t, json_written (table (s_value s)) x t) → ∃ t, json_written s (JObj o) t.
Proof.
  intros Ht Hnd Hkeys Hl.
  assert (Hown : ∀ o' : jsobj, o'.*1 = o.*1 → own_props o' = o').
  { intros o' Ho'. assert (H : Forall (λ k, array_index k = None) o'.*1); [|by apply own_props_names; apply Forall_fmap in H].
    rewrite Ho'. apply Forall_fmap, Forall_forall. intros [k x] Hin. by destruct (Hkeys k x Hin). }
  destruct (Forall2_choice (λ (kv kt : jsstr * jsval), kv ∈ o ∧ kt.1 = kv.1 ∧ json_written (table (s_value s)) kv.2 kt.2) o) as [ts Hts].
  { intros [k x] Hin. destruct (Hl k x Hin) as [t Hw]. by exists (k, t). }
  assert (Hnames : ts.*1 = o.*1).
  { clear -Hts. induction Hts as [|kv kt l ts (_ & Hk & _) _ IH]; [done|]. cbn [fmap list_fmap]. by rewrite Hk, IH. }
  exists (JObj ts). split; [done|..].
  - intros [|fuel] Hf; [lia|]. cbn [translate nullish]. typed Ht. unfold translateMap. cbn [entries]. rewrite Hown by done.
    rewrite (fold_each_sets _ o ts []); [done|by rewrite Hnames|].
    eapply Forall2_impl; [exact Hts|]. intros [k x] [k' t] (Hin & Hk & [_ Hb Hok _]) out. cbn [fst snd] in *. subst k'.
    apply depth_in_object in Hin. rewrite Hb by lia. cbn [mbind option_bind]. by destruct Hok.
  - constructor; [by rewrite Hnames|]. apply Forall_lookup_2. intros i [k t] Hti.
    destruct (Forall2_lookup_r _ _ _ _ _ Hts Hti) as ([k' x] & _ & Hin & Hk & [_ _ Hok _]). cbn [fst snd] in *. subst k'.
    destruct (Hkeys k x Hin). by split_and!.
  - intros [|fuel] Hf; [lia|]. cbn [read]. typed Ht. unfold readMap. cbn [nullish entries]. rewrite (Hown ts) by done.
    rewrite (each_data_entries _ ts o []); [done|done|]. apply Forall2_flip.
    apply Forall2_same_length_lookup_2; [by apply Forall2_length in Hts|]. intros i [k x] [k' t] Hx Hti out.
    destruct (Forall2_lookup_lr _ _ _ _ _ _ Hts Hx Hti) as (_ & Hk & [Hn _ _ Hr]). cbn [fst snd] in *. subst k'.
    apply list_elem_of_lookup_2, depth_in_object in Hti. rewrite Hr by lia. cbn [rbind]. by destruct x.
Qed.

(** *** Structures *)

Section structures.
Context (s : shape) (o : jsobj) (Hs : json_structure s) (Hown : own_props o = o).
Context (Ho : o.*1 `sublist_of` (own_props (s_members s)).*1).
Context (T : jsstr → jsval) (HT : ∀ k x id, (k, x) ∈ o → (k, id) ∈ s_members s → json_written (table id) x (T k)).

Definition body_name (k : jsstr) : jsstr :=
  match obj_get k (s_members s) with Some m => location_name (table m) k | None => k end.
Definition body_object : jsobj := (λ kv, (body_name kv.1, T kv.1)) <$> o.

Lemma body_member k : k ∈ o.*1 → ∃ m, (k, m) ∈ s_members s ∧ obj_get k (s_members s) = Some m ∧ body_name k = location_name (table m) k.
Proof.
  intros Hk. assert (Hin : k ∈ (s_members s).*1).
  { rewrite <-own_members_keys. eapply elem_of_submseteq; [exact Hk|by apply sublist_submseteq]. }
  apply obj_get_elem in Hin as [m Hm]. exists m. unfold body_name. rewrite Hm. split_and!; [by apply elem_of_obj_get|done..].
Qed.

Lemma body_name_of k m : (k, m) ∈ s_members s → body_name k = location_name (table m) k.
Proof. intros Hm. unfold body_name. by rewrite (proj2 (obj_get_elem_of k m _ (js_keys s Hs)) Hm). Qed.

Lemma body_keys : NoDup o.*1.
Proof. eapply sublist_NoDup; [|exact Ho]. rewrite own_members_keys. apply Hs. Qed.

Lemma body_object_keys : body_object.*1 = body_name <$> o.*1.
Proof. unfold body_object. by rewrite <-!list_fmap_compose. Qed.

Lemma body_names : NoDup body_object.*1.
Proof.
  rewrite body_object_keys. apply NoDup_fmap_2_strong; [|apply body_keys].
  intros k k' (m & Hm & _ & ->)%body_member (m' & Hm' & _ & ->)%body_member. by apply (js_names s Hs).
Qed.

Lemma body_read k m : (k, m) ∈ s_members s →
  obj_get (location_name (table m) k) body_object = if decide (k ∈ o.*1) then Some (T k) else None.
Proof.
  intros Hm. rewrite <-(body_name_of k m Hm). case_decide as Hk.
  - apply obj_get_elem_of; [apply body_names|]. apply list_elem_of_fmap_1 in Hk as ([k' x] & -> & Hin).
    by apply (list_elem_of_fmap_2 (λ kv : jsstr * jsval, (body_name kv.1, T kv.1))) in Hin.
  - apply eq_None_not_Some. rewrite obj_get_elem, body_object_keys. intros (k' & He & Hk')%list_elem_of_fmap_1. apply Hk.
    destruct (body_member k' Hk') as (m' & Hm' & _ & Hn'). rewrite (body_name_of k m Hm), Hn' in He.
    by rewrite (js_names s Hs k k' m m' Hm Hm' He).
Qed.

Lemma json_structure_written : json_written s (JObj o) (JObj body_object).
Proof.
  split; [done|..].
  - intros [|fuel] Hf; [lia|]. cbn [translate nullish]. typed (js_type s Hs). unfold translateStructure. cbn [entries]. rewrite Hown.
    rewrite (fold_each_sets _ o body_object []); [done|apply body_names|].
    apply Forall2_fmap_r, Forall_Forall2_diag, Forall_forall. intros [k x] Hin out. cbn [fst snd].
    destruct (body_member k) as (m & Hm & Hg & Hn); [by apply (list_elem_of_fmap_2 fst) in Hin|].
    destruct (HT k x m Hin Hm) as [_ Hb Hok _]. apply depth_in_object in Hin.
    unfold translate_member, member_shape. cbn [fst snd]. rewrite Hg. destruct (js_body s Hs k m Hm) as (Hbody & _). rewrite Hbody. cbn [negb].
    rewrite Hb by lia. cbn [mbind option_bind]. rewrite Hn. by destruct Hok.
  - constructor; [apply body_names|]. apply Forall_fmap, Forall_forall. intros [k x] Hin. cbn [compose fst snd].
    destruct (body_member k) as (m & Hm & Hg & Hn); [by apply (list_elem_of_fmap_2 fst) in Hin|].
    destruct (HT k x m Hin Hm) as [_ _ Hok _]. destruct (js_body s Hs k m Hm) as (_ & Hu & Hi). rewrite Hn. by split_and!.
  - intros [|fuel] Hf; [lia|]. cbn [read]. typed (js_type s Hs). unfold readStructure. cbn [nullish].
    rewrite (each_data_sublist _ (own_props (s_members s)) o []); [done| |done|].
    { rewrite own_members_keys. apply Hs. }
    intros k m d Hm. rewrite own_props_perm in Hm. unfold read_member. cbn [fst snd own_property]. rewrite body_read by done.
    case_decide as Hk.
    + apply obj_get_elem in Hk as [x Hx]. rewrite Hx. apply elem_of_obj_get in Hx.
      destruct (HT k x m Hx Hm) as [Hn _ _ Hr].
      assert (Hd : (body_name k, T k) ∈ body_object)
        by (by apply (list_elem_of_fmap_2 (λ kv : jsstr * jsval, (body_name kv.1, T kv.1))) in Hx).
      apply depth_in_object in Hd. rewrite Hr by lia. cbn [rbind]. by destruct x.
    + by rewrite (proj2 (eq_None_not_Some (obj_get k o))) by (by rewrite obj_get_elem).
Qed.
End structures.

Lemma json_fits_written s v : json_fits s v → ∃ t, json_written s v t.
Proof.
  induction 1 as [s x Ht Hj Hx|s m e Ht Hok|s b Ht|s l Ht _ IH|s o Ht Hnd Hkeys _ IH|s o Hs Hown Ho _ IH].
  - exists (JStr x). apply json_scalar; unfold has_type, wire_value, toType, type_string; rewrite ?Ht, ?Hj; try done; [by constructor|].
    change (Ok (if truthy (if bool_decide (protocol ∈ [js "rest-xml"; js "query"; js "ec2"]) then js_or (JStr x) (JStr []) else JStr x)
                then JStr (to_string (if bool_decide (protocol ∈ [js "rest-xml"; js "query"; js "ec2"]) then js_or (JStr x) (JStr []) else JStr x))
                else (if bool_decide (protocol ∈ [js "rest-xml"; js "query"; js "ec2"]) then js_or (JStr x) (JStr []) else JStr x)) = Ok (E := jserror) (JStr x)).
    destruct x; by destruct (bool_decide _).
  - exists (JNum (NumDec m e)). pose proof (parseInt_num m e Hok) as Hp.
    apply json_scalar; unfold has_type, wire_value, toType; rewrite ?Ht; try done; [|by constructor|].
    + change (Some (JNum (parseInt (num_to_str (NumDec m e)))) = Some (JNum (NumDec m e))). by rewrite Hp.
    + change (Ok (JNum (parseInt (num_to_str (NumDec m e)))) = Ok (E := jserror) (JNum (NumDec m e))). by rewrite Hp.
  - exists (JBool b). apply json_scalar; unfold has_type, wire_value, toType; rewrite ?Ht; try done. constructor.
  - by apply json_list.
  - by apply json_map.
  - destruct (keyed_choice (λ k x t, ∀ id, (k, id) ∈ s_members s → json_written (table id) x t) JNull o) as [T HT].
    { by eapply body_keys. }
    { intros k x Hx. destruct (body_member s o Ho k) as (m & Hm & _); [by apply (list_elem_of_fmap_2 fst) in Hx|].
      destruct (IH k x m Hx Hm) as [t Hw]. exists t. intros m' Hm'. pose proof (js_keys s Hs) as Hnd.
      apply (obj_get_elem_of k m _ Hnd) in Hm. apply (obj_get_elem_of k m' _ Hnd) in Hm'. by simplify_eq. }
    exists (JObj (body_object s o T)). apply json_structure_written; [done..|]. eauto.
Qed.

(** C29. Parameters of the JSON protocol survive: a value that fits its shape is
    built into a text without an exception, and the text is parsed, by the same
    shape, as the same value. *)
Theorem json_protocol_roundtrip (s : shape) (v : jsval) :
  json_fits s v →
  ∃ text, json_build Date_parse Buffer_from table v s = Some (JStr text) ∧
          json_parse new_Date base64_Buffer protocol table text s = Ok v.
Proof.
  intros [t [_ Hb Hok Hr]]%json_fits_written. destruct (JSON_roundtrip t Hok) as (text & Hs & Hp).
  exists text. unfold json_build, json_parse. rewrite Hb by lia. cbn [mbind option_bind]. rewrite Hs, Hp. split; [done|]. apply Hr. lia.
Qed.

End roundtrip.

(** ** Errors *)

Lemma behind_last c a b : c ∉ b → behind c (a ++ [c] ++ b) = b.
Proof. intros Hb. unfold behind. change ([c] ++ b) with (c :: b). by rewrite split_on_middle, (split_on_absent c b Hb), last_snoc. Qed.

(** The error of a JSON body: the code is what follows the name space of
    [__type], the message is that of the body; and whatever the body, a response
    with a status has an error. *)
Lemma json_error_read (r : request) (bytes : list Z) (o : jsobj) (namespace code message : jsstr) :
  hs_body (httpResponse (resp r)) = Some bytes → bytes ≠ [] → JSON_parse (utf8_decode bytes) = Some (JObj o) →
  obj_prop o (js "__type") = JStr (namespace ++ [35] ++ code) → obj_prop o (js "message") = JStr message →
  35 ∉ code → code ≠ [] → code ≠ js "RequestEntityTooLarge" → message ≠ [] →
  ∃ r' e, json_extractError r = (r', None) ∧ get_error r' = Some e ∧
          err_get e (js "code") = JStr code ∧ err_get e (js "message") = JStr message.
Proof.
  intros Hb Hne Hp Ht Hm Hc Hc0 Hc1 Hm0.
  assert (Hbody : body_error (header_code (hs_headers (httpResponse (resp r)))) (utf8_decode bytes) = Some (JStr code, JStr message)).
  { unfold body_error. rewrite Hp. cbn [mbind option_bind nullish child]. rewrite Ht, Hm.
    assert (Htrue : truthy (JStr (namespace ++ [35] ++ code)) = true) by (by destruct namespace).
    assert (Hor : ∀ x, js_or (JStr (namespace ++ [35] ++ code)) x = JStr (namespace ++ [35] ++ code)) by (intros x; unfold js_or; by rewrite Htrue).
    rewrite !Hor, Htrue. cbn [mbind option_bind]. rewrite behind_last by done.
    unfold is_str. rewrite (proj2 (str_eqb_neq (js "RequestEntityTooLarge") code)) by congruence.
    unfold js_or. destruct message; [done|]. reflexivity. }
  unfold json_extractError. rewrite Hb. cbn [default id]. destruct bytes as [|b0 bytes]; [done|]. rewrite Hbody.
  destruct code as [|c code]; [done|]. destruct message as [|m message]; [done|].
  do 2 eexists. split; [reflexivity|]. split; [reflexivity|]. split; reflexivity.
Qed.

Lemma json_failed_response (r : request) (n : Z) :
  hs_statusCode (httpResponse (resp r)) = Some n → ∃ r' e, json_extractError r = (r', None) ∧ get_error r' = Some e.
Proof.
  intros Hn. unfold json_extractError. rewrite Hn. destruct (default [] _) as [|b body].
  - do 2 eexists. by split.
  - destruct (body_error _ _) as [[code message]|]; do 2 eexists; by split.
Qed.

(** ** Example *)

(** A structure with a renamed text, a list of integers and a map of booleans. *)
Definition json_table (id : shape_id) : shape :=
  let plain type name location :=
    MkShape (Some (js type)) [] [] ([], js "Number") no_shape ([], js "Flag") None None None None (JStr (js "body"))
      false (js name) false false [] false (XmlTraits false [] [] [] [] location) in
  if str_eqb id.2 (js "Name") then plain "string" "name" true
  else if str_eqb id.2 (js "Numbers") then plain "list" "Numbers" false
  else if str_eqb id.2 (js "Number") then plain "integer" "" false
  else if str_eqb id.2 (js "Flags") then plain "map" "Flags" false
  else if str_eqb id.2 (js "Flag") then plain "boolean" "" false
  else MkShape (Some (js "structure")) []
         [(js "Name", ([], js "Name")); (js "Numbers", ([], js "Numbers")); (js "Flags", ([], js "Flags"))]
         no_shape no_shape no_shape None None None None JUndef false [] false false [] false no_xml.
Definition json_data : jsobj :=
  [(js "Name", JStr (js "a b")); (js "Numbers", JArr [JNum (num_of_Z 1); JNum (num_of_Z (-20))]);
   (js "Flags", JObj [(js "on", JBool true)])].

Lemma json_table_structure : json_structure json_table (json_table no_shape).
Proof.
  split; [done|js_decide|..].
  - intros k id Hin. members Hin; (split; [reflexivity|split; [js_decide|reflexivity]]).
  - intros k k' id id' Hin Hin'. members Hin; members Hin'; first [done|by intros H; vm_compute in H].
Qed.

Lemma json_protocol_roundtrip_witness :
  ∃ text, json_build (λ _, None) (λ _, None) json_table (JObj json_data) (json_table no_shape) = Some (JStr text) ∧
          json_parse (λ _, JUndef) (λ v, v) (js "json") json_table text (json_table no_shape) = Ok (JObj json_data).
Proof.
  apply (json_protocol_roundtrip (λ _, None) (λ _, None) (λ _, JUndef) (λ v, v) (js "json") json_table (json_table no_shape) (JObj json_data)).
  apply json_fits_structure; [apply json_table_structure|reflexivity|reflexivity|].
  intros k x id Hx Hid. apply (obj_get_elem_of k id) in Hid; [|apply json_table_structure].
  members Hx; vm_compute in Hid; injection Hid as <-.
  - apply json_fits_string; [done..|js_decide].
  - apply json_fits_list; [done|]. intros x Hx. repeat (apply elem_of_cons in Hx as [->|Hx]); [..|by apply elem_of_nil in Hx];
    (apply json_fits_integer; [done|js_decide]).
  - apply json_fits_map; [done|js_decide|..].
    + intros key x Hx. members Hx. split; [js_decide|reflexivity].
    + intros key x Hx. members Hx. by apply json_fits_boolean.
Defined.
