(* ===== verification/RestProtocol.v ===== *)
(** * The REST protocols

    [populateURI], [populateHeaders], [buildRequest] and [extractData] of the REST
    protocol (dist/index.js 18207-18357) and, on top of it, the bodies of the
    protocols rest-json (18362-18463) and rest-xml (18468-18578).

    Names of members are literal in the regular expressions built from them.
    Bodies are text: a payload that is a Buffer or a stream, and a body that is
    undefined, are left out. *)

From stdpp Require Import base gmap strings list sorting.
From Stdlib Require Import ZArith Lia.
From coqutil Require Import Datatypes.RecordSetters.
From S2P Require Import Prelude JsValue Json JsText UriUtil Buffers JsDate AwsError Http RequestListeners SignersLegacy ParamValidator HostPrefix SignerV4 QuerySerializer XmlParser XmlBuilder XmlRoundtrip QueryResponse JsonProtocol.

Import DoubleBraceUpdate.
Local Open Scope Z_scope.

(** ** URIs *)

(** [uri.replace(/\/+/g, '/')]; [slash]: the unit before is a slash. *)
Fixpoint single_slashes (slash : bool) (s : jsstr) : jsstr :=
  match s with
  | [] => []
  | c :: s => if Z.eqb c 47 then if slash then single_slashes true s else c :: single_slashes true s
              else c :: single_slashes false s
  end.

(** [uri.replace(new RegExp('\\{' + name + '(\\+)?\\}'), ...)]: the first label of
    the name, with a plus or without, becomes the escaped value. *)
Fixpoint replace_label (name value uri : jsstr) : option jsstr :=
  let plain := js "{" ++ name ++ js "}" in
  let greedy := js "{" ++ name ++ js "+}" in
  if starts_with plain uri then (λ v, v ++ drop (length plain) uri) <$> uriEscape value
  else if starts_with greedy uri then (λ v, v ++ drop (length greedy) uri) <$> uriEscapePath value
  else match uri with
       | [] => Some []
       | c :: uri => cons c <$> replace_label name value uri
       end.

Section rest.
Context (Date_parse : jsval → option Z).   (* [new Date(v)] of a value that is not a number *)
Context (Buffer_from : jsval → option (list Z)).   (* [Buffer.from(v)] of a value that is not text *)
Context (table : shape_id → shape).

(** [shape.toWireFormat(value).toString()] of any value; [None]: it throws. *)
Definition wire_text (s : shape) (v : jsval) : option jsstr :=
  w ← wire_value Date_parse Buffer_from s v;
  if nullish w then None else Some (to_string w).

(** The query string: each name has the values it is given, escaped. *)
Abbreviation query := (list (jsstr * list jsstr)).

Definition query_member (m : shape) (paramValue : jsval) (q : query) : option query :=
  if has_type m (js "list") then
    match paramValue with
    | JArr l => vals ← mapM (λ v, t ← wire_text (table (s_member m)) v; uriEscape t) l; Some (obj_set (s_name m) vals q)
    | _ => None
    end
  else if has_type m (js "map") then
    fold_each (λ kv q, vals ← mapM (λ v, uriEscape (to_string v)) (match kv.2 with JArr l => l | v => [v] end);
                       Some (obj_set kv.1 vals q)) (entries paramValue) q
  else t ← wire_text m paramValue; v ← uriEscape t; Some (obj_set (s_name m) [v] q).

(** One member: the URI, the query string and whether there is one. *)
Definition uri_member (params : jsval) (m : jsstr * shape_id) (st : jsstr * query * bool) : option (jsstr * query * bool) :=
  let '(uri, q, isSet) := st in
  let member := table m.2 in
  let paramValue := js_prop params m.1 in
  if nullish paramValue then Some st
  else if is_str (js "uri") (s_location member) then
    uri ← replace_label (s_name member) (to_string paramValue) uri; Some (uri, q, isSet)
  else if is_str (js "querystring") (s_location member) then
    q ← query_member member paramValue q; Some (uri, q, true)
  else Some st.

(** [Object.keys(queryString).sort()] with the values of each key. *)
Definition query_text (q : query) : option jsstr :=
  (λ parts, join (js "&") (concat parts)) <$>
  mapM (λ key, k ← uriEscape key; Some ((λ v, k ++ js "=" ++ v) <$> default [] (obj_get key q))) (sort_strings q.*1).

Definition generateURI (endpointPath operationPath : jsstr) (input : shape) (params : jsval) : option jsstr :=
  match fold_each (uri_member params) (own_props (s_members input))
          (single_slashes false (endpointPath ++ js "/" ++ operationPath), [], false) with
  | None => None
  | Some (uri, _, false) => Some uri
  | Some (uri, q, true) => t ← query_text q; Some (uri ++ (if bool_decide (63 ∈ uri) then js "&" else js "?") ++ t)
  end.

(** ** Headers *)

Definition header_member (params : jsval) (m : jsstr * shape_id) (headers : jsobj) : option jsobj :=
  let member := table m.2 in
  let value := js_prop params m.1 in
  if nullish value then Some headers
  else if is_str (js "headers") (s_location member) && has_type member (js "map") then
    Some (foldl (λ h (kv : jsstr * jsval), obj_set (s_name member ++ kv.1) kv.2 h) headers (entries value))
  else if is_str (js "header") (s_location member) then
    t ← wire_text member value;
    Some (obj_set (s_name member) (JStr (if s_isJsonValue member then base64_bytes (utf8 t) else t)) headers)
  else Some headers.

Definition populateHeaders (input : shape) (params : jsval) (headers : jsobj) : option jsobj :=
  fold_each (header_member params) (own_props (s_members input)) headers.

(** ** [buildRequest] *)

(** What the listener reads of the operation, besides [operation]. *)
Record rest_operation := RestOperation {
  ro_model : operation;
  httpMethod : jsstr;
  httpPath : jsstr;
  input_payload : jsstr;   (* empty when there is none *)
  output_payload : jsstr;
  input_shape : jsstr;
}.

(** [Throw None] is an exception of the language. *)
Definition rest_buildRequest (now : Z) (hostPrefixEnabled : bool) (endpointOperation : jsstr) (op : rest_operation)
    (params : jsval) (input : shape) (hr : http_request) : result (option aws_error) http_request :=
  match generateURI (default [] (ep_path (hr_endpoint hr))) (httpPath op) input params,
        populateHeaders input params (hr_headers hr) with
  | Some uri, Some headers =>
    match populateHostPrefix now table hostPrefixEnabled endpointOperation (ro_model op) params input (hr_endpoint hr) with
    | Throw e => Throw (Some e)
    | Ok e => Ok (HttpRequest (httpMethod op) uri headers (hr_body hr) e (hr_region hr) (_userAgent hr))
    end
  | _, _ => Throw None
  end.

Definition set_body (body : jsstr) (hr : http_request) : http_request :=
  HttpRequest (hr_method hr) (hr_path hr) (hr_headers hr) body (hr_endpoint hr) (hr_region hr) (_userAgent hr).

(** *** rest-json *)

Definition applyContentTypeHeader (isBinary : bool) (hr : http_request) : http_request :=
  if truthy (obj_prop (hr_headers hr) (js "Content-Type")) then hr
  else set_header (js "Content-Type") (JStr (js (if isBinary then "binary/octet-stream" else "application/json"))) hr.

Definition json_populateBody (isStreaming : shape → bool) (payload : jsstr) (params : jsval) (input : shape) (hr : http_request) :
    result (option aws_error) http_request :=
  match payload with
  | [] =>
    match json_build Date_parse Buffer_from table params input with
    | Some (JStr body) =>
      Ok (applyContentTypeHeader false
            (if negb (str_eqb body (js "{}")) || negb (str_eqb (hr_method hr) (js "GET")) then set_body body hr else hr))
    | _ => Throw None
    end
  | _ =>
    match js_prop params payload, member_shape table input payload with
    | JUndef, _ => Ok hr
    | _, None => Throw None
    | value, Some m =>
      if has_type m (js "structure") then
        match json_build Date_parse Buffer_from table value m with
        | Some (JStr body) => Ok (applyContentTypeHeader false (set_body body hr))
        | _ => Throw None
        end
      else
        match value with
        | JStr body =>
          Ok ((if has_type m (js "binary") || isStreaming m then applyContentTypeHeader true else λ hr, hr) (set_body body hr))
        | _ => Throw None
        end
    end
  end.

Definition rest_json_buildRequest (isStreaming : shape → bool) (now : Z) (hostPrefixEnabled : bool) (endpointOperation : jsstr)
    (op : rest_operation) (params : jsval) (input : shape) (hr : http_request) : result (option aws_error) http_request :=
  let* hr := rest_buildRequest now hostPrefixEnabled endpointOperation op params input hr in
  if bool_decide (hr_method hr ∈ [js "HEAD"; js "DELETE"]) then Ok hr
  else json_populateBody isStreaming (input_payload op) params input hr.

(** *** rest-xml *)

Context (xmlNamespaceUri : jsstr).   (* [api.xmlNamespaceUri] *)

Definition upperFirst (s : jsstr) : jsstr := match s with c :: s => to_upper_unit c :: s | [] => [] end.

Definition xml_populateBody (operation_name : jsstr) (op : rest_operation) (params : jsval) (input : shape) (hr : http_request) :
    result (option aws_error) http_request :=
  let toXML v s root noEmpty :=
    match toXML Date_parse Buffer_from xmlNamespaceUri table (S (depth v)) v s root noEmpty with
    | Some body => Ok (set_body body hr)
    | None => Throw None
    end in
  match input_payload op with
  | [] =>
    let root := match s_name input, input_shape op with
                | [], [] => upperFirst operation_name ++ js "Request"
                | [], n => n
                | n, _ => n
                end in
    toXML params input root false
  | payload =>
    match js_prop params payload, member_shape table input payload with
    | JUndef, _ => Ok hr
    | _, None => Throw None
    | value, Some m =>
      if has_type m (js "structure") then toXML value m (s_name m) true
      else match value with JStr body => Ok (set_body body hr) | _ => Throw None end
    end
  end.

Definition rest_xml_buildRequest (now : Z) (hostPrefixEnabled : bool) (endpointOperation operation_name : jsstr)
    (op : rest_operation) (params : jsval) (input : shape) (hr : http_request) : result (option aws_error) http_request :=
  let* hr := rest_buildRequest now hostPrefixEnabled endpointOperation op params input hr in
  if bool_decide (hr_method hr ∈ [js "GET"; js "HEAD"]) then Ok hr
  else xml_populateBody operation_name op params input hr.

End rest.

(** ** Responses *)

Definition line_terminator (c : Z) : bool := bool_decide (c ∈ [10; 13; 8232; 8233]).
Fixpoint to_line_end (s : jsstr) : jsstr :=
  match s with c :: s => if line_terminator c then [] else c :: to_line_end s | [] => [] end.

(** The group of [k.match(new RegExp('^' + location + '(.+)', 'i'))]. *)
Definition match_header (location k : jsstr) : option jsstr :=
  let n := length location in
  if str_eqb (to_lower (take n k)) (to_lower location)
  then match to_line_end (drop n k) with [] => None | rest => Some rest end
  else None.

Section response.
Context (new_Date : jsnum + jsstr → jsval) (base64_Buffer : jsval → jsval) (buffer_value : list Z → jsval).
Context (protocol : jsstr) (xmlNoDefaultLists : bool) (table : shape_id → shape).
Context (isStreaming isEventStream : shape → bool).

(** One member of [extractData]: [headers] has lower-case names. *)
Definition header_data (r : http_response) (headers : jsobj) (m : jsstr * shape_id) (data : jsobj) : result jserror jsobj :=
  let '(name, member) := (m.1, table m.2) in
  let header := to_lower (match s_name member with [] => name | n => n end) in
  if is_str (js "headers") (s_location member) && has_type member (js "map") then
    let location := if x_isLocationName (s_xml member) then s_name member else [] in
    Ok (obj_set name (JObj (foldl (λ d (kv : jsstr * jsval), match match_header location kv.1 with
                                                       | Some k => obj_set k kv.2 d
                                                       | None => d
                                                       end) [] (own_props (hs_headers r)))) data)
  else if is_str (js "header") (s_location member) then
    match obj_prop headers header with
    | JUndef => Ok data
    | v =>
      let* v := (if s_isJsonValue member then base64_decode base64_Buffer v else Ok v) in
      let* x := toType new_Date base64_Buffer protocol member v in
      Ok (obj_set name x data)
    end
  else if is_str (js "statusCode") (s_location member) then
    Ok (obj_set name (JNum (match hs_statusCode r with Some n => num_of_Z n | None => NumNaN end)) data)
  else Ok data.

Definition rest_data (r : http_response) (output : shape) : result jserror jsobj :=
  let headers := foldl (λ h (kv : jsstr * jsval), obj_set (to_lower kv.1) kv.2 h) [] (own_props (hs_headers r)) in
  each_data (header_data r headers) (own_props (s_members output)) [].

(** What a listener comes to: the request and the exception it throws; nothing
    for a response outside the model. *)
Abbreviation listened := (option (request * option aws_error)).

Definition set_data (o : jsobj) (r : request) : request := r {{ resp -> data := JObj o }}.
Definition body_bytes (r : request) : list Z := default [] (hs_body (httpResponse (resp r))).

(** [resp.data[payload] = v]. *)
Definition set_payload (payload : jsstr) (o : jsobj) (r : request) (v : result jserror jsval) : listened :=
  match v with
  | Ok v => Some (set_data (obj_set payload v o) r, None)
  | Throw e => Some (set_data o r, Some (raised e))
  end.

(** A payload that is neither parsed nor kept: a text. *)
Definition scalar_payload (payload : jsstr) (o : jsobj) (r : request) (m : shape) : listened :=
  if has_type m (js "binary") || isStreaming m then set_payload payload o r (Ok (buffer_value (body_bytes r)))
  else if has_type m (js "string") then set_payload payload o r (type_string protocol m (JStr (body_text r)))
  else None.

(** [extractData] of rest-json.  The event stream is stored under a variable that
    is not declared. *)
Definition rest_json_extractData (convertResponseTypes : jsval) (output : shape) (payload : jsstr) (r : request) : listened :=
  match rest_data (httpResponse (resp r)) output with
  | Throw e => Some (r, Some (raised e))
  | Ok o =>
    match payload with
    | [] =>
      let '(r', e) := json_extractData new_Date base64_Buffer protocol table convertResponseTypes output (set_data o r) in
      match e with
      | Some _ => Some (r', e)
      | None => Some (r' {{ resp -> data := JObj (update o (data (resp r'))) }}, None)
      end
    | _ =>
      match member_shape table output payload with
      | None => Some (set_data o r, Some (raised (type_error_of (js "Cannot read properties of undefined (reading 'isEventStream')"))))
      | Some m =>
        if isEventStream m then Some (set_data o r, Some (raised (mk_error (js "ReferenceError") (js "payload is not defined"))))
        else if has_type m (js "structure") || has_type m (js "list")
        then set_payload payload o r (json_parse new_Date base64_Buffer protocol table (body_text r) m)
        else scalar_payload payload o r m
      end
    end
  end.

(** [extractData] of rest-xml; an event stream is outside the model. *)
Definition rest_xml_extractData (output : shape) (payload : jsstr) (r : request) : listened :=
  let read s k :=
    match parse new_Date base64_Buffer protocol xmlNoDefaultLists table (body_text r) s with
    | XmlParser.Data v => k (Ok v)
    | Exception e => k (Throw (raised e))
    | XMLParserError cause => k (Throw (parser_error (clock r) cause))
    | Outside _ => None
    end in
  match rest_data (httpResponse (resp r)) output with
  | Throw e => Some (r, Some (raised e))
  | Ok o =>
    match payload with
    | [] =>
      match body_bytes r with
      | [] => Some (set_data o r, None)
      | _ => read output (λ v, match v with
                               | Ok v => Some (set_data (update o v) r, None)
                               | Throw e => Some (set_data o r, Some e)
                               end)
      end
    | _ =>
      match member_shape table output payload with
      | None => Some (set_data o r, Some (raised (type_error_of (js "Cannot read properties of undefined (reading 'isEventStream')"))))
      | Some m =>
        if isEventStream m then None
        else if has_type m (js "structure") then
          read m (λ v, match v with
                       | Ok v => Some (set_data (obj_set payload v o) r, None)
                       | Throw e => Some (set_data o r, Some e)
                       end)
        else scalar_payload payload o r m
      end
    end
  end.

(** [extractError] of rest-xml. *)
Definition rest_xml_extractError (r : request) : option request :=
  d ← match parse new_Date base64_Buffer protocol xmlNoDefaultLists table (body_text r) bare_shape with
      | Outside _ => None
      | XmlParser.Data v => Some v
      | XMLParserError _ | Exception _ =>
        Some (JObj [(js "Code", statusCode_value r); (js "Message", hs_statusMessage (httpResponse (resp r)))])
      end;
  let d := js_or (child d (js "Errors")) d in
  let d := js_or (child d (js "Error")) d in
  Some (set_error (Some (fresh_error r []
    (if truthy (child d (js "Code"))
     then [(js "code", child d (js "Code")); (js "message", child d (js "Message"))]
     else [(js "code", statusCode_value r); (js "message", JNull)]))) r).

End response.
