(* ===== verification/RestUri.v ===== *)
(** * The URIs of the REST protocols

    [generateURI] (dist/index.js 18217-18269) writes the parameters of an operation
    into the template of its path and into a query string.  This file states what
    a server is to read from such a URI, by a router along the template and a
    reader of the query string, and shows that it reads the parameters.

    A template is a list of literals and labels; a label is closed by a literal
    that starts with a unit its value cannot have. *)

From stdpp Require Import base gmap strings list sorting.
From Stdlib Require Import ZArith Lia Wf_nat.
From S2P Require Import Prelude JsValue Json JsText UriUtil WellFormed ParamValidator HostPrefix QuerySerializer JsonProtocol RestProtocol.

Local Open Scope Z_scope.

(** ** Templates *)

Inductive segment :=
| Literal (s : jsstr)
| Label (name : jsstr) (greedy : bool).   (* [{name}] or [{name+}] *)

Definition segment_text (g : segment) : jsstr :=
  match g with
  | Literal s => s
  | Label n greedy => js "{" ++ n ++ js (if greedy then "+}" else "}")
  end.
Definition template_text (t : list segment) : jsstr := t ≫= segment_text.

Definition label_name (g : segment) : list jsstr := match g with Label n _ => [n] | Literal _ => [] end.
Definition labels (t : list segment) : list jsstr := t ≫= label_name.

(** The units of the value of a label in a URI. *)
Definition label_unit (greedy : bool) (c : Z) : bool := uri_unit c || greedy && Z.eqb c 47.

Definition segment_ok (g : segment) : Prop :=
  match g with
  | Literal s => 123 ∉ s
  | Label n _ => 123 ∉ n ∧ 125 ∉ n ∧ 43 ∉ n
  end.

#[global] Instance segment_ok_dec g : Decision (segment_ok g).
Proof. destruct g; cbn; apply _. Defined.

Fixpoint closed_labels (t : list segment) : Prop :=
  match t with
  | [] => True
  | Label _ g :: t =>
    match t with
    | [] => True
    | Literal (c :: _) :: _ => label_unit g c = false
    | _ => False
    end ∧ closed_labels t
  | Literal _ :: t => closed_labels t
  end.

Record template_ok (t : list segment) : Prop := {
  template_segments : Forall segment_ok t;
  template_labels : NoDup (labels t);
  template_closed : closed_labels t;
}.

(** ** Reading a URI *)

Fixpoint label_run (greedy : bool) (s : jsstr) : jsstr * jsstr :=
  match s with
  | c :: s' => if label_unit greedy c then let '(a, b) := label_run greedy s' in (c :: a, b) else ([], s)
  | [] => ([], [])
  end.

(** The value of a label: the segments of the path it stands for are decoded. *)
Definition label_value (s : jsstr) : option jsstr := join (js "/") <$> mapM decodeURIComponent (split_on 47 s).

(** The values of the labels, and what follows the path. *)
Fixpoint route (t : list segment) (uri : jsstr) : option (list (jsstr * jsstr) * jsstr) :=
  match t with
  | [] => Some ([], uri)
  | Literal s :: t => if starts_with s uri then route t (drop (length s) uri) else None
  | Label n g :: t =>
    let '(text, uri) := label_run g uri in
    v ← label_value text;
    '(vals, rest) ← route t uri;
    Some ((n, v) :: vals, rest)
  end.

(** ** Well-formed pieces *)

Lemma code_points_middle c a b :
  is_surrogate c = false → code_points (a ++ c :: b) = code_points a ++ inl c :: code_points b.
Proof.
  intros [Hh Hl]%orb_false_iff.
  induction a as [a IH] using (induction_ltof1 _ (@length Z)). unfold ltof in IH.
  destruct a as [|x a]; cbn [app code_points]; [by rewrite Hh, Hl|].
  destruct (is_high_surrogate x).
  - destruct a as [|d a]; cbn [app].
    + cbn [code_points]. by rewrite Hh, Hl.
    + destruct (is_low_surrogate d); cbn [app]; f_equal; [apply IH; cbn; lia|apply (IH (d :: a)); cbn; lia].
  - destruct (is_low_surrogate x); cbn [app]; f_equal; apply IH; cbn; lia.
Qed.

Lemma well_formed_middle c a b : is_surrogate c = false → well_formed (a ++ c :: b) → well_formed a ∧ well_formed b.
Proof.
  intros Hc [Hu Hp]. rewrite code_points_middle in Hp by done.
  apply Forall_app in Hu as [Ha [_ Hb]%Forall_cons], Hp as [Hpa [_ Hpb]%Forall_cons]. done.
Qed.

Lemma well_formed_split c s : is_surrogate c = false → well_formed s → Forall well_formed (split_on c s).
Proof.
  intros Hc Hs. rewrite <- (join_split c s) in Hs. induction (split_on c s) as [|p l IH]; [constructor|].
  destruct l as [|q l]; [constructor; [done|constructor]|]. rewrite join_cons in Hs by done.
  apply (well_formed_middle c p) in Hs as [Hp Hl]; [|done]. constructor; [done|by apply IH].
Qed.

(** ** The values of the labels *)

(** What is written for a label. *)
Definition label_text (greedy : bool) (v : jsstr) : jsstr :=
  if greedy then join (js "/") (pct_encode <$> split_on 47 v) else pct_encode v.

Lemma uriEscapePath_encodes v : well_formed v → uriEscapePath v = Some (label_text true v).
Proof.
  intros Hv. apply (well_formed_split 47) in Hv; [|done]. unfold uriEscapePath, label_text.
  assert (Hm : mapM uriEscape (split_on 47 v) = Some (pct_encode <$> split_on 47 v)); [|by rewrite Hm].
  apply mapM_Some. induction Hv; constructor; [by apply uriEscape_encodes|done].
Qed.

Lemma label_text_units g v : well_formed v → Forall (λ c, label_unit g c = true) (label_text g v).
Proof.
  intros Hv. apply Forall_forall. intros c Hc. destruct g; cbn [label_text] in Hc.
  - apply elem_of_join in Hc as [Hc|(s & (p & -> & Hp)%list_elem_of_fmap & Hc)].
    + apply list_elem_of_singleton in Hc as ->. reflexivity.
    + apply (well_formed_split 47) in Hv; [|done]. rewrite Forall_forall in Hv. destruct (Hv p Hp) as [Hu _].
      pose proof (pct_encode_units p Hu) as Hf. rewrite Forall_forall in Hf. unfold label_unit. by rewrite (Hf c Hc).
  - destruct Hv as [Hu _]. pose proof (pct_encode_units v Hu) as Hf. rewrite Forall_forall in Hf.
    unfold label_unit. by rewrite (Hf c Hc).
Qed.

Lemma label_text_no_brace g v : well_formed v → 123 ∉ label_text g v.
Proof.
  intros Hv Hin. pose proof (label_text_units g v Hv) as Hf. rewrite Forall_forall in Hf. specialize (Hf 123 Hin).
  by destruct g.
Qed.

Lemma label_text_read g v : well_formed v → label_value (label_text g v) = Some v.
Proof.
  intros Hv. unfold label_value. destruct g; cbn [label_text].
  - pose proof (well_formed_split 47 v eq_refl Hv) as Hs.
    rewrite split_join.
    + rewrite (proj2 (mapM_Some decodeURIComponent (pct_encode <$> split_on 47 v) (split_on 47 v))).
      * cbn. f_equal. apply (join_split 47).
      * rewrite Forall2_fmap_l. apply Forall_Forall2_diag. eapply Forall_impl; [exact Hs|]. intros p. apply decode_pct_encode.
    + pose proof (split_on_ne 47 v). by destruct (split_on 47 v).
    + rewrite Forall_fmap. eapply Forall_impl; [exact Hs|]. intros p [Hp _]. by apply pct_encode_absent.
  - rewrite split_on_absent by (apply pct_encode_absent; [apply Hv|done]).
    cbn [mapM]. by rewrite decode_pct_encode by done.
Qed.

Lemma label_run_app g a b :
  Forall (λ c, label_unit g c = true) a → match b with [] => True | c :: _ => label_unit g c = false end →
  label_run g (a ++ b) = (a, b).
Proof.
  intros Ha Hb. induction Ha as [|c a Hc _ IH]; cbn [app label_run].
  - destruct b as [|c b]; [done|]. cbn [label_run]. by rewrite Hb.
  - by rewrite Hc, IH.
Qed.

(** ** Filling a template *)

(** The labels of the names in [done] have their values. *)
Definition fill_segment (values : jsstr → jsstr) (done : list jsstr) (g : segment) : segment :=
  match g with
  | Label n greedy => if bool_decide (n ∈ done) then Literal (label_text greedy (values n)) else g
  | Literal _ => g
  end.
Definition fill (values : jsstr → jsstr) (done : list jsstr) (t : list segment) : list segment := fill_segment values done <$> t.

Definition name_ok (n : jsstr) : Prop := segment_ok (Label n false).

#[global] Instance name_ok_dec n : Decision (name_ok n).
Proof. unfold name_ok. apply _. Defined.

Lemma replace_label_skip name v s u : 123 ∉ s → replace_label name v (s ++ u) = app s <$> replace_label name v u.
Proof.
  induction s as [|c s IH]; intros Hs; [cbn [app]; by destruct (replace_label name v u)|].
  apply not_elem_of_cons in Hs as [Hc Hs]. cbn [app replace_label starts_with js].
  change (js "{" ++ ?x) with (123 :: x). cbn [starts_with]. rewrite (proj2 (Z.eqb_neq 123 c)) by done. cbn [andb].
  rewrite IH by done. by destruct (replace_label name v u).
Qed.

(** A label is found by its own name only, in its own form only. *)
Lemma label_found name n (g g' : bool) u :
  name_ok name → name_ok n →
  starts_with (segment_text (Label name g)) (segment_text (Label n g') ++ u) = true ↔ name = n ∧ g = g'.
Proof.
  intros (_ & Hb & Hp) (_ & Hb' & Hp'). rewrite starts_with_prefix. split.
  - intros [k Hk]. cbn [segment_text] in Hk. rewrite <- !app_assoc in Hk. apply app_inv_head in Hk.
    assert (Hcut : n ++ (if g' then js "+" else []) = name ++ (if g then js "+" else [])).
    { apply (cut_inj 125 _ _ u k).
      - rewrite not_elem_of_app. split; [done|]. destruct g'; js_decide.
      - rewrite not_elem_of_app. split; [done|]. destruct g; js_decide.
      - rewrite <- !app_assoc. destruct g, g'; exact Hk. }
    destruct g, g'; rewrite ?app_nil_r in Hcut.
    + by apply app_inv_tail in Hcut as ->.
    + destruct Hp'. rewrite Hcut, elem_of_app. right. by left.
    + destruct Hp. rewrite <- Hcut, elem_of_app. right. by left.
    + done.
  - intros [-> ->]. by exists u.
Qed.

Lemma replace_label_here name v g u :
  name_ok name → well_formed v →
  replace_label name v (segment_text (Label name g) ++ u) = Some (label_text g v ++ u).
Proof.
  intros Hn Hv.
  assert (Hd : ∀ g', drop (length (segment_text (Label name g'))) (segment_text (Label name g') ++ u) = u).
  { intros g'. by rewrite drop_app_length. }
  pose proof (proj2 (label_found name name g g u Hn Hn) (conj eq_refl eq_refl)) as Hs.
  destruct g; cbn [segment_text] in *.
  - destruct (starts_with (segment_text (Label name false)) (segment_text (Label name true) ++ u)) eqn:Hf.
    { by apply label_found in Hf as [_ ?]. }
    specialize (Hd true). cbn [segment_text] in *. change (js "{" ++ ?x) with (123 :: x) in *. cbn [app replace_label] in *.
    change (js "{" ++ ?x) with (123 :: x). rewrite Hf, Hs, uriEscapePath_encodes by done. cbn [fmap option_fmap option_map]. by rewrite Hd.
  - specialize (Hd false). cbn [segment_text] in *. change (js "{" ++ ?x) with (123 :: x) in *. cbn [app replace_label] in *.
    change (js "{" ++ ?x) with (123 :: x). rewrite Hs, uriEscape_encodes by done. cbn [fmap option_fmap option_map]. by rewrite Hd.
Qed.

Lemma replace_label_other name v n g u :
  name_ok name → name_ok n → name ≠ n →
  replace_label name v (segment_text (Label n g) ++ u) = app (segment_text (Label n g)) <$> replace_label name v u.
Proof.
  intros Hname Hn Hne.
  assert (Hf : ∀ g', starts_with (segment_text (Label name g')) (segment_text (Label n g) ++ u) = false).
  { intros g'. apply not_true_iff_false. by intros [? _]%label_found. }
  pose proof (Hf false) as Hf0. pose proof (Hf true) as Hf1. clear Hf.
  cbn [segment_text] in *. change (js "{" ++ ?x) with (123 :: x) in *. cbn [app replace_label] in *.
  change (js "{" ++ ?x) with (123 :: x). rewrite Hf0, Hf1. rewrite replace_label_skip.
  - by destruct (replace_label name v u).
  - destruct Hn as [Hn _]. rewrite not_elem_of_app. split; [done|]. destruct g; js_decide.
Qed.

Section filling.
Context (values : jsstr → jsstr).

Lemma fill_absent n D t : n ∉ labels t → fill values (n :: D) t = fill values D t.
Proof.
  intros Hn. unfold fill. apply list_fmap_ext. intros i g Hg. destruct g as [s|m greedy]; [done|]. cbn [fill_segment].
  assert (Hne : m ≠ n).
  { intros ->. apply Hn. unfold labels. apply list_elem_of_bind. exists (Label n greedy). split; [by left|].
    by eapply list_elem_of_lookup_2. }
  rewrite (bool_decide_ext (m ∈ n :: D) (m ∈ D)); [done|]. rewrite elem_of_cons. tauto.
Qed.

Lemma template_fill_cons D g t :
  template_text (fill values D (g :: t)) = segment_text (fill_segment values D g) ++ template_text (fill values D t).
Proof. done. Qed.

Lemma replace_label_literals n v D t :
  name_ok n → Forall segment_ok t → n ∉ labels t → (∀ m, m ∈ D → well_formed (values m)) →
  replace_label n v (template_text (fill values D t)) = Some (template_text (fill values D t)).
Proof.
  intros Hn Ht Hl Hv. induction Ht as [|g t Hg _ IH]; [done|].
  unfold labels in Hl. cbn [mbind list_bind] in Hl. apply not_elem_of_app in Hl as [Hl Hl']. specialize (IH Hl').
  rewrite template_fill_cons. destruct g as [s|m greedy]; cbn [fill_segment].
  - cbn [segment_text]. rewrite replace_label_skip by done. by rewrite IH.
  - cbn [label_name] in Hl. rewrite list_elem_of_singleton in Hl. case_bool_decide as Hm.
    + cbn [segment_text]. rewrite replace_label_skip by (by apply label_text_no_brace, Hv). by rewrite IH.
    + rewrite replace_label_other by done. by rewrite IH.
Qed.

(** One replacement fills the one label of the name. *)
Lemma replace_label_fills n D t :
  name_ok n → n ∉ D → Forall segment_ok t → NoDup (labels t) → (∀ m, m ∈ n :: D → well_formed (values m)) →
  replace_label n (values n) (template_text (fill values D t)) = Some (template_text (fill values (n :: D) t)).
Proof.
  intros Hn HD Ht Hnd Hv.
  assert (HvD : ∀ m, m ∈ D → well_formed (values m)) by (intros m Hm; apply Hv; by right).
  induction Ht as [|g t Hg Ht IH]; [done|].
  destruct (decide (n ∈ label_name g)) as [Hin|Hout].
  - destruct g as [s|m greedy]; [by apply elem_of_nil in Hin|]. apply list_elem_of_singleton in Hin as <-.
    apply NoDup_cons in Hnd as [Hnot _]. rewrite !template_fill_cons.
    cbn [fill_segment]. rewrite bool_decide_false by done. rewrite bool_decide_true by (by left).
    rewrite replace_label_here by (try done; apply Hv; by left). cbn [segment_text]. do 2 f_equal.
    by rewrite (fill_absent n D t).
  - apply NoDup_app in Hnd as (_ & _ & Hnd). specialize (IH Hnd).
    rewrite !template_fill_cons. destruct g as [s|m greedy]; cbn [fill_segment].
    + cbn [segment_text]. rewrite replace_label_skip by done. by rewrite IH.
    + cbn [label_name] in Hout. rewrite list_elem_of_singleton in Hout.
      rewrite (bool_decide_ext (m ∈ n :: D) (m ∈ D)) by (rewrite elem_of_cons; naive_solver).
      case_bool_decide as Hm.
      * cbn [segment_text]. rewrite replace_label_skip by (by apply label_text_no_brace, HvD). by rewrite IH.
      * rewrite replace_label_other by done. by rewrite IH.
Qed.

(** What may follow the path. *)
Definition after_path (rest : jsstr) : Prop := match rest with [] => True | c :: _ => c = 63 ∨ c = 38 end.

(** The router reads a filled template. *)
Lemma route_filled D t rest :
  closed_labels t → (∀ n, n ∈ labels t → n ∈ D ∧ well_formed (values n)) → after_path rest →
  route t (template_text (fill values D t) ++ rest) = Some ((λ n, (n, values n)) <$> labels t, rest).
Proof.
  intros Hc Hl Hrest. induction t as [|g t IH]; [done|].
  unfold labels in Hl. cbn [mbind list_bind] in Hl.
  destruct g as [s|n greedy].
  - specialize (IH Hc Hl). rewrite template_fill_cons. cbn [fill_segment segment_text route].
    rewrite <- app_assoc, starts_with_app, drop_app_length. exact IH.
  - destruct Hc as [Hnext Hc]. destruct (Hl n) as [HnD Hwf]; [by left|].
    specialize (IH Hc (λ m Hm, Hl m (list_elem_of_further _ _ _ Hm))).
    rewrite template_fill_cons. cbn [fill_segment route].
    rewrite bool_decide_true by done. cbn [segment_text]. rewrite <- app_assoc, label_run_app.
    + rewrite label_text_read by done. cbn [mbind option_bind]. rewrite IH. reflexivity.
    + by apply label_text_units.
    + destruct t as [|[[|c s]|] t]; [|done| |done].
      * destruct rest as [|c rest]; [done|]. cbn. destruct Hrest as [-> | ->]; by destruct greedy.
      * cbn. exact Hnext.
Qed.

End filling.

(** ** Query strings *)

(** The items of a query string: each name with its values, before escaping. *)
Abbreviation items := (list (jsstr * list jsstr)).

Definition escape_item (i : jsstr * list jsstr) : jsstr * list jsstr := (i.1, pct_encode <$> i.2).
Definition item_ok (i : jsstr * list jsstr) : Prop := well_formed i.1 ∧ Forall well_formed i.2.

#[global] Instance item_ok_dec i : Decision (item_ok i).
Proof. unfold item_ok. apply _. Defined.

(** The pairs of a query string, in the order of their names. *)
Definition item_pairs (q : items) : list (jsstr * jsstr) :=
  sort_strings q.*1 ≫= λ key, pair key <$> default [] (obj_get key q).

Lemma mapM_escape_strings l :
  Forall well_formed (to_string <$> l) → mapM (λ v, uriEscape (to_string v)) l = Some (pct_encode <$> (to_string <$> l)).
Proof.
  intros Hl. apply mapM_Some. rewrite <- list_fmap_compose, Forall2_fmap_r. apply Forall_Forall2_diag.
  rewrite Forall_fmap in Hl. eapply Forall_impl; [exact Hl|]. intros x Hx. by apply uriEscape_encodes.
Qed.

Lemma obj_get_escaped key (q : items) : obj_get key (escape_item <$> q) = fmap (M := list) pct_encode <$> obj_get key q.
Proof. induction q as [|[k vs] q IH]; [done|]. cbn. by destruct (str_eqb _ _). Qed.

Lemma item_pairs_ok (q : items) : NoDup q.*1 → Forall item_ok q → Forall pair_ok (item_pairs q).
Proof.
  intros Hnd Hok. apply Forall_forall. intros [k v] (key & (v' & [= <- <-] & Hv)%list_elem_of_fmap & Hk)%list_elem_of_bind.
  rewrite sort_strings_perm in Hk. apply obj_get_elem in Hk as [vs Hvs]. rewrite Hvs in Hv.
  apply obj_get_elem_of in Hvs; [|done]. rewrite Forall_forall in Hok. destruct (Hok _ Hvs) as [Hwk Hwv].
  split; [done|]. rewrite Forall_forall in Hwv. by apply Hwv.
Qed.

Lemma query_text_pairs (q : items) :
  Forall item_ok q → query_text (escape_item <$> q) = Some (join (js "&") (pair_text <$> item_pairs q)).
Proof.
  intros Hok. unfold query_text, item_pairs.
  replace ((escape_item <$> q).*1) with (q.*1) by (by rewrite <- list_fmap_compose).
  assert (Hkeys : Forall well_formed (sort_strings q.*1)).
  { rewrite sort_strings_perm, Forall_fmap. eapply Forall_impl; [exact Hok|]. by intros i [Hi _]. }
  rewrite (proj2 (mapM_Some _ _ ((λ key, pair_text <$> (pair key <$> default [] (obj_get key q))) <$> sort_strings q.*1))).
  - cbn [fmap option_fmap option_map]. do 2 f_equal. induction (sort_strings q.*1) as [|k l IH]; [done|].
    apply Forall_cons in Hkeys as [_ Hkeys]. cbn. rewrite fmap_app. f_equal. by apply IH.
  - rewrite Forall2_fmap_r. apply Forall_Forall2_diag. eapply Forall_impl; [exact Hkeys|]. intros key Hkey. cbn beta.
    rewrite uriEscape_encodes by done. cbn [mbind option_bind]. f_equal. rewrite obj_get_escaped.
    destruct (obj_get key q); [|done]. cbn [default fmap option_fmap option_map]. unfold Datatypes.id. by rewrite <- !list_fmap_compose.
Qed.

(** ** The parameters of an operation *)

Section generate.
Context (Date_parse : jsval → option Z) (Buffer_from : jsval → option (list Z)) (table : shape_id → shape).

Definition located (location : string) (params : jsval) (m : jsstr * shape_id) : bool :=
  negb (nullish (js_prop params m.1)) && is_str (js location) (s_location (table m.2)).

(** The values for labels, by the names of the labels. *)
Definition uri_value (params : jsval) (m : jsstr * shape_id) : list (jsstr * jsstr) :=
  if located "uri" params m then [(s_name (table m.2), to_string (js_prop params m.1))] else [].

Definition text_items (m : shape) (v : jsval) : option items :=
  let text := wire_text Date_parse Buffer_from in
  if has_type m (js "list") then
    match v with JArr l => ts ← mapM (text (table (s_member m))) l; Some [(s_name m, ts)] | _ => None end
  else if has_type m (js "map") then
    Some ((λ kv, (kv.1, to_string <$> match kv.2 with JArr l => l | v => [v] end)) <$> entries v)
  else t ← text m v; Some [(s_name m, [t])].

(** The items of the query string. *)
Definition query_items (params : jsval) (m : jsstr * shape_id) : option items :=
  if located "querystring" params m then text_items (table m.2) (js_prop params m.1) else Some [].

Lemma query_member_items m v (q i : items) :
  text_items m v = Some i → NoDup (q.*1 ++ i.*1) → Forall item_ok i →
  query_member Date_parse Buffer_from table m v (escape_item <$> q) = Some (escape_item <$> (q ++ i)).
Proof.
  assert (Hkeys : ∀ q : items, (escape_item <$> q).*1 = q.*1) by (intros; by rewrite <- list_fmap_compose).
  assert (Hset : ∀ (k : jsstr) (ts : list jsstr), NoDup (q.*1 ++ [k]) →
    obj_set k (pct_encode <$> ts) (escape_item <$> q) = escape_item <$> (q ++ [(k, ts)])).
  { intros k ts (_ & Hk & _)%NoDup_app. rewrite obj_set_fresh, fmap_app; [done|]. rewrite Hkeys. intros Hin.
    apply (Hk k Hin). by left. }
  unfold text_items, query_member. intros Hi Hnd Hok. destruct (has_type m (js "list")).
  - destruct v as [| | | | |l|]; try done.
    destruct (mapM (wire_text _ _ _) l) as [ts|] eqn:Hm; [|done]. injection Hi as <-.
    apply Forall_cons in Hok as [[_ Hts] _]. cbn [snd] in Hts.
    assert (Hm' : mapM (λ v, t ← wire_text Date_parse Buffer_from (table (s_member m)) v; uriEscape t) l = Some (pct_encode <$> ts)).
    { apply mapM_Some in Hm. apply mapM_Some. clear -Hm Hts. induction Hm as [|x t l ts Hx _ IH]; [constructor|].
      apply Forall_cons in Hts as [Ht Hts]. constructor; [|by apply IH]. rewrite Hx. cbn. by apply uriEscape_encodes. }
    rewrite Hm'. cbn [mbind option_bind]. f_equal. by apply Hset.
  - destruct (has_type m (js "map")).
    + injection Hi as <-. rewrite fmap_app. apply fold_each_sets; [by rewrite !Hkeys|].
      rewrite Forall2_fmap_r, Forall2_fmap_r. apply Forall_Forall2_diag. rewrite Forall_fmap in Hok.
      eapply Forall_impl; [exact Hok|]. intros [k w] [_ Hw] out. cbn [fst snd compose] in *.
      by rewrite (mapM_escape_strings _ Hw).
    + destruct (wire_text _ _ m v) as [t|]; [|done]. injection Hi as <-. cbn [mbind option_bind].
      apply Forall_cons in Hok as [[_ [Ht _]%Forall_cons] _]. rewrite uriEscape_encodes by done. cbn [mbind option_bind]. f_equal.
      by apply (Hset _ [t]).
Qed.

Lemma located_exclusive params m : located "uri" params m = true → located "querystring" params m = false.
Proof.
  unfold located, is_str. destruct (s_location (table m.2)); rewrite ?andb_false_r; try done.
  intros [_ H]%andb_true_iff. apply str_eqb_eq in H as <-. by rewrite andb_false_r.
Qed.

(** One member fills a label, or adds items, or neither. *)
Lemma uri_member_step params m uri (q : items) isSet :
  uri_member Date_parse Buffer_from table params m (uri, escape_item <$> q, isSet) =
  if located "uri" params m then
    (λ uri, (uri, escape_item <$> q, isSet)) <$> replace_label (s_name (table m.2)) (to_string (js_prop params m.1)) uri
  else if located "querystring" params m then
    (λ q, (uri, q, true)) <$> query_member Date_parse Buffer_from table (table m.2) (js_prop params m.1) (escape_item <$> q)
  else Some (uri, escape_item <$> q, isSet).
Proof.
  unfold uri_member, located. destruct (nullish _); [done|]. cbn [negb andb].
  destruct (is_str (js "uri") _); [by destruct (replace_label _ _ _)|].
  destruct (is_str (js "querystring") _); [by destruct (query_member _ _ _ _ _ _)|done].
Qed.

Definition uri_values (params : jsval) (ms : list (jsstr * shape_id)) : list (jsstr * jsstr) := ms ≫= uri_value params.
Definition value_ok (values : jsstr → jsstr) (nv : jsstr * jsstr) : Prop := name_ok nv.1 ∧ well_formed nv.2 ∧ values nv.1 = nv.2.

Lemma uri_members_fold params values t ms : ∀ D (q : items) isSet qs,
  template_ok t → (∀ n, n ∈ D → well_formed (values n)) →
  Forall (value_ok values) (uri_values params ms) → NoDup (D ++ (uri_values params ms).*1) →
  mapM (query_items params) ms = Some qs → NoDup (q.*1 ++ (concat qs).*1) → Forall item_ok (concat qs) →
  ∃ D', (∀ n, n ∈ D' ↔ n ∈ D ∨ n ∈ (uri_values params ms).*1) ∧
    fold_each (uri_member Date_parse Buffer_from table params) ms (template_text (fill values D t), escape_item <$> q, isSet) =
    Some (template_text (fill values D' t), escape_item <$> (q ++ concat qs), isSet || existsb (located "querystring" params) ms).
Proof.
  induction ms as [|m ms IH]; intros D q isSet qs Ht HD Hv Hnd Hq Hkeys Hok.
  { injection Hq as <-. exists D. split; [intros n; rewrite elem_of_nil; tauto|]. cbn. by rewrite app_nil_r, orb_false_r. }
  apply mapM_Some in Hq. apply Forall2_cons_inv_l in Hq as (i & qs' & Hi & Hq%mapM_Some & ->).
  cbn [concat] in *. rewrite fmap_app, app_assoc in Hkeys. apply Forall_app in Hok as [Hoki Hok].
  unfold uri_values in *. cbn [mbind list_bind] in *. apply Forall_app in Hv as [Hv0 Hv].
  cbn [fold_each existsb]. rewrite uri_member_step.
  destruct (located "uri" params m) eqn:Hu.
  - unfold query_items in Hi. rewrite (located_exclusive _ _ Hu) in *. injection Hi as <-. cbn [app] in *.
    unfold uri_value in Hv0, Hnd |- * at 1. rewrite Hu in *. apply Forall_cons in Hv0 as [(Hn & Hw & Hval) _]. cbn [fst snd] in *.
    set (n := s_name (table m.2)) in *. cbn [fmap list_fmap app fst] in Hnd |- *.
    assert (HnD : n ∉ D).
    { intros Hin. apply NoDup_app in Hnd as (_ & Hd & _). apply (Hd n Hin). by left. }
    assert (HD' : ∀ k, k ∈ n :: D → well_formed (values k)).
    { intros k [->|Hk]%elem_of_cons; [by rewrite Hval|by apply HD]. }
    rewrite <- Hval, replace_label_fills; [|done..|apply Ht|apply Ht|done]. cbn [fmap option_fmap option_map mbind option_bind].
    destruct (IH (n :: D) q isSet qs') as (D' & HD'' & ->); try done.
    { cbn [app]. by rewrite Permutation_middle. }
    { by rewrite app_nil_r in Hkeys. }
    exists D'. split; [|done]. intros k. rewrite HD'', !elem_of_cons. tauto.
  - unfold uri_value in Hnd, Hv0 |- * at 1. rewrite Hu in *. cbn [app] in *. clear Hv0.
    unfold query_items in Hi. destruct (located "querystring" params m).
    + rewrite (query_member_items _ _ _ i) by (try done; by apply NoDup_app in Hkeys as (? & _ & _)).
      cbn [fmap option_fmap option_map mbind option_bind].
      destruct (IH D (q ++ i) true qs') as (D' & HD' & ->); try done; [by rewrite fmap_app|].
      exists D'. split; [done|]. by rewrite <- app_assoc, orb_true_r.
    + injection Hi as <-. cbn [app mbind option_bind] in *. rewrite app_nil_r in Hkeys. by apply IH.
Qed.

(** Parameters that fit the template: each label has a value and each name of the
    query string is given once, all of well-formed text. *)
Record rest_params (t : list segment) (input : shape) (params : jsval) (q : items) : Prop := {
  rp_template : template_ok t;
  rp_names : NoDup (uri_values params (own_props (s_members input))).*1;
  rp_values : Forall (λ nv, name_ok nv.1 ∧ well_formed nv.2) (uri_values params (own_props (s_members input)));
  rp_labels : ∀ n, n ∈ labels t → n ∈ (uri_values params (own_props (s_members input))).*1;
  rp_items : concat (A:=_) <$> mapM (query_items params) (own_props (s_members input)) = Some q;
  rp_keys : NoDup q.*1;
  rp_texts : Forall item_ok q;
}.

Definition value_of (params : jsval) (input : shape) (n : jsstr) : jsstr :=
  default [] (obj_get n (uri_values params (own_props (s_members input)))).

Lemma value_of_ok t input params q :
  rest_params t input params q →
  Forall (value_ok (value_of params input)) (uri_values params (own_props (s_members input))).
Proof.
  intros [_ Hnd Hv _ _ _ _]. apply Forall_forall. intros [n v] Hin. rewrite Forall_forall in Hv.
  destruct (Hv _ Hin) as [Hn Hw]. split_and!; [done..|]. unfold value_of. cbn [fst snd].
  by rewrite (proj2 (obj_get_elem_of n v _ Hnd) Hin).
Qed.

(** What follows the path [path] of a URI. *)
Definition query_suffix (path text : jsstr) : jsstr := (if bool_decide (63 ∈ path) then js "&" else js "?") ++ text.

(** C30. The URI of a REST request is read back by the server.  When every label
    of the template has a value, [generateURI] succeeds, and routing its result
    along the template gives each label the string of its parameter, however many
    slashes, question marks, braces or percent signs the strings have; a greedy
    label keeps its slashes.  What follows the path is the query string: split at
    the ampersands and equals signs and decoded, it has the items of every
    parameter located there, in the order of their names; without such parameters
    nothing follows the path. *)
Theorem generateURI_read (endpointPath operationPath : jsstr) (t : list segment) (input : shape) (params : jsval) (q : items) :
  rest_params t input params q →
  single_slashes false (endpointPath ++ js "/" ++ operationPath) = template_text t →
  ∃ path rest,
    generateURI Date_parse Buffer_from table endpointPath operationPath input params = Some (path ++ rest) ∧
    route t (path ++ rest) = Some ((λ n, (n, value_of params input n)) <$> labels t, rest) ∧
    if existsb (located "querystring" params) (own_props (s_members input))
    then ∃ text, rest = query_suffix path text ∧ parse_query text = Some (prod_map utf8 utf8 <$> item_pairs q)
    else rest = [].
Proof.
  intros Hp Ht. pose proof (value_of_ok _ _ _ _ Hp) as Hvals. destruct Hp as [Htok Hnd _ Hlabels Hq Hkeys Hok].
  destruct (mapM (query_items params) _) as [qs|] eqn:Hqs; [|done]. injection Hq as <-.
  destruct (uri_members_fold params (value_of params input) t (own_props (s_members input)) [] [] false qs)
    as (D & HD & Hfold); [done|by intros n ?%elem_of_nil|done..|].
  assert (HDok : ∀ n, n ∈ labels t → n ∈ D ∧ well_formed (value_of params input n)).
  { intros n Hn. apply Hlabels in Hn. split; [apply HD; by right|]. apply list_elem_of_fmap in Hn as ([n' v] & -> & Hin).
    rewrite Forall_forall in Hvals. destruct (Hvals _ Hin) as (_ & Hw & Hv). cbn [fst snd] in *. by rewrite Hv. }
  assert (Hempty : fill (value_of params input) [] t = t).
  { unfold fill. rewrite <- (list_fmap_id t) at 2. apply list_fmap_ext. by intros i [] _. }
  rewrite Hempty in Hfold. unfold generateURI. rewrite Ht. cbn [fmap list_fmap app orb] in Hfold. rewrite Hfold. clear Hfold.
  set (path := template_text (fill _ D t)). destruct (existsb _ _).
  - rewrite query_text_pairs by done. cbn [mbind option_bind]. set (text := join _ _).
    exists path, (query_suffix path text). split; [done|]. split.
    + apply route_filled; [apply Htok|done|]. unfold query_suffix. case_bool_decide; [by right|by left].
    + exists text. split; [done|]. apply parse_query_pairs. by apply item_pairs_ok.
  - exists path, []. rewrite app_nil_r. split; [done|]. split; [|done].
    rewrite <- (app_nil_r path) at 1. by apply route_filled; [apply Htok|done|].
Qed.

End generate.

(** ** Example *)

(** An object of a bucket, with a text and a list in the query string. *)
Definition rest_table (m : shape_id) : shape :=
  let at_ location type name :=
    MkShape (Some (js type)) [] [] ([], js "Text") no_shape no_shape None None None None (JStr (js location))
      false (js name) false false [] false (XmlTraits false [] [] [] [] true) in
  if str_eqb m.2 (js "Bucket") then at_ "uri" "string" "Bucket"
  else if str_eqb m.2 (js "Key") then at_ "uri" "string" "Key"
  else if str_eqb m.2 (js "Version") then at_ "querystring" "string" "versionId"
  else if str_eqb m.2 (js "Parts") then at_ "querystring" "list" "part"
  else if str_eqb m.2 (js "Text") then at_ "" "string" ""
  else MkShape (Some (js "structure")) []
         [(js "Key", ([], js "Key")); (js "Version", ([], js "Version")); (js "Bucket", ([], js "Bucket")); (js "Parts", ([], js "Parts"))]
         no_shape no_shape no_shape None None None None JUndef false [] false false [] false no_xml.
Definition rest_example : jsval :=
  JObj [(js "Bucket", JStr (js "{Key+}?")); (js "Key", JStr (js "a b/c%")); (js "Version", JStr (js "1&2=3"));
        (js "Parts", JArr [JStr (js "z"); JStr (js "y")])].
Definition object_template : list segment := [Literal (js "/v1/"); Label (js "Bucket") false; Literal (js "/"); Label (js "Key") true].

Lemma generateURI_read_witness :
  ∃ path rest,
    generateURI (λ _, None) (λ _, None) rest_table (js "/v1/") (js "/{Bucket}/{Key+}") (rest_table no_shape) rest_example = Some (path ++ rest) ∧
    route object_template (path ++ rest) = Some ([(js "Bucket", js "{Key+}?"); (js "Key", js "a b/c%")], rest).
Proof.
  destruct (generateURI_read (λ _, None) (λ _, None) rest_table (js "/v1/") (js "/{Bucket}/{Key+}") object_template
    (rest_table no_shape) rest_example [(js "versionId", [js "1&2=3"]); (js "part", [js "z"; js "y"])]) as (path & rest & Hg & Hr & _).
  - split; [split|..]; [js_decide|js_decide|by repeat split|js_decide|js_decide| |reflexivity|js_decide|js_decide].
    apply Forall_forall. js_decide.
  - reflexivity.
  - exists path, rest. split; [exact Hg|exact Hr].
Defined.
