(* ===== verification/Crc32.v ===== *)
(** * util.crypto.crc32

    The table-driven checksum of dist/index.js 26426-26493, compared with the
    bit-by-bit definition of CRC-32 and its error detection. *)

From stdpp Require Import base strings list.
From Stdlib Require Import ZArith Lia.
From S2P Require Import Prelude JsValue Json JsText.

Local Open Scope Z_scope.

(** ** 32-bit operations of JavaScript *)

(** The 32-bit operators work on the bits of an integer modulo 2^32; [^] returns
    a signed result, [>>>] an unsigned one. *)
Definition ToUint32 (x : Z) : Z := x mod 2 ^ 32.
Definition ToInt32 (x : Z) : Z := let u := ToUint32 x in if Z.ltb u (2 ^ 31) then u else u - 2 ^ 32.
Definition js_xor (x y : Z) : Z := ToInt32 (Z.lxor (ToUint32 x) (ToUint32 y)).
Definition js_and (x y : Z) : Z := ToInt32 (Z.land (ToUint32 x) (ToUint32 y)).
Definition js_ushr (x n : Z) : Z := Z.shiftr (ToUint32 x) n.

(** ** The code *)

Definition crc32Table : list Z :=
  [0x00000000; 0x77073096; 0xee0e612c; 0x990951ba; 0x076dc419;
   0x706af48f; 0xe963a535; 0x9e6495a3; 0x0edb8832; 0x79dcb8a4;
   0xe0d5e91e; 0x97d2d988; 0x09b64c2b; 0x7eb17cbd; 0xe7b82d07;
   0x90bf1d91; 0x1db71064; 0x6ab020f2; 0xf3b97148; 0x84be41de;
   0x1adad47d; 0x6ddde4eb; 0xf4d4b551; 0x83d385c7; 0x136c9856;
   0x646ba8c0; 0xfd62f97a; 0x8a65c9ec; 0x14015c4f; 0x63066cd9;
   0xfa0f3d63; 0x8d080df5; 0x3b6e20c8; 0x4c69105e; 0xd56041e4;
   0xa2677172; 0x3c03e4d1; 0x4b04d447; 0xd20d85fd; 0xa50ab56b;
   0x35b5a8fa; 0x42b2986c; 0xdbbbc9d6; 0xacbcf940; 0x32d86ce3;
   0x45df5c75; 0xdcd60dcf; 0xabd13d59; 0x26d930ac; 0x51de003a;
   0xc8d75180; 0xbfd06116; 0x21b4f4b5; 0x56b3c423; 0xcfba9599;
   0xb8bda50f; 0x2802b89e; 0x5f058808; 0xc60cd9b2; 0xb10be924;
   0x2f6f7c87; 0x58684c11; 0xc1611dab; 0xb6662d3d; 0x76dc4190;
   0x01db7106; 0x98d220bc; 0xefd5102a; 0x71b18589; 0x06b6b51f;
   0x9fbfe4a5; 0xe8b8d433; 0x7807c9a2; 0x0f00f934; 0x9609a88e;
   0xe10e9818; 0x7f6a0dbb; 0x086d3d2d; 0x91646c97; 0xe6635c01;
   0x6b6b51f4; 0x1c6c6162; 0x856530d8; 0xf262004e; 0x6c0695ed;
   0x1b01a57b; 0x8208f4c1; 0xf50fc457; 0x65b0d9c6; 0x12b7e950;
   0x8bbeb8ea; 0xfcb9887c; 0x62dd1ddf; 0x15da2d49; 0x8cd37cf3;
   0xfbd44c65; 0x4db26158; 0x3ab551ce; 0xa3bc0074; 0xd4bb30e2;
   0x4adfa541; 0x3dd895d7; 0xa4d1c46d; 0xd3d6f4fb; 0x4369e96a;
   0x346ed9fc; 0xad678846; 0xda60b8d0; 0x44042d73; 0x33031de5;
   0xaa0a4c5f; 0xdd0d7cc9; 0x5005713c; 0x270241aa; 0xbe0b1010;
   0xc90c2086; 0x5768b525; 0x206f85b3; 0xb966d409; 0xce61e49f;
   0x5edef90e; 0x29d9c998; 0xb0d09822; 0xc7d7a8b4; 0x59b33d17;
   0x2eb40d81; 0xb7bd5c3b; 0xc0ba6cad; 0xedb88320; 0x9abfb3b6;
   0x03b6e20c; 0x74b1d29a; 0xead54739; 0x9dd277af; 0x04db2615;
   0x73dc1683; 0xe3630b12; 0x94643b84; 0x0d6d6a3e; 0x7a6a5aa8;
   0xe40ecf0b; 0x9309ff9d; 0x0a00ae27; 0x7d079eb1; 0xf00f9344;
   0x8708a3d2; 0x1e01f268; 0x6906c2fe; 0xf762575d; 0x806567cb;
   0x196c3671; 0x6e6b06e7; 0xfed41b76; 0x89d32be0; 0x10da7a5a;
   0x67dd4acc; 0xf9b9df6f; 0x8ebeeff9; 0x17b7be43; 0x60b08ed5;
   0xd6d6a3e8; 0xa1d1937e; 0x38d8c2c4; 0x4fdff252; 0xd1bb67f1;
   0xa6bc5767; 0x3fb506dd; 0x48b2364b; 0xd80d2bda; 0xaf0a1b4c;
   0x36034af6; 0x41047a60; 0xdf60efc3; 0xa867df55; 0x316e8eef;
   0x4669be79; 0xcb61b38c; 0xbc66831a; 0x256fd2a0; 0x5268e236;
   0xcc0c7795; 0xbb0b4703; 0x220216b9; 0x5505262f; 0xc5ba3bbe;
   0xb2bd0b28; 0x2bb45a92; 0x5cb36a04; 0xc2d7ffa7; 0xb5d0cf31;
   0x2cd99e8b; 0x5bdeae1d; 0x9b64c2b0; 0xec63f226; 0x756aa39c;
   0x026d930a; 0x9c0906a9; 0xeb0e363f; 0x72076785; 0x05005713;
   0x95bf4a82; 0xe2b87a14; 0x7bb12bae; 0x0cb61b38; 0x92d28e9b;
   0xe5d5be0d; 0x7cdcefb7; 0x0bdbdf21; 0x86d3d2d4; 0xf1d4e242;
   0x68ddb3f8; 0x1fda836e; 0x81be16cd; 0xf6b9265b; 0x6fb077e1;
   0x18b74777; 0x88085ae6; 0xff0f6a70; 0x66063bca; 0x11010b5c;
   0x8f659eff; 0xf862ae69; 0x616bffd3; 0x166ccf45; 0xa00ae278;
   0xd70dd2ee; 0x4e048354; 0x3903b3c2; 0xa7672661; 0xd06016f7;
   0x4969474d; 0x3e6e77db; 0xaed16a4a; 0xd9d65adc; 0x40df0b66;
   0x37d83bf0; 0xa9bcae53; 0xdebb9ec5; 0x47b2cf7f; 0x30b5ffe9;
   0xbdbdf21c; 0xcabac28a; 0x53b39330; 0x24b4a3a6; 0xbad03605;
   0xcdd70693; 0x54de5729; 0x23d967bf; 0xb3667a2e; 0xc4614ab8;
   0x5d681b02; 0x2a6f2b94; 0xb40bbe37; 0xc30c8ea1; 0x5a05df1b;
   0x2d02ef8d].

(** One round of the loop; the table is indexed by a byte. *)
Definition crc32_round (crc code : Z) : Z :=
  js_xor (js_ushr crc 8) (nth (Z.to_nat (js_and (js_xor crc code) 255)) crc32Table 0).

Definition crc32 (data : list Z) : Z := js_ushr (js_xor (foldl crc32_round (js_xor 0 (-1)) data) (-1)) 0.

(** A string is converted to a buffer first. *)
Definition crc32_string (s : jsstr) : Z := crc32 (utf8 s).

(** ** CRC-32, bit by bit *)

(** The remainder register shifted by one bit, with the reversed polynomial. *)
Definition crc_bit (c : Z) : Z := Z.lxor (Z.shiftr c 1) (if Z.odd c then 0xedb88320 else 0).
Definition crc_byte (c b : Z) : Z := Nat.iter 8 crc_bit (Z.lxor c b).
Definition crc_spec (data : list Z) : Z := Z.lxor (foldl crc_byte (2 ^ 32 - 1) data) (2 ^ 32 - 1).

Lemma iter_add {A} (f : A → A) n m x : Nat.iter (n + m) f x = Nat.iter n f (Nat.iter m f x).
Proof. induction n as [|n IH]; [done|]. cbn [Nat.add Nat.iter nat_rect]. unfold Nat.iter in IH. by rewrite IH. Qed.

Lemma iter_S {A} (f : A → A) n x : Nat.iter (S n) f x = f (Nat.iter n f x).
Proof. done. Qed.

(** *** Linearity *)

Lemma odd_lxor a b : Z.odd (Z.lxor a b) = xorb (Z.odd a) (Z.odd b).
Proof. by rewrite <- !Z.bit0_odd, Z.lxor_spec. Qed.

Lemma crc_bit_lxor a b : crc_bit (Z.lxor a b) = Z.lxor (crc_bit a) (crc_bit b).
Proof.
  unfold crc_bit. rewrite odd_lxor, Z.shiftr_lxor. set (P := 0xedb88320).
  apply Z.bits_inj'. intros n _. rewrite !Z.lxor_spec.
  destruct (Z.odd a), (Z.odd b); cbn [xorb]; rewrite ?Z.bits_0;
    destruct (Z.testbit (Z.shiftr a 1) n), (Z.testbit (Z.shiftr b 1) n), (Z.testbit P n); reflexivity.
Qed.

Lemma crc_bits_lxor n a b : Nat.iter n crc_bit (Z.lxor a b) = Z.lxor (Nat.iter n crc_bit a) (Nat.iter n crc_bit b).
Proof. induction n as [|n IH]; [done|]. by rewrite !iter_S, IH, crc_bit_lxor. Qed.

(** Zero bits are shifted out. *)
Lemma crc_bits_shiftl n x : Nat.iter n crc_bit (Z.shiftl x (Z.of_nat n)) = x.
Proof.
  revert x. induction n as [|n IH]; intros x; [apply Z.shiftl_0_r|].
  rewrite Nat2Z.inj_succ, <- Z.add_1_l, <- Z.shiftl_shiftl by lia. rewrite iter_S, IH.
  unfold crc_bit. rewrite <- Z.bit0_odd, Z.shiftl_spec_low by lia. rewrite Z.lxor_0_r.
  rewrite Z.shiftr_shiftl_l by lia. apply Z.shiftl_0_r.
Qed.

(** *** Ranges *)

Definition u32 (c : Z) : Prop := 0 ≤ c < 2 ^ 32.
Definition byte (b : Z) : Prop := 0 ≤ b < 256.

Lemma lxor_range n a b : 0 ≤ n → 0 ≤ a < 2 ^ n → 0 ≤ b < 2 ^ n → 0 ≤ Z.lxor a b < 2 ^ n.
Proof.
  intros Hn Ha Hb. assert (H0 : 0 ≤ Z.lxor a b) by (apply Z.lxor_nonneg; lia). split; [done|].
  destruct (decide (Z.lxor a b = 0)) as [->|]; [lia|]. apply Z.log2_lt_pow2; [lia|].
  eapply Z.le_lt_trans; [apply Z.log2_lxor; lia|].
  destruct (decide (a = 0)) as [->|], (decide (b = 0)) as [->|]; rewrite ?Z.lxor_0_l, ?Z.lxor_0_r in *; try lia.
  all: apply Z.max_lub_lt; try (apply Z.log2_lt_pow2; lia).
  all: change (Z.log2 0) with 0; destruct (decide (n = 0)) as [->|]; lia.
Qed.

Lemma u32_lxor a b : u32 a → u32 b → u32 (Z.lxor a b).
Proof. by apply lxor_range. Qed.

Lemma u32_shiftr c n : u32 c → 0 ≤ n → u32 (Z.shiftr c n).
Proof.
  intros Hc Hn. rewrite Z.shiftr_div_pow2 by done. unfold u32 in *.
  pose proof (Z.pow_pos_nonneg 2 n). split; [apply Z.div_pos; lia|].
  eapply Z.le_lt_trans; [apply Z.div_le_upper_bound with (q := c); nia|lia].
Qed.

Lemma u32_crc_bits n c : u32 c → u32 (Nat.iter n crc_bit c).
Proof.
  intros Hc. induction n as [|n IH]; [done|]. rewrite iter_S. unfold crc_bit at 1. apply u32_lxor.
  - by apply u32_shiftr.
  - destruct (Z.odd _); unfold u32; lia.
Qed.

Lemma byte_u32 b : byte b → u32 b.
Proof. unfold byte, u32. lia. Qed.

Lemma u32_run data c : Forall byte data → u32 c → u32 (foldl crc_byte c data).
Proof.
  intros Hd. revert c. induction Hd as [|b l Hb _ IH]; intros c Hc; [done|]. apply IH, u32_crc_bits.
  by apply u32_lxor, byte_u32.
Qed.

(** *** The table *)

Lemma crc32Table_spec i : byte i → nth (Z.to_nat i) crc32Table 0 = Nat.iter 8 crc_bit i.
Proof.
  intros Hi. assert (H : Forall (λ n, nth n crc32Table 0 = Nat.iter 8 crc_bit (Z.of_nat n)) (seq 0 256)).
  { apply (bool_decide_unpack _). vm_compute. exact I. }
  rewrite Forall_forall in H. rewrite H by (unfold byte in Hi; apply elem_of_seq; lia).
  by rewrite Z2Nat.id by (unfold byte in Hi; lia).
Qed.

(** A byte of the register is replaced in one step. *)
Lemma crc_byte_table c b : u32 c → byte b →
  crc_byte c b = Z.lxor (Z.shiftr c 8) (nth (Z.to_nat (Z.land (Z.lxor c b) 255)) crc32Table 0).
Proof.
  intros Hc Hb. set (x := Z.lxor c b).
  assert (Hx : x = Z.lxor (Z.shiftl (Z.shiftr x 8) 8) (Z.land x 255)).
  { change 255 with (Z.ones 8). apply Z.bits_inj'. intros n Hn. rewrite Z.lxor_spec, Z.land_spec.
    destruct (Z.ltb_spec n 8).
    - rewrite Z.shiftl_spec_low, Z.ones_spec_low by lia. by rewrite andb_true_r, xorb_false_l.
    - rewrite Z.shiftl_spec_high, Z.shiftr_spec, Z.ones_spec_high by lia.
      replace (n - 8 + 8) with n by lia. by rewrite andb_false_r, xorb_false_r. }
  assert (Hl : byte (Z.land x 255)).
  { change 255 with (Z.ones 8). rewrite Z.land_ones by lia. unfold byte. apply Z.mod_pos_bound. lia. }
  assert (Hs : Z.shiftr x 8 = Z.shiftr c 8).
  { unfold x. rewrite Z.shiftr_lxor, (Z.shiftr_div_pow2 b), Z.div_small by (unfold byte in Hb; lia). apply Z.lxor_0_r. }
  rewrite crc32Table_spec by done. unfold crc_byte. fold x. rewrite Hx at 1. rewrite crc_bits_lxor, <- Hs.
  by rewrite (crc_bits_shiftl 8).
Qed.

(** *** The 32-bit operators *)

Lemma ToUint32_small c : u32 c → ToUint32 c = c.
Proof. apply Z.mod_small. Qed.

Lemma ToUint32_ToInt32 x : ToUint32 (ToInt32 x) = ToUint32 x.
Proof.
  unfold ToInt32. set (u := ToUint32 x). assert (Hu : u32 u) by (apply Z.mod_pos_bound; lia).
  destruct (Z.ltb u (2 ^ 31)); [by apply ToUint32_small|]. unfold ToUint32.
  rewrite <- (Z.mod_add (u - 2 ^ 32) 1) by lia. replace (u - 2 ^ 32 + 1 * 2 ^ 32) with u by lia.
  by apply ToUint32_small.
Qed.

Lemma js_xor_u32 x y : ToUint32 (js_xor x y) = Z.lxor (ToUint32 x) (ToUint32 y).
Proof.
  unfold js_xor. rewrite ToUint32_ToInt32. apply ToUint32_small, u32_lxor; by apply Z.mod_pos_bound.
Qed.

(** A round computes the next register. *)
Lemma crc32_round_spec s c b : ToUint32 s = c → byte b → ToUint32 (crc32_round s b) = crc_byte c b.
Proof.
  intros Hs Hb. assert (Hc : u32 c) by (rewrite <- Hs; by apply Z.mod_pos_bound).
  unfold crc32_round. rewrite js_xor_u32. unfold js_ushr. rewrite Hs, (ToUint32_small (Z.shiftr c 8)) by (by apply u32_shiftr).
  assert (Hand : js_and (js_xor s b) 255 = Z.land (Z.lxor c b) 255).
  { unfold js_and. rewrite js_xor_u32, Hs, (ToUint32_small b), (ToUint32_small 255) by (by apply byte_u32 || (unfold u32; lia)).
    set (y := Z.land _ _). assert (Hy : byte y).
    { unfold y. change 255 with (Z.ones 8). rewrite Z.land_ones by lia. unfold byte. apply Z.mod_pos_bound. lia. }
    unfold ToInt32. rewrite ToUint32_small by (by apply byte_u32). unfold byte in Hy. destruct (Z.ltb_spec y (2 ^ 31)); lia. }
  rewrite Hand, crc_byte_table by done. f_equal. apply ToUint32_small. rewrite crc32Table_spec.
  - apply u32_crc_bits. unfold u32. change 255 with (Z.ones 8). rewrite Z.land_ones by lia.
    pose proof (Z.mod_pos_bound (Z.lxor c b) (2 ^ 8)). lia.
  - unfold byte. change 255 with (Z.ones 8). rewrite Z.land_ones by lia. apply Z.mod_pos_bound. lia.
Qed.

Lemma crc32_run data s c : Forall byte data → ToUint32 s = c →
  ToUint32 (foldl crc32_round s data) = foldl crc_byte c data.
Proof.
  intros Hd. revert s c. induction Hd as [|b l Hb _ IH]; intros s c Hs; [done|].
  apply IH. by apply crc32_round_spec.
Qed.

Lemma crc32_spec data : Forall byte data → crc32 data = crc_spec data.
Proof.
  intros Hd. unfold crc32, crc_spec, js_ushr. rewrite Z.shiftr_0_r, js_xor_u32.
  by rewrite (crc32_run data _ (2 ^ 32 - 1)).
Qed.

(** *** Error detection *)

Lemma crc_bit_zero d : u32 d → crc_bit d = 0 → d = 0.
Proof.
  unfold u32, crc_bit. intros Hd H0%Z.lxor_eq. rewrite Z.shiftr_div_pow2 in H0 by lia. change (2 ^ 1) with 2 in H0.
  pose proof (Z.div_mod d 2). rewrite Zmod_odd in *. destruct (Z.odd d); lia.
Qed.

Lemma crc_bits_zero n d : u32 d → Nat.iter n crc_bit d = 0 → d = 0.
Proof.
  intros Hd. induction n as [|n IH]; [done|]. rewrite iter_S. intros H0%crc_bit_zero; [by apply IH|].
  by apply u32_crc_bits.
Qed.

Lemma lxor_cancel a b w : Z.lxor a w = Z.lxor b w → a = b.
Proof.
  intros H. apply (f_equal (λ z, Z.lxor z w)) in H. by rewrite !Z.lxor_assoc, Z.lxor_nilpotent, !Z.lxor_0_r in H.
Qed.

(** A run of bytes as one word, the first byte lowest. *)
Fixpoint word (l : list Z) : Z := match l with [] => 0 | b :: l' => Z.lxor b (Z.shiftl (word l') 8) end.

Lemma crc_run_word l c : foldl crc_byte c l = Nat.iter (8 * length l) crc_bit (Z.lxor c (word l)).
Proof.
  revert c. induction l as [|b l IH]; intros c; [cbn; by rewrite Z.lxor_0_r|]. cbn [foldl word length].
  rewrite IH. replace (8 * S (length l))%nat with (8 * length l + 8)%nat by lia. rewrite iter_add. f_equal.
  unfold crc_byte. rewrite <- Z.lxor_assoc, (crc_bits_lxor 8 (Z.lxor c b)). by rewrite (crc_bits_shiftl 8).
Qed.

Lemma word_cons b w : byte b → Z.lxor b (Z.shiftl w 8) = b + w * 256.
Proof.
  intros Hb. rewrite <- Z.add_nocarry_lxor; [by rewrite Z.shiftl_mul_pow2|].
  apply Z.bits_inj'. intros n Hn. rewrite Z.land_spec, Z.bits_0. destruct (Z.ltb_spec n 8).
  - by rewrite Z.shiftl_spec_low, andb_false_r.
  - rewrite <- (Z.mod_small b (2 ^ 8)) by (unfold byte in Hb; lia). by rewrite Z.mod_pow2_bits_high by lia.
Qed.

Lemma word_inj x y : Forall byte x → Forall byte y → length x = length y → word x = word y → x = y.
Proof.
  intros Hx. revert y. induction Hx as [|a x Ha Hx IH]; intros [|b y]; try done. cbn [word length].
  intros [Hb Hy]%Forall_cons [= Hlen] Hw.
  rewrite !word_cons in Hw by done. unfold byte in Ha, Hb.
  f_equal; [lia|]. apply IH; [done|done|lia].
Qed.

Lemma word_range l : Forall byte l → 0 ≤ word l < 2 ^ (8 * Z.of_nat (length l)).
Proof.
  induction 1 as [|b l Hb _ IH]; [cbn; lia|]. cbn [word length]. unfold byte in Hb.
  rewrite word_cons, Nat2Z.inj_succ by done.
  replace (8 * Z.succ (Z.of_nat (length l))) with (8 * Z.of_nat (length l) + 8) by lia.
  rewrite Z.pow_add_r by lia. lia.
Qed.

Lemma crc32_u32 data : Forall byte data → u32 (crc32 data).
Proof.
  intros Hd. rewrite crc32_spec by done. apply u32_lxor; [|unfold u32; lia]. apply u32_run; [done|unfold u32; lia].
Qed.

(** Other bytes in a run of at most four change the checksum. *)
Lemma crc32_burst (a x y b : list Z) :
  Forall byte (a ++ x ++ b) → Forall byte y → length x = length y → (length x ≤ 4)%nat → x ≠ y →
  crc32 (a ++ x ++ b) ≠ crc32 (a ++ y ++ b).
Proof.
  intros Hall Hy Hlen H4 Hne. pose proof Hall as [Ha [Hx Hb]%Forall_app]%Forall_app.
  rewrite !crc32_spec; [|by rewrite !Forall_app|done]. unfold crc_spec.
  intros Heq. apply Hne, word_inj; [done..|]. apply Z.lxor_eq.
  rewrite !foldl_app in Heq. set (c := foldl crc_byte _ a) in Heq.
  rewrite !(crc_run_word b), !(crc_run_word _ c), <- Hlen in Heq.
  assert (Hz : Nat.iter (8 * length b + 8 * length x) crc_bit (Z.lxor (word x) (word y)) = 0).
  { apply lxor_cancel in Heq. rewrite !(crc_bits_lxor _ _ (word b)), <- !iter_add in Heq. apply lxor_cancel in Heq.
    rewrite !(Z.lxor_comm c), !crc_bits_lxor in Heq. apply lxor_cancel in Heq.
    by rewrite crc_bits_lxor, Heq, Z.lxor_nilpotent. }
  apply crc_bits_zero in Hz; [done|].
  assert (Hp : 2 ^ (8 * Z.of_nat (length x)) ≤ 2 ^ 32) by (apply Z.pow_le_mono_r; lia).
  pose proof (word_range x Hx). pose proof (word_range y Hy) as Hwy. rewrite <- Hlen in Hwy.
  apply u32_lxor; unfold u32; lia.
Qed.

(** The checksum is CRC-32.  On every buffer the table-driven loop of [crc32],
    with its signed 32-bit intermediate values, computes the CRC-32 of the
    reversed polynomial 0xEDB88320 bit by bit, an unsigned 32-bit number; and it
    detects every corruption confined to four consecutive bytes: replacing them
    by other bytes of the same number changes the checksum. *)
Theorem crc32_detects (a x y b : list Z) :
  Forall byte (a ++ x ++ b) → Forall byte y →
  crc32 (a ++ x ++ b) = crc_spec (a ++ x ++ b) ∧ u32 (crc32 (a ++ x ++ b)) ∧
  (length x = length y → (length x ≤ 4)%nat → x ≠ y → crc32 (a ++ x ++ b) ≠ crc32 (a ++ y ++ b)).
Proof.
  intros Hall Hy. split; [by apply crc32_spec|]. split; [by apply crc32_u32|]. by apply crc32_burst.
Qed.

Lemma crc32_detects_witness :
  crc32_string (js "123456789") = 0xcbf43926 ∧ crc32_string (js "123456789") ≠ crc32_string (js "12x456789").
Proof.
  split; [vm_compute; reflexivity|].
  destruct (crc32_detects (utf8 (js "12")) (utf8 (js "3")) (utf8 (js "x")) (utf8 (js "456789"))) as (_ & _ & H).
  - apply (bool_decide_unpack _). vm_compute. exact I.
  - apply (bool_decide_unpack _). vm_compute. exact I.
  - apply H; [reflexivity|vm_compute; lia|discriminate].
Defined.
