(* ===== verification/EventStream.v ===== *)
(** * Event streams

    The framing of event streams (dist/index.js 14536-15193): 64-bit integers,
    messages with their checksums and typed headers, events, and the two
    chunkers, one for a complete buffer and one for a stream that arrives in
    arbitrary pieces. *)

From stdpp Require Import base strings list.
From Stdlib Require Import ZArith Lia.
From S2P Require Import Prelude JsValue Json JsText UriUtil Buffers Crc32.

Local Open Scope Z_scope.

(** ** Int64 *)

(** An [Int64] is its buffer of eight bytes. *)
Definition new_Int64 (bytes : list Z) : result jserror (list Z) :=
  if bool_decide (length bytes ≠ 8%nat) then Throw (js_error (js "Int64 buffers must be exactly 8 bytes"))
  else Ok bytes.

(** [bytes[i]++] from the last byte on, until one does not wrap around; the
    bytes are given last first. *)
Fixpoint increment (rev_bytes : list Z) : list Z :=
  match rev_bytes with
  | [] => []
  | b :: l => let b := (b + 1) mod 256 in if Z.eqb b 0 then b :: increment l else b :: l
  end.

Definition negate (bytes : list Z) : list Z := reverse (increment (reverse ((λ b, Z.lxor b 255) <$> bytes))).

(** The loop of [fromNumber] over an integer: [remaining] is the quotient of [num]
    by [den], and storing it in a byte keeps its integral part modulo 256. *)
Fixpoint fill (i : nat) (num den : Z) (bytes : list Z) : list Z :=
  match i with
  | O => bytes
  | S i' => if Z.ltb 0 num then fill i' num (den * 256) (<[i' := (num / den) mod 256]> bytes) else bytes
  end.

(** The literal 9223372036854775807 is the number 2^63. *)
Definition fromNumber (number : Z) : result jserror (list Z) :=
  if Z.ltb (2 ^ 63) number || Z.ltb number (- 2 ^ 63) then
    Throw (js_error (num_to_str (num_of_Z number) ++ js " is too large (or, if negative, too small) to represent as an Int64"))
  else
    let bytes := fill 8 (Z.abs number) 1 (replicate 8 0) in
    new_Int64 (if Z.ltb number 0 then negate bytes else bytes).

(** [valueOf()], and the bytes after it: [slice(0)] of a buffer shares its memory,
    so the negation of a negative number is written into the integer itself. *)
Definition valueOf (bytes : list Z) : Z * list Z :=
  let negative := negb (Z.eqb (Z.land (nth 0 bytes 0) 128) 0) in
  let bytes := if negative then negate bytes else bytes in
  (hex_number (lower_hex bytes) * (if negative then -1 else 1), bytes).

(** ** splitMessage *)

Definition PRELUDE_MEMBER_LENGTH : Z := 4.
Definition PRELUDE_LENGTH : Z := PRELUDE_MEMBER_LENGTH * 2.
Definition CHECKSUM_LENGTH : Z := 4.
Definition MINIMUM_MESSAGE_LENGTH : Z := PRELUDE_LENGTH + CHECKSUM_LENGTH * 2.

Definition readUInt32BE : list Z → Z → result jserror Z := readUIntBE 4.

(** The headers and the body. *)
Definition splitMessage (message : list Z) : result jserror (list Z * list Z) :=
  let len := Z.of_nat (length message) in
  if Z.ltb len MINIMUM_MESSAGE_LENGTH
  then Throw (js_error (js "Provided message too short to accommodate event stream message overhead"))
  else
    let* reported := readUInt32BE message 0 in
    if negb (Z.eqb len reported)
    then Throw (js_error (js "Reported message length does not match received message length"))
    else
      let* expectedPreludeChecksum := readUInt32BE message PRELUDE_LENGTH in
      if negb (Z.eqb expectedPreludeChecksum (crc32 (slice message 0 PRELUDE_LENGTH)))
      then Throw (js_error (js "The prelude checksum specified in the message (" ++ Z_to_str expectedPreludeChecksum
             ++ js ") does not match the calculated CRC32 checksum."))
      else
        let* expectedMessageChecksum := readUInt32BE message (len - CHECKSUM_LENGTH) in
        if negb (Z.eqb expectedMessageChecksum (crc32 (slice message 0 (len - CHECKSUM_LENGTH))))
        then Throw (js_error (js "The message checksum did not match the expected value of "
               ++ Z_to_str expectedMessageChecksum))
        else
          let headersStart := PRELUDE_LENGTH + CHECKSUM_LENGTH in
          let* headersLength := readUInt32BE message PRELUDE_MEMBER_LENGTH in
          let headersEnd := headersStart + headersLength in
          Ok (slice message headersStart headersEnd, slice message headersEnd (len - CHECKSUM_LENGTH)).

(** ** parseHeaders *)

Inductive header :=
| HBoolean (b : bool)
| HByte (z : Z)
| HShort (z : Z)
| HInteger (z : Z)
| HLong (bytes : list Z)
| HBinary (bytes : list Z)
| HString (s : jsstr)
| HTimestamp (ms : Z)
| HUuid (s : jsstr).

#[global] Instance header_eq_dec : EqDecision header.
Proof. solve_decision. Defined.

Definition uuid_text (uuidChars : jsstr) : jsstr :=
  join (js "-") [take 8 uuidChars; take 4 (drop 8 uuidChars); take 4 (drop 12 uuidChars);
                 take 4 (drop 16 uuidChars); drop 20 uuidChars].

(** The value after the type tag [tag] at [position], the next position and the
    buffer afterwards: reading a timestamp writes its negation into the buffer
    where the timestamp is negative. *)
Definition header_value (headers : list Z) (tag position : Z) : result jserror (header * Z * list Z) :=
  if Z.eqb tag 0 then Ok (HBoolean true, position, headers)
  else if Z.eqb tag 1 then Ok (HBoolean false, position, headers)
  else if Z.eqb tag 2 then
    let* z := readIntBE 1 headers position in Ok (HByte z, position + 1, headers)
  else if Z.eqb tag 3 then
    let* z := readIntBE 2 headers position in Ok (HShort z, position + 2, headers)
  else if Z.eqb tag 4 then
    let* z := readIntBE 4 headers position in Ok (HInteger z, position + 4, headers)
  else if Z.eqb tag 5 then
    let* b := new_Int64 (slice headers position (position + 8)) in Ok (HLong b, position + 8, headers)
  else if Z.eqb tag 6 then
    let* n := readUIntBE 2 headers position in
    let position := position + 2 in
    Ok (HBinary (slice headers position (position + n)), position + n, headers)
  else if Z.eqb tag 7 then
    let* n := readUIntBE 2 headers position in
    let position := position + 2 in
    Ok (HString (utf8_decode (slice headers position (position + n))), position + n, headers)
  else if Z.eqb tag 8 then
    let* b := new_Int64 (slice headers position (position + 8)) in
    let '(ms, b') := valueOf b in
    Ok (HTimestamp ms, position + 8, copy_to headers b' (Z.to_nat position))
  else if Z.eqb tag 9 then
    Ok (HUuid (uuid_text (lower_hex (slice headers position (position + 16)))), position + 16, headers)
  else Throw (js_error (js "Unrecognized header type tag")).

(** The loop; every round moves on by at least two bytes, so the length of the
    buffer bounds the rounds. *)
Fixpoint parseHeaders_loop (fuel : nat) (headers : list Z) (position : Z) (out : list (jsstr * header)) :
    list Z * result jserror (list (jsstr * header)) :=
  if Z.ltb position (Z.of_nat (length headers)) then
    match fuel with
    | O => (headers, Throw (js_error (js "out of fuel")))
    | S fuel =>
      match (let* nameLength := readUIntBE 1 headers position in
             let position := position + 1 in
             let name := utf8_decode (slice headers position (position + nameLength)) in
             let position := position + nameLength in
             let* tag := readUIntBE 1 headers position in
             let* r := header_value headers tag (position + 1) in
             Ok (name, r)) with
      | Ok (name, (v, position, headers)) => parseHeaders_loop fuel headers position (obj_set name v out)
      | Throw e => (headers, Throw e)
      end
    end
  else (headers, Ok out).

Definition parseHeaders (headers : list Z) : list Z * result jserror (list (jsstr * header)) :=
  parseHeaders_loop (length headers) headers 0 [].

Record message := Message { msg_headers : list (jsstr * header); msg_body : list Z }.

Definition parseMessage (m : list Z) : result jserror message :=
  let* parsed := splitMessage m in
  let* headers := snd (parseHeaders parsed.1) in
  Ok (Message headers parsed.2).

(** ** parseEvent *)

(** ToString of a header's value, and the value afterwards; a date's text is the
    runtime's. *)
Definition header_text (Date_toString : Z → jsstr) (h : header) : jsstr * header :=
  match h with
  | HBoolean b => (if b then js "true" else js "false", h)
  | HByte z | HShort z | HInteger z => (Z_to_str z, h)
  | HLong b => let '(z, b') := valueOf b in (num_to_str (num_of_Z z), HLong b')
  | HBinary b => (utf8_decode b, h)
  | HString s | HUuid s => (s, h)
  | HTimestamp ms => (Date_toString ms, h)
  end.

Definition header_truthy (h : header) : bool :=
  match h with
  | HBoolean b => b
  | HByte z | HShort z | HInteger z => negb (Z.eqb z 0)
  | HString s | HUuid s => negb (str_eqb s [])
  | HLong _ | HBinary _ | HTimestamp _ => true
  end.

(** [header.value === s]. *)
Definition header_is (s : jsstr) (h : header) : bool :=
  match h with HString t | HUuid t => str_eqb t s | _ => false end.

(** What parsing an event throws: an error of the runtime, or the error the
    message carries, its text and its code; the code is the header itself
    ([None]) where its value is falsy. *)
Inductive event_error :=
| RuntimeError (e : jserror)
| ServiceError (text : jsstr) (code : option header).

Definition no_property (name : string) : event_error :=
  RuntimeError (mk_error (js "TypeError") (js "Cannot read properties of undefined (reading '" ++ js name ++ js "')")).

Section events.
(** The values a parsed payload and a header become, and the event model: the
    payload member and its parser, the members read from headers. *)
Context {V : Type} (Date_toString : Z → jsstr) (buffer_value : list Z → V).

Record event_member := EventMember {
  em_type : jsstr;
  em_parse : jsstr → result jserror V;   (* [parser.parse(text, shape)] *)
  em_toType : header → V;
}.

Record event_model := EventModel {
  eventPayloadMemberName : option jsstr;
  eventHeaderMemberNames : list jsstr;
  event_members : list (jsstr * event_member);
}.

Definition parseError (m : message) : event_error :=
  match obj_get (js ":error-message") (msg_headers m), obj_get (js ":error-code") (msg_headers m) with
  | None, _ => no_property "value"
  | Some _, None => no_property "value"
  | Some h, Some c =>
    ServiceError (if header_truthy h then (header_text Date_toString h).1 else js "[object Object]")
      (if header_truthy c then Some c else None)
  end.

Definition lift {A} (m : result jserror A) : result event_error A :=
  match m with Ok a => Ok a | Throw e => Throw (RuntimeError e) end.

Definition event_payload (m : message) (em : event_model) : result event_error (list (jsstr * V)) :=
  match eventPayloadMemberName em with
  | None => Ok []
  | Some name =>
    match obj_get name (event_members em) with
    | None => Throw (no_property "type")
    | Some s =>
      if str_eqb (em_type s) (js "binary") then Ok [(name, buffer_value (msg_body m))]
      else let* v := lift (em_parse s (utf8_decode (msg_body m))) in Ok [(name, v)]
    end
  end.

(** The headers of the model that the message has, in the order of the model. *)
Fixpoint event_headers (m : message) (em : event_model) (names : list jsstr) (result : list (jsstr * V)) :
    Prelude.result event_error (list (jsstr * V)) :=
  match names with
  | [] => Ok result
  | name :: names =>
    match obj_get name (msg_headers m) with
    | None => event_headers m em names result
    | Some h =>
      match obj_get name (event_members em) with
      | None => Throw (no_property "toType")
      | Some s => event_headers m em names (obj_set name (em_toType s h) result)
      end
    end
  end.

(** [None] is the result [undefined]. *)
Definition parseEvent (members : list (jsstr * event_model)) (bytes : list Z) :
    result event_error (option (jsstr * list (jsstr * V))) :=
  let* m := lift (parseMessage bytes) in
  let messageType := obj_get (js ":message-type") (msg_headers m) in
  if match messageType with Some h => header_is (js "error") h | None => false end then Throw (parseError m)
  else if match messageType with Some h => negb (header_is (js "event") h) | None => false end then Ok None
  else
    match obj_get (js ":event-type") (msg_headers m) with
    | None => Throw (no_property "value")
    | Some eventType =>
      let '(key, eventType) := header_text Date_toString eventType in
      match obj_get key members with
      | None => Ok None
      | Some em =>
        let* result := event_payload m em in
        let* result := event_headers m em (eventHeaderMemberNames em) result in
        Ok (Some ((header_text Date_toString eventType).1, result))
      end
    end.

(** ** The chunker of a complete buffer *)

(** [None]: the loop has not ended within [fuel] rounds. *)
Fixpoint chunk_loop (fuel : nat) (buffer : list Z) (offset : Z) (messages : list (list Z)) :
    option (result jserror (list (list Z))) :=
  if Z.ltb offset (Z.of_nat (length buffer)) then
    match fuel with
    | O => None
    | S fuel =>
      match readIntBE 4 buffer offset with
      | Throw e => Some (Throw e)
      | Ok totalLength =>
        chunk_loop fuel buffer (offset + totalLength) (messages ++ [slice buffer offset (totalLength + offset)])
      end
    end
  else Some (Ok messages).

Definition eventMessageChunker (fuel : nat) (buffer : list Z) : option (result jserror (list (list Z))) :=
  chunk_loop fuel buffer 0 [].

Fixpoint parse_all (members : list (jsstr * event_model)) (messages : list (list Z)) :
    result event_error (list (option (jsstr * list (jsstr * V)))) :=
  match messages with
  | [] => Ok []
  | m :: messages =>
    let* e := parseEvent members m in
    let* es := parse_all members messages in
    Ok (e :: es)
  end.

(** [createEventStream(body, parser, model)]. *)
Definition createEventStream_buffer (fuel : nat) (members : list (jsstr * event_model)) (body : list Z) :
    option (result event_error (list (option (jsstr * list (jsstr * V))))) :=
  (λ r, let* ms := lift r in parse_all members ms) <$> eventMessageChunker fuel body.
End events.
Arguments EventMember {V}.
Arguments EventModel {V}.

(** ** The format *)

(** The headers a message can carry on the wire, their bytes and the values they
    stand for. *)
Inductive wire :=
| WBoolean (b : bool)
| WByte (z : Z)
| WShort (z : Z)
| WInteger (z : Z)
| WLong (bytes : list Z)
| WBinary (bytes : list Z)
| WString (s : jsstr)
| WTimestamp (ms : Z)
| WUuid (bytes : list Z).

Definition signed_bytes (n : nat) (z : Z) : list Z := be_bytes n (z mod 2 ^ (8 * Z.of_nat n)).
Definition counted (l : list Z) : list Z := be_bytes 2 (Z.of_nat (length l)) ++ l.

Definition wire_bytes (w : wire) : list Z :=
  match w with
  | WBoolean b => [if b then 0 else 1]
  | WByte z => 2 :: signed_bytes 1 z
  | WShort z => 3 :: signed_bytes 2 z
  | WInteger z => 4 :: signed_bytes 4 z
  | WLong b => 5 :: b
  | WBinary b => 6 :: counted b
  | WString s => 7 :: counted (utf8 s)
  | WTimestamp ms => 8 :: signed_bytes 8 ms
  | WUuid b => 9 :: b
  end.

Definition wire_header (w : wire) : header :=
  match w with
  | WBoolean b => HBoolean b
  | WByte z => HByte z
  | WShort z => HShort z
  | WInteger z => HInteger z
  | WLong b => HLong b
  | WBinary b => HBinary b
  | WString s => HString s
  | WTimestamp ms => HTimestamp ms
  | WUuid b => HUuid (uuid_text (lower_hex b))
  end.

(** The values the format can express; timestamps are the numbers a double can
    represent exactly. *)
Definition signed_range (n : nat) (z : Z) : Prop := - 2 ^ (8 * Z.of_nat n - 1) ≤ z < 2 ^ (8 * Z.of_nat n - 1).
Definition wire_ok (w : wire) : Prop :=
  match w with
  | WBoolean _ => True
  | WByte z => signed_range 1 z
  | WShort z => signed_range 2 z
  | WInteger z => signed_range 4 z
  | WLong b => Forall byte_ok b ∧ length b = 8%nat
  | WBinary b => Forall byte_ok b ∧ Z.of_nat (length b) < 65536
  | WString s => well_formed s ∧ Z.of_nat (length (utf8 s)) < 65536
  | WTimestamp ms => - 2 ^ 53 ≤ ms ≤ 2 ^ 53
  | WUuid b => Forall byte_ok b ∧ length b = 16%nat
  end.

Definition header_bytes (h : jsstr * wire) : list Z :=
  Z.of_nat (length (utf8 h.1)) :: utf8 h.1 ++ wire_bytes h.2.
Definition headers_bytes (hs : list (jsstr * wire)) : list Z := flat_map header_bytes hs.

Definition header_ok (h : jsstr * wire) : Prop :=
  well_formed h.1 ∧ Z.of_nat (length (utf8 h.1)) < 256 ∧ wire_ok h.2.

(** A message of the format: two lengths and their checksum, the headers, the body
    and the checksum of all of it. *)
Definition message_bytes (headers body : list Z) : list Z :=
  let prelude := be_bytes 4 (16 + Z.of_nat (length headers) + Z.of_nat (length body)) ++
                 be_bytes 4 (Z.of_nat (length headers)) in
  let checked := prelude ++ be_bytes 4 (crc32 prelude) ++ headers ++ body in
  checked ++ be_bytes 4 (crc32 checked).

(** *** 64-bit integers *)

Lemma be_value_cons b l : be_value (b :: l) = b * 256 ^ Z.of_nat (length l) + be_value l.
Proof. exact (be_value_app [b] l). Qed.

Lemma increment_bytes l : Forall byte_ok l → Forall byte_ok (increment l) ∧ length (increment l) = length l.
Proof.
  induction 1 as [|b l Hb Hl [IH1 IH2]]; [done|]. cbn [increment].
  assert (byte_ok ((b + 1) mod 256)) by (unfold byte_ok; apply Z.mod_pos_bound; lia).
  destruct (Z.eqb _ 0); cbn [length]; split; try constructor; try done. by rewrite IH2.
Qed.

Lemma increment_value l : Forall byte_ok l →
  be_value (reverse (increment l)) = (be_value (reverse l) + 1) mod 256 ^ Z.of_nat (length l).
Proof.
  induction 1 as [|b l Hb Hl IH]; [done|]. cbn [increment length]. rewrite Nat2Z.inj_succ, Z.pow_succ_r by lia.
  assert (Hlr : 0 ≤ be_value (reverse l) < 256 ^ Z.of_nat (length l)).
  { rewrite <- (length_reverse l). by apply be_value_range, Forall_reverse. }
  assert (Hone : ∀ (x : Z) k, be_value (reverse (x :: k)) = be_value (reverse k) * 256 + x).
  { intros x k. rewrite reverse_cons, be_value_app. done. }
  unfold byte_ok in Hb. destruct (Z.eqb_spec ((b + 1) mod 256) 0) as [E|E]; rewrite !Hone.
  - assert (b = 255) as -> by (Z.to_euclidean_division_equations; lia). rewrite IH.
    replace (be_value (reverse l) * 256 + 255 + 1) with (256 * (be_value (reverse l) + 1)) by lia.
    rewrite Z.mul_mod_distr_l by lia. change ((255 + 1) mod 256) with 0. lia.
  - rewrite Z.mod_small by (Z.to_euclidean_division_equations; lia).
    rewrite Z.mod_small by (Z.to_euclidean_division_equations; nia). lia.
Qed.

Lemma complement_value l : Forall byte_ok l →
  Forall byte_ok ((λ b, Z.lxor b 255) <$> l) ∧
  be_value ((λ b, Z.lxor b 255) <$> l) = 256 ^ Z.of_nat (length l) - 1 - be_value l.
Proof.
  assert (Hx : ∀ b, byte_ok b → Z.lxor b 255 = 255 - b).
  { intros b Hb. assert (H : Forall (λ b, Z.lxor b 255 = 255 - b) (Z.of_nat <$> seq 0 256)) by js_decide.
    rewrite Forall_forall in H. apply H, list_elem_of_fmap. unfold byte_ok in Hb.
    exists (Z.to_nat b). split; [lia|]. apply elem_of_seq. lia. }
  induction 1 as [|b l Hb Hl [IH1 IH2]]; [done|]. rewrite fmap_cons, (Hx b Hb). split.
  - constructor; [unfold byte_ok in *; lia|done].
  - rewrite !be_value_cons, IH2, length_fmap. cbn [length]. rewrite Nat2Z.inj_succ, Z.pow_succ_r by lia. lia.
Qed.

Lemma negate_spec l : Forall byte_ok l →
  Forall byte_ok (negate l) ∧ length (negate l) = length l ∧
  be_value (negate l) = (- be_value l) mod 256 ^ Z.of_nat (length l).
Proof.
  intros Hl. destruct (complement_value l Hl) as [Hc Hv]. unfold negate.
  set (c := (λ b, Z.lxor b 255) <$> l) in *. assert (Hlen : length c = length l) by apply length_fmap.
  destruct (increment_bytes (reverse c)) as [H1 H2]; [by apply Forall_reverse|].
  split; [by apply Forall_reverse|]. split; [by rewrite length_reverse, H2, length_reverse|].
  rewrite increment_value, reverse_involutive, length_reverse, Hlen, Hv by (by apply Forall_reverse).
  rewrite <- (Z.mod_add (- be_value l) 1) by lia. f_equal. lia.
Qed.

Lemma sign_bit b : byte_ok b → negb (Z.eqb (Z.land b 128) 0) = Z.leb 128 b.
Proof.
  intros Hb. assert (H : Forall (λ b, negb (Z.eqb (Z.land b 128) 0) = Z.leb 128 b) (Z.of_nat <$> seq 0 256)) by js_decide.
  rewrite Forall_forall in H. apply H, list_elem_of_fmap. unfold byte_ok in Hb.
  exists (Z.to_nat b). split; [lia|]. apply elem_of_seq. lia.
Qed.

(** [valueOf] is the two's complement value; where it is negative, its negation is
    left in the integer. *)
Lemma valueOf_spec l : Forall byte_ok l → length l = 8%nat →
  valueOf l = (to_signed 8 (be_value l), if Z.ltb (be_value l) (2 ^ 63) then l else negate l).
Proof.
  intros Hl Hlen. pose proof (be_value_range l Hl) as Hr. rewrite Hlen in Hr. change (256 ^ Z.of_nat 8) with (2 ^ 64) in Hr.
  destruct l as [|b l]; [done|]. injection Hlen as Hlen'. pose proof Hl as [Hb Hl']%Forall_cons.
  assert (Hneg : negb (Z.eqb (Z.land b 128) 0) = negb (Z.ltb (be_value (b :: l)) (2 ^ 63))).
  { rewrite sign_bit, be_value_cons, Hlen' by done. pose proof (be_value_range l Hl') as Hr'. rewrite Hlen' in Hr'.
    change (256 ^ Z.of_nat 7) with (2 ^ 56) in *. lia. }
  unfold valueOf. cbn [nth]. rewrite Hneg. unfold to_signed. change (8 * Z.of_nat 8 - 1) with 63. change (8 * Z.of_nat 8) with 64.
  destruct (Z.ltb_spec (be_value (b :: l)) (2 ^ 63)); cbn [negb].
  - rewrite hex_number_bytes by done. f_equal. lia.
  - destruct (negate_spec (b :: l) Hl) as (Hn & _ & Hv). rewrite hex_number_bytes, Hv by done.
    f_equal. cbn [length]. rewrite Hlen'. change (256 ^ Z.of_nat 8) with (2 ^ 64).
    rewrite <- (Z.mod_add _ 1), Z.mod_small by lia. lia.
Qed.

Lemma fill_spec i num den bytes : 0 < num → 0 < den → (i ≤ length bytes)%nat →
  fill i num den bytes = be_bytes i (num / den) ++ drop i bytes.
Proof.
  revert den bytes. induction i as [|i IH]; intros den bytes Hnum Hden Hi; [done|]. cbn [fill be_bytes].
  rewrite (proj2 (Z.ltb_lt 0 num)), IH, Z.div_div by (rewrite ?length_insert; lia || done).
  rewrite <- (assoc_L (++)). f_equal. rewrite insert_take_drop by lia.
  by rewrite drop_app_length' by (rewrite length_take; lia).
Qed.

Lemma fromNumber_bytes n : - 2 ^ 63 ≤ n ≤ 2 ^ 63 → fromNumber n = Ok (be_bytes 8 (n mod 2 ^ 64)).
Proof.
  intros Hn. unfold fromNumber. destruct (Z.ltb_spec (2 ^ 63) n), (Z.ltb_spec n (- 2 ^ 63)); try lia. cbn [orb].
  assert (Hfill : fill 8 (Z.abs n) 1 (replicate 8 0) = be_bytes 8 (Z.abs n)).
  { destruct (decide (n = 0)) as [->|]; [vm_compute; reflexivity|].
    rewrite fill_spec, Z.div_1_r by (cbn; lia). apply app_nil_r. }
  rewrite Hfill. unfold new_Int64.
  assert (Hb : (if Z.ltb n 0 then negate (be_bytes 8 (Z.abs n)) else be_bytes 8 (Z.abs n)) = be_bytes 8 (n mod 2 ^ 64)).
  { destruct (Z.ltb_spec n 0); [|by rewrite Z.mod_small, Z.abs_eq by lia].
    destruct (negate_spec (be_bytes 8 (Z.abs n)) (be_bytes_ok _ _)) as (Hok & Hlen & H3).
    rewrite be_bytes_length in Hlen, H3. rewrite be_value_bytes in H3 by (change (256 ^ Z.of_nat 8) with (2 ^ 64); lia).
    replace (- Z.abs n) with n in H3 by lia. change (256 ^ Z.of_nat 8) with (2 ^ 64) in H3.
    pose proof (be_bytes_value _ Hok) as Hx. by rewrite Hlen, H3 in Hx. }
  rewrite Hb, bool_decide_false; [done|]. rewrite be_bytes_length. auto.
Qed.

(** A 64-bit integer survives its encoding once.  Every integer that a double
    represents exactly is accepted by [fromNumber] and read back by [valueOf].
    But [valueOf] works on a slice that shares the memory of the integer: reading
    a negative integer leaves its negation behind, so that reading it again
    returns the opposite number.  And the bound of [fromNumber] is off: 2^63, which
    is not representable, is accepted and read back as -2^63. *)
Theorem int64_reads_once (n : Z) :
  - 2 ^ 53 ≤ n ≤ 2 ^ 53 →
  (∃ bytes, fromNumber n = Ok bytes ∧ length bytes = 8%nat ∧ (valueOf bytes).1 = n ∧
     (0 ≤ n → (valueOf (valueOf bytes).2).1 = n) ∧ (n < 0 → (valueOf (valueOf bytes).2).1 = - n)) ∧
  (∃ bytes, fromNumber (2 ^ 63) = Ok bytes ∧ (valueOf bytes).1 = - 2 ^ 63).
Proof.
  intros Hn. split.
  2: { eexists. split; [apply fromNumber_bytes; lia|]. vm_compute. reflexivity. }
  eexists. split; [apply fromNumber_bytes; lia|]. split; [apply be_bytes_length|].
  set (l := be_bytes 8 (n mod 2 ^ 64)). assert (Hl : Forall byte_ok l) by apply be_bytes_ok.
  assert (Hlen : length l = 8%nat) by apply be_bytes_length.
  assert (Hv : be_value l = n mod 2 ^ 64).
  { apply be_value_bytes. change (256 ^ Z.of_nat 8) with (2 ^ 64). apply Z.mod_pos_bound. lia. }
  assert (Hs : to_signed 8 (be_value l) = n) by (apply to_signed_bytes; [lia|change (8 * Z.of_nat 8 - 1) with 63; lia]).
  rewrite valueOf_spec by done. cbn [fst snd]. split; [done|]. rewrite Hv. split; intros Hsign.
  - rewrite Z.mod_small by lia. rewrite (proj2 (Z.ltb_lt n (2 ^ 63))) by lia. by rewrite valueOf_spec.
  - assert (Hu : n mod 2 ^ 64 = n + 2 ^ 64) by (rewrite <- (Z.mod_add n 1), Z.mod_small by lia; lia).
    rewrite Hu. destruct (Z.ltb_spec (n + 2 ^ 64) (2 ^ 63)); [lia|].
    destruct (negate_spec l Hl) as (Hok' & Hlen' & Hv'). rewrite valueOf_spec by (done || lia). cbn [fst].
    rewrite Hv', Hlen, Hv, Hu. change (256 ^ Z.of_nat 8) with (2 ^ 64).
    rewrite <- (Z.mod_add (- _) 1), Z.mod_small by lia. unfold to_signed. change (8 * Z.of_nat 8 - 1) with 63.
    destruct (Z.ltb_spec (- (n + 2 ^ 64) + 1 * 2 ^ 64) (2 ^ 63)); lia.
Qed.

Lemma int64_reads_once_witness :
  (∃ bytes, fromNumber (-5) = Ok bytes ∧ (valueOf bytes).1 = -5 ∧ (valueOf (valueOf bytes).2).1 = 5).
Proof.
  destruct (int64_reads_once (-5)) as [(bytes & H1 & _ & H2 & _ & H3) _]; [lia|].
  exists bytes. split; [exact H1|]. split; [exact H2|]. apply H3. lia.
Defined.

(** *** Messages *)

Lemma byte_ok_byte l : Forall byte_ok l → Forall byte l.
Proof. done. Qed.

Lemma crc_bytes l : Forall byte_ok l → be_value (be_bytes 4 (crc32 l)) = crc32 l.
Proof. intros Hl%crc32_u32. by apply be_value_bytes. Qed.

(** A message is split into the headers and the body it was made of. *)
Lemma splitMessage_bytes headers body :
  Forall byte_ok headers → Forall byte_ok body → 16 + Z.of_nat (length headers) + Z.of_nat (length body) < 2 ^ 32 →
  splitMessage (message_bytes headers body) = Ok (headers, body).
Proof.
  intros Hh Hb Hsize. unfold message_bytes. set (total := 16 + _ + _).
  set (A := be_bytes 4 total). set (B := be_bytes 4 (Z.of_nat (length headers))).
  set (C := be_bytes 4 (crc32 (A ++ B))). set (checked := (A ++ B) ++ C ++ headers ++ body).
  assert (HA : length A = 4%nat) by apply be_bytes_length. assert (HB : length B = 4%nat) by apply be_bytes_length.
  assert (HC : length C = 4%nat) by apply be_bytes_length.
  assert (Hc : Forall byte_ok checked) by (unfold checked; rewrite !Forall_app; split_and!; try done; apply be_bytes_ok).
  assert (Hlen : Z.of_nat (length checked) = total - 4) by (unfold checked; rewrite !length_app; lia).
  set (D := be_bytes 4 (crc32 checked)). assert (HD : length D = 4%nat) by apply be_bytes_length.
  set (m := checked ++ D). assert (Hm : Z.of_nat (length m) = total) by (unfold m; rewrite length_app; lia).
  assert (Hflat : m = A ++ B ++ C ++ headers ++ body ++ D) by (unfold m, checked; by rewrite <- !(assoc_L (++))).
  assert (VA : be_value A = total) by (apply be_value_bytes; change (256 ^ Z.of_nat 4) with (2 ^ 32); lia).
  assert (VB : be_value B = Z.of_nat (length headers)) by (apply be_value_bytes; change (256 ^ Z.of_nat 4) with (2 ^ 32); lia).
  assert (VC : be_value C = crc32 (A ++ B)) by (apply crc_bytes, Forall_app; split; apply be_bytes_ok).
  assert (VD : be_value D = crc32 checked) by (by apply crc_bytes).
  unfold splitMessage, readUInt32BE, PRELUDE_LENGTH, MINIMUM_MESSAGE_LENGTH, PRELUDE_LENGTH, CHECKSUM_LENGTH, PRELUDE_MEMBER_LENGTH.
  rewrite Hm. destruct (Z.ltb_spec total (4 * 2 + 4 * 2)); [lia|].
  rewrite (read_at 4 m [] A (B ++ C ++ headers ++ body ++ D)) by done. cbn [rbind].
  rewrite VA, Z.eqb_refl. cbn [negb].
  rewrite (read_at 4 m (A ++ B) C (headers ++ body ++ D)) by (rewrite ?Hflat, ?length_app, <- ?(assoc_L (++)); done || lia). cbn [rbind].
  rewrite (slice_at m [] (A ++ B) (C ++ headers ++ body ++ D)) by (rewrite ?Hflat, ?length_app, <- ?(assoc_L (++)); done || (cbn; lia)).
  rewrite VC, Z.eqb_refl. cbn [negb].
  rewrite (read_at 4 m checked D []) by (rewrite ?app_nil_r; done || lia). cbn [rbind].
  rewrite (slice_at m [] checked D) by (done || (cbn; lia)). rewrite VD, Z.eqb_refl. cbn [negb].
  rewrite (read_at 4 m A B (C ++ headers ++ body ++ D)) by (done || lia). cbn [rbind].
  rewrite VB. f_equal. f_equal.
  - apply (slice_at m (A ++ B ++ C) headers (body ++ D)); rewrite ?Hflat, ?length_app, <- ?(assoc_L (++)); done || lia.
  - apply (slice_at m (A ++ B ++ C ++ headers) body D); rewrite ?Hflat, ?length_app, <- ?(assoc_L (++)); done || lia.
Qed.

(** What is accepted carries the checksum of everything before it. *)
Lemma splitMessage_checked m r :
  splitMessage m = Ok r →
  ∃ checked sum, m = checked ++ sum ∧ length sum = 4%nat ∧ be_value sum = crc32 checked.
Proof.
  unfold splitMessage, MINIMUM_MESSAGE_LENGTH, PRELUDE_LENGTH, PRELUDE_MEMBER_LENGTH, CHECKSUM_LENGTH.
  destruct (Z.ltb_spec (Z.of_nat (length m)) (4 * 2 + 4 * 2)); [done|].
  intros (x1 & _ & H1)%rbind_ok. destruct (Z.eqb _ x1); [|done]. cbn [negb] in H1.
  apply rbind_ok in H1 as (x2 & _ & H2). destruct (Z.eqb x2 _); [|done]. cbn [negb] in H2.
  apply rbind_ok in H2 as (x3 & H3 & H4). destruct (Z.eqb_spec x3 (crc32 (slice m 0 (Z.of_nat (length m) - 4)))) as [E|]; [|done].
  set (k := (length m - 4)%nat). exists (take k m), (drop k m). split; [by rewrite take_drop|].
  assert (Hd : length (drop k m) = 4%nat) by (rewrite length_drop; lia).
  assert (Ht : length (take k m) = k) by (rewrite length_take; lia). split; [done|].
  unfold readUInt32BE in H3. rewrite (read_at 4 m (take k m) (drop k m) []) in H3;
    [|by rewrite app_nil_r, take_drop|done|lia]. injection H3 as H3. rewrite H3, E. f_equal.
  apply (slice_at m [] (take k m) (drop k m)); [by rewrite <- (take_drop k m) at 1|done|cbn; lia].
Qed.

Lemma be_value_inj l k : Forall byte_ok l → Forall byte_ok k → length l = length k → be_value l = be_value k → l = k.
Proof.
  intros Hl Hk Hlen Hv. rewrite <- (be_bytes_value l Hl), <- (be_bytes_value k Hk). by rewrite Hlen, Hv.
Qed.

(** Four bytes that straddle the body and the checksum of a message, and four
    others that keep it valid. *)
Lemma straddling_change :
  let start := [0; 0; 0; 18; 0; 0; 0; 0; 127; 2; 27; 139] in
  message_bytes [] [104; 105] = start ++ [104; 105; 84; 167] ++ [244; 21] ∧
  splitMessage (start ++ [9; 177; 160; 73] ++ [244; 21]) = Ok ([], [9; 177]).
Proof. vm_compute. split; reflexivity. Qed.

(** C38. A corrupted message is rejected.  A message with its checksum is split into
    the headers and the body it was made of; after any change of at most four
    consecutive bytes that lie all before its final checksum or all within it,
    [splitMessage] throws.  A change across that border may go undetected: there
    is a message two of whose body bytes and two of whose checksum bytes can be
    replaced so that it is accepted with another body. *)
Theorem corruption_detected (headers body a x y b : list Z) :
  Forall byte_ok headers → Forall byte_ok body → 16 + Z.of_nat (length headers) + Z.of_nat (length body) < 2 ^ 32 →
  splitMessage (message_bytes headers body) = Ok (headers, body) ∧
  (message_bytes headers body = a ++ x ++ b → Forall byte_ok y → length x = length y → (length x ≤ 4)%nat → x ≠ y →
   (4 ≤ length b)%nat ∨ (length (x ++ b) ≤ 4)%nat → ∃ e, splitMessage (a ++ y ++ b) = Throw e) ∧
  (∃ body body' a x y b, message_bytes [] body = a ++ x ++ b ∧ length x = length y ∧ length x = 4%nat ∧ body ≠ body' ∧
     splitMessage (a ++ y ++ b) = Ok ([], body')).
Proof.
  intros Hh Hb Hsize. split; [by apply splitMessage_bytes|]. split.
  2: { destruct straddling_change as [H1 H2]. do 6 eexists. split_and!; [exact H1|..|exact H2]; done. }
  intros Hm Hy Hlen H4 Hne Hplace.
  assert (Hall : Forall byte_ok (a ++ x ++ b)).
  { rewrite <- Hm. unfold message_bytes. rewrite !Forall_app. split_and!; try done; apply be_bytes_ok. }
  pose proof (splitMessage_bytes headers body Hh Hb Hsize) as Hok. rewrite Hm in Hok.
  destruct (splitMessage (a ++ y ++ b)) as [r|e] eqn:Hbad; [|by exists e]. exfalso.
  apply splitMessage_checked in Hok as (c1 & s1 & E1 & L1 & V1).
  apply splitMessage_checked in Hbad as (c2 & s2 & E2 & L2 & V2).
  destruct Hplace as [Hplace|Hplace].
  - rewrite <- (take_drop (length b - 4) b) in E1, E2. rewrite !(assoc_L (++)) in E1, E2.
    apply app_inj_2 in E1 as [<- <-]; [|rewrite length_drop; lia]. apply app_inj_2 in E2 as [<- <-]; [|rewrite length_drop; lia].
    rewrite V1 in V2. rewrite <- !(assoc_L (++)) in V2. revert V2. apply crc32_burst; try done.
    rewrite <- (take_drop (length b - 4) b), !(assoc_L (++)) in Hall. apply Forall_app in Hall as [Hall _].
    by rewrite <- (assoc_L (++)) in Hall.
  - assert (Hk : ∃ a1 a2, a = a1 ++ a2 ∧ length (a2 ++ x ++ b) = 4%nat).
    { exists (take (length (a ++ x ++ b) - 4) a), (drop (length (a ++ x ++ b) - 4) a). rewrite take_drop. split; [done|].
      rewrite E1, length_app in *. apply (f_equal length) in E1. rewrite !length_app in *. rewrite length_drop. lia. }
    destruct Hk as (a1 & a2 & -> & Hlen4). rewrite <- (assoc_L (++)) in E1, E2, Hall. rewrite !length_app in Hlen4.
    apply app_inj_2 in E1 as [<- <-]; [|rewrite !length_app; lia]. apply app_inj_2 in E2 as [<- <-]; [|rewrite !length_app; lia].
    rewrite <- V1 in V2. rewrite !Forall_app in Hall. destruct Hall as (_ & Ha2 & Hx & Hb').
    apply be_value_inj in V2; [|rewrite !Forall_app; done..|rewrite !length_app; lia].
    apply app_inv_head, app_inj_2 in V2 as [V2 _]; done.
Qed.

Lemma corruption_detected_witness :
  splitMessage (message_bytes [] [104; 105]) = Ok ([], [104; 105]) ∧
  ∃ e, splitMessage (<[12%nat := 105]> (message_bytes [] [104; 105])) = Throw e.
Proof.
  set (m := message_bytes [] [104; 105]).
  destruct (corruption_detected [] [104; 105] (take 12 m) [104] [105] (drop 13 m)) as (H1 & H2 & _).
  - constructor.
  - repeat constructor; done.
  - vm_compute. reflexivity.
  - split; [exact H1|]. apply H2.
    + vm_compute. reflexivity.
    + repeat constructor; done.
    + reflexivity.
    + vm_compute. lia.
    + discriminate.
    + left. vm_compute. lia.
Defined.

(** *** Headers *)

(** The type tag of a header and the bytes behind it. *)
Definition wire_tag (w : wire) : Z := hd 0 (wire_bytes w).
Definition wire_payload (w : wire) : list Z := tl (wire_bytes w).

Lemma wire_bytes_split w : wire_bytes w = wire_tag w :: wire_payload w.
Proof. by destruct w. Qed.

Lemma read_signed n pre z post : (0 < n)%nat → signed_range n z →
  readIntBE n (pre ++ signed_bytes n z ++ post) (Z.of_nat (length pre)) = Ok z.
Proof.
  intros Hn Hz. unfold readIntBE. rewrite read_be by apply be_bytes_length. cbn [rbind]. f_equal. by apply to_signed_bytes.
Qed.

Lemma read_counted pre l post :
  Z.of_nat (length l) < 65536 →
  readUIntBE 2 (pre ++ counted l ++ post) (Z.of_nat (length pre)) = Ok (Z.of_nat (length l)) ∧
  slice (pre ++ counted l ++ post) (Z.of_nat (length pre) + 2) (Z.of_nat (length pre) + 2 + Z.of_nat (length l)) = l.
Proof.
  intros Hl. unfold counted. split.
  - rewrite <- (assoc_L (++)), read_be by apply be_bytes_length. f_equal. apply be_value_bytes.
    change (256 ^ Z.of_nat 2) with 65536. lia.
  - apply (slice_at _ (pre ++ be_bytes 2 (Z.of_nat (length l))) l post);
      [by rewrite <- !(assoc_L (++))|rewrite length_app, be_bytes_length; lia..].
Qed.

(** The value of a header is read from its bytes; the bytes around it stay. *)
Lemma header_value_wire pre w post :
  wire_ok w →
  ∃ payload, length payload = length (wire_payload w) ∧
    header_value (pre ++ wire_payload w ++ post) (wire_tag w) (Z.of_nat (length pre)) =
    Ok (wire_header w, Z.of_nat (length pre + length (wire_payload w)), pre ++ payload ++ post).
Proof.
  intros Hok. unfold header_value.
  destruct w as [b|z|z|z|b|b|s|ms|b]; cbn [wire_ok wire_tag wire_payload wire_bytes hd tl wire_header] in *.
  - exists []. split; [done|]. cbn [length]. rewrite Nat.add_0_r. by destruct b.
  - exists (signed_bytes 1 z). split; [done|]. change (Z.eqb 2 0) with false. change (Z.eqb 2 1) with false. cbv iota.
    change (Z.eqb 2 2) with true. cbv iota. rewrite read_signed by (lia || done). cbn [rbind].
    unfold signed_bytes at 2. rewrite be_bytes_length. repeat f_equal. lia.
  - exists (signed_bytes 2 z). split; [done|]. cbn [Z.eqb Pos.eqb]. rewrite read_signed by (lia || done). cbn [rbind].
    unfold signed_bytes at 2. rewrite be_bytes_length. repeat f_equal. lia.
  - exists (signed_bytes 4 z). split; [done|]. cbn [Z.eqb Pos.eqb]. rewrite read_signed by (lia || done). cbn [rbind].
    unfold signed_bytes at 2. rewrite be_bytes_length. repeat f_equal. lia.
  - destruct Hok as [Hb Hlen]. exists b. split; [done|]. cbn [Z.eqb Pos.eqb].
    rewrite (slice_at _ pre b post) by (done || lia). unfold new_Int64. rewrite bool_decide_false by (rewrite Hlen; auto).
    cbn [rbind]. rewrite Hlen. repeat f_equal. lia.
  - destruct Hok as [Hb Hlen]. exists (counted b). split; [done|]. cbn [Z.eqb Pos.eqb].
    destruct (read_counted pre b post Hlen) as [-> Hs]. cbn [rbind]. rewrite Hs. unfold counted at 2.
    rewrite length_app, be_bytes_length. repeat f_equal. lia.
  - destruct Hok as [Hs' Hlen]. exists (counted (utf8 s)). split; [done|]. cbn [Z.eqb Pos.eqb].
    destruct (read_counted pre (utf8 s) post Hlen) as [-> Hs]. cbn [rbind]. rewrite Hs, utf8_decode_utf8 by done.
    unfold counted at 2. rewrite length_app, be_bytes_length. repeat f_equal. lia.
  - set (b := signed_bytes 8 ms). assert (Hlen : length b = 8%nat) by apply be_bytes_length.
    assert (Hb : Forall byte_ok b) by apply be_bytes_ok.
    assert (Hms : to_signed 8 (be_value b) = ms) by (apply to_signed_bytes; [lia|change (8 * Z.of_nat 8 - 1) with 63; lia]).
    exists (valueOf b).2. rewrite valueOf_spec by done. cbn [snd]. cbn [Z.eqb Pos.eqb].
    rewrite (slice_at _ pre b post) by (done || lia). unfold new_Int64. rewrite bool_decide_false by (rewrite Hlen; auto).
    cbn [rbind]. rewrite valueOf_spec by done.
    assert (Hl' : length (if Z.ltb (be_value b) (2 ^ 63) then b else negate b) = 8%nat).
    { destruct (Z.ltb _ _); [done|]. destruct (negate_spec b Hb) as (_ & Hn & _). by rewrite Hn. }
    set (b' := if Z.ltb (be_value b) (2 ^ 63) then b else negate b) in *. split; [lia|]. rewrite Hms.
    f_equal. f_equal; [f_equal; lia|]. rewrite Nat2Z.id. unfold copy_to.
    rewrite (take_ge b') by (rewrite !length_app; lia). rewrite take_app_length, Hl', <- Hlen, <- drop_drop, drop_app_length.
    by rewrite drop_app_length.
  - destruct Hok as [Hb Hlen]. exists b. split; [done|]. cbn [Z.eqb Pos.eqb].
    rewrite (slice_at _ pre b post) by (done || lia). rewrite Hlen. repeat f_equal. lia.
Qed.

Definition set_header (out : list (jsstr * header)) (h : jsstr * wire) : list (jsstr * header) :=
  obj_set h.1 (wire_header h.2) out.

Lemma parseHeaders_loop_bytes hs fuel pre out :
  Forall header_ok hs → (length hs ≤ fuel)%nat →
  ∃ buf, parseHeaders_loop fuel (pre ++ headers_bytes hs) (Z.of_nat (length pre)) out = (buf, Ok (foldl set_header out hs)).
Proof.
  intros Hok. revert fuel pre out. induction Hok as [|[name w] hs (Hn & Hl & Hw) Hok IH]; intros fuel pre out Hf.
  { exists pre. cbn [headers_bytes flat_map]. rewrite app_nil_r. destruct fuel; cbn [parseHeaders_loop]; by rewrite Z.ltb_irrefl. }
  destruct fuel as [|fuel]; [cbn in Hf; lia|]. cbn [fst snd] in *. cbn [headers_bytes flat_map]. fold (headers_bytes hs).
  unfold header_bytes. cbn [fst snd]. rewrite wire_bytes_split. set (n := utf8 name) in *.
  set (buf := pre ++ _). assert (Hflat : buf = pre ++ [Z.of_nat (length n)] ++ n ++ [wire_tag w] ++ wire_payload w ++ headers_bytes hs).
  { unfold buf. cbn [app]. by rewrite <- !(assoc_L (++)). }
  cbn [parseHeaders_loop]. destruct (Z.ltb_spec (Z.of_nat (length pre)) (Z.of_nat (length buf)));
    [|rewrite Hflat, length_app in *; cbn in *; lia].
  rewrite (read_at 1 buf pre [Z.of_nat (length n)] _ _ Hflat) by done. cbn [rbind].
  change (be_value [Z.of_nat (length n)]) with (Z.of_nat (length n)).
  rewrite (slice_at buf (pre ++ [Z.of_nat (length n)]) n ([wire_tag w] ++ wire_payload w ++ headers_bytes hs));
    [|by rewrite Hflat, <- (assoc_L (++))|rewrite length_app; cbn; lia..].
  rewrite (read_at 1 buf (pre ++ [Z.of_nat (length n)] ++ n) [wire_tag w] (wire_payload w ++ headers_bytes hs));
    [|by rewrite Hflat, <- !(assoc_L (++))|done|rewrite !length_app; cbn; lia]. cbn [rbind].
  change (be_value [wire_tag w]) with (wire_tag w). set (pre' := pre ++ [Z.of_nat (length n)] ++ n ++ [wire_tag w]).
  assert (Hbuf : buf = pre' ++ wire_payload w ++ headers_bytes hs) by (rewrite Hflat; unfold pre'; by rewrite <- !(assoc_L (++))).
  replace (Z.of_nat (length pre) + 1 + Z.of_nat (length n) + 1) with (Z.of_nat (length pre')) by (unfold pre'; rewrite !length_app; cbn; lia).
  destruct (header_value_wire pre' w (headers_bytes hs) Hw) as (payload & Hpl & Hv). rewrite Hbuf, Hv. cbn [rbind].
  unfold n at 1. rewrite utf8_decode_utf8 by done. rewrite (assoc_L (++) pre'), <- Hpl, <- length_app.
  cbn [length] in Hf. cbn [foldl]. unfold set_header at 2. cbn [fst snd]. apply IH. lia.
Qed.

Lemma headers_bytes_length hs : (length hs ≤ length (headers_bytes hs))%nat.
Proof. induction hs as [|h hs IH]; [done|]. cbn [headers_bytes flat_map]. fold (headers_bytes hs). rewrite length_app. unfold header_bytes. cbn [length]. lia. Qed.

Lemma parseHeaders_bytes hs : Forall header_ok hs → snd (parseHeaders (headers_bytes hs)) = Ok (foldl set_header [] hs).
Proof.
  intros Hok. destruct (parseHeaders_loop_bytes hs (length (headers_bytes hs)) [] [] Hok (headers_bytes_length hs)) as [buf Hb].
  exact (f_equal snd Hb).
Qed.

(** Distinct headers are kept as they are. *)
Lemma set_headers_distinct hs : NoDup hs.*1 → foldl set_header [] hs = (λ h, (h.1, wire_header h.2)) <$> hs.
Proof.
  enough (H : ∀ out, NoDup (out.*1 ++ hs.*1) → foldl set_header out hs = out ++ ((λ h, (h.1, wire_header h.2)) <$> hs)) by apply (H []).
  induction hs as [|[n w] hs IH]; intros out Hnd; [by rewrite app_nil_r|]. cbn [foldl]. unfold set_header at 2. cbn [fst snd].
  rewrite fmap_cons in Hnd. cbn [fst] in Hnd. apply NoDup_app in Hnd as (H1 & H2 & [H3 H4]%NoDup_cons).
  rewrite obj_set_fresh.
  2: { intros Hin. apply (H2 n Hin). left. }
  rewrite IH, <- (assoc_L (++)); [done|]. rewrite fmap_app, <- (assoc_L (++)). cbn [fmap list_fmap fst app].
  apply NoDup_app. split_and!; [done| |by constructor]. done.
Qed.

(** *** The rounds are bounded by the length *)

Lemma read_nonneg n buf offset x : Forall byte_ok buf → readUIntBE n buf offset = Ok x → 0 ≤ x.
Proof.
  intros Hb. unfold readUIntBE. destruct (_ || _); [done|]. intros [= <-]. by apply be_value_range, Forall_take, Forall_drop.
Qed.

Lemma slice_ok buf a b : Forall byte_ok buf → Forall byte_ok (slice buf a b).
Proof. intros Hb. by apply Forall_take, Forall_drop. Qed.

Lemma copy_to_ok target source n : Forall byte_ok target → Forall byte_ok source → Forall byte_ok (copy_to target source n).
Proof.
  intros H1 H2. unfold copy_to. rewrite !Forall_app. split_and!; [by apply Forall_take|by apply Forall_take|by apply Forall_drop].
Qed.

Lemma header_value_moves buf tag p v p' buf' :
  Forall byte_ok buf → 0 ≤ p ≤ Z.of_nat (length buf) → header_value buf tag p = Ok (v, p', buf') →
  p ≤ p' ∧ length buf' = length buf ∧ Forall byte_ok buf'.
Proof.
  intros Hb Hp. unfold header_value, readIntBE.
  destruct (Z.eqb tag 0), (Z.eqb tag 1), (Z.eqb tag 2), (Z.eqb tag 3), (Z.eqb tag 4), (Z.eqb tag 5), (Z.eqb tag 6), (Z.eqb tag 7),
    (Z.eqb tag 8), (Z.eqb tag 9); try (intros [= <- <- <-]; split_and!; [lia|done|done]);
    intros H; repeat (apply rbind_ok in H as (? & ? & H)); try discriminate H; try (injection H as <- <- <-; split_and!; [lia|done|done]);
    try (match goal with Hr : readUIntBE 2 buf p = Ok ?n |- _ => apply read_nonneg in Hr; [|done] end; injection H as <- <- <-; split_and!; [lia|done|done]).
  all: match goal with Hr : new_Int64 ?b = Ok ?x |- _ => unfold new_Int64 in Hr; case_bool_decide; [done|]; injection Hr as <- end.
  all: rewrite valueOf_spec in H by (apply slice_ok || lia; done); injection H as <- <- <-.
  all: assert (Hb' : Forall byte_ok (slice buf p (p + 8))) by (by apply slice_ok); pose proof (negate_spec _ Hb') as (Hn & _).
  all: split_and!; [lia|rewrite copy_to_length; lia|apply copy_to_ok; [done|]; by destruct (Z.ltb _ _)].
Qed.

(** More fuel than bytes left makes no difference. *)
Lemma parseHeaders_loop_fuel f g buf p out :
  Forall byte_ok buf → 0 ≤ p → Z.of_nat (length buf) - p ≤ Z.of_nat f → Z.of_nat (length buf) - p ≤ Z.of_nat g →
  parseHeaders_loop f buf p out = parseHeaders_loop g buf p out.
Proof.
  revert g buf p out. induction f as [|f IH]; intros g buf p out Hb Hp Hf Hg.
  { destruct g; cbn [parseHeaders_loop]; destruct (Z.ltb_spec p (Z.of_nat (length buf))); done || lia. }
  destruct g as [|g]; cbn [parseHeaders_loop]; destruct (Z.ltb_spec p (Z.of_nat (length buf))); try (done || lia).
  destruct (readUIntBE 1 buf p) as [n|] eqn:Hn; [|done]. cbn [rbind]. apply read_nonneg in Hn; [|done].
  destruct (readUIntBE 1 buf (p + 1 + n)) as [tag|] eqn:Ht; [|done]. cbn [rbind].
  destruct (header_value buf tag (p + 1 + n + 1)) as [[[v p'] buf']|] eqn:Hv; [|done]. cbn [rbind].
  assert (Hle : p + 1 + n + 1 ≤ Z.of_nat (length buf)).
  { unfold readUIntBE in Ht. destruct (Z.ltb_spec (Z.of_nat (length buf)) (p + 1 + n + Z.of_nat 1)); [by rewrite orb_true_r in Ht|lia]. }
  apply header_value_moves in Hv as (H1 & H2 & H3); [|done|lia]. apply IH; lia || done.
Qed.

Lemma parseHeaders_fuel buf k : Forall byte_ok buf → parseHeaders_loop (length buf + k) buf 0 [] = parseHeaders buf.
Proof. intros Hb. apply parseHeaders_loop_fuel; done || lia. Qed.
