(* ===== verification/EventChunker.v ===== *)
(** * EventMessageChunkerStream

    The transform stream that cuts a byte stream, arriving in arbitrary pieces,
    into event messages (dist/index.js 14536-14650), and the stream of events
    behind it (14690-14728, 15155-15193); it is compared with the cut of the whole
    stream. *)

From stdpp Require Import base strings list.
From Stdlib Require Import ZArith Lia.
From S2P Require Import Prelude JsValue Json JsText UriUtil Buffers Crc32 EventStream.

Local Open Scope Z_scope.

(** ** The code *)

Record chunker := Chunker {
  currentMessageTotalLength : Z;
  currentMessagePendingLength : Z;
  currentMessage : option (list Z);
  messageLengthBuffer : option (list Z);
}.

Definition new_chunker : chunker := Chunker 0 0 None None.

(** [allocateMessage(size)]: the length does not fit in a message shorter than
    four bytes. *)
Definition allocateMessage (size : Z) (st : chunker) : chunker * result jserror () :=
  let current := replicate (Z.to_nat size) 0 in
  if Z.ltb size 4 then (Chunker size 4 (Some current) (messageLengthBuffer st), Throw range_error)
  else (Chunker size 4 (Some (copy_to current (be_bytes 4 size) 0)) (messageLengthBuffer st), Ok tt).

(** The first half of a round: without a current message, the bytes of the length;
    [None] is the [break]. *)
Definition take_length (chunk : list Z) (offset : Z) (st : chunker) : chunker * result jserror (option Z) :=
  match currentMessage st with
  | Some _ => (st, Ok (Some offset))
  | None =>
    let bytesRemaining := Z.of_nat (length chunk) - offset in
    let buffer := default (replicate 4 0) (messageLengthBuffer st) in
    let numBytesForTotal := Z.min (4 - currentMessagePendingLength st) bytesRemaining in
    let buffer := copy_to buffer (slice chunk offset (offset + numBytesForTotal))
                    (Z.to_nat (currentMessagePendingLength st)) in
    let pending := currentMessagePendingLength st + numBytesForTotal in
    let offset := offset + numBytesForTotal in
    let st := Chunker (currentMessageTotalLength st) pending None (Some buffer) in
    if Z.ltb pending 4 then (st, Ok None)
    else
      match readUInt32BE buffer 0 with
      | Throw e => (st, Throw e)
      | Ok size =>
        match allocateMessage size st with
        | (st, Throw e) => (st, Throw e)
        | (st, Ok _) =>
          (Chunker (currentMessageTotalLength st) (currentMessagePendingLength st) (currentMessage st) None,
           Ok (Some offset))
        end
      end
  end.

(** The second half: the bytes of the message, and the message when it is
    complete. *)
Definition take_bytes (chunk : list Z) (offset : Z) (st : chunker) : chunker * list (list Z) * Z :=
  let numBytesToWrite := Z.min (currentMessageTotalLength st - currentMessagePendingLength st)
                           (Z.of_nat (length chunk) - offset) in
  let current := copy_to (default [] (currentMessage st)) (slice chunk offset (offset + numBytesToWrite))
                   (Z.to_nat (currentMessagePendingLength st)) in
  let pending := currentMessagePendingLength st + numBytesToWrite in
  let offset := offset + numBytesToWrite in
  let total := currentMessageTotalLength st in
  if negb (Z.eqb total 0) && Z.eqb total pending
  then (Chunker 0 0 None (messageLengthBuffer st), [current], offset)
  else (Chunker total pending (Some current) (messageLengthBuffer st), [], offset).

(** [_transform(chunk)]: the messages pushed, and an exception; [None] when the
    loop has not ended within [fuel] rounds. *)
Fixpoint transform_loop (fuel : nat) (chunk : list Z) (offset : Z) (st : chunker) (pushed : list (list Z)) :
    option (chunker * list (list Z) * result jserror ()) :=
  if Z.ltb offset (Z.of_nat (length chunk)) then
    match fuel with
    | O => None
    | S fuel =>
      match take_length chunk offset st with
      | (st, Throw e) => Some (st, pushed, Throw e)
      | (st, Ok None) => Some (st, pushed, Ok tt)
      | (st, Ok (Some offset)) =>
        let '(st, out, offset) := take_bytes chunk offset st in
        transform_loop fuel chunk offset st (pushed ++ out)
      end
    end
  else Some (st, pushed, Ok tt).

Definition transform (chunk : list Z) (st : chunker) : option (chunker * list (list Z) * result jserror ()) :=
  transform_loop (length chunk) chunk 0 st [].

(** [_flush]: a message that is pushed, or an error. *)
Definition flush (st : chunker) : result jserror (option (list Z)) :=
  if negb (Z.eqb (currentMessageTotalLength st) 0) then
    if Z.eqb (currentMessageTotalLength st) (currentMessagePendingLength st) then Ok (currentMessage st)
    else Throw (js_error (js "Truncated event message received."))
  else Ok None.

(** A stream of chunks through the chunker. *)
Fixpoint chunk_stream (chunks : list (list Z)) (st : chunker) : option (chunker * list (list Z) * result jserror ()) :=
  match chunks with
  | [] => Some (st, [], Ok tt)
  | c :: chunks =>
    match transform c st with
    | Some (st, out, Ok _) =>
      '(st, out', r) ← chunk_stream chunks st; Some (st, out ++ out', r)
    | r => r
    end
  end.

(** [stream.pipe(eventMessageChunker)] to its end: the messages and how the
    stream ended. *)
Definition chunk_all (chunks : list (list Z)) : option (list (list Z) * result jserror ()) :=
  '(st, out, r) ← chunk_stream chunks new_chunker;
  match r with
  | Throw e => Some (out, Throw e)
  | Ok _ =>
    match flush st with
    | Throw e => Some (out, Throw e)
    | Ok m => Some (out ++ match m with Some m => [m] | None => [] end, Ok tt)
    end
  end.

Section events.
Context {V : Type} (Date_toString : Z → jsstr) (buffer_value : list Z → V).

(** The unmarshaller: the events until one cannot be parsed. *)
Fixpoint unmarshall (members : list (jsstr * event_model)) (messages : list (list Z)) :
    list (option (jsstr * list (jsstr * V))) * result event_error () :=
  match messages with
  | [] => ([], Ok tt)
  | m :: messages =>
    match parseEvent Date_toString buffer_value members m with
    | Throw e => ([], Throw e)
    | Ok event => let '(es, r) := unmarshall members messages in (event :: es, r)
    end
  end.

(** [createEventStream(stream, parser, model)]: the events, and the error that
    ended them; an error of the chunker is passed on. *)
Definition createEventStream (members : list (jsstr * event_model)) (chunks : list (list Z)) :
    option (list (option (jsstr * list (jsstr * V))) * result event_error ()) :=
  '(messages, r) ← chunk_all chunks;
  Some (match unmarshall members messages with
        | (es, Ok _) => (es, match r with Ok _ => Ok tt | Throw e => Throw (RuntimeError e) end)
        | r => r
        end).
End events.

(** ** The cut of the whole stream *)

Inductive cut_end := Rest (l : list Z) | BadLength.

(** The messages at the front of a stream, and the incomplete rest. *)
Fixpoint cut (fuel : nat) (l : list Z) : list (list Z) * cut_end :=
  match fuel with
  | O => ([], Rest l)
  | S fuel =>
    if bool_decide (length l < 4)%nat then ([], Rest l)
    else
      let n := be_value (take 4 l) in
      if Z.ltb n 4 then ([], BadLength)
      else if Z.ltb (Z.of_nat (length l)) n then ([], Rest l)
      else let '(ms, r) := cut fuel (drop (Z.to_nat n) l) in (take (Z.to_nat n) l :: ms, r)
  end.

Definition cut_all (l : list Z) : list (list Z) * cut_end := cut (length l) l.

Lemma cut_fuel f l : (length l ≤ f)%nat → cut f l = cut_all l.
Proof.
  unfold cut_all. revert l. enough (H : ∀ n f g (l : list Z), (length l ≤ n)%nat → (length l ≤ f)%nat → (length l ≤ g)%nat →
    cut f l = cut g l) by (intros l Hl; by apply (H (length l))).
  induction n as [|n IH]; intros f' g l Hn Hf Hg.
  { destruct l; [|cbn in Hn; lia]. by destruct f', g. }
  destruct l as [|b l]; [by destruct f', g|]. destruct f' as [|f'], g as [|g]; try (cbn in *; lia). cbn [cut].
  case_bool_decide; [done|]. destruct (Z.ltb_spec (be_value (take 4 (b :: l))) 4); [done|].
  destruct (Z.ltb _ _); [done|]. rewrite (IH f' g); [done|rewrite length_drop; cbn [length] in *; lia..].
Qed.

Lemma cut_all_eq l :
  cut_all l =
  if bool_decide (length l < 4)%nat then ([], Rest l)
  else
    let n := be_value (take 4 l) in
    if Z.ltb n 4 then ([], BadLength)
    else if Z.ltb (Z.of_nat (length l)) n then ([], Rest l)
    else let '(ms, r) := cut_all (drop (Z.to_nat n) l) in (take (Z.to_nat n) l :: ms, r).
Proof.
  unfold cut_all at 1. destruct l as [|b l]; [done|]. cbn [length cut]. case_bool_decide; [done|].
  destruct (Z.ltb_spec (be_value (take 4 (b :: l))) 4); [done|]. destruct (Z.ltb _ _); [done|].
  rewrite cut_fuel; [done|]. rewrite length_drop. cbn [length]. lia.
Qed.

(** ** The state and the bytes it has received *)

(** Fewer than four bytes of a message. *)
Record waiting (st : chunker) (buf : list Z) : Prop := {
  wt_short : (length buf < 4)%nat;
  wt_none : currentMessage st = None;
  wt_total : currentMessageTotalLength st = 0;
  wt_pending : currentMessagePendingLength st = Z.of_nat (length buf);
  wt_buffer : take (length buf) (default (replicate 4 0) (messageLengthBuffer st)) = buf;
  wt_length : length (default (replicate 4 0) (messageLengthBuffer st)) = 4%nat;
}.

(** At least four bytes of a message of [n] bytes. *)
Record filling (st : chunker) (n : nat) (buf : list Z) : Prop := {
  fl_length : (4 ≤ length buf ≤ n)%nat;
  fl_size : be_value (take 4 buf) = Z.of_nat n;
  fl_total : currentMessageTotalLength st = Z.of_nat n;
  fl_pending : currentMessagePendingLength st = Z.of_nat (length buf);
  fl_current : ∃ C, currentMessage st = Some C ∧ length C = n ∧ take (length buf) C = buf;
  fl_none : messageLengthBuffer st = None;
}.

Definition holds (st : chunker) (buf : list Z) : Prop :=
  waiting st buf ∨ ∃ n, filling st n buf ∧ (length buf < n)%nat.

Lemma new_chunker_holds : holds new_chunker [].
Proof. left. split; try done. cbn. lia. Qed.

Lemma holds_rest st buf : holds st buf → cut_all buf = ([], Rest buf).
Proof.
  rewrite cut_all_eq. intros [H|(n & H & Hn)].
  - by rewrite bool_decide_true by apply H.
  - destruct (fl_length _ _ _ H). rewrite bool_decide_false, (fl_size _ _ _ H) by lia. cbv zeta.
    destruct (Z.ltb_spec (Z.of_nat n) 4); [lia|]. destruct (Z.ltb_spec (Z.of_nat (length buf)) (Z.of_nat n)); [done|lia].
Qed.

Section round.
Context (chunk : list Z) (offset : nat) (Hoff : (offset < length chunk)%nat) (Hchunk : Forall byte_ok chunk).
Local Abbreviation rest := (drop offset chunk).

Lemma take_length_waiting st buf :
  waiting st buf → Forall byte_ok buf →
  let k := (4 - length buf)%nat in
  let '(st', r) := take_length chunk (Z.of_nat offset) st in
  if bool_decide (length (buf ++ rest) < 4)%nat then r = Ok None ∧ waiting st' (buf ++ rest)
  else
    let n := be_value (take 4 (buf ++ rest)) in
    if Z.ltb n 4 then r = Throw range_error
    else r = Ok (Some (Z.of_nat (offset + k))) ∧ filling st' (Z.to_nat n) (take 4 (buf ++ rest)).
Proof.
  intros [Hs Hnone Htot Hpend Hbuf Hlen] Hb k. unfold take_length. rewrite Hnone, Hpend.
  set (L := default (replicate 4 0) (messageLengthBuffer st)) in *.
  assert (Hr : length rest = (length chunk - offset)%nat) by apply length_drop.
  set (m := Nat.min k (length rest)).
  replace (Z.min (4 - Z.of_nat (length buf)) (Z.of_nat (length chunk) - Z.of_nat offset)) with (Z.of_nat m) by lia.
  rewrite slice_rest by lia. rewrite !Nat2Z.id, length_app.
  assert (Hext : take (length buf + m) (copy_to L (take m rest) (length buf)) = buf ++ take m rest).
  { pose proof (copy_to_extends L buf (take m rest) Hbuf) as Hx. rewrite length_take in Hx.
    replace (m `min` length rest)%nat with m in Hx by lia. apply Hx. lia. }
  case_bool_decide as H4.
  - replace m with (length rest) in * by lia. rewrite (take_ge rest) in * by lia.
    destruct (Z.ltb_spec (Z.of_nat (length buf) + Z.of_nat (length rest)) 4); [|lia]. split; [done|].
    split; cbn [currentMessage currentMessageTotalLength currentMessagePendingLength messageLengthBuffer default from_option id];
      rewrite ?length_app; try done; [lia|]. rewrite copy_to_length; lia.
  - replace m with k in * by lia. destruct (Z.ltb_spec (Z.of_nat (length buf) + Z.of_nat k) 4); [lia|].
    set (B := copy_to L (take k rest) (length buf)) in *.
    assert (HB : B = take 4 (buf ++ rest)).
    { rewrite take_app_ge by lia. fold k. rewrite <- Hext. symmetry. apply take_ge.
      unfold B. rewrite copy_to_length; lia. }
    assert (HlenB : length B = 4%nat) by (rewrite HB, length_take, length_app; lia).
    assert (HokB : Forall byte_ok B).
    { rewrite HB. apply Forall_take, Forall_app. split; [done|]. by apply Forall_drop. }
    assert (Hread : readUInt32BE B 0 = Ok (be_value B)).
    { pose proof (read_be 4 [] B [] HlenB) as H'. rewrite app_nil_r in H'. exact H'. }
    rewrite Hread, <- HB. unfold allocateMessage. set (n := be_value B) in *.
    destruct (Z.ltb_spec n 4); [done|].
    cbn [currentMessage currentMessageTotalLength currentMessagePendingLength messageLengthBuffer].
    split; [do 2 f_equal; lia|].
    assert (Hbb : be_bytes 4 n = B) by (rewrite <- HlenB; by apply be_bytes_value).
    split; cbn [currentMessage currentMessageTotalLength currentMessagePendingLength messageLengthBuffer]; rewrite ?HlenB; try lia.
    + rewrite take_ge by lia. fold n. lia.
    + eexists. split; [done|]. rewrite Hbb. split; [rewrite copy_to_length, length_replicate; [done|rewrite length_replicate; lia]|].
      pose proof (copy_to_extends (replicate (Z.to_nat n) 0) [] B) as Hx. cbn [length Nat.add app] in Hx.
      rewrite HlenB in Hx. apply Hx; [done|]. rewrite length_replicate. lia.
    + done.
Qed.
End round.

(** The bytes of a chunk behind those of the message: either they complete it, or
    all of them are taken. *)
Lemma take_bytes_filling chunk offset st n buf :
  (offset ≤ length chunk)%nat → filling st n buf →
  let rest := drop offset chunk in
  let '(st', out, offset') := take_bytes chunk (Z.of_nat offset) st in
  if bool_decide (n ≤ length (buf ++ rest))%nat
  then out = [take n (buf ++ rest)] ∧ waiting st' [] ∧ offset' = Z.of_nat (offset + (n - length buf))
  else out = [] ∧ filling st' n (buf ++ rest) ∧ offset' = Z.of_nat (length chunk).
Proof.
  intros Hoff [[H4 Hn] Hsz Htot Hpend (C & HC & HlenC & Hpre) Hnone] rest. unfold take_bytes. rewrite Htot, Hpend, HC, Hnone.
  assert (Hr : length rest = (length chunk - offset)%nat) by apply length_drop.
  set (m := Nat.min (n - length buf) (length rest)).
  replace (Z.min (Z.of_nat n - Z.of_nat (length buf)) (Z.of_nat (length chunk) - Z.of_nat offset)) with (Z.of_nat m) by lia.
  rewrite slice_rest by lia. rewrite !Nat2Z.id, length_app. cbn [default from_option id]. fold rest.
  assert (Hext : take (length buf + m) (copy_to C (take m rest) (length buf)) = buf ++ take m rest).
  { pose proof (copy_to_extends C buf (take m rest) Hpre) as Hx. rewrite length_take in Hx.
    replace (m `min` length rest)%nat with m in Hx by lia. apply Hx. lia. }
  assert (HlenC' : length (copy_to C (take m rest) (length buf)) = n) by (rewrite copy_to_length; lia).
  replace (negb (Z.eqb (Z.of_nat n) 0)) with true by lia. cbn [andb]. case_bool_decide as Hfull.
  - replace m with (n - length buf)%nat in * by lia.
    destruct (Z.eqb_spec (Z.of_nat n) (Z.of_nat (length buf) + Z.of_nat (n - length buf))); [|lia].
    replace (length buf + (n - length buf))%nat with n in Hext by lia.
    split; [|split; [|lia]].
    + rewrite take_app_ge, <- Hext by lia. f_equal. symmetry. apply take_ge. lia.
    + split; try done. cbn. lia.
  - replace m with (length rest) in * by lia. rewrite (take_ge rest) in * by lia.
    destruct (Z.eqb_spec (Z.of_nat n) (Z.of_nat (length buf) + Z.of_nat (length rest))); [lia|].
    split; [done|]. split; [|lia].
    split; cbn [currentMessage currentMessageTotalLength currentMessagePendingLength messageLengthBuffer];
      rewrite ?length_app; try done; try lia.
    + by rewrite take_app_le by lia.
    + eauto.
Qed.

(** How the state and the result of [_transform] agree with a cut. *)
Definition agrees (e : cut_end) (st : chunker) (r : result jserror ()) : Prop :=
  match e with Rest l => r = Ok tt ∧ holds st l | BadLength => r = Throw range_error end.

(** A message of known length at the front of the stream. *)
Lemma filling_cut st n buf rest : filling st n buf →
  cut_all (buf ++ rest) =
  if bool_decide (n ≤ length (buf ++ rest))%nat
  then let '(ms, r) := cut_all (drop (n - length buf) rest) in (take n (buf ++ rest) :: ms, r)
  else ([], Rest (buf ++ rest)).
Proof.
  intros H. destruct (fl_length _ _ _ H) as [H4 Hn]. rewrite cut_all_eq, bool_decide_false by (rewrite length_app; lia).
  rewrite take_app_le, (fl_size _ _ _ H) by lia. cbv zeta. destruct (Z.ltb_spec (Z.of_nat n) 4); [lia|].
  case_bool_decide; destruct (Z.ltb_spec (Z.of_nat (length (buf ++ rest))) (Z.of_nat n)); try lia; [|done].
  by rewrite Nat2Z.id, drop_app_ge by lia.
Qed.

(** The rounds after the length is known: the one that completes the message or
    uses up the chunk, and the rest of the loop by [Hloop]. *)
Lemma filling_round fuel chunk offset st n buf pushed :
  (offset ≤ length chunk)%nat → filling st n buf →
  (∀ offset' st' pushed', (offset ≤ offset' ≤ length chunk)%nat → (offset < offset' ∨ length buf = n)%nat →
     waiting st' [] → ∃ ms e, cut_all (drop offset' chunk) = (ms, e) ∧
       ∃ st'' r, transform_loop fuel chunk (Z.of_nat offset') st' pushed' = Some (st'', pushed' ++ ms, r) ∧ agrees e st'' r) →
  let rest := drop offset chunk in
  ∃ ms e, cut_all (buf ++ rest) = (ms, e) ∧
    ∃ st' r, (let '(st', out, offset') := take_bytes chunk (Z.of_nat offset) st in
              transform_loop fuel chunk offset' st' (pushed ++ out)) = Some (st', pushed ++ ms, r) ∧ agrees e st' r.
Proof.
  intros Hoff Hf Hloop rest. rewrite (filling_cut st n buf rest Hf).
  pose proof (take_bytes_filling chunk offset st n buf Hoff Hf) as Ht. cbv zeta in Ht. fold rest in Ht.
  destruct (fl_length _ _ _ Hf) as [H4 Hn].
  assert (Hr : length rest = (length chunk - offset)%nat) by apply length_drop.
  destruct (take_bytes chunk (Z.of_nat offset) st) as [[st' out] offset'].
  case_bool_decide as Hfull; destruct Ht as (-> & Hst & ->).
  - rewrite length_app in Hfull. destruct (Hloop (offset + (n - length buf))%nat st' (pushed ++ [take n (buf ++ rest)])) as (ms & e & Hc & st'' & r & Hl & Ha);
      [lia|lia|done|]. replace (drop (n - length buf) rest) with (drop (offset + (n - length buf)) chunk) by (unfold rest; by rewrite drop_drop).
    rewrite Hc. eexists _, e. split; [reflexivity|].
    exists st'', r. rewrite Hl. split; [by rewrite <- (assoc_L (++))|done].
  - eexists _, _. split; [reflexivity|]. exists st', (Ok tt). rewrite !app_nil_r. split.
    + destruct fuel; cbn [transform_loop]; by rewrite Z.ltb_irrefl.
    + split; [done|]. right. exists n. split; [done|lia].
Qed.

Lemma take_length_filling chunk offset st n buf : filling st n buf → take_length chunk offset st = (st, Ok (Some offset)).
Proof. intros H. unfold take_length. by destruct (fl_current _ _ _ H) as (C & -> & _). Qed.

(** The loop cuts the bytes received so far and the rest of the chunk, whatever
    the fuel beyond the bytes of the chunk. *)
Lemma transform_loop_cut fuel chunk offset st buf pushed :
  Forall byte_ok chunk → Forall byte_ok buf → (offset ≤ length chunk)%nat → (length chunk - offset ≤ fuel)%nat → holds st buf →
  ∃ ms e, cut_all (buf ++ drop offset chunk) = (ms, e) ∧
    ∃ st' r, transform_loop fuel chunk (Z.of_nat offset) st pushed = Some (st', pushed ++ ms, r) ∧ agrees e st' r.
Proof.
  intros Hchunk. revert offset st buf pushed. induction fuel as [|fuel IH]; intros offset st buf pushed Hbuf Hoff Hfuel Hst.
  all: destruct (decide (offset = length chunk)) as [->|Hne].
  1, 3: rewrite drop_ge, app_nil_r, (holds_rest st buf Hst) by lia; eexists _, _; split; [reflexivity|];
    exists st, (Ok tt); cbn [transform_loop]; rewrite Z.ltb_irrefl, app_nil_r; done.
  1: lia.
  cbn [transform_loop]. destruct (Z.ltb_spec (Z.of_nat offset) (Z.of_nat (length chunk))); [|lia].
  destruct Hst as [Hw|(n & Hf & Hn)].
  - pose proof (take_length_waiting chunk offset ltac:(lia) Hchunk st buf Hw Hbuf) as Ht. cbv zeta in Ht.
    pose proof (wt_short _ _ Hw) as Hshort.
    destruct (take_length chunk (Z.of_nat offset) st) as [st' r]. case_bool_decide as H4.
    { destruct Ht as [-> Hw']. rewrite cut_all_eq, bool_decide_true by done. eexists _, _. split; [reflexivity|].
      exists st', (Ok tt). rewrite app_nil_r. split; [done|]. split; [done|by left]. }
    destruct (Z.ltb_spec (be_value (take 4 (buf ++ drop offset chunk))) 4).
    { rewrite Ht, cut_all_eq, bool_decide_false by done. cbv zeta. rewrite (proj2 (Z.ltb_lt _ _)) by done.
      eexists _, _. split; [reflexivity|]. eexists st', _. rewrite app_nil_r. done. }
    destruct Ht as [-> Hf]. rewrite length_app, length_drop in H4.
    replace (buf ++ drop offset chunk) with (take 4 (buf ++ drop offset chunk) ++ drop (offset + (4 - length buf)) chunk).
    2: { rewrite take_app_ge, <- (assoc_L (++)), <- drop_drop by lia. f_equal. apply take_drop. }
    apply (filling_round fuel chunk (offset + (4 - length buf)) st' _ _ pushed ltac:(lia) Hf).
    intros offset' st'' pushed' Hle _ Hw''. apply (IH offset' st'' [] pushed'); [constructor|lia|lia|by left].
  - rewrite (take_length_filling _ _ _ _ _ Hf).
    destruct (filling_round fuel chunk offset st n buf pushed Hoff Hf) as (ms & e & Hc & Hl); [|by eauto].
    intros offset' st' pushed' Hle [Hlt|?] Hw; [|lia]. apply (IH offset' st' [] pushed'); [constructor|lia|lia|by left].
Qed.

(** ** Streams *)

Lemma cut_rest_ok l ms r : Forall byte_ok l → cut_all l = (ms, Rest r) → Forall byte_ok r.
Proof.
  intros Hl. unfold cut_all. revert Hl ms. generalize (length l). intros f. revert l.
  induction f as [|f IH]; intros l Hl ms; cbn [cut]; [by intros [= _ <-]|].
  case_bool_decide; [by intros [= _ <-]|]. destruct (Z.ltb _ 4); [done|]. destruct (Z.ltb _ _); [by intros [= _ <-]|].
  destruct (cut f _) as [ms' e] eqn:Hc. intros [= _ ->]. by eapply IH; [apply Forall_drop|].
Qed.

(** Cutting goes on where it stopped. *)
Lemma cut_all_app l k :
  cut_all (l ++ k) =
  match cut_all l with
  | (ms, Rest r) => let '(ms', e) := cut_all (r ++ k) in (ms ++ ms', e)
  | (ms, BadLength) => (ms, BadLength)
  end.
Proof.
  remember (length l) as n eqn:Hn. revert l Hn. induction n as [n IH] using (well_founded_induction lt_wf). intros l ->.
  rewrite (cut_all_eq l). case_bool_decide as H4; [by destruct (cut_all (l ++ k))|]. cbv zeta.
  assert (Heq : cut_all (l ++ k) = let n := be_value (take 4 l) in
    if Z.ltb n 4 then ([], BadLength) else if Z.ltb (Z.of_nat (length (l ++ k))) n then ([], Rest (l ++ k))
    else let '(ms, r) := cut_all (drop (Z.to_nat n) (l ++ k)) in (take (Z.to_nat n) (l ++ k) :: ms, r)).
  { by rewrite cut_all_eq, bool_decide_false, take_app_le by (rewrite ?length_app; lia). }
  cbv zeta in Heq. set (m := be_value (take 4 l)) in *. destruct (Z.ltb_spec m 4); [done|].
  destruct (Z.ltb_spec (Z.of_nat (length l)) m) as [Hlt|Hge]; [by destruct (cut_all (l ++ k))|].
  rewrite Heq. destruct (Z.ltb_spec (Z.of_nat (length (l ++ k))) m); [rewrite length_app in *; lia|].
  rewrite take_app_le, drop_app_le by lia. rewrite (IH (length (drop (Z.to_nat m) l))) by (rewrite ?length_drop; done || lia).
  destruct (cut_all (drop (Z.to_nat m) l)) as [ms [r|]]; [|done]. by destruct (cut_all (r ++ k)).
Qed.

Lemma chunk_stream_cut chunks st buf :
  Forall byte_ok (concat chunks) → Forall byte_ok buf → holds st buf →
  ∃ ms e, cut_all (buf ++ concat chunks) = (ms, e) ∧
    ∃ st' r, chunk_stream chunks st = Some (st', ms, r) ∧ agrees e st' r.
Proof.
  revert st buf. induction chunks as [|c chunks IH]; intros st buf Hc Hb Hst.
  { cbn [concat]. rewrite app_nil_r, (holds_rest st buf Hst). eexists _, _. split; [done|]. exists st, (Ok tt). done. }
  cbn [concat] in *. apply Forall_app in Hc as [Hc Hcs]. rewrite (assoc_L (++)), cut_all_app.
  destruct (transform_loop_cut (length c) c 0 st buf [] Hc Hb ltac:(lia) ltac:(lia) Hst) as (ms & e & Hcut & st' & r & Ht & Ha).
  rewrite drop_0 in Hcut. rewrite Hcut. cbn [chunk_stream]. unfold transform. change (Z.of_nat 0) with 0 in Ht. rewrite Ht. cbn [app].
  destruct e as [rest|]; cbn [agrees] in Ha.
  - destruct Ha as [-> Hst']. destruct (IH st' rest Hcs) as (ms' & e' & Hcut' & st'' & r' & Hs & Ha'); [|done|].
    { eapply (cut_rest_ok (buf ++ c)); [by apply Forall_app|done]. }
    rewrite Hcut', Hs. eexists _, _. split; [done|]. exists st'', r'. done.
  - rewrite Ha. eexists _, _. split; [done|]. exists st', (Throw range_error). done.
Qed.

(** How a stream ends: an error for a message that is not complete, but not for a
    length that is not complete. *)
Definition stream_end (e : cut_end) : result jserror () :=
  match e with
  | BadLength => Throw range_error
  | Rest l => if bool_decide (length l < 4)%nat then Ok tt else Throw (js_error (js "Truncated event message received."))
  end.

Lemma chunk_all_cut chunks :
  Forall byte_ok (concat chunks) →
  chunk_all chunks = Some ((cut_all (concat chunks)).1, stream_end (cut_all (concat chunks)).2).
Proof.
  intros Hc. destruct (chunk_stream_cut chunks new_chunker [] Hc (Forall_nil_2 _) new_chunker_holds)
    as (ms & e & Hcut & st & r & Hs & Ha). cbn [app] in Hcut. unfold chunk_all. rewrite Hs, Hcut. cbn [mbind option_bind fst snd].
  destruct e as [l|]; cbn [agrees stream_end] in *; [|by rewrite Ha].
  destruct Ha as [-> [Hw|(n & Hf & Hn)]]; unfold flush.
  - rewrite (wt_total _ _ Hw), bool_decide_true by apply Hw. cbn. by rewrite app_nil_r.
  - destruct (fl_length _ _ _ Hf). rewrite (fl_total _ _ _ Hf), (fl_pending _ _ _ Hf), bool_decide_false by lia.
    destruct (Z.eqb_spec (Z.of_nat n) 0); [lia|]. destruct (Z.eqb_spec (Z.of_nat n) (Z.of_nat (length l))); [lia|]. done.
Qed.

(** ** Messages *)

(** A message whose first four bytes are its length. *)
Definition framed (m : list Z) : Prop := (4 ≤ length m)%nat ∧ be_value (take 4 m) = Z.of_nat (length m).

Lemma cut_all_framed ms : Forall framed ms → cut_all (concat ms) = (ms, Rest []).
Proof.
  induction 1 as [|m ms [H4 Hm] _ IH]; [done|]. cbn [concat]. rewrite cut_all_eq, bool_decide_false by (rewrite length_app; lia).
  rewrite take_app_le, Hm by lia. cbv zeta. destruct (Z.ltb_spec (Z.of_nat (length m)) 4); [lia|].
  destruct (Z.ltb_spec (Z.of_nat (length (m ++ concat ms))) (Z.of_nat (length m))); [rewrite length_app in *; lia|].
  by rewrite Nat2Z.id, drop_app_length, take_app_length, IH.
Qed.

Lemma chunk_loop_framed ms fuel pre acc :
  Forall framed ms → Forall (λ m, Z.of_nat (length m) < 2 ^ 31) ms → (length ms ≤ fuel)%nat →
  chunk_loop fuel (pre ++ concat ms) (Z.of_nat (length pre)) acc = Some (Ok (acc ++ ms)).
Proof.
  intros Hf. revert fuel pre acc. induction Hf as [|m ms [H4 Hm] _ IH]; intros fuel pre acc Hs Hfuel.
  { cbn [concat]. rewrite !app_nil_r. destruct fuel; cbn [chunk_loop]; by rewrite Z.ltb_irrefl. }
  destruct fuel as [|fuel]; [cbn in Hfuel; lia|]. apply Forall_cons in Hs as [Hs1 Hs]. cbn [concat chunk_loop].
  destruct (Z.ltb_spec (Z.of_nat (length pre)) (Z.of_nat (length (pre ++ m ++ concat ms)))); [|rewrite !length_app in *; lia].
  unfold readIntBE. rewrite (read_at 4 _ pre (take 4 m) (drop 4 m ++ concat ms));
    [|by rewrite (assoc_L (++) (take 4 m)), take_drop|rewrite length_take; lia|done]. cbn [rbind].
  rewrite Hm. unfold to_signed. change (8 * Z.of_nat 4 - 1) with 31. destruct (Z.ltb_spec (Z.of_nat (length m)) (2 ^ 31)); [|lia].
  rewrite (slice_at _ pre m (concat ms)) by (done || lia).
  specialize (IH fuel (pre ++ m) (acc ++ [m]) Hs ltac:(cbn in Hfuel; lia)). rewrite <- !(assoc_L (++)) in IH.
  rewrite length_app, Nat2Z.inj_add in IH. exact IH.
Qed.

(** A stream is cut the same way however it arrives.  For every sequence of
    chunks the chunker ends without running into its fuel; the messages it pushes
    and the way it ends are those of the concatenated bytes alone.  At the end of
    the stream an incomplete message is an error, but one to three bytes of an
    incomplete length are dropped silently.  A length below four makes the chunker
    of the stream throw; on a length of zero the chunker of complete buffers, which
    does not check it, never ends. *)
Theorem chunking_independent (chunks : list (list Z)) :
  Forall byte_ok (concat chunks) →
  chunk_all chunks = Some ((cut_all (concat chunks)).1, stream_end (cut_all (concat chunks)).2) ∧
  (∀ ms rest, Forall framed ms → concat chunks = concat ms ++ rest → (length rest < 4)%nat → chunk_all chunks = Some (ms, Ok tt)) ∧
  (∀ ms rest, Forall framed ms → concat chunks = concat ms ++ [0; 0; 0; 0] ++ rest →
     chunk_all chunks = Some (ms, Throw range_error)) ∧
  (∀ fuel rest, eventMessageChunker fuel ([0; 0; 0; 0] ++ rest) = None).
Proof.
  intros Hc. split; [by apply chunk_all_cut|]. split_and!.
  - intros ms rest Hms Heq Hr. rewrite chunk_all_cut, Heq, cut_all_app, cut_all_framed by done. cbn [app].
    rewrite cut_all_eq, bool_decide_true by done. cbn [fst snd stream_end]. by rewrite app_nil_r, bool_decide_true.
  - intros ms rest Hms Heq. rewrite chunk_all_cut, Heq, cut_all_app, cut_all_framed by done. cbn [app].
    rewrite cut_all_eq, bool_decide_false by (cbn; lia). cbv zeta. change (be_value _) with 0.
    change (Z.ltb 0 4) with true. cbn [fst snd stream_end]. by rewrite app_nil_r.
  - intros fuel rest. unfold eventMessageChunker. generalize (@nil (list Z)) as acc.
    induction fuel as [|fuel IH]; intros acc; [done|]. cbn [chunk_loop].
    change (Z.ltb 0 (Z.of_nat (length ([0; 0; 0; 0] ++ rest)))) with true. cbv iota.
    unfold readIntBE. rewrite (read_at 4 _ [] [0; 0; 0; 0] rest) by done. apply IH.
Qed.

Lemma chunking_independent_witness :
  chunk_all [[0; 0]; [0; 5; 1; 0]; []; [0; 0]] = Some ([[0; 0; 0; 5; 1]], Ok tt) ∧
  chunk_all [[0; 0; 0; 0]] = Some ([], Throw range_error).
Proof.
  split.
  - destruct (chunking_independent [[0; 0]; [0; 5; 1; 0]; []; [0; 0]]) as (_ & H & _).
    + repeat constructor; done.
    + apply (H [[0; 0; 0; 5; 1]] [0; 0; 0]); [|reflexivity|cbn; lia]. apply Forall_singleton. split; [cbn; lia|reflexivity].
  - destruct (chunking_independent [[0; 0; 0; 0]]) as (_ & _ & H & _); [repeat constructor; done|].
    by apply (H [] []).
Defined.

Lemma signed_bytes_ok n z : Forall byte_ok (signed_bytes n z).
Proof. apply be_bytes_ok. Qed.

Lemma headers_bytes_ok hs : Forall header_ok hs → Forall byte_ok (headers_bytes hs).
Proof.
  induction 1 as [|[name w] hs (Hn & Hl & Hw) _ IH]; [constructor|]. cbn [headers_bytes flat_map]. apply Forall_app. split; [|exact IH].
  unfold header_bytes. cbn [fst snd] in *. constructor; [unfold byte_ok; lia|]. apply Forall_app. split; [by apply utf8_bytes, Hn|].
  assert (Hcount : ∀ l, Forall byte_ok l → Forall byte_ok (counted l)).
  { intros l Hl'. unfold counted. apply Forall_app. split; [apply be_bytes_ok|done]. }
  rewrite wire_bytes_split. destruct w as [b|z|z|z|b|b|s|ms|b]; cbn [wire_ok wire_tag wire_payload wire_bytes hd tl] in *;
    (constructor; [try destruct b; unfold byte_ok; lia|]).
  - constructor.
  - apply signed_bytes_ok.
  - apply signed_bytes_ok.
  - apply signed_bytes_ok.
  - apply Hw.
  - apply Hcount, Hw.
  - apply Hcount, utf8_bytes, Hw.
  - apply signed_bytes_ok.
  - apply Hw.
Qed.

(** The messages a service sends: distinct headers and a body. *)
Definition sendable (m : list (jsstr * wire) * list Z) : Prop :=
  Forall header_ok m.1 ∧ NoDup m.1.*1 ∧ Forall byte_ok m.2 ∧
  16 + Z.of_nat (length (headers_bytes m.1)) + Z.of_nat (length m.2) < 2 ^ 31.
Definition sent (m : list (jsstr * wire) * list Z) : list Z := message_bytes (headers_bytes m.1) m.2.
Definition received (m : list (jsstr * wire) * list Z) : message := Message ((λ h, (h.1, wire_header h.2)) <$> m.1) m.2.

Lemma message_bytes_length headers body : length (message_bytes headers body) = (16 + length headers + length body)%nat.
Proof. unfold message_bytes. rewrite !length_app, !be_bytes_length. lia. Qed.

Lemma sent_framed m : sendable m → framed (sent m) ∧ Z.of_nat (length (sent m)) < 2 ^ 31 ∧ Forall byte_ok (sent m).
Proof.
  intros (Hh & _ & Hb & Hs). unfold framed, sent. rewrite message_bytes_length. split_and!; [lia| |lia|].
  - unfold message_bytes. rewrite <- !(assoc_L (++)), take_app_length' by (by rewrite be_bytes_length).
    rewrite be_value_bytes by (change (256 ^ Z.of_nat 4) with (2 ^ 32); lia). lia.
  - unfold message_bytes. pose proof (headers_bytes_ok m.1 Hh). rewrite !Forall_app. split_and!; try done; apply be_bytes_ok.
Qed.

Lemma parse_sent m : sendable m → parseMessage (sent m) = Ok (received m).
Proof.
  intros (Hh & Hd & Hb & Hs). unfold parseMessage, sent. rewrite splitMessage_bytes by (try apply headers_bytes_ok; done || lia).
  cbn [rbind fst snd]. rewrite parseHeaders_bytes by done. cbn [rbind]. by rewrite set_headers_distinct.
Qed.

Section pipeline.
Context {V : Type} (Date_toString : Z → jsstr) (buffer_value : list Z → V) (members : list (jsstr * event_model (V := V))).

(** The events of parsed messages. *)
Fixpoint all_events (ms : list (list Z)) (es : list (option (jsstr * list (jsstr * V)))) : Prop :=
  match ms, es with
  | [], [] => True
  | m :: ms, e :: es => parseEvent Date_toString buffer_value members m = Ok e ∧ all_events ms es
  | _, _ => False
  end.

Lemma unmarshall_events ms es : all_events ms es → unmarshall Date_toString buffer_value members ms = (es, Ok tt).
Proof. revert es. induction ms as [|m ms IH]; intros [|e es]; try done. intros [H1 H2]. cbn [unmarshall]. by rewrite H1, (IH es H2). Qed.

Lemma parse_all_events ms es : all_events ms es → parse_all Date_toString buffer_value members ms = Ok es.
Proof. revert es. induction ms as [|m ms IH]; intros [|e es]; try done. intros [H1 H2]. cbn [parse_all]. by rewrite H1, (IH es H2). Qed.
End pipeline.

(** C37. Events arrive as they were sent.  When the chunks of a stream, however they
    are cut, make up the bytes of the messages a service sent (distinct typed
    headers of every kind and a body each), the stream and the buffer variant both
    recover exactly these messages, in order, and every message parses to the
    headers and the body it was made of; and if every message is an event of the
    model or ignored, both variants deliver the same events. *)
Theorem event_stream_roundtrip {V : Type} (Date_toString : Z → jsstr) (buffer_value : list Z → V)
    (members : list (jsstr * event_model (V := V))) (messages : list (list (jsstr * wire) * list Z)) (chunks : list (list Z)) :
  Forall sendable messages → concat chunks = concat (sent <$> messages) →
  chunk_all chunks = Some (sent <$> messages, Ok tt) ∧
  eventMessageChunker (length messages) (concat chunks) = Some (Ok (sent <$> messages)) ∧
  Forall (λ m, parseMessage (sent m) = Ok (received m)) messages ∧
  (∀ es, all_events Date_toString buffer_value members (sent <$> messages) es →
     createEventStream Date_toString buffer_value members chunks = Some (es, Ok tt) ∧
     createEventStream_buffer Date_toString buffer_value (length messages) members (concat chunks) = Some (Ok es)).
Proof.
  intros Hm Hc. assert (Hf : Forall framed (sent <$> messages)).
  { apply Forall_fmap. eapply Forall_impl; [exact Hm|]. intros m Hs. by apply sent_framed. }
  assert (Hb : Forall byte_ok (concat chunks)).
  { rewrite Hc. apply Forall_concat, Forall_fmap. eapply Forall_impl; [exact Hm|]. intros m Hs. by apply sent_framed. }
  assert (H1 : chunk_all chunks = Some (sent <$> messages, Ok tt)).
  { rewrite chunk_all_cut, Hc, cut_all_framed by done. cbn [fst snd stream_end]. by rewrite bool_decide_true by (cbn; lia). }
  assert (H2 : eventMessageChunker (length messages) (concat chunks) = Some (Ok (sent <$> messages))).
  { rewrite Hc. unfold eventMessageChunker.
    pose proof (chunk_loop_framed (sent <$> messages) (length messages) [] []) as Hl. cbn [app length Z.of_nat] in Hl.
    apply Hl; [done| |by rewrite length_fmap].
    apply Forall_fmap. eapply Forall_impl; [exact Hm|]. intros m Hs. by apply sent_framed. }
  split_and!; [done|done|eapply Forall_impl; [exact Hm|]; apply parse_sent|].
  intros es He. unfold createEventStream, createEventStream_buffer. rewrite H1, H2. cbn [mbind option_bind fmap option_fmap option_map].
  split; [by rewrite (unmarshall_events _ _ _ _ es He)|]. cbn [lift rbind]. by rewrite (parse_all_events _ _ _ _ es He).
Qed.

(** A message of one event whose payload is binary. *)
Definition demo_model : list (jsstr * event_model (V := list Z)) :=
  [(js "Records", EventModel (Some (js "Payload")) [] [(js "Payload", EventMember (js "binary") (λ _, Ok []) (λ _, []))])].
Definition demo_message : list (jsstr * wire) * list Z :=
  ([(js ":message-type", WString (js "event")); (js ":event-type", WString (js "Records")); (js "when", WTimestamp (-1))], [104; 105]).
Definition demo_chunks : list (list Z) := let s := sent demo_message in [take 3 s; drop 3 s ++ take 1 s; drop 1 s].

Lemma event_stream_roundtrip_witness :
  createEventStream (λ _, []) id demo_model demo_chunks =
    Some ([Some (js "Records", [(js "Payload", [104; 105])]); Some (js "Records", [(js "Payload", [104; 105])])], Ok tt).
Proof.
  destruct (event_stream_roundtrip (λ _, []) id demo_model [demo_message; demo_message] demo_chunks) as (_ & _ & _ & H).
  - assert (Hs : sendable demo_message).
    { split_and!; [|js_decide|js_decide|vm_compute; reflexivity].
      repeat (apply Forall_cons; split); [..|constructor]; (split_and!; [js_decide|vm_compute; reflexivity|]); cbn [wire_ok snd].
      - split; [js_decide|vm_compute; reflexivity].
      - split; [js_decide|vm_compute; reflexivity].
      - lia. }
    apply Forall_cons. split; [exact Hs|]. apply Forall_singleton. exact Hs.
  - vm_compute. reflexivity.
  - apply H. cbn [fmap list_fmap all_events]. split_and!; [vm_compute; reflexivity|vm_compute; reflexivity|exact I].
Defined.
