(* ===== verification/SharedIni.v ===== *)
(** * Shared configuration files

    The INI reader [util.ini.parse] (dist/index.js 26285-26310), the loader that
    caches parsed files (25057-25160), the merge of the configuration and
    credentials files [util.getProfilesFromSharedConfig] (27037-27072) and the
    choice of the region (17488-17504).

    A parsed file is an ordered list of sections.  Objects are read through
    their own properties: a section or profile named like a member of
    Object.prototype is outside the model. *)

From stdpp Require Import base sets strings list.
From Stdlib Require Import ZArith Lia.
From S2P Require Import Prelude JsValue AwsError.

Local Open Scope Z_scope.

Definition profile : Type := list (jsstr * jsstr).
Definition ini_map : Type := list (jsstr * profile).

(** ** util.ini.parse *)

Definition strip_cr (line : jsstr) : jsstr :=
  match reverse line with c :: r => if Z.eqb c 13 then reverse r else line | [] => line end.

(** [ini.split(/\r?\n/)]. *)
Definition ini_lines (ini : jsstr) : list jsstr :=
  let ls := split_on 10 ini in (strip_cr <$> removelast ls) ++ [List.last ls []].

(** [line.split(/(^|\s)[;#]/)[0]]: what is before a semicolon or hash sign that
    starts the line or follows a space. *)
Definition is_comment (c : Z) : bool := Z.eqb c 59 || Z.eqb c 35.
Definition opens_comment (s : jsstr) : bool := match s with c :: _ => is_comment c | [] => false end.
Fixpoint cut_comment (s : jsstr) : jsstr :=
  match s with
  | [] => []
  | c :: r => if is_js_space c && opens_comment r then [] else c :: cut_comment r
  end.
Definition strip_comment (line : jsstr) : jsstr := if opens_comment line then [] else cut_comment line.

(** [line.match(/^\s*\[([^\[\]]+)\]\s*$/)]. *)
Definition section_name (line : jsstr) : option jsstr :=
  match trim line with
  | c :: r =>
    match reverse r with
    | d :: m =>
      if Z.eqb c 91 && Z.eqb d 93 && negb (bool_decide (m = [])) && forallb (λ x, negb (Z.eqb x 91 || Z.eqb x 93)) m
      then Some (reverse m) else None
    | [] => None
    end
  | [] => None
  end.

(** [line.match(/^\s*(.+?)\s*=\s*(.+?)\s*$/)], in the order a matcher tries: runs
    of spaces from the longest, the lazy groups from the shortest. *)
Definition is_terminator (c : Z) : bool := Z.eqb c 10 || Z.eqb c 13 || Z.eqb c 8232 || Z.eqb c 8233.

Definition leading_spaces (s : jsstr) : nat := length s - length (trim_start s).

Fixpoint backoff {A} (f : jsstr → option A) (n : nat) (s : jsstr) : option A :=
  match f (drop n s) with
  | Some r => Some r
  | None => match n with O => None | S n' => backoff f n' s end
  end.

Fixpoint lazy_value (acc s : jsstr) : option jsstr :=
  match s with
  | [] => None
  | c :: r =>
    if is_terminator c then None
    else if forallb is_js_space r then Some (acc ++ [c])
    else lazy_value (acc ++ [c]) r
  end.

Definition item_value (s : jsstr) : option jsstr := backoff (lazy_value []) (leading_spaces s) s.

Fixpoint lazy_key (acc s : jsstr) : option (jsstr * jsstr) :=
  match s with
  | [] => None
  | c :: r =>
    if is_terminator c then None
    else
      let key := acc ++ [c] in
      match trim_start r with
      | d :: t =>
        match (if Z.eqb d 61 then item_value t else None) with
        | Some v => Some (key, v)
        | None => lazy_key key r
        end
      | [] => lazy_key key r
      end
  end.

Definition ini_item (line : jsstr) : option (jsstr * jsstr) := backoff (lazy_key []) (leading_spaces line) line.

(** [s.split(/\s/)]. *)
Fixpoint split_space (s : jsstr) : list jsstr :=
  match s with
  | [] => [[]]
  | c :: r =>
    let ps := split_space r in
    if is_js_space c then [] :: ps else match ps with p :: ps' => (c :: p) :: ps' | [] => [[c]] end
  end.

Definition forbidden_section (name : jsstr) : bool :=
  str_eqb name (js "__proto__") || bool_decide (split_space name !! 1%nat = Some (js "__proto__")).

(** [map[currentSection] = map[currentSection] || {}; map[currentSection][key] =
    value]; assigning a string to [__proto__] does nothing. *)
Definition ini_set (map : ini_map) (section key value : jsstr) : ini_map :=
  let o := default [] (obj_get section map) in
  obj_set section (if str_eqb key (js "__proto__") then o else obj_set key value o) map.

Section loader.
Context (now : Z).   (* the time of errors *)

Fixpoint ini_loop (lines : list jsstr) (currentSection : option jsstr) (map : ini_map) : result aws_error ini_map :=
  match lines with
  | [] => Ok map
  | line :: lines =>
    let line := strip_comment line in
    match section_name line with
    | Some name =>
      if forbidden_section name
      then Throw (util_error now (new_Error (js "Cannot load profile name '" ++ name ++ js "' from shared ini file.") JUndef) NoOptions)
      else ini_loop lines (Some name) map
    | None =>
      match currentSection, ini_item line with
      | Some section, Some (key, value) => ini_loop lines currentSection (ini_set map section key value)
      | _, _ => ini_loop lines currentSection map
      end
    end
  end.

Definition ini_parse (ini : jsstr) : result aws_error ini_map := ini_loop (ini_lines ini) None [].

(** ** IniLoader *)

Context (readFileSync : jsstr → result aws_error jsstr).
Context (path_join : list jsstr → jsstr) (os_homedir : option jsstr).
Context (env : profile).   (* [process.env] *)

(** [profileName.replace(/^profile\s/, '')]. *)
Definition strip_profile (name : jsstr) : jsstr :=
  if starts_with (js "profile") name
  then match drop 7 name with c :: r => if is_js_space c then r else name | [] => name end
  else name.

Definition redefine_error (name : jsstr) : aws_error :=
  AwsErr (JStr (js "Cannot redefine property: " ++ name)) false (JStr (js "TypeError")) false JUndef [].

(** The properties are defined, not assigned: a name that occurs twice throws. *)
Fixpoint define_profiles (isConfig : bool) (content : list (jsstr * profile)) (tmpContent : ini_map) :
    result aws_error ini_map :=
  match content with
  | [] => Ok tmpContent
  | (profileName, profileContent) :: content =>
    let name := if isConfig then strip_profile profileName else profileName in
    match obj_get name tmpContent with
    | Some _ => Throw (redefine_error name)
    | None => define_profiles isConfig content (tmpContent ++ [(name, profileContent)])
    end
  end.

Definition parseFile (filename : jsstr) (isConfig : bool) : result aws_error ini_map :=
  let* text := readFileSync filename in
  let* content := ini_parse text in
  define_profiles isConfig (own_props content) [].

(** A variable of the environment, empty when it is not set. *)
Definition env_get (name : jsstr) : jsstr := default [] (obj_get name env).

Definition or_str (s t : jsstr) : jsstr := match s with [] => t | _ => s end.

Definition getHomeDir : result aws_error jsstr :=
  let home := or_str (env_get (js "HOME")) (or_str (env_get (js "USERPROFILE"))
    (match env_get (js "HOMEPATH") with
     | [] => []
     | p => or_str (env_get (js "HOMEDRIVE")) (js "C:/") ++ p
     end)) in
  match home with
  | _ :: _ => Ok home
  | [] =>
    match os_homedir with
    | Some h => Ok h
    | None => Throw (util_error now (new_Error (js "Cannot load credentials, HOME path not set") JUndef) NoOptions)
    end
  end.

Definition getDefaultFilePath (isConfig : bool) : result aws_error jsstr :=
  let* home := getHomeDir in
  Ok (path_join [home; js ".aws"; if isConfig then js "config" else js "credentials"]).

(** The state of a loader: [resolvedProfiles]. *)
Definition resolved : Type := list (jsstr * ini_map).

Definition clearCachedFiles : resolved := [].

(** [loadFrom({filename, isConfig})]; an absent filename is the empty string. *)
Definition loadFrom (filename : jsstr) (isConfig : bool) (st : resolved) : resolved * result aws_error ini_map :=
  match (match filename with [] => getDefaultFilePath isConfig | _ => Ok filename end) with
  | Throw e => (st, Throw e)
  | Ok filename =>
    match obj_get filename st with
    | Some content => (st, Ok content)
    | None =>
      match parseFile filename isConfig with
      | Ok content => (st ++ [(filename, content)], Ok content)
      | Throw e => (st, Throw e)
      end
    end
  end.

(** ** getProfilesFromSharedConfig *)

Definition objectAssign (target source : profile) : profile :=
  foldl (λ t k, obj_set k (default [] (obj_get k source)) t) target (own_keys source).

Definition merge_profiles (profiles source : ini_map) : ini_map :=
  foldl (λ ps name, obj_set name (objectAssign (default [] (obj_get name ps)) (default [] (obj_get name source))) ps)
    profiles (own_keys source).

Definition opted_in : bool := negb (str_eqb (env_get (js "AWS_SDK_LOAD_CONFIG")) []).

Definition getProfilesFromSharedConfig (filename : jsstr) (st : resolved) : resolved * result aws_error ini_map :=
  let '(st, fromConfig) :=
    if opted_in then loadFrom (env_get (js "AWS_CONFIG_FILE")) true st else (st, Ok []) in
  match fromConfig with
  | Throw e => (st, Throw e)
  | Ok config =>
    let '(st, fromCreds) :=
      loadFrom (or_str filename (if opted_in then env_get (js "AWS_SHARED_CREDENTIALS_FILE") else [])) false st in
    match fromCreds with
    | Throw e => if opted_in then (st, Ok (merge_profiles [] config)) else (st, Throw e)
    | Ok creds => (st, Ok (merge_profiles (merge_profiles [] config) creds))
    end
  end.

(** ** The region *)

(** [while (!region && toCheck.length)] of [AWS.config.region]. *)
Fixpoint check_region (toCheck : list (jsstr * bool)) (region : jsstr) (st : resolved) :
    resolved * result aws_error jsstr :=
  match region, toCheck with
  | _ :: _, _ | _, [] => (st, Ok region)
  | [], (filename, isConfig) :: toCheck =>
    match loadFrom filename isConfig st with
    | (st, Throw e) => (st, Throw e)
    | (st, Ok configFile) =>
      let prof := obj_get (or_str (env_get (js "AWS_PROFILE")) (js "default")) configFile in
      check_region toCheck (match prof with Some p => default [] (obj_get (js "region") p) | None => [] end) st
    end
  end.

Definition config_region (st : resolved) : resolved * result aws_error jsstr :=
  let region := or_str (env_get (js "AWS_REGION")) (env_get (js "AMAZON_REGION")) in
  if opted_in
  then check_region [(env_get (js "AWS_SHARED_CREDENTIALS_FILE"), false); (env_get (js "AWS_CONFIG_FILE"), true)] region st
  else (st, Ok region).

End loader.

(** ** Reading back *)

(** A name or value that can be written on a line: not empty, no space at its
    ends, no line terminator. *)
Definition ini_text (s : jsstr) : Prop := s ≠ [] ∧ trimmed s ∧ Forall (λ c, is_terminator c = false) s.

Definition item_line (kv : jsstr * jsstr) : jsstr := kv.1 ++ 61 :: kv.2.
Definition section_line (name : jsstr) : jsstr := 91 :: name ++ [93].

Record item_ok (kv : jsstr * jsstr) : Prop := {
  io_key : ini_text kv.1;
  io_value : ini_text kv.2;
  io_equals : 61 ∉ kv.1;
  io_bracket : head kv.1 ≠ Some 91;
  io_comment : strip_comment (item_line kv) = item_line kv;
  io_proto : kv.1 ≠ js "__proto__";
}.

Record section_ok (s : jsstr * profile) : Prop := {
  so_name : s.1 ≠ [];
  so_brackets : Forall (λ c, c ≠ 10 ∧ c ≠ 91 ∧ c ≠ 93) s.1;
  so_comment : strip_comment (section_line s.1) = section_line s.1;
  so_allowed : forbidden_section s.1 = false;
  so_items : s.2 ≠ [];
  so_keys : NoDup s.2.*1;
  so_ok : Forall item_ok s.2;
}.

Definition section_lines (s : jsstr * profile) : list jsstr := section_line s.1 :: (item_line <$> s.2).

(** A file: every line ended by a line feed. *)
Definition print_ini (sections : ini_map) : jsstr := concat ((λ l, l ++ [10]) <$> (sections ≫= section_lines)).

(** Text that ends in a character is not all spaces. *)
Lemma trim_start_app s t :
  s ≠ [] → (∀ x u, s = u ++ [x] → is_js_space x = false) →
  ∃ c u, trim_start (s ++ t) = c :: u ∧ c ∈ s.
Proof.
  induction s as [|c s IH]; [done|]. intros _ Hl. cbn [app trim_start drop_while].
  unfold trim_start in *. cbn [drop_while]. destruct (is_js_space c) eqn:Hc; [|exists c, (s ++ t); split; [done|left]].
  destruct s as [|d s]; [by rewrite (Hl c []) in Hc|].
  destruct IH as (x & u & Hx & Hin); [done|intros x u Hu; exact (Hl x (c :: u) (f_equal (cons c) Hu))|].
  exists x, u. split; [done|by right].
Qed.

Lemma leading_none s : (∀ x t, s = x :: t → is_js_space x = false) → leading_spaces s = 0%nat.
Proof. intros H. unfold leading_spaces, trim_start. rewrite drop_while_id by done. lia. Qed.

Lemma backoff_0 {A} (f : jsstr → option A) s : backoff f 0 s = f s.
Proof. cbn [backoff]. change (drop 0 s) with s. by destruct (f s). Qed.

Lemma lazy_value_all acc s :
  s ≠ [] → Forall (λ c, is_terminator c = false) s → (∀ x u, s = u ++ [x] → is_js_space x = false) →
  lazy_value acc s = Some (acc ++ s).
Proof.
  intros Hne Ht. revert acc. induction Ht as [|c s Hc _ IH]; intros acc Hl; [done|]. cbn [lazy_value]. rewrite Hc.
  destruct s as [|d s]; [done|].
  assert (Hs : forallb is_js_space (d :: s) = false).
  { destruct (exists_last (l := d :: s)) as (u & x & Hu); [done|]. rewrite Hu, forallb_app. cbn [forallb].
    rewrite (Hl x (c :: u) (f_equal (cons c) Hu)). by rewrite andb_false_r. }
  rewrite Hs, IH; [by rewrite <- app_assoc|done|]. intros x u Hu. exact (Hl x (c :: u) (f_equal (cons c) Hu)).
Qed.

Lemma item_value_text v : ini_text v → item_value v = Some v.
Proof.
  intros (Hne & [H1 H2] & Ht). unfold item_value. rewrite leading_none, backoff_0 by done.
  by rewrite (lazy_value_all [] v).
Qed.

Lemma lazy_key_all acc k v :
  k ≠ [] → Forall (λ c, is_terminator c = false) k → (∀ x u, k = u ++ [x] → is_js_space x = false) → 61 ∉ k →
  ini_text v → lazy_key acc (k ++ 61 :: v) = Some (acc ++ k, v).
Proof.
  intros Hne Ht. revert acc. induction Ht as [|c k Hc _ IH]; intros acc Hl Heq Hv; [done|].
  cbn [app lazy_key]. rewrite Hc. apply not_elem_of_cons in Heq as [_ Heq]. destruct k as [|d k].
  - unfold trim_start. cbn [app drop_while]. change (is_js_space 61) with false. cbv iota.
    change (Z.eqb 61 61) with true. by rewrite item_value_text.
  - assert (Hl' : ∀ x u, d :: k = u ++ [x] → is_js_space x = false)
      by (intros x u Hu; exact (Hl x (c :: u) (f_equal (cons c) Hu))).
    destruct (trim_start_app (d :: k) (61 :: v)) as (x & u & -> & Hin); [done|done|].
    destruct (Z.eqb_spec x 61) as [->|]; [done|]. rewrite IH; [by rewrite <- app_assoc|done..].
Qed.

Lemma ini_item_line kv : item_ok kv → ini_item (item_line kv) = Some kv.
Proof.
  destruct kv as [k v]. intros [(Hne & [H1 H2] & Ht) Hv Heq _ _ _]. cbn [fst snd] in *. unfold ini_item, item_line.
  cbn [fst snd]. rewrite leading_none.
  - rewrite backoff_0. by rewrite (lazy_key_all [] k v).
  - destruct k as [|c k]; [done|]. intros x t [= <- _]. by apply (H1 c k).
Qed.

(** Lines that the reader leaves as they are. *)
Definition plain_line (l : jsstr) : Prop :=
  10 ∉ l ∧ trimmed l ∧ l ≠ [].

Lemma strip_cr_plain l : plain_line l → strip_cr l = l.
Proof.
  intros (_ & [_ H] & _). unfold strip_cr. destruct (reverse l) as [|c r] eqn:Hr; [done|].
  apply (f_equal reverse) in Hr. rewrite reverse_involutive, reverse_cons in Hr.
  destruct (Z.eqb_spec c 13) as [->|]; [|done]. by specialize (H 13 (reverse r) Hr).
Qed.

Lemma print_lines L : Forall plain_line L → ini_lines (concat ((λ l, l ++ [10]) <$> L)) = L ++ [[]].
Proof.
  intros HL. assert (Hs : split_on 10 (concat ((λ l, l ++ [10]) <$> L)) = L ++ [[]]).
  { induction HL as [|l L (Hl & _) _ IH]; [done|]. cbn [fmap list_fmap concat]. rewrite <- app_assoc. cbn [app].
    rewrite split_on_app by done. by rewrite IH. }
  unfold ini_lines. rewrite Hs, removelast_last, last_last. f_equal. clear Hs.
  induction HL as [|l L Hl _ IH]; [done|]. cbn [fmap list_fmap]. by rewrite strip_cr_plain, IH.
Qed.

Lemma terminator_lf l : Forall (λ c, is_terminator c = false) l → 10 ∉ l.
Proof. rewrite Forall_forall. intros H Hin. by specialize (H 10 Hin). Qed.

Lemma item_line_plain kv : item_ok kv → plain_line (item_line kv).
Proof.
  destruct kv as [k v]. intros [(Hk & [Hk1 Hk2] & Hkt) (Hv & [Hv1 Hv2] & Hvt) _ _ _ _]. cbn [fst snd] in *.
  unfold item_line. cbn [fst snd]. split_and!; [| |by destruct k].
  - rewrite not_elem_of_app, not_elem_of_cons. split_and!; [by apply terminator_lf|done|by apply terminator_lf].
  - split.
    + destruct k as [|c k]; [done|]. intros x t [= <- _]. by apply (Hk1 c k).
    + intros x t Hx. destruct (exists_last Hv) as (u & y & ->).
      change (k ++ 61 :: u ++ [y]) with (k ++ (61 :: u) ++ [y]) in Hx. rewrite app_assoc in Hx.
      apply app_inj_tail in Hx as [_ <-]. by apply (Hv2 y u).
Qed.

Lemma section_line_plain s : section_ok s → plain_line (section_line s.1).
Proof.
  intros [_ Hb _ _ _ _ _]. rewrite Forall_forall in Hb. unfold section_line. split_and!; [| |done].
  - rewrite not_elem_of_cons, not_elem_of_app, list_elem_of_singleton. split_and!; [done| |done].
    intros Hin. by destruct (Hb 10 Hin).
  - split; [by intros x t [= <- _]|]. intros x t Hx.
    change (91 :: s.1 ++ [93]) with ((91 :: s.1) ++ [93]) in Hx. by apply app_inj_tail in Hx as [_ <-].
Qed.

Lemma section_name_section s : section_ok s → section_name (section_line s.1) = Some s.1.
Proof.
  intros Hs. destruct (section_line_plain s Hs) as (_ & Ht & _). destruct Hs as [Hne Hb _ _ _ _ _].
  unfold section_name. rewrite trim_id by done. unfold section_line. rewrite reverse_app, reverse_singleton. cbn [app].
  rewrite bool_decide_false. 2: { intros Hr. apply Hne. by rewrite <- (reverse_involutive s.1), Hr. }
  rewrite (proj2 (forallb_forall _ _)); [cbn; by rewrite reverse_involutive|].
  intros c Hin%list_elem_of_In. rewrite elem_of_reverse in Hin. rewrite Forall_forall in Hb.
  destruct (Hb c Hin) as (_ & H1 & H2). apply negb_true_iff, orb_false_iff. by rewrite !Z.eqb_neq.
Qed.

Lemma section_name_item kv : item_ok kv → section_name (item_line kv) = None.
Proof.
  intros Hkv. destruct (item_line_plain kv Hkv) as (_ & Ht & _). unfold section_name. rewrite trim_id by done.
  destruct Hkv as [(Hk & _) _ _ Hb _ _]. unfold item_line. destruct kv.1 as [|c k]; [done|]. cbn [app].
  destruct (reverse _); [done|]. destruct (Z.eqb_spec c 91) as [->|]; [by destruct Hb|done].
Qed.

(** Items are added to the last section. *)
Lemma ini_set_first (map : ini_map) (n k v : jsstr) : n ∉ map.*1 → k ≠ js "__proto__" → ini_set map n k v = map ++ [(n, [(k, v)])].
Proof.
  intros Hn Hk. unfold ini_set. rewrite (proj2 (str_eqb_neq k _)) by done.
  assert (Hg : obj_get n map = None) by (apply eq_None_not_Some; by rewrite obj_get_elem).
  rewrite Hg. rewrite <- (app_nil_r map) at 1. by rewrite obj_set_app.
Qed.

Lemma ini_set_last (map : ini_map) (n : jsstr) (o : profile) (k v : jsstr) :
  n ∉ map.*1 → k ∉ o.*1 → k ≠ js "__proto__" →
  ini_set (map ++ [(n, o)]) n k v = map ++ [(n, o ++ [(k, v)])].
Proof.
  intros Hn Ho Hk. unfold ini_set. rewrite (proj2 (str_eqb_neq k _)) by done.
  assert (Hg : obj_get n (map ++ [(n, o)]) = Some o).
  { clear -Hn. induction map as [|[m x] map IH]; cbn [app obj_get]; [by rewrite str_eqb_refl|].
    apply not_elem_of_cons in Hn as [Hnm Hn]. rewrite (proj2 (str_eqb_neq n m)) by done. by apply IH. }
  cbv zeta. unfold ini_map, profile in *. rewrite Hg. cbn [default]. rewrite obj_set_app by done. cbn [obj_set]. rewrite str_eqb_refl.
  assert (obj_set k v (id o) = o ++ [(k, v)]) as ->; [|done]. unfold id. rewrite <- (app_nil_r o) at 1. by rewrite obj_set_app.
Qed.

Lemma ini_loop_items now items rest map n o :
  n ∉ map.*1 → Forall item_ok items → NoDup (o.*1 ++ items.*1) →
  ini_loop now ((item_line <$> items) ++ rest) (Some n) (map ++ [(n, o)]) =
  ini_loop now rest (Some n) (map ++ [(n, o ++ items)]).
Proof.
  intros Hn Hi. revert o. induction Hi as [|kv items Hkv _ IH]; intros o Hnd; [by rewrite app_nil_r|].
  cbn [fmap list_fmap app ini_loop]. rewrite (io_comment _ Hkv), section_name_item, ini_item_line by done.
  destruct kv as [k v]. cbn [fmap list_fmap fst] in Hnd. rewrite ini_set_last; [|done| |by apply (io_proto _ Hkv)].
  - rewrite IH; [by rewrite <- app_assoc|]. by rewrite fmap_app, <- app_assoc.
  - apply NoDup_app in Hnd as (_ & Hd & _). intros Hin. apply (Hd k Hin). by left.
Qed.

Lemma ini_loop_section now s rest map cur :
  section_ok s → s.1 ∉ map.*1 →
  ini_loop now (section_lines s ++ rest) cur map = ini_loop now rest (Some s.1) (map ++ [s]).
Proof.
  intros Hs Hn. unfold section_lines. cbn [app ini_loop].
  rewrite (so_comment _ Hs), section_name_section, (so_allowed _ Hs) by done.
  destruct s as [n items]. destruct Hs as [_ _ _ _ Hne Hk Hi]. cbn [fst snd] in *. destruct items as [|[k v] items]; [done|].
  apply Forall_cons in Hi as [Hkv Hi]. cbn [fmap list_fmap app ini_loop].
  rewrite (io_comment _ Hkv), section_name_item, ini_item_line by done.
  rewrite ini_set_first by (done || apply (io_proto _ Hkv)). by rewrite ini_loop_items.
Qed.

(** Reading a printed file gives its sections. *)
Lemma ini_parse_print now sections :
  Forall section_ok sections → NoDup sections.*1 → ini_parse now (print_ini sections) = Ok sections.
Proof.
  intros Hs Hnd. unfold ini_parse, print_ini. rewrite print_lines.
  2: { apply Forall_forall. intros l (s & Hl & Hin)%list_elem_of_bind. rewrite Forall_forall in Hs.
       specialize (Hs s Hin). apply elem_of_cons in Hl as [->|Hl]; [by apply section_line_plain|].
       apply list_elem_of_fmap in Hl as (kv & -> & Hkv). pose proof (so_ok _ Hs) as Hi. rewrite Forall_forall in Hi.
       by apply item_line_plain, Hi. }
  assert (H : ∀ cur map, NoDup (map.*1 ++ sections.*1) →
    ini_loop now ((sections ≫= section_lines) ++ [[]]) cur map = Ok (map ++ sections)).
  { clear Hnd. induction Hs as [|s sections Hs _ IH]; intros cur map Hnd.
    - rewrite app_nil_r. by destruct cur.
    - cbn [mbind list_bind]. rewrite <- app_assoc, ini_loop_section.
      + rewrite IH; [by rewrite <- app_assoc|]. by rewrite fmap_app, <- app_assoc.
      + done.
      + apply NoDup_app in Hnd as (_ & Hd & _). intros Hin. apply (Hd s.1 Hin). by left. }
  by rewrite H.
Qed.

(** ** Merging *)

(** The value of a key of a profile. *)
Definition profile_value (m : ini_map) (name key : jsstr) : option jsstr := p ← obj_get name m; obj_get key p.

Lemma own_keys_elem {A} k (o : list (jsstr * A)) : k ∈ own_keys o ↔ is_Some (obj_get k o).
Proof. unfold own_keys. by rewrite own_props_perm, obj_get_elem. Qed.

Lemma objectAssign_get target source k :
  obj_get k (objectAssign target source) =
  match obj_get k source with Some v => Some v | None => obj_get k target end.
Proof.
  unfold objectAssign.
  assert (H : ∀ ks t, obj_get k (foldl (λ t k, obj_set k (default [] (obj_get k source)) t) t ks) =
    if decide (k ∈ ks) then Some (default [] (obj_get k source)) else obj_get k t).
  { induction ks as [|j ks IH]; intros t; cbn [foldl]; [done|]. rewrite IH.
    destruct (decide (k ∈ ks)); [by rewrite decide_True by (by right)|].
    destruct (decide (k = j)) as [->|Hne]; [rewrite obj_get_set_eq, decide_True by left; done|].
    rewrite obj_get_set_other, decide_False by (done || by intros [?|?]%elem_of_cons). done. }
  rewrite H. destruct (decide _) as [Hin|Hin]; rewrite own_keys_elem in Hin.
  - by destruct Hin as [v ->].
  - apply eq_None_not_Some in Hin. by rewrite Hin.
Qed.

Lemma merge_profiles_get profiles source p :
  NoDup source.*1 →
  obj_get p (merge_profiles profiles source) =
  match obj_get p source with
  | Some o => Some (objectAssign (default [] (obj_get p profiles)) o)
  | None => obj_get p profiles
  end.
Proof.
  intros Hnd. unfold merge_profiles.
  set (f := λ (ps : ini_map) name, objectAssign (default [] (obj_get name ps)) (default [] (obj_get name source))).
  assert (H : ∀ ns ps, NoDup ns → obj_get p (foldl (λ ps name, obj_set name (f ps name) ps) ps ns) =
    if decide (p ∈ ns) then Some (objectAssign (default [] (obj_get p ps)) (default [] (obj_get p source)))
    else obj_get p ps).
  { induction ns as [|n ns IH]; intros ps Hn; cbn [foldl]; [done|]. apply NoDup_cons in Hn as [Hn Hns]. rewrite IH by done.
    destruct (decide (p = n)) as [->|Hne].
    - rewrite decide_False, decide_True by (done || left). by rewrite obj_get_set_eq.
    - rewrite obj_get_set_other by done. destruct (decide (p ∈ ns)).
      + by rewrite decide_True by (by right).
      + rewrite decide_False; [done|]. by intros [?|?]%elem_of_cons. }
  etransitivity; [apply (H (own_keys source) profiles); unfold own_keys; by rewrite own_props_perm|].
  destruct (decide _) as [Hin|Hin]; rewrite own_keys_elem in Hin.
  - by destruct Hin as [v ->].
  - apply eq_None_not_Some in Hin. by rewrite Hin.
Qed.

(** Values of the merged source come first. *)
Lemma merge_profiles_value profiles source p k :
  NoDup source.*1 →
  profile_value (merge_profiles profiles source) p k =
  match profile_value source p k with Some v => Some v | None => profile_value profiles p k end.
Proof.
  intros Hnd. unfold profile_value. rewrite merge_profiles_get by done.
  destruct (obj_get p source) as [o|]; [|done]. cbn [mbind option_bind]. rewrite objectAssign_get.
  destruct (obj_get k o); [done|]. by destruct (obj_get p profiles).
Qed.

(** ** Loading *)

(** The profiles a file defines. *)
Definition file_profiles (isConfig : bool) (sections : ini_map) : ini_map :=
  (λ s, (if isConfig then strip_profile s.1 else s.1, s.2)) <$> own_props sections.

Lemma define_profiles_ok (isConfig : bool) (content : list (jsstr * profile)) (tmp : ini_map) :
  NoDup (tmp.*1 ++ ((λ s : jsstr * profile, if isConfig then strip_profile s.1 else s.1) <$> content)) →
  define_profiles isConfig content tmp =
  Ok (tmp ++ ((λ s, (if isConfig then strip_profile s.1 else s.1, s.2)) <$> content)).
Proof.
  revert tmp. induction content as [|[n o] content IH]; intros tmp Hnd; cbn [define_profiles]; [by rewrite app_nil_r|].
  cbn [fmap list_fmap fst snd] in *. set (m := if isConfig then strip_profile n else n) in *.
  assert (Hg : obj_get m tmp = None).
  { apply eq_None_not_Some. rewrite obj_get_elem. apply NoDup_app in Hnd as (_ & Hd & _). intros Hin. apply (Hd m Hin). left. }
  rewrite Hg, IH; [by rewrite <- app_assoc|]. by rewrite fmap_app, <- app_assoc.
Qed.

Lemma parseFile_print now readFileSync filename isConfig sections :
  readFileSync filename = Ok (print_ini sections) → Forall section_ok sections → NoDup sections.*1 →
  NoDup (file_profiles isConfig sections).*1 →
  parseFile now readFileSync filename isConfig = Ok (file_profiles isConfig sections).
Proof.
  intros Hr Hs Hnd Hf. unfold parseFile. rewrite Hr. cbn [rbind]. rewrite ini_parse_print by done. cbn [rbind].
  rewrite define_profiles_ok; [done|]. cbn [fmap list_fmap app]. unfold file_profiles in Hf.
  by rewrite <- list_fmap_compose in Hf.
Qed.

(** C39. Shared profiles.  With AWS_SDK_LOAD_CONFIG set, files written as sections
    of key=value lines are read back to exactly these sections, the prefix
    "profile " of the configuration file's section names removed; and the merged
    profiles give every key of every profile its value from the credentials
    file, or else from the configuration file, and no other value.  Both files
    are then cached: a later call returns the same profiles whatever the files
    contain by then. *)
Theorem shared_profiles (now : Z) (readFileSync : jsstr → result aws_error jsstr) (path_join : list jsstr → jsstr)
    (os_homedir : option jsstr) (env : profile) (config creds : ini_map) :
  opted_in env = true →
  let cf := env_get env (js "AWS_CONFIG_FILE") in
  let sf := env_get env (js "AWS_SHARED_CREDENTIALS_FILE") in
  cf ≠ [] → sf ≠ [] → cf ≠ sf →
  readFileSync cf = Ok (print_ini config) → readFileSync sf = Ok (print_ini creds) →
  Forall section_ok (config ++ creds) → NoDup config.*1 → NoDup creds.*1 →
  NoDup (file_profiles true config).*1 →
  ∃ st profiles,
    getProfilesFromSharedConfig now readFileSync path_join os_homedir env [] clearCachedFiles = (st, Ok profiles) ∧
    (∀ p k, profile_value profiles p k =
       match profile_value creds p k with
       | Some v => Some v
       | None => profile_value (file_profiles true config) p k
       end) ∧
    ∀ readFileSync',
      getProfilesFromSharedConfig now readFileSync' path_join os_homedir env [] st = (st, Ok profiles).
Proof.
  intros Hopt cf sf Hcf Hsf Hne Hrc Hrs [Hc Hs]%Forall_app Hndc Hnds Hndf.
  assert (Hfc : (file_profiles false creds) = own_props creds).
  { unfold file_profiles. rewrite <- (list_fmap_id (own_props creds)) at 2. apply list_fmap_ext. by intros ? [? ?]. }
  assert (Hndo : NoDup (own_props creds).*1) by (by rewrite own_props_perm).
  pose proof (parseFile_print now readFileSync cf true config Hrc Hc Hndc Hndf) as Hpc.
  pose proof (parseFile_print now readFileSync sf false creds Hrs Hs Hnds) as Hps. rewrite Hfc in Hps. specialize (Hps Hndo).
  set (C := file_profiles true config) in *.
  exists [(cf, C); (sf, own_props creds)], (merge_profiles (merge_profiles [] C) (own_props creds)).
  assert (Hload : ∀ r f isConfig st, f ≠ [] → loadFrom now r path_join os_homedir env f isConfig st =
    match obj_get f st with
    | Some content => (st, Ok content)
    | None => match parseFile now r f isConfig with
              | Ok content => (st ++ [(f, content)], Ok content) | Throw e => (st, Throw e) end
    end) by (intros r [|c f] b st Hf; done).
  unfold getProfilesFromSharedConfig, or_str. rewrite Hopt. fold cf sf. split_and!.
  - unfold clearCachedFiles. rewrite (Hload _ cf) by done. cbn [obj_get]. rewrite Hpc. rewrite (Hload _ sf) by done.
    cbn [app obj_get]. by rewrite (proj2 (str_eqb_neq sf cf)), Hps by done.
  - intros p k. rewrite !merge_profiles_value by done.
    assert (Hv : profile_value (own_props creds) p k = profile_value creds p k).
    { unfold profile_value. by rewrite (obj_get_perm p (own_props creds) creds) by (done || apply own_props_perm). }
    rewrite Hv. destruct (profile_value creds p k); [done|]. by destruct (profile_value C p k).
  - intros r. rewrite (Hload _ cf) by done. cbn [obj_get]. rewrite str_eqb_refl. rewrite (Hload _ sf) by done.
    cbn [obj_get]. by rewrite (proj2 (str_eqb_neq sf cf)), str_eqb_refl by done.
Qed.

Lemma trimmed_of s : trim s = s → trimmed s.
Proof. intros <-. apply trim_trimmed. Qed.

(** Check concrete sections. *)
Ltac ini_check :=
  repeat match goal with
  | |- Forall section_ok (_ :: _) => apply Forall_cons; split
  | |- Forall item_ok (_ :: _) => apply Forall_cons; split
  | |- Forall _ [] => constructor
  | |- section_ok _ => split; cbn [fst snd]
  | |- item_ok _ => split; cbn [fst snd]
  | |- ini_text _ => split_and!; [discriminate|apply trimmed_of; reflexivity|]
  | |- _ = _ => vm_compute; reflexivity
  | |- _ ≠ _ => discriminate
  | |- _ => js_decide
  end.

Lemma shared_profiles_witness :
  let file n := if str_eqb n (js "c")
    then Ok (print_ini [(js "profile dev", [(js "region", js "eu-west-1"); (js "output", js "json")])])
    else Ok (print_ini [(js "dev", [(js "region", js "us-east-1"); (js "aws_access_key_id", js "AKID=x")])]) in
  let env := [(js "AWS_SDK_LOAD_CONFIG", js "1"); (js "AWS_CONFIG_FILE", js "c");
              (js "AWS_SHARED_CREDENTIALS_FILE", js "s")] in
  ∃ st profiles,
    getProfilesFromSharedConfig 0 file (@concat Z) None env [] clearCachedFiles = (st, Ok profiles) ∧
    profile_value profiles (js "dev") (js "region") = Some (js "us-east-1") ∧
    profile_value profiles (js "dev") (js "output") = Some (js "json").
Proof.
  intros file env.
  destruct (shared_profiles 0 file (@concat Z) None env
    [(js "profile dev", [(js "region", js "eu-west-1"); (js "output", js "json")])]
    [(js "dev", [(js "region", js "us-east-1"); (js "aws_access_key_id", js "AKID=x")])])
    as (st & profiles & Hg & Hv & _); [reflexivity|discriminate|discriminate|discriminate|reflexivity|reflexivity| |js_decide|js_decide|js_decide|].
  - cbn [app]. ini_check.
  - exists st, profiles. split; [exact Hg|]. rewrite !Hv. split; vm_compute; reflexivity.
Defined.
