(* ===== verification/Credentials.v ===== *)
(** * Credentials

    [AWS.Credentials] with the refreshing of keys (dist/index.js 10400-10587), the
    providers that read the environment (11571-11637), a file (11669-11712), the
    shared files (12245-12489), a process (11764-11884) and a container service
    (11926-12099), the chain that tries them (11256-11349), the credentials a
    configuration starts with (17471-17485) and [getCredentials] (9926-9977).

    The file system, the processes, the network and the clock are arguments.  A
    role of a profile is assumed by a request to STS: loading such a profile ends
    with what that request is to ask for.  Callbacks do not throw. *)

From stdpp Require Import base strings list relations.
From Stdlib Require Import ZArith Lia.
From coqutil Require Import Datatypes.RecordSetters.
From S2P Require Import Prelude JsValue Json AwsError SignersLegacy XmlParser QueryResponse SharedIni.

Import DoubleBraceUpdate.
Local Open Scope Z_scope.

(** ** The keys and their age *)

(** [expireTime] is null or a date, [Some None] an invalid one. *)
Record creds := Creds {
  accessKeyId : jsval;
  secretAccessKey : jsval;
  sessionToken : jsval;
  expired : bool;
  expireTime : option (option Z);
}.

(** The constructor, on its arguments. *)
Definition Credentials (args : list jsval) : result jserror creds :=
  let plain a b c := Creds a b c false None in
  match args with
  | [JNull] => Throw (type_error_of (js "Cannot read properties of null (reading 'credentials')"))
  | [(JObj _ | JArr _) as v] =>
    let c := js_or (child v (js "credentials")) v in
    Ok (plain (child c (js "accessKeyId")) (child c (js "secretAccessKey")) (child c (js "sessionToken")))
  | _ => let arg i := default JUndef (args !! i) in Ok (plain (arg 0%nat) (arg 1%nat) (arg 2%nat))
  end.

Definition no_credentials : creds := Creds JUndef JUndef JUndef false None.

Definition expiryWindow : Z := 15.

Definition needsRefresh (now : Z) (c : creds) : bool :=
  let adjustedTime := now + expiryWindow * 1000 in
  match expireTime c with
  | Some (Some t) => Z.ltb t adjustedTime || (expired c || negb (truthy (accessKeyId c)) || negb (truthy (secretAccessKey c)))
  | _ => expired c || negb (truthy (accessKeyId c)) || negb (truthy (secretAccessKey c))
  end.

(** A provider's [refresh] that ends at once: the files read so far, the keys and
    the error the callback gets. *)
Abbreviation refreshed := (resolved * creds * option aws_error)%type.

(** [AWS.Credentials.prototype.refresh]. *)
Definition refresh (st : resolved) (c : creds) : refreshed := (st, c {{ expired := false }}, None).

(** [AWS.util.error(new Error(message), {code: code})]. *)
Definition failure (now : Z) (code : string) (message : jsstr) : aws_error :=
  util_error now (new_Error message JUndef) (ObjectOptions [(js "code", JStr (js code))]).

(** ** Providers *)

Section providers.
Context (now : Z) (readFileSync : jsstr → result aws_error jsstr).
Context (path_join : list jsstr → jsstr) (os_homedir : option jsstr) (env : profile).
Context (Date_parse : jsval → option Z).   (* [new Date(v)] *)

(** *** The environment *)

Definition env_value (name : jsstr) : jsval := match obj_get name env with Some v => JStr v | None => JUndef end.
Definition env_name (envPrefix key : jsstr) : jsstr := match envPrefix with [] => key | p => p ++ js "_" ++ key end.

Fixpoint read_keys (envPrefix : jsstr) (keys : list jsstr) (values : list jsval) : result aws_error (list jsval) :=
  match keys with
  | [] => Ok values
  | key :: keys =>
    let v := env_value (env_name envPrefix key) in
    if negb (truthy v) && negb (str_eqb key (js "SESSION_TOKEN"))
    then Throw (failure now "EnvironmentCredentialsProviderFailure" (js "Variable " ++ env_name envPrefix key ++ js " not set."))
    else read_keys envPrefix keys (values ++ [v])
  end.

Definition env_refresh (envPrefix : jsstr) (st : resolved) (c : creds) : refreshed :=
  match read_keys envPrefix [js "ACCESS_KEY_ID"; js "SECRET_ACCESS_KEY"; js "SESSION_TOKEN"] [] with
  | Throw e => (st, c, Some e)
  | Ok values =>
    match Credentials values with
    | Ok c => (st, c, None)
    | Throw e => (st, c {{ expired := false }}, Some (raised e))
    end
  end.

(** *** A file *)

Definition fs_refresh (filename : jsstr) (st : resolved) (c : creds) : refreshed :=
  match readFileSync filename with
  | Throw e => (st, c, Some e)
  | Ok text =>
    match JSON_parse text with
    | None => (st, c, Some (raised (mk_error (js "SyntaxError") (js "Unexpected token in JSON"))))
    | Some v =>
      match Credentials [v] with
      | Throw e => (st, c {{ expired := false; expireTime := None }}, Some (raised e))
      | Ok c =>
        if negb (truthy (accessKeyId c)) || negb (truthy (secretAccessKey c))
        then (st, c, Some (failure now "FileSystemCredentialsProviderFailure" (js "Credentials not set in " ++ filename)))
        else (st, c, None)
      end
    end
  end.

(** *** The shared files *)

Record shared_options := SharedOptions {
  so_filename : jsstr;
  so_profile : jsstr;
  disableAssumeRole : bool;
  preferStaticCredentials : bool;
  tokenCodeFn : bool;   (* there is one *)
}.

(** [options.profile || process.env.AWS_PROFILE || AWS.util.defaultProfile]. *)
Definition profile_name (option_profile : jsstr) : jsstr := or_str option_profile (or_str (env_get env (js "AWS_PROFILE")) (js "default")).
Definition new_shared (filename option_profile : jsstr) (disable prefer token : bool) : shared_options :=
  SharedOptions filename (profile_name option_profile) disable prefer token.

(** What STS is asked for. *)
Record role_request := RoleRequest {
  rr_source : shared_options;      (* whose keys sign the request *)
  rr_region : jsstr;
  rr_params : list (jsstr * jsstr);
  rr_mfa : bool;                   (* a token code is asked for first *)
}.

Definition shared_failure : jsstr → aws_error := failure now "SharedIniFileCredentialsProviderFailure".
Definition setting (p : profile) (key : string) : jsstr := default [] (obj_get (js key) p).

Definition loadRoleProfile (o : shared_options) (profiles : ini_map) (roleProfile : profile) : result aws_error role_request :=
  let source := setting roleProfile "source_profile" in
  if disableAssumeRole o then
    Throw (shared_failure (js "Role assumption profiles are disabled. " ++ js "Failed to load profile " ++ so_profile o ++ js " from " ++
      match obj_get (js "filename") profiles with Some _ => js "[object Object]" | None => js "undefined" end))
  else if str_eqb source [] then Throw (shared_failure (js "source_profile is not set using profile " ++ so_profile o))
  else match obj_get source profiles with
  | None => Throw (shared_failure (js "source_profile " ++ source ++ js " using profile " ++ so_profile o ++ js " does not exist"))
  | Some _ =>
    let externalId := setting roleProfile "external_id" in
    let mfaSerial := setting roleProfile "mfa_serial" in
    let mfa := negb (str_eqb mfaSerial []) && tokenCodeFn o in
    Ok (RoleRequest (new_shared [] source false true false)
      (or_str (setting roleProfile "region") (js "us-east-1"))
      ([(js "RoleArn", setting roleProfile "role_arn");
        (js "RoleSessionName", or_str (setting roleProfile "role_session_name") (js "aws-sdk-js-" ++ Z_to_str now))] ++
       (match externalId with [] => [] | v => [(js "ExternalId", v)] end) ++
       (if mfa then [(js "SerialNumber", mfaSerial)] else [])) mfa)
  end.

Inductive load_end :=
| Called (err : option aws_error)   (* the callback was called *)
| Assumes (r : role_request).

Definition text_value (p : profile) (key : string) : jsval := match obj_get (js key) p with Some v => JStr v | None => JUndef end.

Definition shared_load (o : shared_options) (st : resolved) (c : creds) : resolved * creds * load_end :=
  let '(st, profiles) := getProfilesFromSharedConfig now readFileSync path_join os_homedir env (so_filename o) st in
  match profiles with
  | Throw e => (st, c, Called (Some e))
  | Ok profiles =>
    match default [] (obj_get (so_profile o) profiles) with
    | [] => (st, c, Called (Some (shared_failure (js "Profile " ++ so_profile o ++ js " not found"))))
    | p =>
      let static := negb (str_eqb (setting p "aws_access_key_id") []) && negb (str_eqb (setting p "aws_secret_access_key") []) in
      if negb (str_eqb (setting p "role_arn") []) && negb (preferStaticCredentials o && static) then
        match loadRoleProfile o profiles p with
        | Throw e => (st, c, Called (Some e))
        | Ok r => (st, c, Assumes r)
        end
      else
        let c := c {{ accessKeyId := text_value p "aws_access_key_id"; secretAccessKey := text_value p "aws_secret_access_key";
                      sessionToken := text_value p "aws_session_token" }} in
        if static then (st, c {{ expired := false }}, Called None)
        else (st, c, Called (Some (shared_failure (js "Credentials not set for profile " ++ so_profile o))))
    end
  end.

(** The answer of STS arrives. *)
Definition role_loaded (data : jsval) (expiration : option Z) (c : creds) : creds :=
  let k := child data (js "Credentials") in
  c {{ expired := false; accessKeyId := child k (js "AccessKeyId"); secretAccessKey := child k (js "SecretAccessKey");
       sessionToken := child k (js "SessionToken"); expireTime := Some expiration }}.

(** *** A process *)

(** What [proc.exec] hands to its callback: the output, unless there was an
    error. *)
Context (exec : jsstr → option jsstr).

Definition process_failure : jsstr → aws_error := failure now "ProcessCredentialsProviderFailure".

(** [JSON.parse(stdOut)] and the checks on it; [null] has no properties. *)
Definition process_data (stdOut : jsstr) : result jserror jsval :=
  match JSON_parse stdOut with
  | None => Throw (mk_error (js "SyntaxError") (js "Unexpected token in JSON"))
  | Some JNull => Throw (type_error_of (js "Cannot read properties of null (reading 'Expiration')"))
  | Some v =>
    let expiration := child v (js "Expiration") in
    if truthy expiration && match Date_parse expiration with Some t => Z.ltb t now | None => false end
    then Throw (js_error (js "credential_process returned expired credentials"))
    else match child v (js "Version") with
    | JNum n => if bool_decide (n = num_of_Z 1) then Ok v else Throw (js_error (js "credential_process does not return Version == 1"))
    | _ => Throw (js_error (js "credential_process does not return Version == 1"))
    end
  end.

Definition loadViaCredentialProcess (command : jsstr) : result aws_error jsval :=
  match exec command with
  | None => Throw (process_failure (js "credential_process returned error"))
  | Some stdOut =>
    match process_data stdOut with
    | Ok v => Ok v
    | Throw e => Throw (process_failure (err_message e))
    end
  end.

Definition process_load (filename profileName : jsstr) (st : resolved) (c : creds) : refreshed :=
  let '(st, profiles) := getProfilesFromSharedConfig now readFileSync path_join os_homedir env filename st in
  match profiles with
  | Throw e => (st, c, Some e)
  | Ok profiles =>
    match default [] (obj_get profileName profiles) with
    | [] => (st, c, Some (process_failure (js "Profile " ++ profileName ++ js " not found")))
    | p =>
      match setting p "credential_process" with
      | [] => (st, c, Some (process_failure (js "Profile " ++ profileName ++ js " did not include credential process")))
      | command =>
        match loadViaCredentialProcess command with
        | Throw e => (st, c, Some e)
        | Ok data =>
          let c := c {{ expired := false; accessKeyId := child data (js "AccessKeyId");
                        secretAccessKey := child data (js "SecretAccessKey"); sessionToken := child data (js "SessionToken") }} in
          (st, if truthy (child data (js "Expiration")) then c {{ expireTime := Some (Date_parse (child data (js "Expiration"))) }} else c, None)
        end
      end
    end
  end.

(** *** A container service *)

Context (urlParse : jsstr → jsstr * jsstr).   (* the protocol and the host name of a URL *)
Context (http_get : jsstr → jsval → result aws_error jsstr).   (* a URL and the header Authorization *)

Definition ENV_RELATIVE_URI : jsstr := js "AWS_CONTAINER_CREDENTIALS_RELATIVE_URI".
Definition ENV_FULL_URI : jsstr := js "AWS_CONTAINER_CREDENTIALS_FULL_URI".
Definition ENV_AUTH_TOKEN : jsstr := js "AWS_CONTAINER_AUTHORIZATION_TOKEN".
Definition FULL_URI_UNRESTRICTED_PROTOCOLS : list jsstr := [js "https:"].
Definition FULL_URI_ALLOWED_PROTOCOLS : list jsstr := [js "http:"; js "https:"].
Definition FULL_URI_ALLOWED_HOSTNAMES : list jsstr := [js "localhost"; js "127.0.0.1"].
Definition RELATIVE_URI_HOST : jsstr := js "169.254.170.2".

Definition ecs_failure : jsstr → aws_error := failure now "ECSCredentialsProviderFailure".

Definition isConfiguredForEcsCredentials : bool :=
  truthy (js_or (env_value ENV_RELATIVE_URI) (env_value ENV_FULL_URI)).

Definition getECSFullUri : result aws_error jsstr :=
  match env_get env ENV_RELATIVE_URI, env_get env ENV_FULL_URI with
  | [], [] => Throw (ecs_failure (js "Variable " ++ ENV_RELATIVE_URI ++ js " or " ++ ENV_FULL_URI ++ js " must be set to use AWS.RemoteCredentials."))
  | [], full =>
    let '(protocol, hostname) := urlParse full in
    if negb (str_mem protocol FULL_URI_ALLOWED_PROTOCOLS) then
      Throw (ecs_failure (js "Unsupported protocol:  AWS.RemoteCredentials supports " ++ join (js ",") FULL_URI_ALLOWED_PROTOCOLS ++ js " only; "
                          ++ protocol ++ js " requested."))
    else if negb (str_mem protocol FULL_URI_UNRESTRICTED_PROTOCOLS) && negb (str_mem hostname FULL_URI_ALLOWED_HOSTNAMES) then
      Throw (ecs_failure (js "Unsupported hostname: AWS.RemoteCredentials only supports " ++ join (js ",") FULL_URI_ALLOWED_HOSTNAMES
                          ++ js " for " ++ protocol ++ js "; " ++ protocol ++ js "//" ++ hostname ++ js " requested."))
    else Ok full
  | relative, _ => Ok (js "http://" ++ RELATIVE_URI_HOST ++ relative)
  end.

Definition getECSAuthToken : jsval := if truthy (env_value ENV_FULL_URI) then env_value ENV_AUTH_TOKEN else JUndef.

Definition formatCreds (credData : jsval) : creds :=
  let d := js_or (child credData (js "credentials")) credData in
  let pick a b := js_or (child d (js a)) (child d (js b)) in
  Creds (pick "accessKeyId" "AccessKeyId") (pick "secretAccessKey" "SecretAccessKey") (pick "sessionToken" "Token") false
    (Some (Date_parse (pick "expiration" "Expiration"))).

(** The date is an object and passes, valid or not. *)
Definition credsFormatIsValid (c : creds) : bool :=
  truthy (accessKeyId c) && truthy (secretAccessKey c) && truthy (sessionToken c) && bool_decide (is_Some (expireTime c)).

Definition remote_load (st : resolved) (c : creds) : refreshed :=
  match getECSFullUri with
  | Throw e => (st, c, Some e)
  | Ok fullUri =>
    match http_get fullUri (if truthy getECSAuthToken then getECSAuthToken else JUndef) with
    | Throw e => (st, c, Some e)
    | Ok text =>
      match JSON_parse text with
      | None => (st, c, Some (raised (mk_error (js "SyntaxError") (js "Unexpected token in JSON"))))
      | Some JNull => (st, c, Some (raised (type_error_of (js "Cannot read properties of null (reading 'credentials')"))))
      | Some data =>
        let d := formatCreds data in
        if credsFormatIsValid d then (st, d, None)
        else (st, c, Some (ecs_failure (js "Response data is not in valid format")))
      end
    end
  end.

End providers.

(** ** [get] *)

(** A refresh that ends at once. *)
Definition at_once (r : refreshed) : resolved * creds * load_end := let '(st, c, err) := r in (st, c, Called err).

Definition get (now : Z) (refresh : resolved → creds → resolved * creds * load_end) (st : resolved) (c : creds) :
    resolved * creds * load_end :=
  if needsRefresh now c then
    let '(st, c, e) := refresh st c in
    (st, match e with Called None => c {{ expired := false }} | _ => c end, e)
  else (st, c, Called None).

(** ** Refreshing once for many callers *)

(** A callback is known by its identity; [react] gives the calls of
    [coalesceRefresh] it makes when it is called.  [deferred] are the callbacks
    handed to [AWS.util.defer]. *)
Section coalesce.
Context {Cb : Type} (react : Cb → option aws_error → list Cb) (sync : bool).

Record refreshing := Refreshing {
  refreshCallbacks : list Cb;
  loads : nat;                                  (* calls of [load] without an answer *)
  deferred : list (Cb * option aws_error);
  notified : list (Cb * option aws_error);
}.

(** [load] is called when the list had been empty. *)
Definition coalesceRefresh (r : refreshing) (callback : Cb) : refreshing :=
  let callbacks := refreshCallbacks r ++ [callback] in
  Refreshing callbacks (if bool_decide (length callbacks = 1%nat) then S (loads r) else loads r) (deferred r) (notified r).

Definition call (err : option aws_error) (r : refreshing) (callback : Cb) : refreshing :=
  foldl coalesceRefresh (Refreshing (refreshCallbacks r) (loads r) (deferred r) (notified r ++ [(callback, err)])) (react callback err).

(** The answer of [load].  The list the loop is over is the one at its start. *)
Definition onLoad (err : option aws_error) (r : refreshing) : refreshing :=
  let r := Refreshing (refreshCallbacks r) (pred (loads r)) (deferred r) (notified r) in
  let r := if sync then foldl (call err) r (refreshCallbacks r)
           else Refreshing (refreshCallbacks r) (loads r) (deferred r ++ ((λ cb, (cb, err)) <$> refreshCallbacks r)) (notified r) in
  Refreshing [] (loads r) (deferred r) (notified r).

Definition run_deferred (callback : Cb) (err : option aws_error) (rest : list (Cb * option aws_error)) (r : refreshing) : refreshing :=
  call err (Refreshing (refreshCallbacks r) (loads r) rest (notified r)) callback.

(** The states a program can bring about, with the callbacks it has handed over:
    its own calls, and those of deferred callbacks. *)
Inductive reached : list Cb → refreshing → Prop :=
| reached_start : reached [] (Refreshing [] 0 [] [])
| reached_call l r cb : reached l r → reached (l ++ [cb]) (coalesceRefresh r cb)
| reached_load l r err : reached l r → (0 < loads r)%nat → reached l (onLoad err r)
| reached_deferred l r cb err rest :
  reached l r → deferred r = (cb, err) :: rest → reached (l ++ react cb err) (run_deferred cb err rest r).

(** ** Proofs *)

Definition one_load (r : refreshing) : Prop := loads r = match refreshCallbacks r with [] => 0%nat | _ => 1%nat end.

Lemma coalesce_calls l : ∀ r,
  one_load r → let r' := foldl coalesceRefresh r l in
  one_load r' ∧ refreshCallbacks r' = refreshCallbacks r ++ l ∧ deferred r' = deferred r ∧ notified r' = notified r.
Proof.
  induction l as [|cb l IH]; intros r Hr; cbn [foldl]; [by rewrite app_nil_r|].
  destruct (IH (coalesceRefresh r cb)) as (H1 & H2 & H3 & H4).
  - unfold one_load, coalesceRefresh in *. cbn. rewrite Hr, length_app. cbn. destruct (refreshCallbacks r); [done|].
    rewrite bool_decide_false; [done|]. cbn. lia.
  - cbn. rewrite H2. cbn. rewrite <- app_assoc. done.
Qed.

(** While the list is not empty a callback starts no load. *)
Lemma call_nested l err : ∀ r,
  refreshCallbacks r ≠ [] → let r' := foldl (call err) r l in
  loads r' = loads r ∧ deferred r' = deferred r ∧ notified r' = notified r ++ ((λ cb, (cb, err)) <$> l).
Proof.
  assert (Hn : ∀ k r, refreshCallbacks r ≠ [] → let r' := foldl coalesceRefresh r k in
    refreshCallbacks r' ≠ [] ∧ loads r' = loads r ∧ deferred r' = deferred r ∧ notified r' = notified r).
  { induction k as [|cb k IHk]; intros r Hr; [done|]. cbn [foldl].
    destruct (IHk (coalesceRefresh r cb)) as (H1 & H2 & H3 & H4); [cbn; by destruct (refreshCallbacks r)|].
    cbn. rewrite H2, H3, H4. split; [done|]. unfold coalesceRefresh. cbn. rewrite bool_decide_false; [done|].
    rewrite length_app. cbn. destruct (refreshCallbacks r); [done|]. cbn. lia. }
  induction l as [|cb l IH]; intros r Hr; cbn [foldl]; [by rewrite app_nil_r|].
  unfold call at 2 4 6. destruct (Hn (react cb err) (Refreshing (refreshCallbacks r) (loads r) (deferred r) (notified r ++ [(cb, err)])) Hr)
    as (H1 & H2 & H3 & H4).
  destruct (IH _ H1) as (I1 & I2 & I3). cbn in *. rewrite I1, I2, I3, H2, H3, H4. by rewrite <- app_assoc.
Qed.

Lemma onLoad_all err r :
  one_load r → (0 < loads r)%nat →
  let r' := onLoad err r in
  let answered := (λ cb, (cb, err)) <$> refreshCallbacks r in
  one_load r' ∧ refreshCallbacks r' = [] ∧
  deferred r' = deferred r ++ (if sync then [] else answered) ∧ notified r' = notified r ++ (if sync then answered else []).
Proof.
  intros Hr Hl. assert (Hne : refreshCallbacks r ≠ []) by (intros H; rewrite Hr, H in Hl; lia).
  assert (H1 : loads r = 1%nat) by (rewrite Hr; by destruct (refreshCallbacks r)).
  unfold onLoad, one_load. destruct sync; cbn.
  - destruct (call_nested (refreshCallbacks r) err (Refreshing (refreshCallbacks r) (pred (loads r)) (deferred r) (notified r)) Hne)
      as (I1 & I2 & I3). rewrite I1, I2, I3. cbn. rewrite H1, app_nil_r. done.
  - rewrite H1, app_nil_r. done.
Qed.

(** A refresh for many callers: whatever the order of calls, answers and deferred
    callbacks, at most one load is under way, and exactly while somebody waits
    for it; every callback handed over is waiting, deferred or notified, once.
    An answer leaves nobody waiting.  A callback that a notified callback hands
    over before the loop ends (which needs [sync]) is in none of these places: it
    is dropped. *)
Theorem coalesce_once l r :
  reached l r →
  loads r = match refreshCallbacks r with [] => 0%nat | _ => 1%nat end ∧
  l ≡ₚ refreshCallbacks r ++ (deferred r).*1 ++ (notified r).*1 ∧
  (0 < loads r → ∀ err, refreshCallbacks (onLoad err r) = [])%nat.
Proof.
  intros H. assert (Hboth : one_load r ∧ l ≡ₚ refreshCallbacks r ++ (deferred r).*1 ++ (notified r).*1).
  { induction H as [|l r cb _ [Hr Hl]|l r err _ [Hr Hl] H0|l r cb err rest _ [Hr Hl] Hd].
    - done.
    - destruct (coalesce_calls [cb] r Hr) as (H1 & H2 & H3 & H4). cbn [foldl] in *. split; [done|].
      rewrite H2, H3, H4, Hl. by rewrite <- !app_assoc, (Permutation_app_comm [cb]), <- !app_assoc.
    - destruct (onLoad_all err r Hr H0) as (H1 & H2 & H3 & H4). split; [done|].
      rewrite H2, H3, H4, Hl, !fmap_app. 
      assert (Hf : ((λ cb, (cb, err)) <$> refreshCallbacks r).*1 = refreshCallbacks r).
      { rewrite <- list_fmap_compose. apply list_fmap_id. }
      destruct sync; rewrite Hf; cbn; rewrite ?app_nil_r.
      + by rewrite Permutation_app_comm, <- app_assoc.
      + by rewrite (app_assoc (refreshCallbacks r)), (Permutation_app_comm (refreshCallbacks r)).
    - unfold run_deferred, call. cbn [refreshCallbacks loads deferred notified].
      destruct (coalesce_calls (react cb err) (Refreshing (refreshCallbacks r) (loads r) rest (notified r ++ [(cb, err)])) Hr)
        as (H1 & H2 & H3 & H4). split; [done|]. rewrite H2, H3, H4, Hl, Hd. cbn. rewrite fmap_app. cbn.
      rewrite <- !app_assoc. apply Permutation_app_head. rewrite Permutation_app_comm. apply Permutation_app_head.
      rewrite app_assoc. by rewrite Permutation_cons_append. }
  destruct Hboth as [Hr Hl]. split_and!; [done..|]. intros H0 err. by destruct (onLoad_all err r Hr H0) as (_ & ? & _).
Qed.
End coalesce.
