(* ===== verification/CredentialChain.v ===== *)
(** * The credential provider chain and the configuration

    [AWS.CredentialProviderChain] (dist/index.js 11256-11349) as a machine that
    callers and providers drive, the credentials a configuration starts with
    (17471-17485) as a run of it, and [AWS.Config.getCredentials] (9926-9977). *)

From stdpp Require Import base strings list.
From Stdlib Require Import ZArith Lia.
From coqutil Require Import Datatypes.RecordSetters.
From S2P Require Import Prelude JsValue AwsError SignersLegacy SharedIni Credentials.

Import DoubleBraceUpdate.
Local Open Scope Z_scope.

(** ** The chain *)

Section chain.
Context {P C Cb : Type}.   (* providers, credentials, callbacks by their identity *)

(** What a callback is called with. *)
Abbreviation outcome := (option aws_error * option C)%type.

(** The calls of [resolve] a callback makes when it is called. *)
Context (react : Cb → outcome → list Cb).

(** [pending]: the provider whose answer is awaited and the rest of the copy of
    [providers]; [asked] and [called] record what happened. *)
Record chain := Chain {
  providers : list P;
  resolveCallbacks : list Cb;
  pending : option (P * list P);
  asked : list P;
  called : list (Cb * outcome);
}.

(** One callback of the loop.  The list it is over is not empty, so a [resolve]
    in the callback only adds to it. *)
Definition call_back (o : outcome) (ch : chain) (callback : Cb) : chain :=
  Chain (providers ch) (resolveCallbacks ch ++ react callback o) (pending ch) (asked ch) (called ch ++ [(callback, o)]).

Definition resolveNext (o : outcome) (rest : list P) (ch : chain) : chain :=
  match o, rest with
  | (None, Some _), _ | _, [] =>
    let ch := foldl (call_back o) ch (resolveCallbacks ch) in
    Chain (providers ch) [] None (asked ch) (called ch)
  | _, provider :: rest => Chain (providers ch) (resolveCallbacks ch) (Some (provider, rest)) (asked ch ++ [provider]) (called ch)
  end.

Definition no_providers : aws_error := new_Error (js "No providers") JUndef.

Definition resolve (callback : Cb) (ch : chain) : chain :=
  match providers ch with
  | [] => Chain [] (resolveCallbacks ch) (pending ch) (asked ch) (called ch ++ [(callback, (Some no_providers, None))])
  | ps =>
    let callbacks := resolveCallbacks ch ++ [callback] in
    let ch := Chain ps callbacks (pending ch) (asked ch) (called ch) in
    if bool_decide (length callbacks = 1%nat) then resolveNext (None, None) ps ch else ch
  end.

(** The provider asked last calls back. *)
Definition outcome_of (r : result aws_error C) : outcome := match r with Ok c => (None, Some c) | Throw e => (Some e, None) end.
Definition answer (r : result aws_error C) (ch : chain) : chain :=
  match pending ch with
  | Some (_, rest) => resolveNext (outcome_of r) rest ch
  | None => ch
  end.

Inductive chain_event := Resolve (callback : Cb) | Answer (r : result aws_error C).
Definition chain_step (ch : chain) (e : chain_event) : chain :=
  match e with Resolve cb => resolve cb ch | Answer r => answer r ch end.

Definition resolves (es : list chain_event) : list Cb := es ≫= λ e, match e with Resolve cb => [cb] | Answer _ => [] end.
Definition answers (es : list chain_event) : list (result aws_error C) := es ≫= λ e, match e with Answer r => [r] | Resolve _ => [] end.

Definition new_chain (ps : list P) : chain := Chain ps [] None [] [].

(** *** Runs *)

Lemma notify_all o l ch :
  let ch' := foldl (call_back o) ch l in
  providers ch' = providers ch ∧ asked ch' = asked ch ∧ called ch' = called ch ++ ((λ cb, (cb, o)) <$> l).
Proof.
  revert ch. induction l as [|cb l IH]; intros ch; cbn [foldl]; [by rewrite app_nil_r|].
  destruct (IH (call_back o ch cb)) as (H1 & H2 & H3). cbn in *. rewrite H1, H2, H3. by rewrite <- app_assoc.
Qed.

(** A run under way: [seen] are asked, [rest] are left. *)
Lemma chain_failures es : ∀ ch errs p rest,
  answers es = Throw <$> errs → pending ch = Some (p, rest) → (length errs ≤ length rest)%nat →
  providers ch ≠ [] → resolveCallbacks ch ≠ [] →
  ∃ q, foldl chain_step ch es =
    Chain (providers ch) (resolveCallbacks ch ++ resolves es) (Some (q, drop (length errs) rest)) (asked ch ++ take (length errs) rest) (called ch).
Proof.
  induction es as [|e es IH]; intros ch errs p rest Ha Hp Hlen Hps Hcb.
  { symmetry in Ha. apply fmap_nil_inv in Ha as ->. exists p. destruct ch. cbn in *. rewrite Hp, drop_0, !app_nil_r. done. }
  destruct ch as [ps cbs pend ask cal]. cbn [providers resolveCallbacks pending asked called] in *. subst pend.
  destruct ps as [|p0 ps]; [done|]. destruct cbs as [|c0 cbs]; [done|]. cbn [foldl chain_step].
  destruct e as [cb|r].
  - cbn [chain_step]. unfold resolve. cbn [providers resolveCallbacks pending asked called]. rewrite bool_decide_false by (cbn; rewrite length_app; cbn; lia).
    destruct (IH (Chain (p0 :: ps) ((c0 :: cbs) ++ [cb]) (Some (p, rest)) ask cal) errs p rest) as [q Hq]; try done.
    exists q. rewrite Hq. cbn. by rewrite <- app_assoc.
  - destruct errs as [|err errs]; [done|]. injection Ha as -> Ha. destruct rest as [|p1 rest]; [cbn in Hlen; lia|].
    cbn [chain_step]. unfold answer. cbn [pending outcome_of resolveNext providers resolveCallbacks asked called].
    destruct (IH (Chain (p0 :: ps) (c0 :: cbs) (Some (p1, rest)) (ask ++ [p1]) cal) errs p1 rest) as [q Hq]; try done; [cbn in Hlen; lia|].
    exists q. rewrite Hq. cbn. by rewrite <- app_assoc.
Qed.

(** C12. The chain answers every caller with the first credentials found.  Let
    the chain be at rest, and let callers and providers call in any order, the
    first being a [resolve]: when the providers asked so far have failed and the
    next one succeeds, or is the last, everybody who called [resolve] in the
    meantime is called back once, in order, with these credentials or with the
    error of the last provider; the providers were asked in order, each once for
    all callers, and none after the first success; the chain is at rest again.
    Nobody else is called: a caller added by a callback, while the loop over the
    callbacks runs, is dropped. *)
Theorem chain_resolves (ch : chain) (cb0 : Cb) (es : list chain_event) (errs : list aws_error) (final : result aws_error C) :
  resolveCallbacks ch = [] → pending ch = None →
  answers es = Throw <$> errs → (length errs < length (providers ch))%nat →
  is_ok final = true ∨ S (length errs) = length (providers ch) →
  foldl chain_step ch (Resolve cb0 :: es ++ [Answer final]) =
  Chain (providers ch) [] None (asked ch ++ take (S (length errs)) (providers ch))
        (called ch ++ ((λ cb, (cb, outcome_of final)) <$> cb0 :: resolves es)).
Proof.
  intros Hcb Hp Ha Hlen Hfinal. destruct ch as [ps cbs pend ask cal]. cbn in Hcb, Hp, Hlen, Hfinal. subst cbs pend.
  destruct ps as [|p ps]; [cbn in Hlen; lia|]. cbn [foldl chain_step]. unfold resolve. cbn [providers resolveCallbacks pending asked called app].
  rewrite bool_decide_true by done. cbn [resolveNext providers resolveCallbacks pending asked called]. rewrite foldl_app.
  destruct (chain_failures es (Chain (p :: ps) [cb0] (Some (p, ps)) (ask ++ [p]) cal) errs p ps) as [q ->];
    [done|done|cbn in Hlen; lia|done..|].
  cbn [foldl chain_step]. unfold answer. cbn [providers resolveCallbacks pending asked called].
  set (ch := Chain _ _ _ _ _).
  assert (Hnext : resolveNext (outcome_of final) (drop (length errs) ps) ch =
    let ch := foldl (call_back (outcome_of final)) ch (resolveCallbacks ch) in Chain (providers ch) [] None (asked ch) (called ch)).
  { destruct final as [c|e]; [done|]. destruct Hfinal as [|Hl]; [done|]. cbn in Hl. by rewrite drop_ge by lia. }
  rewrite Hnext. destruct (notify_all (outcome_of final) (resolveCallbacks ch) ch) as (H1 & H2 & H3). cbn zeta in *.
  rewrite H1, H2, H3. cbn. by rewrite <- app_assoc.
Qed.

End chain.

(** A callback that resolves again from within the loop. *)
Lemma chain_resolves_witness :
  foldl (chain_step (λ cb _, if Z.eqb cb 1 then [9] else [])) (new_chain [js "a"; js "b"; js "c"])
    [Resolve 1; Answer (Throw no_providers); Resolve 2; Answer (Ok 5)] =
  Chain [js "a"; js "b"; js "c"] [] None [js "a"; js "b"] [(1, (None, Some 5)); (2, (None, Some 5))].
Proof.
  apply (chain_resolves (λ cb _, if Z.eqb cb 1 then [9] else []) (new_chain [js "a"; js "b"; js "c"]) 1
    [Answer (Throw no_providers); Resolve 2] [no_providers] (Ok 5)); [done|done|done|cbn; lia|by left].
Defined.

(** ** The credentials of a configuration *)

Inductive provider :=
| EnvironmentCredentials (envPrefix : jsstr)
| SharedIniFileCredentials (o : shared_options).

Definition constructor_name (p : provider) : jsstr :=
  match p with
  | EnvironmentCredentials _ => js "EnvironmentCredentials"
  | SharedIniFileCredentials _ => js "SharedIniFileCredentials"
  end.

Section config.
Context (now : Z) (readFileSync : jsstr → result aws_error jsstr).
Context (path_join : list jsstr → jsstr) (os_homedir : option jsstr) (env : profile).

Definition provider_refresh (p : provider) (st : resolved) (c : creds) : resolved * creds * load_end :=
  match p with
  | EnvironmentCredentials envPrefix => at_once (env_refresh now env envPrefix st c)
  | SharedIniFileCredentials o => shared_load now readFileSync path_join os_homedir env o clearCachedFiles c
  end.

(** The constructors end with a [get]; the chain calls [get] again. *)
Definition ask (p : provider) (st : resolved) : resolved * option (result aws_error (provider * creds)) :=
  let '(st, c, _) := get now (provider_refresh p) st no_credentials in
  let '(st, c, e) := get now (provider_refresh p) st c in
  (st, match e with
       | Called None => Some (Ok (p, c))
       | Called (Some e) => Some (Throw e)
       | Assumes _ => None
       end).

(** Every provider that is asked answers at once, unless it assumes a role. *)
Fixpoint drive (fuel : nat) (st : resolved) (ch : @chain provider (provider * creds) unit) : resolved * chain :=
  match fuel, pending ch with
  | S fuel, Some (p, _) =>
    match ask p st with
    | (st, Some r) => drive fuel st (answer (λ _ _, []) r ch)
    | (st, None) => (st, ch)
    end
  | _, _ => (st, ch)
  end.

Definition config_providers : list provider :=
  [EnvironmentCredentials (js "AWS"); EnvironmentCredentials (js "AMAZON");
   SharedIniFileCredentials (new_shared env [] [] true false false)].

(** [keys.credentials] of the Node configuration. *)
Definition keys_credentials (st : resolved) : resolved * option (provider * creds) :=
  let '(st, ch) := drive (length config_providers) st (resolve (λ _ _, []) tt (new_chain config_providers)) in
  (st, match called ch with [(_, (None, creds))] => creds | _ => None end).

(** [credError(msg, err)]. *)
Definition credError (msg : jsstr) (err : option aws_error) : aws_error :=
  util_error now (default (new_Error [] JUndef) err)
    (ObjectOptions [(js "code", JStr (js "CredentialsError")); (js "message", JStr msg); (js "name", JStr (js "CredentialsError"))]).

(** The credentials of a configuration: an object with [get], or plain keys. *)
Inductive stored := WithGet (p : provider) (c : creds) | Static (accessKeyId secretAccessKey : jsval).

(** [getCredentials]: the files, the stored credentials and what the callback is
    called with; the last is absent while a role is assumed.  [provided] is what
    [credentialProvider.resolve] calls back with, if there is a provider. *)
Definition getCredentials (provided : option (option aws_error * option stored)) (st : resolved) (credentials : option stored) :
    resolved * option stored * option (option aws_error * option stored) :=
  let finish st credentials (err : option aws_error) :=
    (st, credentials, Some (err, match err with None => credentials | Some _ => None end)) in
  match credentials with
  | Some (WithGet p c) =>
    let '(st, c, e) := get now (provider_refresh p) st c in
    let credentials := Some (WithGet p c) in
    match e with
    | Called None => finish st credentials None
    | Called (Some e) => finish st credentials (Some (credError (js "Could not load credentials from " ++ constructor_name p) (Some e)))
    | Assumes _ => (st, credentials, None)
    end
  | Some (Static a s) =>
    finish st credentials (if negb (truthy a) || negb (truthy s) then Some (credError (js "Missing credentials") None) else None)
  | None =>
    match provided with
    | Some (err, creds) =>
      finish st creds (match err with
                       | Some e => Some (credError (js "Could not load credentials from any providers") (Some e))
                       | None => None
                       end)
    | None => finish st credentials (Some (credError (js "No credentials to load") None))
    end
  end.

(** *** What is found *)

(** The keys of the environment. *)
Definition env_keys (prefix : string) : option creds :=
  let name key := js prefix ++ js "_" ++ js key in
  match env_get env (name "ACCESS_KEY_ID"), env_get env (name "SECRET_ACCESS_KEY") with
  | (_ :: _) as a, (_ :: _) as s => Some (Creds (JStr a) (JStr s) (env_value env (name "SESSION_TOKEN")) false None)
  | _, _ => None
  end.

(** The keys of a profile that assumes no role. *)
Definition profile_keys (profiles : result aws_error ini_map) : option creds :=
  match profiles with
  | Throw _ => None
  | Ok profiles =>
    p ← obj_get (profile_name env []) profiles;
    match setting p "role_arn", setting p "aws_access_key_id", setting p "aws_secret_access_key" with
    | [], (_ :: _) as a, (_ :: _) as s => Some (Creds (JStr a) (JStr s) (text_value p "aws_session_token") false None)
    | _, _, _ => None
    end
  end.

(** The providers in order: the environment, by its two prefixes, before any
    file is read. *)
Definition first_found (st : resolved) : resolved * option (provider * creds) :=
  match env_keys "AWS", env_keys "AMAZON" with
  | Some c, _ => (st, Some (EnvironmentCredentials (js "AWS"), c))
  | None, Some c => (st, Some (EnvironmentCredentials (js "AMAZON"), c))
  | None, None =>
    let '(st, profiles) := getProfilesFromSharedConfig now readFileSync path_join os_homedir env [] clearCachedFiles in
    (st, pair (SharedIniFileCredentials (new_shared env [] [] true false false)) <$> profile_keys profiles)
  end.

(** Keys that need no refresh at any time. *)
Definition lasting (c : creds) : Prop :=
  truthy (accessKeyId c) = true ∧ truthy (secretAccessKey c) = true ∧ expired c = false ∧ expireTime c = None.

Lemma lasting_fresh c t : lasting c → needsRefresh t c = false.
Proof. intros (H1 & H2 & H3 & H4). unfold needsRefresh. by rewrite H4, H3, H2, H1. Qed.

Lemma env_value_cases name :
  (env_get env name = [] ∧ truthy (env_value env name) = false) ∨
  (∃ x l, env_get env name = x :: l ∧ env_value env name = JStr (x :: l)).
Proof.
  unfold env_get, env_value. destruct (obj_get name env) as [[|x l]|]; [by left|right|by left]. by exists x, l.
Qed.

Lemma env_refresh_keys prefix st c :
  js prefix ≠ [] →
  match env_keys prefix with
  | Some c' => env_refresh now env (js prefix) st c = (st, c', None) ∧ lasting c'
  | None => ∃ e, env_refresh now env (js prefix) st c = (st, c, Some e)
  end.
Proof.
  intros Hp. unfold env_refresh, env_keys.
  assert (Hname : ∀ key, env_name (js prefix) key = js prefix ++ js "_" ++ key) by (intros; unfold env_name; by destruct (js prefix)).
  cbn [read_keys]. rewrite !Hname.
  replace (str_eqb (js "ACCESS_KEY_ID") (js "SESSION_TOKEN")) with false by done.
  replace (str_eqb (js "SECRET_ACCESS_KEY") (js "SESSION_TOKEN")) with false by done.
  replace (str_eqb (js "SESSION_TOKEN") (js "SESSION_TOKEN")) with true by done.
  destruct (env_value_cases (js prefix ++ js "_" ++ js "ACCESS_KEY_ID")) as [[-> ->]|(x & l & -> & ->)]; [by eexists|].
  cbn [truthy negb andb app].
  destruct (env_value_cases (js prefix ++ js "_" ++ js "SECRET_ACCESS_KEY")) as [[-> ->]|(y & k & -> & ->)]; [by eexists|].
  cbn [truthy negb andb app]. rewrite andb_false_r. by destruct (env_value env _).
Qed.

Lemma get_lasting refresh st c : lasting c → get now refresh st c = (st, c, Called None).
Proof. intros H. unfold get. by rewrite lasting_fresh. Qed.

Lemma ask_found p st st' c :
  provider_refresh p st no_credentials = (st', c, Called None) → lasting c → ask p st = (st', Some (Ok (p, c))).
Proof.
  intros Hr Hc. unfold ask, get at 1. cbn [needsRefresh no_credentials expireTime expired accessKeyId truthy negb orb]. rewrite Hr.
  replace (c {{ expired := false }}) with c by (destruct c, Hc as (_ & _ & H & _); cbn in H; by subst).
  by rewrite get_lasting.
Qed.

(** A failed [get] of the constructor is tried again by the chain. *)
Lemma ask_failed p st st' st'' c c' e e' :
  provider_refresh p st no_credentials = (st', c, Called (Some e)) → needsRefresh now c = true →
  provider_refresh p st' c = (st'', c', Called (Some e')) → ask p st = (st'', Some (Throw e')).
Proof.
  intros Hr Hc Hr'. unfold ask, get at 1. cbn [needsRefresh no_credentials expireTime expired accessKeyId truthy negb orb]. rewrite Hr.
  unfold get. by rewrite Hc, Hr'.
Qed.

Lemma ask_env prefix st :
  js prefix ≠ [] →
  ∃ e, ask (EnvironmentCredentials (js prefix)) st =
    (st, Some (match env_keys prefix with Some c => Ok (EnvironmentCredentials (js prefix), c) | None => Throw e end)).
Proof.
  intros Hp. pose proof (env_refresh_keys prefix st no_credentials Hp) as H. destruct (env_keys prefix) as [c|].
  - destruct H as [H Hc]. exists no_providers. apply ask_found; [|done]. cbn. by rewrite H.
  - destruct H as [e H]. exists e. apply (ask_failed _ _ st _ no_credentials no_credentials e); [|done|]; cbn; by rewrite H.
Qed.

Lemma setting_cases p key :
  (setting p key = [] ∧ truthy (text_value p key) = false) ∨ (∃ x l, setting p key = x :: l ∧ text_value p key = JStr (x :: l)).
Proof. unfold setting, text_value. destruct (obj_get (js key) p) as [[|x l]|]; [by left|right; by exists x, l|by left]. Qed.

Lemma shared_load_keys c :
  let '(st', profiles) := getProfilesFromSharedConfig now readFileSync path_join os_homedir env [] clearCachedFiles in
  let o := new_shared env [] [] true false false in
  expireTime c = None → needsRefresh now c = true →
  match profile_keys profiles with
  | Some k => shared_load now readFileSync path_join os_homedir env o clearCachedFiles c = (st', k, Called None) ∧ lasting k
  | None => ∃ c' e, shared_load now readFileSync path_join os_homedir env o clearCachedFiles c = (st', c', Called (Some e)) ∧
              expireTime c' = None ∧ needsRefresh now c' = true
  end.
Proof.
  unfold shared_load. cbn [new_shared so_filename so_profile]. destruct (getProfilesFromSharedConfig _ _ _ _ _ _ _) as [st' [profiles|e]].
  2: { intros Hx Hn. by exists c, e. }
  intros Hx Hn. unfold profile_keys. destruct (obj_get _ profiles) as [p|]; cbn [mbind option_bind default]; [|by do 2 eexists].
  destruct p as [|kv p]; [by do 2 eexists|]. unfold Datatypes.id. cbn [preferStaticCredentials andb negb]. rewrite andb_true_r.
  destruct (setting_cases (kv :: p) "role_arn") as [[-> _]|(x & l & -> & _)].
  2: { cbn. by do 2 eexists. }
  replace (str_eqb [] []) with true by done. cbn [negb].
  pose proof (setting_cases (kv :: p) "aws_access_key_id") as HA. pose proof (setting_cases (kv :: p) "aws_secret_access_key") as HS.
  generalize dependent (text_value (kv :: p) "aws_session_token"). intros t.
  generalize dependent (text_value (kv :: p) "aws_access_key_id"). intros a HA.
  generalize dependent (text_value (kv :: p) "aws_secret_access_key"). intros s HS.
  destruct c as [ca cs ct ce cx]. cbn [expireTime] in Hx. subst cx.
  destruct HA as [[-> Ha]|(x & l & -> & ->)]; [do 2 eexists; split; [reflexivity|]; split; [done|]|].
  { unfold needsRefresh. cbn. unfold constant. by rewrite Ha, orb_true_r. }
  destruct HS as [[-> Hs]|(y & k & -> & ->)]; [do 2 eexists; split; [reflexivity|]; split; [done|]|done].
  unfold needsRefresh. cbn. unfold constant. by rewrite Hs, orb_true_r.
Qed.


Lemma ask_shared st :
  let '(st', profiles) := getProfilesFromSharedConfig now readFileSync path_join os_homedir env [] clearCachedFiles in
  let p := SharedIniFileCredentials (new_shared env [] [] true false false) in
  ∃ e, ask p st = (st', Some (match profile_keys profiles with Some c => Ok (p, c) | None => Throw e end)) ∧
       ∀ c, profile_keys profiles = Some c → lasting c.
Proof.
  pose proof (shared_load_keys no_credentials) as H. pose proof (λ c, shared_load_keys c) as H'.
  destruct (getProfilesFromSharedConfig _ _ _ _ _ _ _) as [st' profiles]. specialize (H eq_refl eq_refl).
  destruct (profile_keys profiles) as [k|].
  - destruct H as [H Hk]. exists no_providers. split; [by apply ask_found|by intros c [= <-]].
  - destruct H as (c & e & H & Hx & Hn). destruct (H' c Hx Hn) as (c' & e' & H'' & _). exists e'. split; [|done].
    by apply (ask_failed _ _ st' _ c c' e).
Qed.

Lemma env_keys_lasting prefix c : js prefix ≠ [] → env_keys prefix = Some c → lasting c.
Proof. intros Hp Hk. pose proof (env_refresh_keys prefix [] no_credentials Hp) as H. rewrite Hk in H. by destruct H. Qed.

Lemma first_found_lasting st p c : (first_found st).2 = Some (p, c) → lasting c.
Proof.
  unfold first_found. destruct (env_keys "AWS") eqn:HA; [intros [= _ <-]; by apply (env_keys_lasting "AWS")|].
  destruct (env_keys "AMAZON") eqn:HB; [intros [= _ <-]; by apply (env_keys_lasting "AMAZON")|].
  pose proof (ask_shared st) as H. destruct (getProfilesFromSharedConfig _ _ _ _ _ _ _) as [st' profiles]. destruct H as (_ & _ & H).
  cbn. destruct (profile_keys profiles); [|done]. intros [= _ <-]. by apply H.
Qed.

Lemma keys_credentials_first st : keys_credentials st = first_found st.
Proof.
  unfold keys_credentials, first_found, resolve. cbn -[ask env_keys getProfilesFromSharedConfig new_shared].
  rewrite bool_decide_true by done. cbn -[ask env_keys getProfilesFromSharedConfig new_shared].
  destruct (ask_env "AWS" st) as [e1 ->]; [done|]. destruct (env_keys "AWS"); [done|].
  cbn -[ask env_keys getProfilesFromSharedConfig new_shared].
  destruct (ask_env "AMAZON" st) as [e2 ->]; [done|]. destruct (env_keys "AMAZON"); [done|].
  cbn -[ask env_keys getProfilesFromSharedConfig new_shared].
  pose proof (ask_shared st) as H. destruct (getProfilesFromSharedConfig _ _ _ _ _ _ _) as [st' profiles]. destruct H as (e & -> & _).
  by destruct (profile_keys profiles).
Qed.

End config.

Lemma env_reread now env prefix st c k readFileSync path_join os_homedir :
  js prefix ≠ [] → needsRefresh now c = true → env_keys env prefix = Some k →
  get now (provider_refresh now readFileSync path_join os_homedir env (EnvironmentCredentials (js prefix))) st c = (st, k, Called None).
Proof.
  intros Hp Hc Hk. pose proof (env_refresh_keys now env prefix st c Hp) as H. rewrite Hk in H. destruct H as [H Hl].
  unfold get. rewrite Hc. cbn [provider_refresh at_once]. rewrite H. cbn [at_once].
  by replace (k {{ expired := false }}) with k by (destruct k, Hl as (_ & _ & Hx & _); cbn in Hx; by subst).
Qed.

(** C11. The credentials of a configuration.  They are the keys of the variables
    AWS_..., or else those of AMAZON_..., or else those of the chosen profile of
    the shared files, which are not read before; a source counts only if it has
    both keys, and a profile only if it assumes no role.  At any later time, with
    any environment and files, [getCredentials] hands out what was found, without
    an error and without reading anything; marked as expired, keys of the
    environment are read from it again. *)
Theorem config_credentials_found (now : Z) (readFileSync : jsstr → result aws_error jsstr) (path_join : list jsstr → jsstr)
    (os_homedir : option jsstr) (env : profile) (st : resolved) :
  keys_credentials now readFileSync path_join os_homedir env st = first_found now readFileSync path_join os_homedir env st ∧
  ∀ p c, (first_found now readFileSync path_join os_homedir env st).2 = Some (p, c) →
  ∀ now' readFileSync' env' provided st',
    let later := getCredentials now' readFileSync' path_join os_homedir env' provided st' in
    later (Some (WithGet p c)) = (st', Some (WithGet p c), Some (None, Some (WithGet p c))) ∧
    ∀ prefix k, js prefix ≠ [] → p = EnvironmentCredentials (js prefix) → env_keys env' prefix = Some k →
      later (Some (WithGet p (c {{ expired := true }}))) = (st', Some (WithGet p k), Some (None, Some (WithGet p k))).
Proof.
  split; [apply keys_credentials_first|]. intros p c Hc%first_found_lasting now' readFileSync' env' provided st' later. unfold later. split.
  - unfold getCredentials. by rewrite get_lasting.
  - intros prefix k Hp -> Hk. unfold getCredentials. rewrite (env_reread _ _ _ _ _ k) by (try done; destruct c, Hc as (_ & _ & _ & Hx); cbn in Hx; by subst).
    reflexivity.
Qed.

(** A key without its secret is passed over. *)
Lemma config_credentials_found_witness :
  let env := [(js "AWS_ACCESS_KEY_ID", js "half"); (js "AMAZON_ACCESS_KEY_ID", js "id"); (js "AMAZON_SECRET_ACCESS_KEY", js "secret")] in
  let found := Creds (JStr (js "id")) (JStr (js "secret")) JUndef false None in
  let p := EnvironmentCredentials (js "AMAZON") in
  keys_credentials 0 (λ _, Throw no_providers) (@concat Z) None env [] = ([], Some (p, found)) ∧
  getCredentials 99 (λ _, Throw no_providers) (@concat Z) None [] None [] (Some (WithGet p found)) =
    ([], Some (WithGet p found), Some (None, Some (WithGet p found))).
Proof.
  intros env found p. destruct (config_credentials_found 0 (λ _, Throw no_providers) (@concat Z) None env []) as [H1 H2].
  split; [rewrite H1; reflexivity|]. apply (H2 p found); reflexivity.
Defined.

(** ** Where the token of a container service goes *)

(** The full URI is asked for only over https or on the own machine. *)
Lemma container_uri_restricted now env urlParse uri :
  getECSFullUri now env urlParse = Ok uri →
  (env_get env ENV_RELATIVE_URI ≠ [] ∧ uri = js "http://169.254.170.2" ++ env_get env ENV_RELATIVE_URI) ∨
  (uri = env_get env ENV_FULL_URI ∧
   ((urlParse uri).1 = js "https:" ∨ (urlParse uri).1 = js "http:" ∧ (urlParse uri).2 ∈ FULL_URI_ALLOWED_HOSTNAMES)).
Proof.
  assert (Hmem : ∀ s l, SignersLegacy.str_mem s l = true → s ∈ l).
  { intros s l (x & Hx & ->%str_eqb_eq)%existsb_exists. by apply list_elem_of_In. }
  unfold getECSFullUri. destruct (env_get env ENV_RELATIVE_URI) as [|r rs].
  - destruct (env_get env ENV_FULL_URI) as [|f fs]; [done|]. destruct (urlParse (f :: fs)) as [protocol hostname] eqn:Hu.
    destruct (SignersLegacy.str_mem protocol FULL_URI_ALLOWED_PROTOCOLS) eqn:Hp; [|done]. cbn [negb].
    destruct (SignersLegacy.str_mem protocol FULL_URI_UNRESTRICTED_PROTOCOLS) eqn:Hs; cbn [negb andb].
    + intros [= <-]. right. split; [done|]. rewrite Hu. left. by apply Hmem, list_elem_of_singleton in Hs.
    + destruct (SignersLegacy.str_mem hostname FULL_URI_ALLOWED_HOSTNAMES) eqn:Hh; [|done]. intros [= <-]. right. split; [done|]. rewrite Hu.
      apply Hmem in Hp. apply elem_of_cons in Hp as [->|Hp%list_elem_of_singleton]; [right; split; [done|by apply Hmem]|by left].
  - intros [= <-]. by left.
Qed.
