(* ===== verification/AwsConfig.v ===== *)
(** * The configuration

    [AWS.Config] (dist/index.js 9888-9895, 9994-10125) with its keys, those of Node
    included (17471-17506): the object the action sets its region in.  Values that
    are functions of the environment are arguments, and so is the list of service
    names ([AWS.Service.hasService]). *)

From stdpp Require Import base strings list.
From Stdlib Require Import ZArith Lia.
From S2P Require Import Prelude JsValue Json ParamValidator XmlParser QueryResponse Credentials.

Local Open Scope Z_scope.

(** A default: a value, or a function called when the key is set. *)
Inductive key_default := Value (v : jsval) | Computed.

Definition keys : list (jsstr * key_default) :=
  [(js "credentials", Computed); (js "credentialProvider", Computed); (js "region", Computed); (js "logger", Computed);
   (js "apiVersions", Value (JObj [])); (js "apiVersion", Value JNull); (js "endpoint", Value JUndef);
   (js "httpOptions", Value (JObj [(js "timeout", JNum (num_of_Z 120000))]));
   (js "maxRetries", Value JUndef); (js "maxRedirects", Value (JNum (num_of_Z 10))); (js "paramValidation", Value (JBool true));
   (js "sslEnabled", Value (JBool true)); (js "s3ForcePathStyle", Value (JBool false)); (js "s3BucketEndpoint", Value (JBool false));
   (js "s3DisableBodySigning", Value (JBool true)); (js "s3UsEast1RegionalEndpoint", Value (JStr (js "legacy")));
   (js "s3UseArnRegion", Value JUndef); (js "computeChecksums", Value (JBool true)); (js "convertResponseTypes", Value (JBool true));
   (js "correctClockSkew", Value (JBool false)); (js "customUserAgent", Value JNull); (js "dynamoDbCrc32", Value (JBool true));
   (js "systemClockOffset", Value (JNum (num_of_Z 0))); (js "signatureVersion", Value JNull); (js "signatureCache", Value (JBool true));
   (js "retryDelayOptions", Value (JObj [])); (js "useAccelerateEndpoint", Value (JBool false));
   (js "clientSideMonitoring", Value (JBool false)); (js "endpointDiscoveryEnabled", Value JUndef);
   (js "endpointCacheSize", Value (JNum (num_of_Z 1000))); (js "hostPrefixEnabled", Value (JBool true));
   (js "stsRegionalEndpoints", Value (JStr (js "legacy")))].

Section config.
Context (computed : jsstr → jsval).   (* the functions of [keys] *)
Context (hasService : jsstr → bool).

Definition default_value (property : jsstr) : jsval :=
  match obj_get property keys with
  | Some (Value v) => v
  | Some Computed => computed property
  | None => JUndef
  end.

(** [util.merge]. *)
Definition merge (a : jsval) (b : jsval) : jsval := JObj (update (entries a) b).

(** What [set] assigns, from the value given and the one before. *)
Definition assigned (property : jsstr) (value before : jsval) : jsval :=
  match value with
  | JUndef => default_value property
  | _ => if str_eqb property (js "httpOptions") && truthy before then merge before value else value
  end.

Definition set (property : jsstr) (value : jsval) (config : jsobj) : jsobj :=
  obj_set property (assigned property value (obj_prop config property)) config.

(** The object [new AWS.Credentials(options)]. *)
Definition credentials_value (c : creds) : jsval :=
  JObj [(js "expired", JBool (expired c)); (js "expireTime", JNull); (js "refreshCallbacks", JArr []);
        (js "accessKeyId", accessKeyId c); (js "secretAccessKey", secretAccessKey c); (js "sessionToken", sessionToken c)].

Definition extractCredentials (options : jsobj) : jsobj :=
  if truthy (obj_prop options (js "accessKeyId")) && truthy (obj_prop options (js "secretAccessKey")) then
    match Credentials.Credentials [JObj options] with
    | Ok c => obj_set (js "credentials") (credentials_value c) (own_props options)
    | Throw _ => options
    end
  else options.

Definition allowed (allowUnknownKeys : bool) (key : jsstr) : bool :=
  allowUnknownKeys || bool_decide (key ∈ keys.*1) || hasService key.

Definition config_update (allowUnknownKeys : bool) (options : jsobj) (config : jsobj) : jsobj :=
  foldl (λ c kv, if allowed allowUnknownKeys kv.1 then set kv.1 kv.2 c else c) config (own_props (extractCredentials options)).

(** The constructor. *)
Definition new_Config (options : jsobj) : jsobj :=
  let options := extractCredentials options in
  foldl (λ c key, set key (obj_prop options key) c) [] keys.*1.

Definition clear (config : jsobj) : jsobj :=
  let config := foldl (λ c key, obj_del key c) config keys.*1 in
  set (js "credentialProvider") JUndef (set (js "credentials") JUndef config).

(** ** What an update changes *)

Lemma obj_get_assigned k key v config :
  obj_get k (set key v config) = if decide (k = key) then Some (assigned key v (obj_prop config key)) else obj_get k config.
Proof.
  unfold set. destruct (decide (k = key)) as [->|Hne]; [by rewrite obj_get_set_eq|by rewrite obj_get_set_other].
Qed.

Lemma obj_prop_assigned k key v config :
  k ≠ key → obj_prop (set key v config) k = obj_prop config k.
Proof. intros Hne. unfold obj_prop. by rewrite obj_get_assigned, decide_False. Qed.

Lemma update_fold allow k l : ∀ config,
  NoDup l.*1 →
  obj_get k (foldl (λ c kv, if allowed allow kv.1 then set kv.1 kv.2 c else c) config l) =
  match obj_get k l with
  | Some v => if allowed allow k then Some (assigned k v (obj_prop config k)) else obj_get k config
  | None => obj_get k config
  end.
Proof.
  induction l as [|[key v] l IH]; intros config Hnd; [done|]. apply NoDup_cons in Hnd as [Hkey Hnd]. cbn [foldl fst snd].
  rewrite IH by done. cbn [obj_get]. destruct (str_eqb k key) eqn:Hk.
  - apply str_eqb_eq in Hk as <-. destruct (obj_get k l) eqn:Hl; [destruct Hkey; by apply obj_get_elem; eexists|].
    destruct (allowed allow k); [|done]. by rewrite obj_get_assigned, decide_True.
  - apply str_eqb_neq in Hk. destruct (allowed allow key); [|done].
    by rewrite obj_get_assigned, decide_False, obj_prop_assigned by done.
Qed.

Lemma extractCredentials_keys options : NoDup options.*1 → NoDup (extractCredentials options).*1.
Proof.
  intros Hnd. unfold extractCredentials. destruct (_ && _); [|done]. destruct (Credentials.Credentials _); [|done].
  apply obj_set_NoDup. by rewrite own_props_perm.
Qed.

(** An update sets exactly the options that are keys of the configuration or
    names of services, each to its value, its default if that is undefined, or, for
    the HTTP options, the merge with those before; every other property keeps its
    value, and unknown options are ignored unless they are allowed. *)
Theorem config_update_sets (allow : bool) (options config : jsobj) (k : jsstr) :
  NoDup options.*1 →
  obj_get k (config_update allow options config) =
  match obj_get k (extractCredentials options) with
  | Some v => if allowed allow k then Some (assigned k v (obj_prop config k)) else obj_get k config
  | None => obj_get k config
  end.
Proof.
  intros Hnd%extractCredentials_keys. unfold config_update. rewrite update_fold by (by rewrite own_props_perm).
  by rewrite (obj_get_perm k (extractCredentials options) (own_props (extractCredentials options))) by (try done; by rewrite own_props_perm).
Qed.

(** The call of the action, [aws.config.update({ region })]. *)
Corollary region_set (region : jsstr) (config : jsobj) (k : jsstr) :
  obj_get k (config_update false [(js "region", JStr region)] config) =
  if decide (k = js "region") then Some (JStr region) else obj_get k config.
Proof.
  rewrite config_update_sets by (apply NoDup_singleton). change (extractCredentials _) with [(js "region", JStr region)]. cbn [obj_get].
  destruct (decide (k = js "region")) as [->|Hne]; [done|]. by rewrite (proj2 (str_eqb_neq k (js "region"))).
Qed.

Lemma new_Config_fold options k l : ∀ config,
  NoDup l → obj_get k (foldl (λ c key, set key (obj_prop options key) c) config l) =
  if decide (k ∈ l) then Some (assigned k (obj_prop options k) (obj_prop config k)) else obj_get k config.
Proof.
  induction l as [|key l IH]; intros config Hnd; [done|]. apply NoDup_cons in Hnd as [Hkey Hnd]. cbn [foldl]. rewrite IH by done.
  destruct (decide (k ∈ l)) as [Hin|Hout].
  - rewrite decide_True by (by right). by rewrite obj_prop_assigned by (by intros ->).
  - rewrite obj_get_assigned. destruct (decide (k = key)) as [->|Hne].
    + by rewrite decide_True by (by left).
    + rewrite decide_False; [done|]. by intros [?|?]%elem_of_cons.
Qed.

(** A new configuration has every key, and nothing else. *)
Theorem new_Config_keys (options : jsobj) (k : jsstr) :
  obj_get k (new_Config options) =
  if decide (k ∈ keys.*1) then Some (assigned k (obj_prop (extractCredentials options) k) JUndef) else None.
Proof. unfold new_Config. by rewrite new_Config_fold by js_decide. Qed.

End config.
