(* ===== verification/ClientTests.v ===== *)
(** * The MySQL client tests in Node

    The three scripts of src/integration-tests/mysql-client-tests/node: index.js
    (a fixed dialogue with the server), concurrency.js (concurrent
    [dolt_commit]s) and knex.js (upserts through the knex query builder).  The
    server and the client libraries are behind the interface [SqlServer]; a
    script is a program on it that ends with an exit status. *)

From stdpp Require Import base gmap strings list relations sorting.
From Stdlib Require Import ZArith Lia.
From S2P Require Import Prelude JsValue Json JmesInterp.

Local Open Scope Z_scope.

(** ** The server *)

(** What the drivers offer: connections, and statements with arguments that
    succeed with rows or fail. *)
Class SqlServer := {
  server : Type;
  session : Type;
  connect : server → server * option session;
  execute : session → jsstr → list jsval → server → server * result jsval jsval;
  disconnect : session → server → server;
}.

(** ** index.js: one connection, a list of queries *)

Module QueryTest.

Definition queries : list jsstr :=
  [ js "create table test (pk int, `value` int, primary key(pk))";
    js "describe test";
    js "select * from test";
    js "insert into test (pk, `value`) values (0,0)";
    js "select * from test";
    js "select dolt_add('-A');";
    js "select dolt_commit('-m', 'my commit')";
    js "select COUNT(*) FROM dolt_log";
    js "select dolt_checkout('-b', 'mybranch')";
    js "insert into test (pk, `value`) values (1,1)";
    js "select dolt_commit('-a', '-m', 'my commit2')";
    js "select dolt_checkout('main')";
    js "select dolt_merge('mybranch')";
    js "select COUNT(*) FROM dolt_log" ].

Definition int (z : Z) : jsval := JNum (num_of_Z z).

Definition ok_packet (affectedRows : Z) : jsval :=
  JObj [ (js "fieldCount", int 0); (js "affectedRows", int affectedRows); (js "insertId", int 0);
         (js "serverStatus", int 2); (js "warningCount", int 0); (js "message", JStr []);
         (js "protocol41", JBool true); (js "changedRows", int 0) ].

Definition field (name null key : jsstr) : jsval :=
  JObj [ (js "Field", JStr name); (js "Type", JStr (js "int")); (js "Null", JStr null);
         (js "Key", JStr key); (js "Default", JStr (js "NULL")); (js "Extra", JStr []) ].

Definition results : list jsval :=
  [ ok_packet 0;
    JArr [ field (js "pk") (js "NO") (js "PRI"); field (js "value") (js "YES") [] ];
    JArr [];
    ok_packet 1;
    JArr [ JObj [(js "pk", int 0); (js "value", int 0)] ];
    JArr [ JObj [(js "dolt_add('-A')", int 0)] ];
    JArr [];
    JArr [ JObj [(js "COUNT(*)", int 2)] ];
    JArr [ JObj [(js "dolt_checkout('-b', 'mybranch')", int 0)] ];
    ok_packet 1;
    JArr [];
    JArr [ JObj [(js "dolt_checkout('main')", int 0)] ];
    JArr [ JObj [(js "dolt_merge('mybranch')", int 0)] ];
    JArr [ JObj [(js "COUNT(*)", int 3)] ] ].

(** What the script prints. *)
Inductive line :=
| QuerySucceeded (query : jsstr)
| QueryMismatch (query : jsstr) (result expected : jsval)
| ConsoleError (err : jsval).

(** The [then] handler of one query: the comparison of the printed rows, and
    whether it throws.  [JSON.stringify] of rows that are not JSON gives
    [undefined], on which [JSON.parse] throws. *)
Definition check_rows (query : jsstr) (expected rows : jsval) : list line * result jsval () :=
  match JSON_stringify rows with
  | None => ([], Throw (JStr (js "SyntaxError")))
  | Some resultStr =>
    match JSON_parse resultStr with
    | None => ([], Throw (JStr (js "SyntaxError")))
    | Some result =>
      if negb (bool_decide (Some resultStr = JSON_stringify expected))
         && negb (includes (js "dolt_commit") query)
      then ([QueryMismatch query result expected], Throw (JStr (js "Query failed")))
      else ([QuerySucceeded query], Ok tt)
    end
  end.

(** [database.query(query).then(...).catch(...)]: the outcome of the driver's
    callback, through the promise; a rejection prints the error and exits. *)
Definition settle_query (query : jsstr) (expected : jsval) (answer : result jsval jsval)
    : list line * bool :=
  match answer with
  | Throw err => ([ConsoleError err], false)
  | Ok rows =>
    match check_rows query expected rows with
    | (out, Ok _) => (out, true)
    | (out, Throw err) => (out ++ [ConsoleError err], false)
    end
  end.

Section Run.
  Context `{SqlServer}.

  (** The driver runs the queries of a connection one after the other in the
      order they were queued, and each answer settles its promise before the
      next one arrives; the first failure ends the process with status 1. *)
Fixpoint run_queries (sess : session) (qs : list (jsstr * jsval)) (s : server)
      : server * list line * Z :=
    match qs with
    | [] => (s, [], 0)
    | (q, expected) :: qs' =>
      let '(s1, answer) := execute sess q [] s in
      match settle_query q expected answer with
      | (out, true) => let '(s2, out', code) := run_queries sess qs' s1 in (s2, out ++ out', code)
      | (out, false) => (s1, out, 1)
      end
    end.

  (** [main()]: every query is queued; when all are settled the connection is
      closed and the process exits with 0. *)
Definition query_main (sess : session) (s : server) : server * list line * Z :=
    run_queries sess (zip queries results) s.

  (** The answers a connection gives to a list of queries. *)
Fixpoint answers (sess : session) (qs : list jsstr) (s : server) : list (result jsval jsval) :=
    match qs with
    | [] => []
    | q :: qs' => let '(s1, a) := execute sess q [] s in a :: answers sess qs' s1
    end.
End Run.

(** A query whose result the script does not look at. *)
Definition any_rows (query : jsstr) : bool := includes (js "dolt_commit") query.

(** ** Lemmas *)

Lemma stringify_inj a b :
  json_ok a → json_ok b → JSON_stringify a = JSON_stringify b → a = b.
Proof.
  intros Ha Hb Heq. destruct (JSON_roundtrip a Ha) as (t & Ht & Hp).
  destruct (JSON_roundtrip b Hb) as (t' & Ht' & Hp'). congruence.
Qed.

Lemma settle_query_verdict q expected a :
  json_ok expected → match a with Ok rows => json_ok rows | Throw _ => True end →
  (settle_query q expected a).2 = true ↔
  ∃ rows, a = Ok rows ∧ (rows = expected ∨ any_rows q = true).
Proof.
  intros He Ha. destruct a as [rows|err]; simpl; [|naive_solver].
  destruct (JSON_roundtrip rows Ha) as (t & Ht & Hp).
  destruct (JSON_roundtrip expected He) as (t' & Ht' & Hp').
  unfold check_rows, any_rows. rewrite Ht, Hp, Ht'.
  case_bool_decide as Hd; simpl.
  - split; [|done]. intros _. exists rows. split; [done|left].
    apply stringify_inj; [done|done|congruence].
  - destruct (includes (js "dolt_commit") q); simpl; split; try done.
    + intros _. exists rows. auto.
    + intros (rows' & [= <-] & [->|?]); [congruence|done].
Qed.

Lemma settle_query_output q expected a :
  (settle_query q expected a).2 = true → (settle_query q expected a).1 = [QuerySucceeded q].
Proof.
  destruct a as [rows|err]; simpl; [|done].
  unfold check_rows. repeat case_match; simplify_eq/=; done.
Qed.

Lemma run_queries_verdict `{SqlServer} sess qs s :
  Forall (λ qe, json_ok qe.2) qs →
  Forall (λ a, match a with Ok rows => json_ok rows | Throw _ => True end) (answers sess qs.*1 s) →
  ((run_queries sess qs s).2 = 0 ↔
   Forall2 (λ qe a, ∃ rows, a = Ok rows ∧ (rows = qe.2 ∨ any_rows qe.1 = true)) qs (answers sess qs.*1 s)) ∧
  ((run_queries sess qs s).2 = 0 → (run_queries sess qs s).1.2 = QuerySucceeded <$> qs.*1).
Proof.
  intros Hqs. revert s. induction Hqs as [|[q e] qs He Hqs IH]; intros s Hok; [done|].
  cbn [run_queries fmap list_fmap fst answers] in *. simpl in He.
  destruct (execute sess q [] s) as [s1 a] eqn:Hex. apply Forall_cons in Hok as [Ha Hok].
  specialize (IH s1 Hok). pose proof (settle_query_verdict q e a He Ha) as Hv.
  pose proof (settle_query_output q e a) as Ho.
  destruct (settle_query q e a) as [out [|]]; simpl in *.
  - destruct (run_queries sess qs s1) as [[s2 out'] code]. simpl in *. destruct IH as [IH1 IH2]. split.
    + rewrite Forall2_cons, IH1. simpl. naive_solver.
    + intros Hc. rewrite Ho by done. simpl. by rewrite IH2.
  - split; [|done]. split; [done|]. rewrite Forall2_cons. simpl. naive_solver.
Qed.

Lemma results_json_ok : Forall json_ok results.
Proof.
  apply Forall_forall. intros v Hv. apply json_okb_sound.
  assert (Hall : forallb json_okb results = true) by (vm_compute; reflexivity).
  rewrite forallb_forall in Hall. apply Hall. by apply list_elem_of_In.
Qed.

(** C22. The dialogue test judges by values.  Whatever the server, when its rows
    are JSON values, index.js exits with 0 exactly when every query succeeds
    and returns the expected rows, the results of the two [dolt_commit]
    queries apart, which may be any rows; it then prints a success line for
    every query, in order. *)
Theorem query_test_verdict `{SqlServer} (sess : session) (s : server) :
  Forall (λ a, match a with Ok rows => json_ok rows | Throw _ => True end) (answers sess queries s) →
  ((query_main sess s).2 = 0 ↔
   Forall2 (λ qe a, ∃ rows, a = Ok rows ∧ (rows = qe.2 ∨ any_rows qe.1 = true))
     (zip queries results) (answers sess queries s)) ∧
  ((query_main sess s).2 = 0 → (query_main sess s).1.2 = QuerySucceeded <$> queries).
Proof.
  intros Hok. unfold query_main.
  assert (Hq : (zip queries results).*1 = queries) by (vm_compute; reflexivity).
  destruct (run_queries_verdict sess (zip queries results) s) as [H1 H2].
  - apply Forall_forall. intros [q e] Hin. apply elem_of_zip_r in Hin.
    pose proof results_json_ok as Hr. rewrite Forall_forall in Hr. by apply Hr.
  - by rewrite Hq.
  - rewrite Hq in *. done.
Qed.

(** A server that plays back a list of answers. *)
#[local] Instance playback : SqlServer := {|
  server := list jsval;
  session := unit;
  connect := λ s, (s, Some tt);
  execute := λ _ _ _ s, match s with [] => ([], Throw JNull) | a :: s' => (s', Ok a) end;
  disconnect := λ _ s, s |}.

Lemma query_test_verdict_witness :
  (query_main (H := playback) tt results).2 = 0 ∧
  (query_main (H := playback) tt results).1.2 = QuerySucceeded <$> queries.
Proof.
  destruct (query_test_verdict (H := playback) tt results) as [H1 H2].
  - change (answers (H := playback) tt queries results) with (Ok (E := jsval) <$> results).
    apply Forall_fmap. exact results_json_ok.
  - assert (H0 : (query_main (H := playback) tt results).2 = 0) by (vm_compute; reflexivity).
    split; [exact H0|exact (H2 H0)].
Defined.
End QueryTest.

(** ** concurrency.js: concurrent commits *)

Module ConcurrencyTest.

Definition create_table : jsstr := js "create table users (name varchar(20))".
Definition dolt_add : jsstr := js "call dolt_add('.')".
Definition commit_table : jsstr := js "call dolt_commit('-am', 'new table')".
Definition start_transaction : jsstr := js "start transaction".
Definition insert_user : jsstr := js "INSERT INTO users (name) VALUES(?);".
Definition commit_author : jsstr := js "call dolt_commit('-am', concat('created author', ?))".
Definition count_commits : jsstr :=
  js "select count(*) as c from dolt_log where message like 'created author%'".

Definition authors : list jsstr :=
  [ js "bob"; js "john"; js "mary"; js "alice"; js "bob2"; js "john2"; js "mary2"; js "alice2";
    js "bob3"; js "john3"; js "mary3"; js "alice3"; js "bob4"; js "john4"; js "mary4"; js "alice4";
    js "bob5"; js "john5"; js "mary5"; js "alice5"; js "bob6"; js "john6"; js "mary6"; js "alice6";
    js "bob7"; js "john7"; js "mary7"; js "alice7"; js "bob8"; js "john8"; js "mary8"; js "alice8";
    js "bob9"; js "john9"; js "mary9"; js "alice9" ].

Section Script.
  Context `{SqlServer}.

  (** The sequential functions: the server afterwards, and the exit status when
      the process ends there.  A connection that fails rejects the promise of
      [main], which ends the process with 1. *)
Definition createTable (s : server) : server * option Z :=
    match connect s with
    | (s1, None) => (s1, Some 1)
    | (s1, Some conn) =>
      match execute conn create_table [] s1 with
      | (s2, Ok _) => (disconnect conn s2, None)
      | (s2, Throw _) => (s2, Some 1)
      end
    end.

  (** An error is printed and nothing else. *)
Definition commitTable (s : server) : server * option Z :=
    match connect s with
    | (s1, None) => (s1, Some 1)
    | (s1, Some conn) =>
      let s3 :=
        match execute conn dolt_add [] s1 with
        | (s2, Ok _) => (execute conn commit_table [] s2).1
        | (s2, Throw _) => s2
        end in
      (disconnect conn s3, None)
    end.

  (** [results[0][0].c], when the result has that shape. *)
Definition count_of (results : jsval) : option jsval :=
    match results with
    | JArr (JArr (JObj row :: _) :: _) => Some (obj_prop row (js "c"))
    | _ => None
    end.

  (** [count == n] for a number [n]: another value is converted to a number. *)
Definition equals_number (count : jsval) (n : Z) : bool :=
    match count with
    | JUndef | JNull => false
    | _ => bool_decide (prim_number (to_primitive count) = num_of_Z n)
    end.

Definition validateCommits (s : server) : server * Z :=
    match connect s with
    | (s1, None) => (s1, 1)
    | (s1, Some conn) =>
      match execute conn count_commits [] s1 with
      | (s2, Throw _) => (s2, 1)
      | (s2, Ok results) =>
        match count_of results with
        | Some count =>
          (disconnect conn s2, if equals_number count (Z.of_nat (length authors)) then 0 else 1)
        | None => (disconnect conn s2, 1)
        end
      end
    end.

  (** One [insertAuthor(name)], between two of its awaits. *)
Inductive thread :=
  | Connecting (name : jsstr)
  | Executing (conn : session) (todo : list (jsstr * list jsval))
  | Inserted.

Definition transaction (name : jsstr) : list (jsstr * list jsval) :=
    [(start_transaction, []); (insert_user, [JStr name]); (commit_author, [JStr name])].

Inductive thread_result :=
  | Goes (t : thread)
  | Exits (code : Z).

Definition thread_step (t : thread) (s : server) : option (server * thread_result) :=
    match t with
    | Inserted => None
    | Connecting name =>
      Some match connect s with
           | (s', Some conn) => (s', Goes (Executing conn (transaction name)))
           | (s', None) => (s', Exits 1)
           end
    | Executing conn [] => Some (disconnect conn s, Goes Inserted)
    | Executing conn ((q, args) :: todo) =>
      Some match execute conn q args s with
           | (s', Ok _) => (s', Goes (Executing conn todo))
           | (s', Throw _) => (s', Exits 1)
           end
    end.

  (** The process while [Promise.all] waits: any client may move next. *)
Inductive node_process :=
  | Running (ts : list thread) (s : server)
  | Exited (code : Z) (s : server).

Inductive step : node_process → node_process → Prop :=
  | client_goes ts s i t t' s' :
      ts !! i = Some t → thread_step t s = Some (s', Goes t') →
      step (Running ts s) (Running (<[i:=t']> ts) s')
  | client_exits ts s i t code s' :
      ts !! i = Some t → thread_step t s = Some (s', Exits code) →
      step (Running ts s) (Exited code s').

Definition insert_all (s : server) : node_process := Running (Connecting <$> authors) s.

  (** [main()], as a relation since the clients interleave freely. *)
Inductive main_run (s : server) : Z → server → Prop :=
  | create_fails code s1 :
      createTable s = (s1, Some code) → main_run s code s1
  | commit_fails code s1 s2 :
      createTable s = (s1, None) → commitTable s1 = (s2, Some code) → main_run s code s2
  | insert_fails code s1 s2 s3 :
      createTable s = (s1, None) → commitTable s1 = (s2, None) →
      rtc step (insert_all s2) (Exited code s3) → main_run s code s3
  | validated code ts s1 s2 s3 s4 :
      createTable s = (s1, None) → commitTable s1 = (s2, None) →
      rtc step (insert_all s2) (Running ts s3) → Forall (λ t, t = Inserted) ts →
      validateCommits s3 = (s4, code) → main_run s code s4.
End Script.

(** A failure of [dolt_add] or of the commit of the table is printed and does
    not end the test. *)
Lemma commit_table_ignores_errors `{SqlServer} s s1 conn :
  connect s = (s1, Some conn) → (commitTable s).2 = None.
Proof. intros Hc. unfold commitTable. rewrite Hc. done. Qed.
End ConcurrencyTest.

(** ** knex.js: upserts through a query builder *)

Module KnexTest.

(** A handle of the event loop, as [process._getActiveHandles()] lists them;
    [None] is a null handle. *)
Record handle := Handle {
  is_socket : bool;
  fd : option Z;
  localAddress : jsstr;
  destroyed : bool;
}.

Definition open_socket (h : option handle) : bool :=
  match h with
  | None => false
  | Some h =>
    is_socket h && match fd h with None => true | Some _ => false end
    && negb (str_eqb (localAddress h) []) && negb (destroyed h)
  end.
Definition getOpenSockets (handles : list (option handle)) : list (option handle) :=
  base.filter (λ h, open_socket h = true) handles.

(** The knex calls of the script. *)
Class Knex := {
  db : Type;
  schema_createTable : jsstr → list (jsstr * bool) → db → db * result jsval jsval;
  upsert : jsstr → jsobj → db → db * result jsval jsval;
  select : list jsstr → jsstr → db → db * result jsval jsval;
  destroy : db → db * result jsval ();
  activeHandles : db → list (option handle);
}.

Definition row (id foo : Z) : jsobj := [(js "id", QueryTest.int id); (js "foo", QueryTest.int foo)].
Definition expectedResult : option jsstr := JSON_stringify (JArr [JObj (row 1 1); JObj (row 2 2)]).

Section Main.
  Context `{Knex}.

  (** The rejection of an awaited call ends the process with 1. *)
Definition awaiting {A} (m : db * result jsval A) (k : A → db → Z) : Z :=
    match m with
    | (d, Ok a) => k a d
    | (d, Throw _) => 1
    end.

  (** [main()]: [first] tells which of the two upserts the server runs first. *)
Definition knex_main (first : bool) (d : db) : Z :=
    let one := upsert (js "test2") (row 1 1) in
    let two := upsert (js "test2") (row 2 2) in
    awaiting (schema_createTable (js "test2") [(js "id", true); (js "foo", false)] d) (λ _ d,
    awaiting ((if first then one else two) d) (λ _ d,
    awaiting ((if first then two else one) d) (λ _ d,
    awaiting (select [js "id"; js "foo"] (js "test2") d) (λ result d,
    if bool_decide (JSON_stringify result = expectedResult) then
      awaiting (destroy d) (λ _ d,
      if Nat.ltb 0 (length (getOpenSockets (activeHandles d))) then 1 else 0)
    else 1)))).
End Main.

(** What the test relies on: [test2] can be created once, [onConflict().merge()]
    overwrites by key, a [select] without an order returns every row once, in
    whatever order, and [destroy] resolves. *)
Definition int32 (z : Z) : Prop := - 2 ^ 31 ≤ z < 2 ^ 31.
Class KeyedTable `{Knex} := {
  table : db → option (gmap Z Z);
  law_create cols d : table d = None →
    ∃ d' v, schema_createTable (js "test2") cols d = (d', Ok v) ∧ table d' = Some ∅;
  law_create_twice cols d : is_Some (table d) →
    ∃ d' err, schema_createTable (js "test2") cols d = (d', Throw err);
  law_upsert id foo d m : table d = Some m → int32 id → int32 foo →
    ∃ d' v, upsert (js "test2") (row id foo) d = (d', Ok v) ∧ table d' = Some (<[id := foo]> m);
  law_select d m : table d = Some m →
    ∃ d' rows, select [js "id"; js "foo"] (js "test2") d = (d', Ok (JArr ((λ r, JObj (row r.1 r.2)) <$> rows))) ∧
      rows ≡ₚ map_to_list m;
  law_destroy d : ∃ d', destroy d = (d', Ok tt);
}.

(** The database after the table was created and filled. *)
Definition filled `{Knex} (first : bool) (d : db) : db :=
  let '(a, b) := if first then (1, 2) else (2, 1) in
  let d := (schema_createTable (js "test2") [(js "id", true); (js "foo", false)] d).1 in
  let d := (upsert (js "test2") (row a a) d).1 in
  (upsert (js "test2") (row b b) d).1.

Lemma open_sockets_left hs : Nat.ltb 0 (length (getOpenSockets hs)) = existsb open_socket hs.
Proof.
  unfold getOpenSockets. induction hs as [|h hs IH]; [done|].
  cbn [existsb]. rewrite filter_cons. destruct (open_socket h); simpl; [done|exact IH].
Qed.

Lemma two_rows (rows : list (Z * Z)) m :
  m = <[1 := 1]> (<[2 := 2]> ∅) → rows ≡ₚ map_to_list m → rows = [(1, 1); (2, 2)] ∨ rows = [(2, 2); (1, 1)].
Proof.
  intros -> Hp. assert (Hp' : rows ≡ₚ [(1, 1); (2, 2)]).
  { rewrite Hp, !map_to_list_insert, map_to_list_empty by done. done. }
  symmetry in Hp'. apply Permutation_length_2_inv in Hp' as [-> | ->]; auto.
Qed.

(** The database both orders of the upserts lead to, and the exit status from
    there on. *)
Lemma knex_filled `{Knex} `{!KeyedTable} (first : bool) (d : db) :
  table d = None →
  table (filled first d) = Some (<[1 := 1]> (<[2 := 2]> ∅)) ∧
  knex_main first d =
    awaiting (select [js "id"; js "foo"] (js "test2") (filled first d)) (λ result d,
    if bool_decide (JSON_stringify result = expectedResult) then
      awaiting (destroy d) (λ _ d, if Nat.ltb 0 (length (getOpenSockets (activeHandles d))) then 1 else 0)
    else 1).
Proof.
  intros Hd. unfold knex_main, filled.
  destruct (law_create [(js "id", true); (js "foo", false)] d Hd) as (d1 & v1 & -> & Hr1). cbn [awaiting fst].
  assert (H1 : int32 1) by (unfold int32; lia). assert (H2 : int32 2) by (unfold int32; lia). destruct first.
  - destruct (law_upsert 1 1 d1 _ Hr1 H1 H1) as (d2 & v2 & -> & Hr2). cbn [awaiting fst].
    destruct (law_upsert 2 2 d2 _ Hr2 H2 H2) as (d3 & v3 & -> & Hr3). cbn [awaiting fst].
    split; [|done]. rewrite Hr3. by rewrite insert_insert_ne.
  - destruct (law_upsert 2 2 d1 _ Hr1 H2 H2) as (d2 & v2 & -> & Hr2). cbn [awaiting fst].
    by destruct (law_upsert 1 1 d2 _ Hr2 H1 H1) as (d3 & v3 & -> & Hr3).
Qed.

(** C23. The verdict of the knex test.  On a database with keyed tables, and
    whichever of the two concurrent upserts runs first: when [test2] exists
    already the script exits with 1; otherwise the table comes to hold exactly
    the two rows, and the script exits with 0 exactly when the [select], which
    asks for no order, returns them in the order of their keys and, after
    [destroy], no handle is a socket with a local address, without a file
    descriptor and not destroyed. *)
Theorem knex_test_verdict `{Knex} `{!KeyedTable} (first : bool) (d : db) :
  let d3 := filled first d in
  let '(d4, answer) := select [js "id"; js "foo"] (js "test2") d3 in
  let d5 := (destroy d4).1 in
  (is_Some (table d) → knex_main first d = 1) ∧
  (table d = None →
   table d3 = Some (<[1 := 1]> (<[2 := 2]> ∅)) ∧
   ∃ rows, answer = Ok (JArr ((λ r, JObj (row r.1 r.2)) <$> rows)) ∧ rows ≡ₚ [(1, 1); (2, 2)] ∧
     (knex_main first d = 0 ↔ rows = [(1, 1); (2, 2)] ∧ existsb open_socket (activeHandles d5) = false)).
Proof.
  intros d3. destruct (select _ _ d3) as [d4 answer] eqn:Hsel. cbv zeta. split.
  - intros Hd. destruct (law_create_twice [(js "id", true); (js "foo", false)] d Hd) as (d' & err & Hc).
    unfold knex_main. by rewrite Hc.
  - intros Hd. destruct (knex_filled first d Hd) as [Ht ->]. fold d3 in Ht |- *. split; [done|].
    destruct (law_select d3 _ Ht) as (d' & rows & Hs & Hp). rewrite Hs in Hsel. simplify_eq. exists rows. split; [done|].
    rewrite Hs. cbn [awaiting]. destruct (law_destroy d4) as [d5 Hdes]. rewrite Hdes. cbn [awaiting fst].
    rewrite open_sockets_left. destruct (two_rows rows _ eq_refl Hp) as [-> | ->].
    + split; [done|]. rewrite bool_decide_true by (vm_compute; reflexivity). destruct (existsb _ _); naive_solver.
    + split; [by apply Permutation_swap|]. rewrite bool_decide_false by (vm_compute; discriminate). naive_solver.
Qed.

(** A database in memory, read in the order of the key: the table, and the
    handles left after [destroy]. *)
Definition by_key (a b : Z * Z) : Prop := a.1 ≤ b.1.
#[local] Instance by_key_dec a b : Decision (by_key a b).
Proof. unfold by_key. apply _. Defined.
Definition column (o : jsobj) (name : jsstr) : option Z :=
  match obj_prop o name with JNum (NumDec m e) => Some (m * 10 ^ e) | _ => None end.
#[local] Instance memory_db : Knex := {|
  db := option (gmap Z Z) * list (option handle);
  schema_createTable := λ _ _ d,
    match d.1 with None => ((Some ∅, d.2), Ok JNull) | Some _ => (d, Throw (JStr (js "table exists"))) end;
  upsert := λ _ o d,
    match d.1, column o (js "id"), column o (js "foo") with
    | Some m, Some i, Some v => ((Some (<[i := v]> m), d.2), Ok JNull)
    | _, _, _ => (d, Throw JNull)
    end;
  select := λ _ _ d,
    match d.1 with
    | Some m => (d, Ok (JArr ((λ r, JObj (row r.1 r.2)) <$> merge_sort by_key (map_to_list m))))
    | None => (d, Throw JNull)
    end;
  destroy := λ d, (d, Ok tt);
  activeHandles := snd |}.

Lemma column_row i v : column (row i v) (js "id") = Some i ∧ column (row i v) (js "foo") = Some v.
Proof.
  destruct (num_of_Z_value i) as (m & e & H & Hv & _), (num_of_Z_value v) as (m' & e' & H' & Hv' & _).
  unfold column, row, QueryTest.int, obj_prop.
  replace (obj_get (js "id") _) with (Some (JNum (num_of_Z i))) by reflexivity.
  replace (obj_get (js "foo") _) with (Some (JNum (num_of_Z v))) by reflexivity.
  cbn [default from_option id]. by rewrite H, H', Hv, Hv'.
Qed.

#[local] Instance memory_keyed : KeyedTable (H := memory_db).
Proof.
  refine {| table := fst : db (Knex := memory_db) → _ |}.
  - intros cols d Hd. cbn. rewrite Hd. by do 2 eexists.
  - intros cols d [m Hd]. cbn. rewrite Hd. by do 2 eexists.
  - intros k foo d m Hd _ _. destruct (column_row k foo) as [H1 H2]. cbn [upsert memory_db]. rewrite Hd, H1, H2.
    by do 2 eexists.
  - intros d m Hd. cbn [select memory_db]. rewrite Hd. do 2 eexists. split; [reflexivity|]. apply merge_sort_Permutation.
  - intros d. by eexists.
Defined.

(** A socket that stays open makes the test fail. *)
Lemma knex_test_verdict_witness :
  let leaked := Some (Handle true None (js "127.0.0.1") false) in
  knex_main (H := memory_db) true (None, [leaked]) = 1 ∧ knex_main (H := memory_db) false (None, [None]) = 0 ∧
  knex_main (H := memory_db) true (Some ∅, []) = 1.
Proof.
  split_and!; [vm_compute; reflexivity..|].
  pose proof (knex_test_verdict (H := memory_db) true (Some ∅, [])) as Hv. cbv zeta in Hv.
  destruct (select _ _ _) as [d4 answer]. apply Hv. by exists ∅.
Defined.
End KnexTest.
