(* ===== verification/ConcurrencyRuns.v ===== *)
(** * Runs of the concurrency test

    concurrency.js (ClientTests) against servers: it accepts every server whose
    concurrent commits behave as those of a repository with one log, and on any
    server whatsoever an exit status of 0 tells which statements were run and
    how the last one was answered. *)

From stdpp Require Import base gmap strings list relations.
From Stdlib Require Import ZArith Lia.
From S2P Require Import Prelude JsValue Json JmesInterp ClientTests.

Import ConcurrencyTest.
Local Open Scope Z_scope.

(** ** A repository *)

(** The statements of the script. *)
Inductive statement :=
| CreateUsers
| AddTables
| CommitTable
| StartTransaction
| InsertUser (name : jsstr)
| CommitAuthor (name : jsstr)
| CountCommits.

Definition statement_of (q : jsstr) (args : list jsval) : option statement :=
  match args with
  | [] =>
    if str_eqb q create_table then Some CreateUsers
    else if str_eqb q dolt_add then Some AddTables
    else if str_eqb q commit_table then Some CommitTable
    else if str_eqb q start_transaction then Some StartTransaction
    else if str_eqb q count_commits then Some CountCommits
    else None
  | [JStr name] =>
    if str_eqb q insert_user then Some (InsertUser name)
    else if str_eqb q commit_author then Some (CommitAuthor name)
    else None
  | _ => None
  end.

(** What the statements see of a server: the rows of [users] once the table
    exists, whether there is something of it to commit, the messages of the
    log, and the open sessions, each with the rows of its own transaction. *)
Record repo := Repo {
  users : option (list jsstr);
  changed : bool;
  log : list jsstr;
  sessions : gmap nat (list jsstr);
}.

Definition open_session (id : nat) (R : repo) : repo :=
  Repo (users R) (changed R) (log R) (<[id := []]> (sessions R)).
Definition close_session (id : nat) (R : repo) : repo :=
  Repo (users R) (changed R) (log R) (base.delete id (sessions R)).

Definition new_table : jsstr := js "new table".
Definition created_author (name : jsstr) : jsstr := js "created author" ++ name.
Definition created (R : repo) : nat :=
  length (base.filter (λ m, starts_with (js "created author") m = true) (log R)).

(** A statement of the session [id]; [None] where it may fail: a second [create
    table], an insertion into a table that does not exist or of a name longer
    than the column, a commit of nothing.  A commit takes the rows of its own
    transaction and leaves those of the other sessions alone. *)
Definition run_statement (id : nat) (st : statement) (R : repo) : option repo :=
  pending ← sessions R !! id;
  match st with
  | CreateUsers =>
    match users R with None => Some (Repo (Some []) true (log R) (sessions R)) | Some _ => None end
  | AddTables | CountCommits => Some R
  | CommitTable =>
    if changed R then Some (Repo (users R) false (log R ++ [new_table]) (sessions R)) else None
  | StartTransaction => Some (Repo (users R) (changed R) (log R) (<[id := []]> (sessions R)))
  | InsertUser name =>
    if Nat.leb (length name) 20 then
      match users R with
      | Some _ => Some (Repo (users R) (changed R) (log R) (<[id := pending ++ [name]]> (sessions R)))
      | None => None
      end
    else None
  | CommitAuthor name =>
    match users R, pending with
    | Some rows, _ :: _ =>
      Some (Repo (Some (rows ++ pending)) (changed R) (log R ++ [created_author name]) (<[id := []]> (sessions R)))
    | _, _ => None
    end
  end.

(** The answer to the last query of the script. *)
Definition count_answer (n : nat) (answer : jsval) : Prop :=
  ∃ fields, answer = JArr [JArr [JObj [(js "c", JNum (num_of_Z (Z.of_nat n)))]]; fields].

(** A server with atomic commits is such a repository: it accepts connections up
    to a limit, and a statement the repository allows succeeds with the effect
    it has there. *)
Class AtomicCommits `{SqlServer} := {
  repo_of : server → repo;
  session_id : session → nat;
  max_connections : nat;
  law_connect s : (size (sessions (repo_of s)) < max_connections)%nat →
    ∃ s' conn, connect s = (s', Some conn) ∧ sessions (repo_of s) !! session_id conn = None ∧
      repo_of s' = open_session (session_id conn) (repo_of s);
  law_disconnect conn s : repo_of (disconnect conn s) = close_session (session_id conn) (repo_of s);
  law_execute conn q args st s R :
    statement_of q args = Some st → run_statement (session_id conn) st (repo_of s) = Some R →
    ∃ s' v, execute conn q args s = (s', Ok v) ∧ repo_of s' = R ∧
      (st = CountCommits → count_answer (created R) v);
}.

(** ** The clients on such a server *)

Section Verdict.
  Context `{SqlServer} `{!AtomicCommits}.

  (** The steps a client has left, the author it still has to commit, and its
      open session with the rows of its transaction. *)
Definition steps_left (t : thread) : nat :=
    match t with
    | Connecting _ => 5
    | Executing _ todo => S (length todo)
    | Inserted => 0
    end.
Definition owed (t : thread) : list jsstr :=
    match t with
    | Connecting name => [name]
    | Executing _ todo => match list.last todo with Some (_, [JStr name]) => [name] | _ => [] end
    | Inserted => []
    end.
Definition entry (t : thread) : option (nat * list jsstr) :=
    match t with
    | Executing conn todo => Some (session_id conn, match todo with [(_, [JStr name])] => [name] | _ => [] end)
    | _ => None
    end.
  (** A client is in the middle of its own transaction. *)
Definition wf_thread (t : thread) : Prop :=
    match t with
    | Connecting name => (length name ≤ 20)%nat
    | Executing _ todo => ∃ name, (length name ≤ 20)%nat ∧ todo `suffix_of` transaction name
    | Inserted => True
    end.

  (** The clients and the repository at any moment: what is in the table is in
      the log, in the same order, and together with what the clients still owe
      it is all the authors. *)
Definition clients_inv (before : list jsstr) (ts : list thread) (R : repo) : Prop :=
    Forall wf_thread ts ∧ (length ts ≤ max_connections)%nat ∧
    (NoDup (omap entry ts).*1 ∧ sessions R = list_to_map (omap entry ts)) ∧
    ∃ rows, users R = Some rows ∧ log R = before ++ (created_author <$> rows) ∧
      rows ++ (ts ≫= owed) ≡ₚ authors.

Lemma clients_inv_perm before ts ts' R : ts ≡ₚ ts' → clients_inv before ts R → clients_inv before ts' R.
Proof.
    intros Hp (Hwf & Hlen & [Hnd Hs] & rows & Hu & Hl & Ha). split_and!.
    - by rewrite <- Hp.
    - by rewrite <- Hp.
    - by rewrite <- Hp.
    - rewrite Hs. apply list_to_map_proper; [done|]. by rewrite Hp.
    - exists rows. by rewrite <- Hp.
Qed.

Lemma transaction_suffix todo name :
    todo `suffix_of` transaction name →
    todo = transaction name ∨ todo = [(insert_user, [JStr name]); (commit_author, [JStr name])] ∨
    todo = [(commit_author, [JStr name])] ∨ todo = [].
Proof.
    intros [k Hk]. unfold transaction in *.
    destruct k as [|? [|? [|? [|? k]]]]; simplify_list_eq; auto.
Qed.

Lemma entries_cons t rest :
    omap entry (t :: rest) = match entry t with Some e => e :: omap entry rest | None => omap entry rest end.
Proof. done. Qed.

Lemma entries_length ts : (length (omap entry ts) ≤ length ts)%nat.
Proof. induction ts as [|t ts IH]; [done|]. rewrite entries_cons. destruct (entry t); simpl; lia. Qed.

Lemma execute_step conn q args todo st s R r :
    statement_of q args = Some st → run_statement (session_id conn) st (repo_of s) = Some R →
    thread_step (Executing conn ((q, args) :: todo)) s = Some r →
    ∃ s', r = (s', Goes (Executing conn todo)) ∧ repo_of s' = R.
Proof.
    intros Hst Hrun Hr. destruct (law_execute conn q args st s R Hst Hrun) as (s' & v & He & HR & _).
    cbn [thread_step] in Hr. rewrite He in Hr. exists s'. by simplify_eq.
Qed.

  (** A client in a session moves on when the repository takes its rows from
      [p] to [p'] and records what it owes no longer. *)
Lemma session_inv before conn todo todo' rest R p p' rows rows' done left' :
    clients_inv before (Executing conn todo :: rest) R →
    entry (Executing conn todo) = Some (session_id conn, p) →
    entry (Executing conn todo') = Some (session_id conn, p') →
    wf_thread (Executing conn todo') → users R = Some rows → rows' = rows ++ done →
    owed (Executing conn todo) = done ++ left' → owed (Executing conn todo') = left' →
    clients_inv before (Executing conn todo' :: rest)
      (Repo (Some rows') (changed R) (log R ++ (created_author <$> done)) (<[session_id conn := p']> (sessions R))).
Proof.
    intros (Hwf & Hlen & [Hnd Hs] & rows0 & Hu & Hl & Ha) Hp Hp' Hw' Hu' -> Ho Ho'.
    rewrite Hu in Hu'. simplify_eq. apply Forall_cons in Hwf as [_ Hwf].
    rewrite entries_cons, Hp in Hnd, Hs. rewrite fmap_cons in Hnd.
    split_and!; [by constructor|exact Hlen| | |].
    - rewrite entries_cons, Hp', fmap_cons. exact Hnd.
    - cbn [sessions]. rewrite entries_cons, Hp', Hs, !list_to_map_cons. apply insert_insert_eq.
    - exists (rows ++ done). split_and!; [done| |].
      + cbn [log]. by rewrite Hl, fmap_app, <- app_assoc.
      + rewrite bind_cons. rewrite bind_cons, Ho in Ha. rewrite <- Ha. by rewrite <- !app_assoc.
Qed.

Lemma open_lookup before conn todo rest R p :
    clients_inv before (Executing conn todo :: rest) R →
    entry (Executing conn todo) = Some (session_id conn, p) → sessions R !! session_id conn = Some p.
Proof.
    intros (_ & _ & [_ ->] & _) Hp. rewrite entries_cons, Hp, list_to_map_cons. apply lookup_insert_eq.
Qed.

Lemma connecting_step before name rest s r :
    clients_inv before (Connecting name :: rest) (repo_of s) → thread_step (Connecting name) s = Some r →
    ∃ s' conn, r = (s', Goes (Executing conn (transaction name))) ∧
      clients_inv before (Executing conn (transaction name) :: rest) (repo_of s').
Proof.
    intros (Hwf & Hlen & [Hnd Hs] & rows & Hu & Hl & Ha) Hr. rewrite entries_cons in Hnd, Hs. cbn [entry] in Hnd, Hs.
    assert (Hroom : (size (sessions (repo_of s)) < max_connections)%nat).
    { rewrite Hs, map_size_list_to_map by done. cbn [length] in Hlen. pose proof (entries_length rest). lia. }
    destruct (law_connect s Hroom) as (s' & conn & Hc & Hnew & HR). cbn [thread_step] in Hr. rewrite Hc in Hr.
    exists s', conn. split; [by simplify_eq|]. rewrite HR. apply Forall_cons in Hwf as [Hname Hwf].
    split_and!; [constructor; [by exists name|done]|exact Hlen| | |].
    - rewrite entries_cons. cbn [entry transaction]. rewrite fmap_cons. constructor; [|done]. rewrite Hs in Hnew.
      by apply not_elem_of_list_to_map_2 in Hnew.
    - rewrite entries_cons. cbn [entry transaction sessions open_session]. by rewrite Hs, list_to_map_cons.
    - by exists rows.
Qed.

Lemma session_step before conn q args todo rest st s r p p' rows committed :
    let t := Executing conn ((q, args) :: todo) in
    let t' := Executing conn todo in
    clients_inv before (t :: rest) (repo_of s) → thread_step t s = Some r →
    statement_of q args = Some st →
    entry t = Some (session_id conn, p) → entry t' = Some (session_id conn, p') →
    wf_thread t' → users (repo_of s) = Some rows → owed t = committed ++ owed t' →
    (sessions (repo_of s) !! session_id conn = Some p → run_statement (session_id conn) st (repo_of s) =
     Some (Repo (Some (rows ++ committed)) (changed (repo_of s)) (log (repo_of s) ++ (created_author <$> committed))
       (<[session_id conn := p']> (sessions (repo_of s))))) →
    ∃ s', r = (s', Goes t') ∧ clients_inv before (t' :: rest) (repo_of s').
Proof.
    intros t t' Hinv Hr Hst Hp Hp' Hw Hu Ho Hrun.
    specialize (Hrun (open_lookup before conn _ rest _ p Hinv Hp)).
    destruct (execute_step conn q args todo st s _ r Hst Hrun Hr) as (s' & -> & HR). exists s'. split; [done|].
    rewrite HR. by eapply session_inv.
Qed.

Lemma disconnect_inv before conn rest R :
    clients_inv before (Executing conn [] :: rest) R →
    clients_inv before (Inserted :: rest) (close_session (session_id conn) R).
Proof.
    intros (Hwf & Hlen & [Hnd Hs] & rows & Hu & Hl & Ha). rewrite entries_cons in Hnd, Hs. cbn [entry] in Hnd, Hs.
    apply Forall_cons in Hwf as [_ Hwf]. rewrite fmap_cons in Hnd. apply NoDup_cons in Hnd as [Hnew Hnd].
    split_and!; [by constructor|exact Hlen|exact Hnd| |by exists rows].
    cbn [sessions close_session]. rewrite Hs, list_to_map_cons, delete_insert_id; [done|].
    by apply not_elem_of_list_to_map_1.
Qed.

  (** One step of a client: it never exits, and keeps the invariant. *)
Lemma thread_step_ok before t rest s r :
    clients_inv before (t :: rest) (repo_of s) → thread_step t s = Some r →
    ∃ s' t', r = (s', Goes t') ∧ clients_inv before (t' :: rest) (repo_of s') ∧ steps_left t = S (steps_left t').
Proof.
    intros Hinv Hr. destruct t as [name|conn todo|]; [| |done].
    { destruct (connecting_step _ _ _ _ _ Hinv Hr) as (s' & conn & -> & Hi). by exists s', (Executing conn (transaction name)). }
    pose proof Hinv as (Hwf & _ & _ & rows & Hu & _).
    apply Forall_cons in Hwf as [(name & Hname & Hsuf) _].
    assert (Hw : ∀ q todo', todo = q :: todo' → wf_thread (Executing conn todo')).
    { intros q todo' ->. exists name. split; [done|]. etrans; [|exact Hsuf]. by exists [q]. }
    pose proof (transaction_suffix _ _ Hsuf) as [-> | [-> | [-> | ->]]].
    - destruct (session_step before conn start_transaction [] _ rest StartTransaction s r [] [] rows [] Hinv Hr)
        as (s' & -> & Hi); try done; [by eapply Hw| |by eauto].
      intros Hl. unfold run_statement. by rewrite Hl, !app_nil_r, Hu.
    - destruct (session_step before conn insert_user [JStr name] _ rest (InsertUser name) s r [] [name] rows [] Hinv Hr)
        as (s' & -> & Hi); try done; [by eapply Hw| |by eauto].
      intros Hl. unfold run_statement. rewrite Hl, !app_nil_r, Hu. cbn. by rewrite (proj2 (Nat.leb_le _ _) Hname).
    - destruct (session_step before conn commit_author [JStr name] _ rest (CommitAuthor name) s r [name] [] rows [name] Hinv Hr)
        as (s' & -> & Hi); try done; [by eapply Hw| |by eauto].
      intros Hl. unfold run_statement. by rewrite Hl, Hu.
    - cbn [thread_step] in Hr. simplify_eq. do 2 eexists. split_and!; [done| |done].
      rewrite law_disconnect. by apply disconnect_inv.
Qed.

  (** *** The process *)

Definition process_inv (before : list jsstr) (p : node_process) : Prop :=
    match p with Running ts s => clients_inv before ts (repo_of s) | Exited _ _ => False end.
Definition process_steps (p : node_process) : nat :=
    match p with Running ts _ => sum_list_with steps_left ts | Exited _ _ => 0 end.

Lemma insert_permutation {A} (l : list A) i x y :
    l !! i = Some x → l ≡ₚ x :: base.delete i l ∧ <[i:=y]> l ≡ₚ y :: base.delete i l.
Proof.
    intros Hi. split; [by apply delete_Permutation|].
    rewrite (delete_Permutation (<[i:=y]> l) i y) by (apply list_lookup_insert_eq; by eapply lookup_lt_Some).
    f_equiv. revert i Hi. induction l as [|z l IH]; intros [|i] Hi; simplify_eq/=; [done..|]. f_equiv. by apply IH.
Qed.

Lemma step_inv before p p' :
    step p p' → process_inv before p → process_inv before p' ∧ process_steps p = S (process_steps p').
Proof.
    intros [ts s i t t' s' Hi Ht|ts s i t code s' Hi Ht] Hinv; cbn [process_inv] in Hinv.
    all: destruct (insert_permutation ts i t t Hi) as [Hp _].
    all: destruct (thread_step_ok before t (base.delete i ts) s _ (clients_inv_perm _ _ _ _ Hp Hinv) Ht)
      as (s2 & t2 & Heq & Hi2 & Hsteps).
    2: discriminate.
    injection Heq as <- <-. destruct (insert_permutation ts i t t' Hi) as [_ Hp'].
    split; [by apply (clients_inv_perm _ _ _ _ (symmetry Hp'))|].
    apply (sum_list_with_Permutation_proper steps_left) in Hp, Hp'. cbn [process_steps sum_list_with] in *. lia.
Qed.

Lemma step_progress before ts s :
    process_inv before (Running ts s) → Forall (λ t, t = Inserted) ts ∨ ∃ p', step (Running ts s) p'.
Proof.
    intros Hinv. destruct (decide (Exists (λ t, is_Some (thread_step t s)) ts)) as [He|He].
    - right. apply Exists_exists in He as (t & Ht & [[s' [t'|code]] Hr]);
        apply list_elem_of_lookup in Ht as [i Hi]; eexists; by econstructor.
    - left. apply Forall_forall. intros t Ht. rewrite Exists_exists in He.
      destruct t as [| conn [|[q a] todo] |]; [..|done]; destruct He; eexists; (split; [exact Ht|by eexists]).
Qed.

Lemma rtc_inv before p p' : rtc step p p' → process_inv before p → process_inv before p'.
Proof. induction 1 as [|p1 p2 p3 Hs _ IH]; [done|]. intros Hi. apply IH. by eapply step_inv. Qed.

Lemma run_to_end before n ts s :
    process_inv before (Running ts s) → process_steps (Running ts s) = n →
    ∃ ts' s', rtc step (Running ts s) (Running ts' s') ∧ Forall (λ t, t = Inserted) ts'.
Proof.
    revert ts s. induction n as [n IH] using lt_wf_ind. intros ts s Hinv Hn.
    destruct (step_progress before ts s Hinv) as [Hdone|[p' Hs]]; [exists ts, s; by split|].
    destruct (step_inv before _ _ Hs Hinv) as [Hinv' Hn']. destruct p' as [ts1 s1|]; [|done].
    destruct (IH (process_steps (Running ts1 s1)) ltac:(lia) ts1 s1 Hinv' eq_refl) as (ts2 & s2 & Hr & Hd).
    exists ts2, s2. split; [|done]. by eapply rtc_l.
Qed.

Lemma bounded_steps before k p p' :
    nsteps step k p p' → process_inv before p → (k + process_steps p' = process_steps p)%nat.
Proof.
    induction 1 as [|k p1 p2 p3 Hs _ IH]; [done|]. intros Hi.
    destruct (step_inv before _ _ Hs Hi) as [Hi' Hn]. specialize (IH Hi'). lia.
Qed.

Lemma all_inserted_clients ts : Forall (λ t, t = Inserted) ts →
    omap entry ts = [] ∧ ts ≫= owed = [] ∧ sum_list_with steps_left ts = 0%nat.
Proof. induction 1 as [|t ts -> _ IH]; [done|]. destruct IH as (IH1 & IH2 & IH3). by rewrite entries_cons, bind_cons, IH2. Qed.

Lemma all_inserted_steps ts : Forall (λ t, t = Inserted) ts ↔ sum_list_with steps_left ts = 0%nat.
Proof.
    split; [by intros (_ & _ & ?)%all_inserted_clients|]. induction ts as [|t ts IH]; [done|].
    cbn [sum_list_with]. intros Ht. constructor; [destruct t; simpl in *; lia || done|]. apply IH. lia.
Qed.

  (** *** Before and after the clients *)

  (** A repository nobody uses and in which the test was not run. *)
Definition unused (R : repo) : Prop := users R = None ∧ sessions R = ∅ ∧ created R = 0%nat.

Context (Hmax : (length authors ≤ max_connections)%nat).

Lemma connect_alone s : sessions (repo_of s) = ∅ →
    ∃ s' conn, connect s = (s', Some conn) ∧ repo_of s' = open_session (session_id conn) (repo_of s).
Proof.
    intros Hs. destruct (law_connect s) as (s' & conn & Hc & _ & HR); [|by exists s', conn].
    rewrite Hs, map_size_empty. pose proof Hmax. change (length authors) with 36%nat in *. lia.
Qed.

Lemma open_close id R : sessions R = ∅ → close_session id (open_session id R) = R.
Proof.
    destruct R as [u c l ss]. unfold close_session, open_session. cbn. intros ->. by rewrite delete_insert_id.
Qed.

Lemma setup_ok s : unused (repo_of s) →
    ∃ s1 s2, createTable s = (s1, None) ∧ commitTable s1 = (s2, None) ∧
      repo_of s2 = Repo (Some []) false (log (repo_of s) ++ [new_table]) ∅.
Proof.
    intros (Hu & Hs & _). unfold createTable, commitTable.
    destruct (connect_alone s Hs) as (sa & ca & Ea & Ha). rewrite Ea.
    assert (Hla : sessions (repo_of sa) !! session_id ca = Some []) by (rewrite Ha; apply lookup_insert_eq).
    destruct (law_execute ca create_table [] CreateUsers sa (Repo (Some []) true (log (repo_of s)) (sessions (repo_of sa))))
      as (sb & vb & Eb & Hb & _); [done|by unfold run_statement; rewrite Hla, Ha; cbn; rewrite Hu|].
    assert (Hd : repo_of (disconnect ca sb) = Repo (Some []) true (log (repo_of s)) ∅).
    { rewrite law_disconnect, Hb, Ha. unfold close_session, open_session. cbn. rewrite Hs. by rewrite delete_insert_id. }
    destruct (connect_alone (disconnect ca sb)) as (sc & cc & Ec & Hc); [by rewrite Hd|].
    assert (Hlc : sessions (repo_of sc) !! session_id cc = Some []) by (rewrite Hc; apply lookup_insert_eq).
    destruct (law_execute cc dolt_add [] AddTables sc (repo_of sc)) as (sd & vd & Ed & Hd' & _);
      [done|by unfold run_statement; rewrite Hlc|].
    destruct (law_execute cc commit_table [] CommitTable sd
      (Repo (Some []) false (log (repo_of s) ++ [new_table]) (sessions (repo_of sc)))) as (se & ve & Ee & He & _);
      [done|unfold run_statement; rewrite Hd', Hlc, Hc, Hd; done|].
    exists (disconnect ca sb), (disconnect cc se). rewrite Eb, Ec, Ed, Ee. split_and!; [done|done|].
    rewrite law_disconnect, He, Hc, Hd. unfold close_session, open_session. cbn. by rewrite delete_insert_id.
Qed.

Lemma filter_created (l : list jsstr) : base.filter (λ m, starts_with (js "created author") m = true) (created_author <$> l) = created_author <$> l.
Proof.
    induction l as [|n l IH]; [done|]. rewrite fmap_cons, filter_cons_True by apply starts_with_app. by rewrite IH.
Qed.

Lemma validate_ok s : sessions (repo_of s) = ∅ → created (repo_of s) = length authors →
    (validateCommits s).2 = 0 ∧ repo_of (validateCommits s).1 = repo_of s.
Proof.
    intros Hs Hc. unfold validateCommits. destruct (connect_alone s Hs) as (s1 & conn & -> & H1).
    destruct (law_execute conn count_commits [] CountCommits s1 (repo_of s1)) as (s2 & v & -> & H2 & Hv); [done| |].
    { unfold run_statement. rewrite H1. cbn. by rewrite lookup_insert_eq. }
    destruct (Hv eq_refl) as [fields ->]. rewrite H1. change (created (open_session _ _)) with (created (repo_of s)).
    rewrite Hc. split; [by vm_compute|]. cbn [fst count_of]. by rewrite law_disconnect, H2, H1, open_close.
Qed.

Lemma insert_all_inv s before :
    repo_of s = Repo (Some []) false before ∅ → process_inv before (insert_all s).
Proof.
    intros Hs. unfold insert_all. cbn [process_inv]. rewrite Hs. split_and!.
    - unfold authors. repeat constructor; apply Nat.leb_le; vm_compute; reflexivity.
    - by rewrite length_fmap.
    - constructor.
    - reflexivity.
    - exists []. split_and!; [done|by rewrite app_nil_r|reflexivity].
Qed.

  (** The script once every client is done. *)
Lemma all_inserted_valid s before ts s3 :
    created (Repo None false before ∅) = 0%nat → repo_of s = Repo (Some []) false before ∅ →
    rtc step (insert_all s) (Running ts s3) → Forall (λ t, t = Inserted) ts →
    (validateCommits s3).2 = 0 ∧ ∃ rows, rows ≡ₚ authors ∧
      users (repo_of (validateCommits s3).1) = Some rows ∧
      log (repo_of (validateCommits s3).1) = before ++ (created_author <$> rows).
Proof.
    intros Hc Hs Hr (He & Ho & _)%all_inserted_clients.
    destruct (rtc_inv before _ _ Hr (insert_all_inv s before Hs)) as (_ & _ & [_ Hss] & rows & Hu & Hl & Ha).
    rewrite He in Hss. rewrite Ho, app_nil_r in Ha.
    destruct (validate_ok s3) as [Hv HR]; [exact Hss| |].
    - unfold created in *. cbn [log] in Hc. rewrite Hl, filter_app, length_app, Hc, filter_created, length_fmap.
      by rewrite Ha.
    - split; [exact Hv|]. exists rows. by rewrite HR.
Qed.

Lemma new_table_created R : created R = 0%nat → created (Repo None false (log R ++ [new_table]) ∅) = 0%nat.
Proof. unfold created. cbn [log]. intros Hc. rewrite filter_app, length_app, Hc. reflexivity. Qed.

Lemma main_run_exists s : unused (repo_of s) → ∃ s', main_run s 0 s'.
Proof.
    intros Hs. destruct (setup_ok s Hs) as (s1 & s2 & H1 & H2 & HR).
    pose proof (insert_all_inv s2 _ HR) as Hinv. destruct (run_to_end _ _ _ s2 Hinv eq_refl) as (ts & s3 & Hr & Hd).
    destruct (all_inserted_valid s2 _ ts s3 (new_table_created _ ltac:(apply Hs)) HR Hr Hd) as [Hv _].
    destruct (validateCommits s3) as [s4 code] eqn:E. cbn [snd] in Hv. subst code. exists s4. by eapply validated.
Qed.
End Verdict.


(** The repository itself, as a server with 100 connections. *)
Definition answer_of (st : statement) (R : repo) : jsval :=
  match st with
  | CountCommits => JArr [JArr [JObj [(js "c", JNum (num_of_Z (Z.of_nat (created R))))]]; JArr []]
  | _ => JArr []
  end.
#[local] Instance repo_server : SqlServer := {|
  server := repo;
  session := nat;
  connect := λ R,
    if Nat.ltb (size (sessions R)) 100 then
      let id := fresh (dom (sessions R)) in (open_session id R, Some id)
    else (R, None);
  execute := λ id q args R,
    match statement_of q args with
    | Some st =>
      match run_statement id st R with
      | Some R' => (R', Ok (answer_of st R'))
      | None => (R, Throw (JStr (js "error")))
      end
    | None => (R, Throw (JStr (js "syntax error")))
    end;
  disconnect := close_session |}.
#[local] Instance repo_atomic : AtomicCommits (H := repo_server).
Proof.
  refine {| repo_of := λ R : server (SqlServer := repo_server), R; session_id := λ id : session (SqlServer := repo_server), id;
            max_connections := 100 |}.
  - intros R HR. cbn [connect repo_server]. rewrite (proj2 (Nat.ltb_lt _ _) HR). do 2 eexists. split_and!; [done| |done].
    apply not_elem_of_dom, is_fresh.
  - done.
  - intros id q args st R R' Hst Hrun. cbn [execute repo_server]. rewrite Hst, Hrun. do 2 eexists. split_and!; [done|done|].
    intros ->. by eexists.
Defined.

Definition empty_repo : repo := Repo None false [js "Initialize data repository"] ∅.


(** ** What an exit status of 0 says *)

(** A server that keeps the calls made on it, with their answers. *)
Record call (session : Type) := Call {
  on_session : session;
  statement_text : jsstr * list jsval;
  answer : result jsval jsval;
}.
Arguments Call {_}.
Arguments on_session {_}.
Arguments statement_text {_}.
Arguments answer {_}.
Definition recording (S : SqlServer) : SqlServer := {|
  server := @server S * list (call (@session S));
  session := @session S;
  connect := λ s, let '(s', conn) := connect s.1 in ((s', s.2), conn);
  execute := λ conn q args s,
    let '(s', a) := execute conn q args s.1 in ((s', s.2 ++ [Call conn (q, args) a]), a);
  disconnect := λ conn s, (disconnect conn s.1, s.2) |}.

(** The calls that succeeded. *)
Definition succeeded {session} (c : call session) : Prop := is_ok (answer c) = true.

Section Record.
  Context (S : SqlServer).
  Local Abbreviation rserver := (@server (recording S)).
  Local Abbreviation rthread := (@thread (recording S)).
  Local Abbreviation rcall := (call (@session S)).

  (** What a client has left to say. *)
Definition left_to_say (t : rthread) : list (jsstr * list jsval) :=
    match t with Connecting name => transaction name | Executing _ todo => todo | Inserted => [] end.

  (** The calls of the client of an author, so far: the beginning of the
      transaction, in one session, in order, with successful answers. *)
Definition said (name : jsstr) (t : rthread) (calls : list rcall) : Prop :=
    ∃ mine, mine `sublist_of` calls ∧ transaction name = (statement_text <$> mine) ++ left_to_say t ∧
      match t with
      | Connecting n => n = name
      | Executing conn _ => Forall (λ c, on_session c = conn) mine
      | Inserted => ∃ conn, Forall (λ c, on_session c = conn) mine
      end.

Definition record_inv (setup : list rcall) (ts : list rthread) (s : rserver) : Prop :=
    ∃ calls, s.2 = setup ++ calls ∧ Forall succeeded calls ∧
      (statement_text <$> calls) ++ (ts ≫= left_to_say) ≡ₚ authors ≫= transaction ∧
      Forall2 (λ name t, said name t calls) authors ts.

Lemma said_mono name t calls new : said name t calls → said name t (calls ++ new).
Proof. intros (mine & Hs & H). exists mine. split; [|exact H]. by apply sublist_inserts_r. Qed.

  (** A step of a client that goes on records what it has said. *)
Lemma thread_step_record t s s' t' : thread_step (H := recording S) t s = Some (s', Goes t') →
    ∃ new, s'.2 = s.2 ++ new ∧ Forall succeeded new ∧
      left_to_say t = (statement_text <$> new) ++ left_to_say t' ∧
      ∀ name calls, said name t calls → said name t' (calls ++ new).
Proof.
    destruct t as [n|conn [|[q args] todo]|]; cbn [thread_step recording connect execute disconnect]; [| | |done].
    - destruct (@connect S s.1) as [s1 [conn|]]; intros [= <- <-]. exists []. rewrite app_nil_r. split_and!; [done..|].
      intros name calls (mine & Hs & Ht & ->). rewrite app_nil_r. exists mine. split_and!; [done|done|].
      destruct mine; [done|]. apply (f_equal length) in Ht. rewrite length_app, length_fmap in Ht. simpl in Ht. lia.
    - intros [= <- <-]. exists []. rewrite app_nil_r. split_and!; [done..|].
      intros name calls (mine & Hs & Ht & Hc). rewrite app_nil_r. exists mine. split_and!; [done|done|by exists conn].
    - destruct (@execute S conn q args s.1) as [s1 [v|]]; intros [= <- <-]. exists [Call conn (q, args) (Ok v)].
      split_and!; [done|by repeat constructor|done|].
      intros name calls (mine & Hs & Ht & Hc). exists (mine ++ [Call conn (q, args) (Ok v)]). split_and!.
      + by apply sublist_app.
      + rewrite Ht, fmap_app, <- app_assoc. done.
      + apply Forall_app. split; [done|]. by repeat constructor.
Qed.

Lemma step_record setup ts s ts' s' :
    step (H := recording S) (Running ts s) (Running ts' s') → record_inv setup ts s → record_inv setup ts' s'.
Proof.
    inversion 1 as [? ? i t t' ? Hi Ht|]; simplify_eq. intros (calls & Hc & Hok & Hp & Hsaid).
    destruct (thread_step_record _ _ _ _ Ht) as (new & Hnew & Hnok & Hleft & Hs). exists (calls ++ new). split_and!.
    - by rewrite Hnew, Hc, app_assoc.
    - by apply Forall_app.
    - rewrite <- Hp. destruct (insert_permutation ts i t t' Hi) as [Hp1 Hp2].
      rewrite Hp2. rewrite Hp1 at 2. rewrite !bind_cons, fmap_app, Hleft, <- !app_assoc. done.
    - apply Forall2_lookup. intros j. pose proof (proj1 (Forall2_lookup _ _ _) Hsaid j) as Hj.
      destruct (decide (i = j)) as [<-|Hne].
      + rewrite list_lookup_insert_eq by (by eapply lookup_lt_Some). rewrite Hi in Hj.
        inversion Hj as [name ? Hn Heq|]; simplify_eq. constructor. by apply Hs.
      + rewrite list_lookup_insert_ne by done. inversion Hj; constructor. by apply said_mono.
Qed.

Lemma steps_record setup ts s ts' s' :
    rtc (step (H := recording S)) (Running ts s) (Running ts' s') → record_inv setup ts s → record_inv setup ts' s'.
Proof.
    intros Hr. remember (Running ts s) as p eqn:Hp. remember (Running ts' s') as q eqn:Hq. revert ts s Hp.
    induction Hr as [|p1 p2 p3 Hs Hr IH]; intros ts0 s0 ->; [by simplify_eq|]. intros Hi.
    destruct p2 as [ts2 s2|]; [|inversion Hr as [|? ? ? Hs2]; simplify_eq; by inversion Hs2].
    eapply IH; [done..|]. by eapply step_record.
Qed.

  (** Every run of the script can be recorded. *)
Definition lift (t : @thread S) : rthread :=
    match t with Connecting n => Connecting n | Executing conn todo => Executing (H := recording S) conn todo | Inserted => Inserted end.
Definition lift_result (r : @thread_result S) : @thread_result (recording S) :=
    match r with Goes t => Goes (lift t) | Exits code => Exits code end.
Definition lift_process (p : @node_process S) (calls : list rcall) : @node_process (recording S) :=
    match p with
    | Running ts s => Running (H := recording S) (lift <$> ts) (s, calls)
    | Exited code s => Exited (H := recording S) code (s, calls)
    end.

Lemma thread_step_lift t s s' r calls : @thread_step S t s = Some (s', r) →
    ∃ calls', thread_step (H := recording S) (lift t) (s, calls) = Some ((s', calls'), lift_result r).
Proof.
    destruct t as [n|conn [|[q args] todo]|]; cbn; [| | |done].
    - destruct (@connect S s) as [s1 [conn|]]; intros [= <- <-]; by eexists.
    - intros [= <- <-]. by eexists.
    - destruct (@execute S conn q args s) as [s1 [v|]]; intros [= <- <-]; by eexists.
Qed.

Lemma steps_lift p p' calls : rtc (@step S) p p' →
    ∃ calls', rtc (step (H := recording S)) (lift_process p calls) (lift_process p' calls').
Proof.
    intros Hr. revert calls. induction Hr as [p|p1 p2 p3 Hs Hr IH]; intros calls; [by exists calls|].
    assert (Hl : ∃ calls2, step (H := recording S) (lift_process p1 calls) (lift_process p2 calls2)).
    { destruct Hs as [ts s i t t' s' Hi Ht|ts s i t code s' Hi Ht];
        destruct (thread_step_lift _ _ _ _ calls Ht) as [calls2 Hl]; exists calls2; cbn [lift_process].
      - rewrite list_fmap_insert. eapply client_goes; [|exact Hl]. by rewrite list_lookup_fmap, Hi.
      - eapply client_exits; [|exact Hl]. by rewrite list_lookup_fmap, Hi. }
    destruct Hl as [calls2 Hl]. destruct (IH calls2) as [calls3 Hr3]. exists calls3. by eapply rtc_l.
Qed.

  (** The calls of the sequential functions. *)
Definition commits_table (calls : list rcall) : Prop :=
    statement_text <$> calls = [(dolt_add, []); (commit_table, [])] ∨ statement_text <$> calls = [(dolt_add, [])].

Lemma createTable_lift s s1 o : @createTable S s = (s1, o) →
    ∃ calls, createTable (H := recording S) (s, []) = ((s1, calls), o) ∧
      (o = None → ∃ conn v, calls = [Call conn (create_table, []) (Ok v)]).
Proof.
    unfold createTable. cbn. destruct (@connect S s) as [sa [conn|]]; [|intros [= <- <-]; by eexists].
    cbn [fst snd]. destruct (@execute S conn create_table [] sa) as [sb [v|e]]; intros [= <- <-]; eexists.
    - split; [reflexivity|]. intros _. by exists conn, v.
    - split; [reflexivity|]. discriminate.
Qed.

Lemma commitTable_lift s s1 o calls : @commitTable S s = (s1, o) →
    ∃ more, commitTable (H := recording S) (s, calls) = ((s1, calls ++ more), o) ∧ (o = None → commits_table more).
Proof.
    unfold commitTable, commits_table. cbn. destruct (@connect S s) as [sa [conn|]].
    2: { intros [= <- <-]. exists []. by rewrite app_nil_r. }
    cbn [fst snd]. destruct (@execute S conn dolt_add [] sa) as [sb [v|]]; cbn.
    - destruct (@execute S conn commit_table [] sb) as [sc v']; cbn; intros [= <- <-]. eexists. rewrite <- app_assoc.
      split; [done|]. by left.
    - intros [= <- <-]. eexists. split; [done|]. by right.
Qed.

Lemma validateCommits_lift s s1 calls : @validateCommits S s = (s1, 0) →
    ∃ conn results count,
      validateCommits (H := recording S) (s, calls) = ((s1, calls ++ [Call conn (count_commits, []) (Ok results)]), 0) ∧
      count_of results = Some count ∧ equals_number count 36 = true.
Proof.
    unfold validateCommits. cbn [connect recording fst snd]. destruct (@connect S s) as [sa [conn|]]; [|done].
    cbn [execute disconnect recording fst snd]. destruct (@execute S conn count_commits [] sa) as [sb [results|]]; [|done].
    destruct (count_of results) as [count|] eqn:Hc; [|done]. change (Z.of_nat (length authors)) with 36.
    destruct (equals_number count 36) eqn:He; [|done]. intros [= <-]. by exists conn, results, count.
Qed.
End Record.

Lemma exits_one (S : SqlServer) ts s code s' : rtc (@step S) (Running ts s) (Exited code s') → code = 1.
Proof.
  intros Hr. remember (Running ts s) as p eqn:Hp. remember (Exited code s') as q eqn:Hq. revert ts s Hp.
  induction Hr as [|p1 p2 p3 Hs Hr IH]; intros ts0 s0 ->; [done|].
  inversion Hs as [|? ? ? t c ? Hi Ht]; simplify_eq; [by eapply IH|].
  inversion Hr as [|? ? ? Hs2]; simplify_eq; [|by inversion Hs2].
  destruct t as [name|conn [|[q args] todo]|]; simpl in Ht; simplify_eq; repeat case_match; simplify_eq; done.
Qed.

(** The calls of clients that are all done. *)
Lemma clients_record (S : SqlServer) before (s s3 : @server S) ts :
  rtc (@step S) (insert_all s) (Running ts s3) → Forall (λ t, t = Inserted) ts →
  ∃ clients, rtc (step (H := recording S)) (insert_all (H := recording S) (s, before))
      (Running (H := recording S) (lift S <$> ts) (s3, before ++ clients)) ∧
    Forall (λ t, t = Inserted) (lift S <$> ts) ∧
    statement_text <$> clients ≡ₚ authors ≫= transaction ∧ Forall succeeded clients ∧
    (∀ name, name ∈ authors → ∃ mine conn, mine `sublist_of` clients ∧
       statement_text <$> mine = transaction name ∧ Forall (λ c, on_session c = conn) mine).
Proof.
  intros Hr Hd. destruct (steps_lift S _ _ before Hr) as (calls & Hr'). cbn [lift_process] in Hr'.
  destruct (steps_record S before (Connecting <$> authors) (s, before) (lift S <$> ts) (s3, calls))
    as (clients & Hc & Hok & Hp & Hsaid); [exact Hr'| |].
  { exists []. split_and!; [by rewrite app_nil_r|done| |].
    - cbn [app fmap list_fmap]. by rewrite list_fmap_bind.
    - apply Forall2_fmap_r, Forall_Forall2_diag, Forall_forall. intros name _. exists [].
      split_and!; [apply sublist_nil_l|done|done]. }
  cbn [snd] in Hc. subst calls.
  assert (Hl : Forall (λ t, t = Inserted) (lift S <$> ts)).
  { apply Forall_fmap. eapply Forall_impl; [exact Hd|]. by intros t ->. }
  assert (Hnone : (lift S <$> ts) ≫= left_to_say S = []).
  { clear -Hl. induction Hl as [|t l -> _ IH]; [done|]. by rewrite bind_cons, IH. }
  exists clients. split_and!; [exact Hr'|exact Hl|by rewrite Hnone, app_nil_r in Hp|exact Hok|].
  intros name [i Hi]%list_elem_of_lookup. destruct (Forall2_lookup_l _ _ _ _ _ Hsaid Hi) as (t & Ht & mine & Hs & Hm & Hconn).
  rewrite Forall_forall in Hl. rewrite (Hl t) in Hm, Hconn by (by eapply list_elem_of_lookup_2).
  destruct Hconn as [conn Hconn]. exists mine, conn. rewrite Hm. cbn [left_to_say]. by rewrite app_nil_r.
Qed.

(** C21. The concurrency test cannot pass by accident.  On any server, a run with
    exit status 0 made these calls and no others: a successful creation of the
    table; [dolt_add] and, unless that failed, the commit of the table, whose
    failures the script ignores; then, in some interleaving, the three statements
    of every author's transaction, each author's in order on one session, and all
    of them successful; and last the query of the number of commits, whose answer
    is equal, as [!=] compares, to 36. *)
Theorem concurrency_test_sound (S : SqlServer) (s s' : @server S) :
  @main_run S s 0 s' →
  ∃ created setup clients last results count,
    main_run (H := recording S) (s, []) 0 (s', created :: setup ++ clients ++ [last]) ∧
    (statement_text created = (create_table, []) ∧ succeeded created) ∧
    (statement_text <$> setup = [(dolt_add, []); (commit_table, [])] ∨ statement_text <$> setup = [(dolt_add, [])]) ∧
    statement_text <$> clients ≡ₚ authors ≫= transaction ∧ Forall succeeded clients ∧
    (∀ name, name ∈ authors → ∃ mine conn, mine `sublist_of` clients ∧
       statement_text <$> mine = transaction name ∧ Forall (λ c, on_session c = conn) mine) ∧
    (statement_text last = (count_commits, []) ∧ answer last = Ok results) ∧
    count_of results = Some count ∧ equals_number count 36 = true.
Proof.
  intros Hrun. inversion Hrun as [? ? Hc|? ? ? Ha Hb|? ? ? ? Ha Hb Hr|? ts s1 s2 s3 ? Ha Hb Hr Hd Hv]; simplify_eq.
  - unfold createTable in Hc. repeat case_match; simplify_eq.
  - unfold commitTable in Hb. repeat case_match; simplify_eq.
  - by apply exits_one in Hr.
  - destruct (createTable_lift S s s1 None Ha) as (calls1 & Ha' & H1). destruct (H1 eq_refl) as (conn1 & v1 & ->).
    destruct (commitTable_lift S s1 s2 None [Call conn1 (create_table, []) (Ok v1)] Hb) as (setup & Hb' & H2).
    specialize (H2 eq_refl). set (before := [Call conn1 (create_table, []) (Ok v1)] ++ setup) in *.
    destruct (clients_record S before s2 s3 ts Hr Hd) as (clients & Hr' & Hd' & Hp & Hok & Hsaid).
    destruct (validateCommits_lift S s3 s' (before ++ clients) Hv) as (conn & results & count & Hv' & Hcount & Heq).
    exists (Call conn1 (create_table, []) (Ok v1)), setup, clients, (Call conn (count_commits, []) (Ok results)), results, count.
    split_and!; try done. eapply validated; [exact Ha'|exact Hb'|exact Hr'|exact Hd'|].
    rewrite Hv'. unfold before. by rewrite <- !app_assoc.
Qed.

Lemma concurrency_test_sound_witness :
  ∃ s', @main_run repo_server empty_repo 0 s' ∧
  ∃ calls results count, main_run (H := recording repo_server) (empty_repo, []) 0 (s', calls) ∧
    count_of results = Some count ∧ equals_number count 36 = true.
Proof.
  assert (Hrun : ∃ s', @main_run repo_server empty_repo 0 s').
  { apply main_run_exists; [apply Nat.leb_le; reflexivity|split_and!; reflexivity]. }
  destruct Hrun as [s' Hrun]. exists s'. split; [exact Hrun|].
  destruct (concurrency_test_sound repo_server empty_repo s' Hrun)
    as (c & setup & clients & last & results & count & Hrec & _ & _ & _ & _ & _ & _ & Hc & He).
  exists (c :: setup ++ clients ++ [last]), results, count. split; [exact Hrec|]. split; [exact Hc|exact He].
Defined.
